(* ===== verification/_CoqProject ===== *)
-Q . S2P
Prelude.v
GoLib.v
GoText.v
Ticker.v
Domain.v
Graph.v
Template.v
Actions.v
RunTask.v
Interfaces.v
Store.v
Queue.v
QueueProps.v
Telemetry.v
Prometheus.v
Executor.v
ExecutorInv.v
ExecutorLoop.v
ExecutorProps.v
Run.v
RunProps.v
Worker.v
Tracing.v
WorkerLoop.v
WorkerTimers.v
Scheduler.v
SchedulerProps.v
SchedulerTimers.v
Sqlite.v
SqliteProps.v
SqliteSim.v
SqliteRuns.v
SqliteOpen.v
ApiText.v
WorkflowDecode.v
Api.v
ApiProps.v
Mux.v
ApiJobs.v
ApiTotal.v
Serve.v
EndToEnd.v
Command.v
Modes.v
Flags.v
Main.v
