(* ===== verification/Prelude.v ===== *)
(** * Workflow-Scheduler: verification development

    The program runs workflows: directed acyclic graphs of tasks, each an action with an
    input, retries and a condition.  One executor runs them; the command line, a scheduler,
    an HTTP server and queue workers hand it work; a store keeps workflows and runs, a run
    queue the jobs that workers lease.  This library models the Go code under src/ as
    functions and transition relations, keeps its names, and proves what makes each part
    correct.  Every file says at its top what it holds.

    ** Parts, files and sources

    - Vocabulary.  [Prelude]: record update, the [result] of fallible code, shared lemmas and
      hints.  [GoLib], [GoText]: what the source uses of Go and of its standard library - 64
      bit integers, times, slices and their panics, map iteration, sort, strings, strconv, SHA-1.
      [Ticker]: time.NewTicker and the loop of goroutines that have one.
    - Domain (internal/domain).  [Domain]: the structs and status constants.  [Interfaces]:
      [WorkflowStore] and [RunQueue] as type classes, with classes of the laws that clients
      use; the executor, the worker and the server are proved against them.
    - Engine (internal/engine, internal/actions, pkg/utils/id.go).  [Graph]: validation.
      [Template]: conditions and input templates.  [Actions]: the registry and the built-in
      actions.  [RunTask]: one task and its retries.  [Executor]: the loop of [runWithID] as a
      state machine, with [ExecutorInv] (invariant), [ExecutorLoop] (consequences, progress,
      termination) and [ExecutorProps] (theorems).  [Run], [RunProps]: the whole of
      [runWithID], with the final status, compensation and saving.
    - Stores and queues.  [Store]: internal/store/memory_store.go and file_store.go.  [Queue],
      [QueueProps]: internal/queue/memory_queue.go.  [Sqlite], [SqliteProps], [SqliteSim],
      [SqliteRuns], [SqliteOpen]: internal/store/sqlite_store.go, which is both.
    - Services.  [Worker], [WorkerLoop]: internal/worker/service.go.  [Scheduler],
      [SchedulerProps]: internal/scheduler/service.go.  [WorkerTimers], [SchedulerTimers]: when
      the heartbeat, the watcher and the interval jobs of the two act.  [Telemetry],
      [Prometheus]: internal/telemetry/collector.go.  [Tracing]: tracing.go beside it, and the
      spans that the engine and the worker make.
    - HTTP server (internal/api/server.go, pkg/utils/workflow_loader.go).  [ApiText],
      [WorkflowDecode]: tokens, parameters, decoding.  [Api]: every handler, the middleware
      and the routes.  [Mux]: which route a path reaches.  [Serve]: the life of a server and its
      retention goroutine.  [ApiProps], [ApiJobs], [ApiTotal]: the theorems on requests.
    - Composition.  [EndToEnd]: queue, worker and server on one run.  [Flags], [Command],
      [Modes], [Main]: cmd/orchestrator/main.go - the flags, what is decided for the server, the
      services of the modes, and [main] itself over all the rest.

    ** How the code is rendered

    A method is a function of its receiver's state that returns the result and the new state;
    an [error] is [Err] with its text.  [None] stands for what has no answer: a panic, or a
    run that does not end.  What the program does not determine is an argument: readings of
    the clock ([clock]), the order of a range over a map ([iter_order], any permutation), the
    outcome of an action and of a [select] ([task_trace], [event], gathered in [run_env]),
    faults of files and of SQL statements and what other processes do between two of them
    ([faults], [sql_env], [open_env]), requests and their decoded bodies.  The theorems hold
    for all of them.  An operation that holds a lock from start to end is one step; where the
    source releases the lock (the scheduler's [Start] and [executeOnce]) or has no transaction
    (SQLite), there are several.  Goroutines in flight are part of the state.  Values are copied
    as Go copies them; the one map that the source shares between a stored value and the
    goroutine that goes on writing it, the results of a run in the memory store, is a cell of a
    heap in [Shared], of which the store with results by value is what a reader sees
    ([shared_store_viewed]).

    Code that is not in the repository is a parameter: JSON and YAML codecs, time and duration
    parsing, the cron engine ([CronEngine] with its laws), the file system, net.SplitHostPort,
    Go's %q ([Quote]), the spans of OpenTelemetry ([Tracer]).  SQL is rendered by the documented
    effect of each statement.

    ** What is shown

    - Engine: validation accepts exactly the well-formed acyclic workflows; in every reachable
      state of the loop concurrency is bounded, no task runs twice, a task starts only when its
      dependencies allow it, a failure blocks its dependents and nothing else; the loop makes
      progress and ends; the outcome, the compensation and the saved run are as the results say;
      retries, conditions and templates agree with their specifications.
    - Queue: histories record every status change; a lease is exclusive and goes to the oldest
      job; listings page through every job once; purging removes the oldest that match.
    - SQLite: it is simulated by the memory queue, lists like it, keeps leases exclusive under
      interference and failures, and opening it completes any migration that was interrupted.
    - File store and scheduler: what was saved is there after a restart, and what is written to
      the results of a run after its save is not, until the next save; at most one timer for a
      workflow, no overlap of executions unless it is allowed.
    - Worker: the verdict on a run decides the status of its job; a lone worker runs its queue
      dry; a heartbeat keeps the lease for as long as the run takes ([heartbeat_keeps_lease]), and
      a cancelled job stops its run ([watcher_stops_run]).
    - Timing: an interval job never gets ahead of its intervals and, when its runs are shorter
      than one, misses none ([interval_job_fires]).
    - Server: readers change nothing, stored workflows are valid, tokens of the flags are the
      tokens of the server, cancelling reaches every job of a run, bulk answers account for
      every job, a key makes one job, every request is answered unless a run that is still
      being written is encoded, the readers of workflows agree, a clean path reaches the handler
      of its resource ([resource_routed]), retention spares what is young.  End to end, the client
      of an asynchronous run sees the run and the status of its job agree.
    - Command: the flags are read as they are spelled ([Parse_spelled]); the workflow is saved in
      every mode; a run that run mode prints is there after a restart.
    - Behaviour that contradicts the documents or the evident intent is stated by theorems too:
      [retry_backoff_bounds] (overflow of the delay), [resolveValue_diverges],
      [on_failed_dependency_dead], [run_interrupted], [expired_leases_ignore_max_attempts],
      [follower_fires], [rejected_cron_kept], [start_race], [stale_transition], [enqueued_twice],
      [failed_but_done], [purged_after_requeue], [purged_while_leased], [truncated_listing],
      [alter_not_retried], [auth_fails_open], [live_run_ends_process],
      [token_cut_at_comma], [run_id_ambiguous], [bar_in_method], [invalid_workflow_saved],
      [schedule_mode_runs_nothing], [stopped_schedule_fires], [pause_is_no_schedule].

    ** Fuel and bounds

    Recursion that Go does not bound takes fuel.  The search for cycles gets one more than the
    number of nodes ([dfs_total]); the loop of a run as many rounds as tasks and one more
    ([main_loop_completes]); a template needs as many rounds as it has openings when no field
    holds one ([resolveValue_terminates]); the pages of a run's jobs need one unit for 500 jobs
    ([cancel_run], [every_request_answered]); a trim as many rounds as there are characters.
    Integers are [Z] wrapped to 64 bits where the source computes with them; times are
    nanoseconds since the year 1, without a bound.

    ** Not modelled

    Logging and printing; the sockets of the HTTP server, of which only how the listener ends
    is seen ([server_end]); the encoding of responses (a response is a status and a value);
    patterns of the mux that the server does not use; the delivery of signals (that a context is
    done, and when, is an argument).  When goroutines run is part of the environment; the
    timed loops bound the delays they need by hypotheses ([sane], [quick], [prompt]).  The memory
    model of Go: that a range over a map which another goroutine writes ends the process is
    known to the model only where a response is encoded ([writeJSON], [live_run_ends_process]).
    The counters of a row of SQLite are 64 bits wide, where SQLite itself would go on in floating
    point. *)

From Stdlib Require Export Ascii.
From stdpp Require Export prelude strings gmap sorting pretty relations.
#[export] Set Default Proof Using "Type".

(** ** Record update

    [r <| f := v |>] rebuilds a record with the field [f] replaced, as a Go
    assignment [r.f = v] on a struct value does.  A record opts in with a
    [Settable] instance that spells its eta expansion. *)

Class Settable (R : Type) := eta_of : R → R.
Class Setter {R A : Type} (f : R → A) := upd : (A → A) → R → R.

Ltac solve_setter :=
  lazymatch goal with
  | |- @Setter ?R ?A ?f =>
      let inst := constr:(ltac:(typeclasses eauto) : Settable R) in
      let e := eval hnf in inst in
      let e := eval unfold eta_of in e in
      lazymatch eval pattern f in e with
      | ?body _ => exact (λ (g : A → A) (r : R), body (λ x : R, g (f x)) r)
      end
  end.
#[export] Hint Extern 0 (Setter _) => solve_setter : typeclass_instances.

Declare Scope go_scope.
Delimit Scope go_scope with go.
Notation "r <| f := v |>" := (upd (f := f) (λ _, v) r)
  (at level 1, left associativity, f at level 60, v at level 95,
   format "r  <| f  :=  v |>") : go_scope.
Open Scope go_scope.

(** ** Results

    Go functions returning [(T, error)] become [result T]; the error is its
    message, the only part of it the callers in this repository read (the
    errors that are also tested with [errors.Is] have their own type in
    [GoLib]).  A function that returns only an [error] is a [result unit]. *)

Inductive result (A : Type) : Type :=
| Ok (a : A)
| Err (msg : string).
Arguments Ok {A} a.
Arguments Err {A} msg.

#[export] Instance result_ret : MRet result := λ A a, Ok a.
#[export] Instance result_bind : MBind result := λ A B f r,
  match r with Ok a => f a | Err e => Err e end.
#[export] Instance result_fmap : FMap result := λ A B f r,
  match r with Ok a => Ok (f a) | Err e => Err e end.
#[export] Instance result_eq_dec {A} `{EqDecision A} : EqDecision (result A).
Proof. solve_decision. Defined.

Definition is_Ok {A} (r : result A) : Prop := ∃ a, r = Ok a.

(** [for _, x := range l { s, err = f(x, s); if err != nil { return err } }] *)
Fixpoint for_each {A S} (f : A → S → result S) (l : list A) (s : S) : result S :=
  match l with
  | [] => Ok s
  | x :: l => s ← f x s; for_each f l s
  end.

Lemma for_each_app {A S} (f : A → S → result S) l1 l2 s :
  for_each f (l1 ++ l2) s = s' ← for_each f l1 s; for_each f l2 s'.
Proof.
  revert s; induction l1 as [|x l1 IH]; intros s; [done|]; simpl.
  destruct (f x s) as [s'|e]; simpl; [apply IH | done].
Qed.

(** A loop that only checks its elements succeeds iff every check does. *)
Lemma for_each_check {A} (f : A → unit → result unit) l :
  for_each f l tt = Ok tt ↔ Forall (λ x, f x tt = Ok tt) l.
Proof.
  induction l as [|x l IH]; simpl; [by split|].
  rewrite Forall_cons. destruct (f x tt) as [[]|e]; simpl; [|naive_solver].
  rewrite IH. naive_solver.
Qed.

(** ** Case analysis tactics *)

(** Splits every [match]/[if] on a term of the context or goal. *)
Ltac break_match :=
  repeat match goal with
         | |- context [match ?x with _ => _ end] => destruct x eqn:?
         end.
Ltac break_match_hyp H :=
  repeat match type of H with
         | context [match ?x with _ => _ end] => destruct x eqn:?; simplify_eq/=
         end.

(** Turns the boolean comparisons of [Z] and [nat] into propositions. *)
Ltac reflect_Z :=
  repeat match goal with
         | H : (_ <? _)%Z = true |- _ => apply Z.ltb_lt in H
         | H : (_ <? _)%Z = false |- _ => apply Z.ltb_ge in H
         | H : (_ <=? _)%Z = true |- _ => apply Z.leb_le in H
         | H : (_ <=? _)%Z = false |- _ => apply Z.leb_gt in H
         | H : (_ =? _)%Z = true |- _ => apply Z.eqb_eq in H
         | H : (_ =? _)%Z = false |- _ => apply Z.eqb_neq in H
         | H : (_ && _)%bool = true |- _ => apply andb_true_iff in H; destruct H
         | H : (_ || _)%bool = false |- _ => apply orb_false_iff in H; destruct H
         | H : negb _ = true |- _ => apply negb_true_iff in H
         | H : negb _ = false |- _ => apply negb_false_iff in H
         | H : bool_decide _ = true |- _ => apply bool_decide_eq_true in H
         | H : bool_decide _ = false |- _ => apply bool_decide_eq_false in H
         end.

(** ** Generic lemmas *)

Create HintDb sched.
Create Rewrite HintDb sched_str.
Create Rewrite HintDb sched_filter.

Section count.
Context {A : Type} `{EqDecision A}.
Implicit Types (x y : A) (l : list A).

(** The number of occurrences of [x] in [l]. *)
Definition count_occ_of x l : nat := length (filter (x =.) l).

Lemma count_occ_nil x : count_occ_of x [] = 0.
Proof. done. Qed.
Lemma count_occ_cons_eq x l : count_occ_of x (x :: l) = S (count_occ_of x l).
Proof. unfold count_occ_of. by rewrite filter_cons_True. Qed.
Lemma count_occ_cons_ne x y l :
  x ≠ y → count_occ_of x (y :: l) = count_occ_of x l.
Proof. intros. unfold count_occ_of. by rewrite filter_cons_False. Qed.
Lemma count_occ_app x l1 l2 :
  count_occ_of x (l1 ++ l2) = count_occ_of x l1 + count_occ_of x l2.
Proof. unfold count_occ_of. by rewrite filter_app, length_app. Qed.
Lemma count_occ_0 x l : count_occ_of x l = 0 ↔ x ∉ l.
Proof.
  induction l as [|y l IH]; [rewrite elem_of_nil; naive_solver|].
  destruct (decide (x = y)) as [->|].
  - rewrite count_occ_cons_eq, elem_of_cons. naive_solver.
  - rewrite count_occ_cons_ne by done. rewrite elem_of_cons, IH. naive_solver.
Qed.
End count.

Lemma list_filter_all {A} (P : A → Prop) `{!∀ x, Decision (P x)} (l : list A) :
  (∀ x, P x) → filter P l = l.
Proof.
  intros HP. induction l as [|x l IH]; [done|]. rewrite filter_cons_True by done. by rewrite IH.
Qed.

Lemma StronglySorted_weaken {A} (R R' : relation A) l :
  (∀ x y, R x y → R' x y) → StronglySorted R l → StronglySorted R' l.
Proof.
  intros HR. induction 1 as [|x l _ IH Hx]; constructor; [done|].
  eapply Forall_impl; [exact Hx|]. auto.
Qed.

Lemma StronglySorted_filter {A} (R : relation A) (P : A → Prop) `{!∀ x, Decision (P x)} l :
  StronglySorted R l → StronglySorted R (filter P l).
Proof.
  induction 1 as [|x l _ IH Hx]; [constructor|].
  destruct (decide (P x)); [|by rewrite filter_cons_False].
  rewrite filter_cons_True by done. constructor; [done|].
  rewrite Forall_forall in Hx |- *. intros y [_ Hy]%list_elem_of_filter. by apply Hx.
Qed.

Lemma tc_mono {A} (R R' : relation A) x y :
  (∀ x y, R x y → R' x y) → tc R x y → tc R' x y.
Proof. intros HR. induction 1; [apply tc_once|eapply tc_l]; eauto. Qed.

(** An acyclic relation with finitely many sources is well founded. *)
Lemma acyclic_Acc {A} (R : relation A) (xs : list A) :
  (∀ x, ¬ tc R x x) → (∀ x y, R x y → x ∈ xs) → ∀ x, Acc R x.
Proof.
  intros Hirr Hxs x. change (sn (flip R) x).
  assert (Htc : ∀ x y, tc (flip R) x y → tc R y x ∧ y ∈ xs).
  { intros u v. induction 1 as [u v ?|u w v ? ? []].
    - split; [by apply tc_once|by eapply Hxs].
    - split; [|done]. eapply tc_transitive; [done|by apply tc_once]. }
  apply tc_finite_sn.
  - intros z Hz. apply Htc in Hz as [? _]. by eapply Hirr.
  - exists xs. intros y Hy. by apply Htc in Hy as [_ ?].
Qed.

(** In a non-empty finite collection, a decidable acyclic relation has a
    minimal element. *)
Lemma acyclic_minimal {A} (R : relation A) `{!RelDecision R} (xs : list A) :
  (∀ x, ¬ tc R x x) → xs ≠ [] → ∃ x, x ∈ xs ∧ ∀ y, y ∈ xs → ¬ R y x.
Proof.
  intros Hirr Hne.
  set (R' := λ x y, R y x ∧ y ∈ xs).
  assert (Htc : ∀ x y, tc R' x y → tc R y x ∧ y ∈ xs).
  { intros x y. induction 1 as [x y []|x y z [] ? []]; split; auto using tc_once.
    eapply tc_transitive; eauto using tc_once. }
  assert (Hsn : ∀ x, sn R' x).
  { intros x. apply tc_finite_sn.
    - intros z Hz. by apply Htc in Hz as [? _]; eapply Hirr.
    - exists xs. intros y Hy. by apply Htc in Hy as [_ ?]. }
  destruct xs as [|x0 xs0]; [done|]. set (xs := x0 :: xs0) in *.
  assert (Hx0 : x0 ∈ xs) by (unfold xs; set_solver). clear Hne. clearbody xs.
  revert Hx0. induction (Hsn x0) as [x _ IH]; intros Hx.
  destruct (decide (Exists (λ y, R y x) xs)) as [Hex|Hno].
  - apply Exists_exists in Hex as (y & Hy & HR). by apply (IH y).
  - exists x; split; [done|]. intros y Hy HR. apply Hno, Exists_exists. eauto.
Qed.

(** What holds of all pairs, for elements of the first list. *)
Lemma Forall2_impl_elem {A B} (P P' : A → B → Prop) l k :
  Forall2 P l k → (∀ x y, x ∈ l → P x y → P' x y) → Forall2 P' l k.
Proof.
  induction 1 as [|x y l k Hxy _ IH]; intros HP; constructor.
  - apply HP; [by left|done].
  - apply IH. intros a b Ha. apply HP. by right.
Qed.
