(* ===== verification/GoLib.v ===== *)
(** * The Go run time and standard library, as far as the scheduler uses them

    64-bit integers, [time.Time] and [time.Duration], slice expressions,
    [sort.Slice], the unspecified iteration order of Go maps, the [strings]
    functions and [strconv.Atoi].  None of these definitions has a source line
    in the repository: they are the vocabulary its models are written in. *)

From S2P Require Import Prelude.
Local Open Scope Z_scope.

(** ** int64 *)

Definition int64_max : Z := 2 ^ 63 - 1.
Definition int64_min : Z := - 2 ^ 63.

(** Two's complement wrap-around of an [int], [int64] or [time.Duration]. *)
Definition wrap64 (z : Z) : Z := (z + 2 ^ 63) mod 2 ^ 64 - 2 ^ 63.

Arguments wrap64 : simpl never.

(** [1 << n] at type [int64]; the program never shifts by a negative count
    (Go would panic), see [Worker.retry_backoff]. *)
Definition shl64 (n : Z) : Z := if 64 <=? n then 0 else wrap64 (2 ^ n).

Lemma wrap64_range z : int64_min ≤ wrap64 z ≤ int64_max.
Proof.
  unfold wrap64, int64_min, int64_max.
  pose proof (Z.mod_pos_bound (z + 2 ^ 63) (2 ^ 64) eq_refl). lia.
Qed.
Lemma wrap64_id z : int64_min ≤ z ≤ int64_max → wrap64 z = z.
Proof.
  unfold wrap64, int64_min, int64_max. intros. rewrite Z.mod_small; lia.
Qed.

(** ** Slices *)

Section slices.
Context {A : Type}.
Implicit Types l : list A.

(** [len(l)] *)
Definition zlen l : Z := Z.of_nat (length l).

(** [l[lo:hi]]; [None] is the run-time panic of a bound out of range. *)
Definition slice (lo hi : Z) l : option (list A) :=
  if (0 <=? lo) && (lo <=? hi) && (hi <=? zlen l)
  then Some (take (Z.to_nat (hi - lo)) (drop (Z.to_nat lo) l))
  else None.

(** The tail every list operation ends with:
    [if limit <= 0 { limit = 50 }; if offset < 0 { offset = 0 };
     if offset >= len(items) { return empty };
     end := offset + limit; if end > len(items) { end = len(items) };
     return items[offset:end]], with [end] computed at width 64. *)
Definition page (limit offset : Z) l : option (list A) :=
  let limit := if limit <=? 0 then 50 else limit in
  let offset := if offset <? 0 then 0 else offset in
  if zlen l <=? offset then Some [] else
  let last := wrap64 (offset + limit) in
  let last := if zlen l <? last then zlen l else last in
  slice offset last l.

Lemma zlen_nonneg l : 0 ≤ zlen l.
Proof. unfold zlen. lia. Qed.
#[export] Instance zlen_perm : Proper ((≡ₚ) ==> eq) zlen.
Proof. intros l1 l2 Hp. unfold zlen. by rewrite Hp. Qed.

(** Within 64 bits the page is the window [offset, offset + limit). *)
Lemma page_window limit offset l :
  0 < limit → 0 ≤ offset → offset + limit ≤ int64_max →
  page limit offset l = Some (take (Z.to_nat limit) (drop (Z.to_nat offset) l)).
Proof.
  intros Hl Ho Hov. unfold page.
  rewrite (proj2 (Z.leb_gt limit 0)), (proj2 (Z.ltb_ge offset 0)) by lia.
  destruct (Z.leb_spec (zlen l) offset) as [Hge|Hlt].
  { rewrite drop_ge by (unfold zlen in *; lia). by rewrite take_nil. }
  rewrite wrap64_id by (unfold int64_min in *; lia).
  destruct (Z.ltb_spec (zlen l) (offset + limit)) as [Hc|Hc]; unfold slice.
  - rewrite (proj2 (Z.leb_le 0 offset)), (proj2 (Z.leb_le offset (zlen l))),
      Z.leb_refl by lia. simpl. f_equal.
    rewrite !take_ge; [done|..]; rewrite length_drop; unfold zlen in *; lia.
  - rewrite (proj2 (Z.leb_le 0 offset)), (proj2 (Z.leb_le offset (offset + limit))),
      (proj2 (Z.leb_le (offset + limit) (zlen l))) by lia. simpl.
    by replace (offset + limit - offset) with limit by lia.
Qed.

(** [offset + limit] past the largest [int]: the slice expression panics. *)
Lemma page_overflow limit offset l :
  0 < limit ≤ int64_max → 0 ≤ offset < zlen l → zlen l ≤ int64_max →
  int64_max < offset + limit → page limit offset l = None.
Proof.
  unfold int64_max. intros Hl Ho Hlen Hov. unfold page.
  rewrite (proj2 (Z.leb_gt limit 0)), (proj2 (Z.ltb_ge offset 0)) by lia.
  rewrite (proj2 (Z.leb_gt (zlen l) offset)) by lia.
  assert (Hw : wrap64 (offset + limit) = offset + limit - 2 ^ 64).
  { unfold wrap64. rewrite <-(Z.mod_unique (offset + limit + 2 ^ 63) (2 ^ 64) 1
      (offset + limit + 2 ^ 63 - 2 ^ 64)); lia. }
  rewrite Hw. rewrite (proj2 (Z.ltb_ge (zlen l) _)) by lia. unfold slice.
  rewrite (proj2 (Z.leb_gt offset (offset + limit - 2 ^ 64))) by lia.
  by rewrite andb_false_r.
Qed.

(** Successive pages partition the list: nothing is lost, repeated or moved. *)
Lemma pages_concat limit n l :
  0 < limit → zlen l ≤ Z.of_nat n * limit → Z.of_nat n * limit ≤ int64_max →
  ∃ pages, mapM (λ k, page limit (Z.of_nat k * limit) l) (seq 0 n) = Some pages ∧
    mjoin pages = l ∧ Forall (λ p, zlen p ≤ limit) pages.
Proof.
  intros Hl Hn Hov.
  set (win := λ k, take (Z.to_nat limit) (drop (k * Z.to_nat limit) l)).
  exists (win <$> seq 0 n). split; [|split].
  - apply mapM_Some. apply Forall2_fmap_r.
    apply Forall_Forall2_diag. apply Forall_seq. intros k Hk.
    rewrite page_window by nia. unfold win.
    by replace (Z.to_nat (Z.of_nat k * limit)) with (k * Z.to_nat limit)%nat by nia.
  - assert (Hgen : ∀ m, mjoin (win <$> seq 0 m) = take (m * Z.to_nat limit) l).
    { induction m as [|m IH]; [done|]. rewrite seq_S, fmap_app. simpl.
      rewrite join_app, IH. simpl. rewrite app_nil_r. unfold win.
      rewrite Nat.add_comm. by rewrite take_take_drop. }
    rewrite Hgen. apply take_ge. unfold zlen in Hn. nia.
  - apply Forall_fmap, Forall_forall. intros k _. unfold win, zlen. simpl.
    rewrite length_take. lia.
Qed.
End slices.

(** ** time.Time and time.Duration

    An instant is its distance in nanoseconds from the zero [time.Time]
    (January 1, year 1, UTC); every instant of the program is UTC and carries
    no monotonic reading ([UTC] strips it).  A duration is an [int64] number of
    nanoseconds. *)

Abbreviation time := Z (only parsing).
Abbreviation duration := Z (only parsing).

Definition time_zero : time := 0.
Definition IsZero (t : time) : bool := t =? time_zero.
Definition Before (t u : time) : bool := t <? u.
Definition After (t u : time) : bool := u <? t.
Definition time_Equal (t u : time) : bool := t =? u.
Definition time_Add (t : time) (d : duration) : time := t + d.
(** [Sub] saturates. *)
Definition time_Sub (t u : time) : duration :=
  Z.max int64_min (Z.min int64_max (t - u)).

(** [t.UnixNano()]: nanoseconds since 1970, in 64 bits. *)
Definition unix_epoch : time := 62135596800 * 1000000000.
Definition UnixNano (t : time) : Z := wrap64 (t - unix_epoch).

Definition Millisecond : duration := 1000000.
Definition Second : duration := 1000000000.

(** ** sort.Slice

    [sort.Slice] is not stable, so the order of elements the comparison does
    not separate is unspecified.  The model is an insertion sort; every use of
    it in the program sorts a list that was collected from a map in an
    arbitrary order (see [iter_order]), and [sort_slice_sorted_id] shows that
    every sorted permutation is then a possible result. *)

Section sort.
Context {A : Type} (less : A → A → bool).

Fixpoint sort_insert (x : A) (l : list A) : list A :=
  match l with
  | [] => [x]
  | y :: l' => if less y x then y :: sort_insert x l' else x :: l
  end.
Fixpoint sort_slice (l : list A) : list A :=
  match l with
  | [] => []
  | x :: l => sort_insert x (sort_slice l)
  end.

(** [x] may stand before [y]. *)
Definition sorted_le (x y : A) : Prop := less y x = false.

Lemma sort_insert_perm x l : sort_insert x l ≡ₚ x :: l.
Proof.
  induction l as [|y l IH]; simpl; [done|]. destruct (less y x); [|done].
  rewrite IH. apply Permutation_swap.
Qed.
Lemma sort_slice_perm l : sort_slice l ≡ₚ l.
Proof. induction l as [|x l IH]; simpl; [done|]. by rewrite sort_insert_perm, IH. Qed.
Lemma elem_of_sort_slice x l : x ∈ sort_slice l ↔ x ∈ l.
Proof. by rewrite sort_slice_perm. Qed.

Lemma sort_slice_sorted_id l : StronglySorted sorted_le l → sort_slice l = l.
Proof.
  induction 1 as [|x l Hl IH Hx]; simpl; [done|]. rewrite IH.
  destruct l as [|y l]; simpl; [done|].
  apply Forall_cons in Hx as [Hxy _]. by rewrite Hxy.
Qed.

Section weak_order.
Hypothesis less_asym : ∀ x y, less x y = true → less y x = false.
Hypothesis le_trans : ∀ x y z, sorted_le x y → sorted_le y z → sorted_le x z.

Lemma sort_insert_sorted x l :
  StronglySorted sorted_le l → StronglySorted sorted_le (sort_insert x l).
Proof using less_asym le_trans.
  induction 1 as [|y l Hl IH Hy]; simpl; [by repeat constructor|].
  destruct (less y x) eqn:Hyx.
  - constructor; [done|]. rewrite sort_insert_perm. constructor; [|done].
    by apply less_asym.
  - constructor; [by constructor|]. constructor; [done|].
    eapply Forall_impl; [exact Hy|]. intros z Hz; simpl in Hz.
    by apply le_trans with y.
Qed.
Lemma sort_slice_sorted l : StronglySorted sorted_le (sort_slice l).
Proof using less_asym le_trans.
  induction l; simpl; [constructor|]. by apply sort_insert_sorted.
Qed.
(** The head of a sorted slice is minimal. *)
Lemma sort_slice_head x l l' :
  sort_slice l = x :: l' → x ∈ l ∧ ∀ y, y ∈ l → less y x = false.
Proof using less_asym le_trans.
  intros Hs. split.
  { apply elem_of_sort_slice. rewrite Hs. set_solver. }
  intros y Hy. apply elem_of_sort_slice in Hy. rewrite Hs in Hy.
  pose proof (sort_slice_sorted l) as Hsort. rewrite Hs in Hsort.
  apply StronglySorted_cons in Hsort as [Hall _].
  apply elem_of_cons in Hy as [->|Hy].
  - destruct (less x x) eqn:E; [|done]. by rewrite (less_asym _ _ E) in E.
  - rewrite Forall_forall in Hall. by apply Hall.
Qed.
(** With a comparison that separates distinct elements the result does not
    depend on the order the elements came in. *)
Lemma sort_slice_perm_eq l1 l2 :
  (∀ x y, x ∈ l1 → y ∈ l1 → sorted_le x y → sorted_le y x → x = y) →
  l1 ≡ₚ l2 → sort_slice l1 = sort_slice l2.
Proof using less_asym le_trans.
  intros Hanti Hp. apply (StronglySorted_unique_strong sorted_le).
  - intros x y Hx Hy. apply Hanti; [by apply elem_of_sort_slice|].
    rewrite Hp. by apply elem_of_sort_slice.
  - apply sort_slice_sorted.
  - apply sort_slice_sorted.
  - by rewrite !sort_slice_perm.
Qed.
End weak_order.
End sort.

(** ** Ranging over a map

    Go leaves the order of [for k, v := range m] unspecified.  An [iter_order]
    fixes one: every operation that ranges over a map takes one as an argument,
    and its theorems hold for all of them. *)

Record iter_order : Type := IterOrder {
  iter : ∀ {A}, gmap string A → list (string * A);
  iter_perm : ∀ A (m : gmap string A), iter m ≡ₚ map_to_list m;
}.
Definition canonical_order : iter_order :=
  IterOrder (λ A m, map_to_list m) (λ A m, Permutation_refl _).

Section iter.
Context (ord : iter_order) {A : Type}.
Implicit Types m : gmap string A.

Definition iter_keys m : list string := (iter ord m).*1.
Definition iter_values m : list A := (iter ord m).*2.

Lemma elem_of_iter m k v : (k, v) ∈ iter ord m ↔ m !! k = Some v.
Proof. by rewrite iter_perm, elem_of_map_to_list. Qed.
Lemma elem_of_iter_keys m k : k ∈ iter_keys m ↔ is_Some (m !! k).
Proof.
  unfold iter_keys. rewrite list_elem_of_fmap. split.
  - intros ([k' v] & -> & Hin). apply elem_of_iter in Hin. eauto.
  - intros [v Hv]. exists (k, v). by rewrite elem_of_iter.
Qed.
Lemma NoDup_iter_keys m : NoDup (iter_keys m).
Proof. unfold iter_keys. rewrite iter_perm. apply NoDup_fst_map_to_list. Qed.
Lemma elem_of_iter_values m v : v ∈ iter_values m ↔ ∃ k, m !! k = Some v.
Proof.
  unfold iter_values. rewrite list_elem_of_fmap. split.
  - intros ([k v'] & -> & Hin). apply elem_of_iter in Hin. eauto.
  - intros [k Hv]. exists (k, v). by rewrite elem_of_iter.
Qed.
Lemma length_iter m : length (iter ord m) = size m.
Proof. rewrite iter_perm. apply length_map_to_list. Qed.
End iter.

(** ** strings

    A Go string is a sequence of bytes, here a [string] of 8-bit [ascii]. *)

Fixpoint str_take (n : nat) (s : string) : string :=
  match n, s with
  | S n, String c s => String c (str_take n s)
  | _, _ => ""
  end.
Fixpoint str_drop (n : nat) (s : string) : string :=
  match n, s with
  | S n, String _ s => str_drop n s
  | _, _ => s
  end.

Definition HasPrefix (s prefix : string) : bool := String.prefix prefix s.
Arguments HasPrefix : simpl never.
Definition TrimPrefix (s prefix : string) : string :=
  if HasPrefix s prefix then str_drop (String.length prefix) s else s.

(** [strings.Index]; [None] is [-1]. *)
Fixpoint Index (s sub : string) : option nat :=
  if HasPrefix s sub then Some O else
  match s with
  | "" => None
  | String _ s => S <$> Index s sub
  end.
Definition Contains (s sub : string) : bool :=
  match Index s sub with Some _ => true | None => false end.

(** [strings.SplitN(s, sep, 2)] *)
Definition SplitN2 (s sep : string) : list string :=
  match Index s sep with
  | None => [s]
  | Some i => [str_take i s; str_drop (i + String.length sep) s]
  end.
(** [strings.Split(s, sep)] for a non-empty [sep]: each piece consumes at least
    one byte of [s], so [length s + 1] rounds are enough. *)
Fixpoint split_rounds (n : nat) (s sep : string) : list string :=
  match n, Index s sep with
  | S n, Some i => str_take i s :: split_rounds n (str_drop (i + String.length sep) s) sep
  | _, _ => [s]
  end.
Definition Split (s sep : string) : list string :=
  split_rounds (S (String.length s)) s sep.

(** [strings.TrimSpace]: the UTF-8 encodings of the Unicode white space. *)
Fixpoint of_bytes (l : list nat) : string :=
  match l with [] => "" | n :: l => String (Ascii.ascii_of_nat n) (of_bytes l) end.
Definition white_space : list string := of_bytes <$>
  ([[9]; [10]; [11]; [12]; [13]; [32]; [194; 133]; [194; 160]; [225; 154; 128];
    [226; 128; 128]; [226; 128; 129]; [226; 128; 130]; [226; 128; 131];
    [226; 128; 132]; [226; 128; 133]; [226; 128; 134]; [226; 128; 135];
    [226; 128; 136]; [226; 128; 137]; [226; 128; 138]; [226; 128; 168];
    [226; 128; 169]; [226; 128; 175]; [226; 129; 159]; [227; 128; 128]])%nat.

Fixpoint strip_one (seps : list string) (s : string) : option string :=
  match seps with
  | [] => None
  | sep :: seps =>
      if HasPrefix s sep then Some (str_drop (String.length sep) s) else strip_one seps s
  end.
Fixpoint strip_all (n : nat) (seps : list string) (s : string) : string :=
  match n, strip_one seps s with
  | S n, Some s' => strip_all n seps s'
  | _, _ => s
  end.
Definition TrimSpace (s : string) : string :=
  let s := strip_all (String.length s) white_space s in
  String.rev (strip_all (String.length s) (String.rev <$> white_space) (String.rev s)).

Definition str_ltb (s t : string) : bool := String.ltb s t.

(** *** The byte order on strings *)

Lemma str_ltb_gt s t : str_ltb t s = false ↔ (String.compare s t ≠ Gt).
Proof.
  unfold str_ltb, String.ltb. rewrite (String.compare_antisym t s).
  destruct (String.compare s t); simpl; naive_solver.
Qed.
Lemma str_ltb_asym s t : str_ltb s t = true → str_ltb t s = false.
Proof.
  rewrite str_ltb_gt. unfold str_ltb, String.ltb. by destruct (String.compare s t).
Qed.
Lemma ascii_compare_nat a b :
  Ascii.compare a b = (Ascii.nat_of_ascii a ?= Ascii.nat_of_ascii b)%nat.
Proof.
  unfold Ascii.compare, Ascii.nat_of_ascii. by rewrite Nnat.N2Nat.inj_compare.
Qed.
Lemma str_le_trans s t u :
  str_ltb t s = false → str_ltb u t = false → str_ltb u s = false.
Proof.
  rewrite !str_ltb_gt. revert t u. induction s as [|a s IH]; intros [|b t] [|c u]; simpl; try done.
  rewrite !ascii_compare_nat.
  destruct (Nat.compare_spec (Ascii.nat_of_ascii a) (Ascii.nat_of_ascii b));
    destruct (Nat.compare_spec (Ascii.nat_of_ascii b) (Ascii.nat_of_ascii c));
    destruct (Nat.compare_spec (Ascii.nat_of_ascii a) (Ascii.nat_of_ascii c));
    try done; try lia. apply IH.
Qed.
Lemma str_le_antisym s t : str_ltb t s = false → str_ltb s t = false → s = t.
Proof.
  rewrite !str_ltb_gt, (String.compare_antisym t s).
  destruct (String.compare s t) eqn:E; simpl; try done. intros _ _.
  by apply String.compare_eq_iff.
Qed.

(** *** Lemmas on prefixes and positions *)

Lemma str_app_cons c (a b : string) : String c a +:+ b = String c (a +:+ b).
Proof. done. Qed.
Lemma str_app_nil_l (b : string) : "" +:+ b = b.
Proof. done. Qed.
#[local] Ltac str := rewrite ?str_app_nil_l, ?str_app_cons in *; simpl.

Lemma str_app_assoc (a b c : string) : (a +:+ b) +:+ c = a +:+ (b +:+ c).
Proof. induction a as [|x a IH]; str; [done|]. by rewrite IH. Qed.
Lemma str_app_nil_r (a : string) : a +:+ "" = a.
Proof. induction a as [|x a IH]; str; [done|]. by rewrite IH. Qed.
Lemma str_length_app (a b : string) :
  String.length (a +:+ b) = (String.length a + String.length b)%nat.
Proof. induction a as [|x a IH]; str; [done|]. by rewrite IH. Qed.
Lemma str_drop_app (a b : string) : str_drop (String.length a) (a +:+ b) = b.
Proof. by induction a. Qed.
Lemma str_take_app (a b : string) : str_take (String.length a) (a +:+ b) = a.
Proof. induction a as [|x a IH]; [by destruct b|]. str. by rewrite IH. Qed.
Lemma str_take_drop n (s : string) : str_take n s +:+ str_drop n s = s.
Proof.
  revert s; induction n as [|n IH]; intros [|c s]; try done. simpl. str. by rewrite IH.
Qed.
Lemma str_drop_drop n m (s : string) : str_drop n (str_drop m s) = str_drop (m + n) s.
Proof.
  revert s; induction m as [|m IH]; intros [|c s]; try done.
  - by destruct n.
  - apply IH.
Qed.

Lemma HasPrefix_spec s p : HasPrefix s p = true ↔ ∃ r, s = p +:+ r.
Proof.
  unfold HasPrefix. revert s; induction p as [|c p IH]; intros s.
  { split; [intros; by exists s|]. by destruct s. }
  destruct s as [|d s]; simpl.
  { split; [done|]. by intros [r ?]. }
  destruct (Ascii.ascii_dec c d) as [->|Hne].
  - rewrite IH. split; intros [r Hr]; exists r; str; congruence.
  - split; [done|]. intros [r Hr]. str. congruence.
Qed.
Lemma HasPrefix_app p r : HasPrefix (p +:+ r) p = true.
Proof. apply HasPrefix_spec. eauto. Qed.
Lemma TrimPrefix_app p r : TrimPrefix (p +:+ r) p = r.
Proof. unfold TrimPrefix. by rewrite HasPrefix_app, str_drop_app. Qed.

Lemma Index_Some s sub i :
  Index s sub = Some i →
  s = str_take i s +:+ (sub +:+ str_drop (i + String.length sub) s).
Proof.
  revert i; induction s as [|c s IH]; intros i H; simpl in H.
  - destruct (HasPrefix "" sub) eqn:E; [|done]. injection H as <-.
    apply HasPrefix_spec in E as [r E]. destruct sub; str; done.
  - destruct (HasPrefix (String c s) sub) eqn:E.
    + injection H as <-. apply HasPrefix_spec in E as [r E]. simpl.
      rewrite str_app_nil_l, E. by rewrite str_drop_app.
    + destruct (Index s sub) as [j|] eqn:Ej; [|done]. simpl in H. injection H as <-.
      simpl. str. f_equal. by apply IH.
Qed.
Lemma Index_prefix s sub : HasPrefix s sub = true → Index s sub = Some O.
Proof. intros Hp. destruct s; simpl; by rewrite Hp. Qed.
Lemma Index_le s sub i : Index s sub = Some i → (i ≤ String.length s)%nat.
Proof.
  revert i; induction s as [|c s IH]; intros i H; simpl in H.
  - destruct (HasPrefix "" sub); [|done]. by injection H as <-.
  - destruct (HasPrefix (String c s) sub); [injection H as <-; simpl; lia|].
    destruct (Index s sub) as [j|]; [|done]. injection H as <-.
    simpl. specialize (IH j eq_refl). lia.
Qed.
Lemma Index_None s sub : Index s sub = None ↔ ∀ a b, s ≠ a +:+ (sub +:+ b).
Proof.
  induction s as [|c s IH]; simpl.
  - destruct (HasPrefix "" sub) eqn:E.
    + apply HasPrefix_spec in E as [r E]. split; [done|].
      intros H. by destruct (H "" r).
    + split; [|done]. intros _ a b Hab.
      destruct a; [|done]. str. rewrite Hab, HasPrefix_app in E. done.
  - destruct (HasPrefix (String c s) sub) eqn:E.
    + apply HasPrefix_spec in E as [r E]. split; [done|].
      intros H. by destruct (H "" r).
    + rewrite fmap_None, IH. split.
      * intros H [|d a] b Hab; str.
        { rewrite Hab, HasPrefix_app in E. done. }
        injection Hab as _ Hab. by apply H in Hab.
      * intros H a b Hab. apply (H (String c a) b). str. by rewrite Hab.
Qed.
Lemma Contains_spec s sub : Contains s sub = true ↔ ∃ a b, s = a +:+ (sub +:+ b).
Proof.
  unfold Contains. destruct (Index s sub) as [i|] eqn:E.
  - split; [|done]. intros _. apply Index_Some in E. eauto.
  - split; [done|]. intros (a & b & H). rewrite Index_None in E. by apply E in H.
Qed.

(** ** strconv and fmt

    [%q] (strconv.Quote) needs the table of printable Unicode runes; the text
    it produces only ever ends in error messages, so it is a parameter. *)

Class Quote := quote : string → string.

Definition is_digit (c : Ascii.ascii) : option Z :=
  let n := Z.of_nat (Ascii.nat_of_ascii c) in
  if (48 <=? n) && (n <=? 57) then Some (n - 48) else None.

(** [strconv.ParseUint] on base 10: stops at the first bad byte, or as soon as
    the value leaves 64 bits. *)
Inductive digits := DigitsOk (n : Z) | DigitsSyntax | DigitsRange.
Fixpoint parse_digits (s : string) (n : Z) : digits :=
  match s with
  | "" => DigitsOk n
  | String c s =>
      match is_digit c with
      | None => DigitsSyntax
      | Some d =>
          let n' := n * 10 + d in
          if 2 ^ 64 - 1 <? n' then DigitsRange else parse_digits s n'
      end
  end.

Section strconv.
Context `{!Quote}.

Definition numError (s msg : string) : string :=
  ("strconv.Atoi: parsing " +:+ quote s +:+ ": " +:+ msg).
Definition syntaxError s := numError s "invalid syntax".
Definition rangeError s := numError s "value out of range".

Definition Atoi (s : string) : result Z :=
  let '(neg, body) :=
    match s with
    | String "-"%char r => (true, r)
    | String "+"%char r => (false, r)
    | _ => (false, s)
    end in
  match body with
  | "" => Err (syntaxError s)
  | _ =>
      match parse_digits body 0 with
      | DigitsSyntax => Err (syntaxError s)
      | DigitsRange => Err (rangeError s)
      | DigitsOk n =>
          if neg then (if 2 ^ 63 <? n then Err (rangeError s) else Ok (- n))
          else (if 2 ^ 63 <=? n then Err (rangeError s) else Ok n)
      end
  end.
End strconv.

(** ** Filters

    The list operations drop an element with a chain of
    [if cond { continue }], where an empty string or a zero time means no filter. *)

Lemma guard_true (c b : bool) : (if c then false else b) = true ↔ c = false ∧ b = true.
Proof. destruct c; naive_solver. Qed.
Lemma string_filter (want have_ : string) :
  bool_decide (want ≠ "") && bool_decide (have_ ≠ want) = false ↔ want = "" ∨ have_ = want.
Proof.
  rewrite andb_false_iff, !bool_decide_eq_false. destruct (decide (want = "")), (decide (have_ = want)); tauto.
Qed.
Lemma after_filter (t lo : time) :
  negb (IsZero lo) && Before t lo = false ↔ lo = time_zero ∨ lo ≤ t.
Proof.
  unfold IsZero, Before. rewrite andb_false_iff, negb_false_iff, Z.eqb_eq, Z.ltb_ge. done.
Qed.
Lemma before_filter (t hi : time) :
  negb (IsZero hi) && After t hi = false ↔ hi = time_zero ∨ t ≤ hi.
Proof.
  unfold IsZero, After. rewrite andb_false_iff, negb_false_iff, Z.eqb_eq, Z.ltb_ge. done.
Qed.
#[export] Hint Rewrite guard_true string_filter after_filter before_filter : sched_filter.
