(* ===== verification/GoText.v ===== *)
(** * More of the Go standard library: case, numbers in text, SHA-1

    What the HTTP server uses of strings, strconv, crypto/sha1 and encoding/hex. *)

From S2P Require Import Prelude GoLib.
Local Open Scope Z_scope.

Definition code (c : ascii) : Z := Z.of_nat (nat_of_ascii c).
Definition byte (z : Z) : ascii := ascii_of_nat (Z.to_nat z).

(** ** strings.ToUpper, ToLower and EqualFold

    The results are only compared with ASCII text, or are ASCII themselves.  The
    letters outside ASCII whose other case is ASCII are mapped (U+0131 and U+017F to
    upper case, U+0130 and the Kelvin sign U+212A to lower case); any other byte
    outside ASCII stays as it is. *)

Definition upper_byte (c : ascii) : ascii :=
  if (97 <=? code c) && (code c <=? 122) then byte (code c - 32) else c.
Definition lower_byte (c : ascii) : ascii :=
  if (65 <=? code c) && (code c <=? 90) then byte (code c + 32) else c.
Fixpoint ToUpper (s : string) : string :=
  match s with
  | "" => ""
  | String c s1 =>
      match s1 with
      | String d s2 =>
          if (code c =? 196) && (code d =? 177) then String "I" (ToUpper s2)
          else if (code c =? 197) && (code d =? 191) then String "S" (ToUpper s2)
          else String (upper_byte c) (ToUpper s1)
      | "" => String (upper_byte c) ""
      end
  end.
Fixpoint ToLower (s : string) : string :=
  match s with
  | "" => ""
  | String c s1 =>
      match s1 with
      | String d s2 =>
          if (code c =? 196) && (code d =? 176) then String "i" (ToLower s2) else
          match s2 with
          | String e s3 =>
              if (code c =? 226) && (code d =? 132) && (code e =? 170)
              then String "k" (ToLower s3) else String (lower_byte c) (ToLower s1)
          | "" => String (lower_byte c) (ToLower s1)
          end
      | "" => String (lower_byte c) ""
      end
  end.
(** The simple case folding of U+017F is [s], that of U+212A is [k]; U+0130 and U+0131
    fold to themselves. *)
Fixpoint fold_case (s : string) : string :=
  match s with
  | "" => ""
  | String c s1 =>
      match s1 with
      | String d s2 =>
          if (code c =? 197) && (code d =? 191) then String "s" (fold_case s2) else
          match s2 with
          | String e s3 =>
              if (code c =? 226) && (code d =? 132) && (code e =? 170)
              then String "k" (fold_case s3) else String (lower_byte c) (fold_case s1)
          | "" => String (lower_byte c) (fold_case s1)
          end
      | "" => String (lower_byte c) ""
      end
  end.
Definition EqualFold (s t : string) : bool := bool_decide (fold_case s = fold_case t).

(** ** strconv.Atoi and strconv.ParseBool

    [None] is an error; its text is never used. *)

Definition digit (c : ascii) : option Z :=
  if (48 <=? code c) && (code c <=? 57) then Some (code c - 48) else None.
Fixpoint digits (acc : Z) (s : string) : option Z :=
  match s with
  | "" => Some acc
  | String c s => d ← digit c; digits (acc * 10 + d) s
  end.
Definition unsigned (s : string) : option Z := if bool_decide (s = "") then None else digits 0 s.
Definition Atoi (s : string) : option Z :=
  z ← match s with
      | String "+" s => unsigned s
      | String "-" s => Z.opp <$> unsigned s
      | s => unsigned s
      end;
  if (int64_min <=? z) && (z <=? int64_max) then Some z else None.
Definition ParseBool (s : string) : option bool :=
  if bool_decide (s ∈ ["1"; "t"; "T"; "true"; "TRUE"; "True"]) then Some true else
  if bool_decide (s ∈ ["0"; "f"; "F"; "false"; "FALSE"; "False"]) then Some false else None.

(** ** sha1.Sum and hex.EncodeToString (FIPS 180-4) *)

Definition word_mask : Z := 2 ^ 32 - 1.
Definition add32 (x y : Z) : Z := Z.land (x + y) word_mask.
Definition rotl (n x : Z) : Z :=
  Z.lor (Z.land (Z.shiftl x n) word_mask) (Z.shiftr x (32 - n)).
Fixpoint bytes_of (s : string) : list Z :=
  match s with "" => [] | String c s => code c :: bytes_of s end.
(** The message, a one bit, zeros up to 8 bytes short of a block, and the length of
    the message in bits. *)
Definition big_endian (n : nat) (z : Z) : list Z :=
  (λ k, Z.land (Z.shiftr z (8 * Z.of_nat k)) 255) <$> rev (seq 0 n).
Definition sha1_pad (msg : list Z) : list Z :=
  let zeros := Z.to_nat ((55 - zlen msg) mod 64) in
  msg ++ [128] ++ repeat 0 zeros ++ big_endian 8 (8 * zlen msg).
Fixpoint words (l : list Z) : list Z :=
  match l with
  | a :: b :: c :: d :: l => (a * 2 ^ 24 + b * 2 ^ 16 + c * 2 ^ 8 + d) :: words l
  | _ => []
  end.
(** The message schedule, the latest word first. *)
Definition schedule_step (ws : list Z) : list Z :=
  rotl 1 (Z.lxor (Z.lxor (nth 2 ws 0) (nth 7 ws 0)) (Z.lxor (nth 13 ws 0) (nth 15 ws 0))) :: ws.
Definition message_schedule (block : list Z) : list Z := rev (Nat.iter 64 schedule_step (rev block)).

Definition sha1_state : Type := Z * Z * Z * Z * Z.
Definition sha1_f (t : Z) (b c d : Z) : Z :=
  if t <? 20 then Z.lor (Z.land b c) (Z.land (Z.lxor b word_mask) d)
  else if t <? 40 then Z.lxor (Z.lxor b c) d
  else if t <? 60 then Z.lor (Z.lor (Z.land b c) (Z.land b d)) (Z.land c d)
  else Z.lxor (Z.lxor b c) d.
Definition sha1_k (t : Z) : Z :=
  if t <? 20 then 0x5a827999 else if t <? 40 then 0x6ed9eba1
  else if t <? 60 then 0x8f1bbcdc else 0xca62c1d6.
Definition sha1_round (s : Z * sha1_state) (w : Z) : Z * sha1_state :=
  let '(t, (a, b, c, d, e)) := s in
  let temp := add32 (add32 (add32 (rotl 5 a) (sha1_f t b c d)) (add32 e (sha1_k t))) w in
  (t + 1, (temp, a, rotl 30 b, c, d)).
Definition sha1_block (h : sha1_state) (block : list Z) : sha1_state :=
  let '(_, (a, b, c, d, e)) := foldl sha1_round (0, h) (message_schedule block) in
  let '(h0, h1, h2, h3, h4) := h in
  (add32 h0 a, add32 h1 b, add32 h2 c, add32 h3 d, add32 h4 e).
(** Blocks of 16 words; as many rounds as there are words are more than enough. *)
Fixpoint sha1_blocks (n : nat) (h : sha1_state) (ws : list Z) : sha1_state :=
  match n, ws with
  | S n, _ :: _ => sha1_blocks n (sha1_block h (take 16 ws)) (drop 16 ws)
  | _, _ => h
  end.
Definition sha1_Sum (msg : string) : list Z :=
  let ws := words (sha1_pad (bytes_of msg)) in
  let '(h0, h1, h2, h3, h4) := sha1_blocks (length ws)
    (0x67452301, 0xefcdab89, 0x98badcfe, 0x10325476, 0xc3d2e1f0) ws in
  mjoin (big_endian 4 <$> [h0; h1; h2; h3; h4]).
Definition hex_digit (z : Z) : ascii := byte (if z <? 10 then 48 + z else 87 + z).
Fixpoint EncodeToString (l : list Z) : string :=
  match l with
  | [] => ""
  | b :: l => String (hex_digit (Z.shiftr b 4)) (String (hex_digit (Z.land b 15)) (EncodeToString l))
  end.

(** The test vectors of the standard, of one block and of two. *)
Example sha1_abc : EncodeToString (sha1_Sum "abc") = "a9993e364706816aba3e25717850c26c9cd0d89d".
Proof. vm_compute. reflexivity. Qed.
Example sha1_two_blocks :
  EncodeToString (sha1_Sum "abcdbcdecdefdefgefghfghighijhijkijkljklmklmnlmnomnopnopq") =
  "84983e441c3bd26ebaae4aa1f95129e5e54670f1".
Proof. vm_compute. reflexivity. Qed.
Example Atoi_range : Atoi "9223372036854775808" = None ∧ Atoi "-9223372036854775808" = Some int64_min.
Proof. split; vm_compute; reflexivity. Qed.

(** ** Trimming *)

Lemma rev_app_spec s t : String.rev_app s t = String.rev s +:+ t.
Proof.
  unfold String.rev. revert t; induction s as [|c s IH]; intros t; [done|]. simpl.
  rewrite (IH (String c t)), (IH (String c "")), str_app_assoc. done.
Qed.
Lemma rev_append s t : String.rev (s +:+ t) = String.rev t +:+ String.rev s.
Proof.
  unfold String.rev. induction s as [|c s IH].
  - by rewrite str_app_nil_l, str_app_nil_r.
  - rewrite str_app_cons. simpl. rewrite (rev_app_spec (s +:+ t)), (rev_app_spec s).
    unfold String.rev. by rewrite IH, str_app_assoc.
Qed.
Lemma rev_involutive s : String.rev (String.rev s) = s.
Proof.
  induction s as [|c s IH]; [done|]. change (String c s) with (String c "" +:+ s).
  rewrite !rev_append, IH. done.
Qed.
Lemma rev_length s : String.length (String.rev s) = String.length s.
Proof.
  induction s as [|c s IH]; [done|]. change (String c s) with (String c "" +:+ s).
  rewrite rev_append, !str_length_app, IH. simpl. lia.
Qed.

(** No separator is left to strip. *)
Definition stripped (seps : list string) (s : string) : Prop := Forall (λ sep, HasPrefix s sep = false) seps.
Lemma strip_one_None seps s : strip_one seps s = None ↔ stripped seps s.
Proof.
  unfold stripped. induction seps as [|sep seps IH]; simpl; [by split; [constructor|]|].
  rewrite Forall_cons. destruct (HasPrefix s sep); [by split; [|intros []]|]. rewrite IH. tauto.
Qed.
Lemma strip_one_shorter seps s s' :
  Forall (λ sep, sep ≠ "") seps → strip_one seps s = Some s' → (String.length s' < String.length s)%nat.
Proof.
  induction 1 as [|sep seps Hsep _ IH]; simpl; [done|].
  destruct (HasPrefix s sep) eqn:Hp; [|done]. intros [= <-].
  apply HasPrefix_spec in Hp as [r ->]. rewrite str_drop_app, str_length_app.
  destruct sep; [done|]. simpl. lia.
Qed.
Lemma strip_all_stripped n seps s :
  Forall (λ sep, sep ≠ "") seps → (String.length s ≤ n)%nat → stripped seps (strip_all n seps s).
Proof.
  intros Hseps. revert s; induction n as [|n IH]; intros s Hn; simpl;
    destruct (strip_one seps s) as [s'|] eqn:Hs; try (by apply strip_one_None).
  - apply strip_one_shorter in Hs; [lia|done].
  - apply IH. apply strip_one_shorter in Hs; [lia|done].
Qed.
Lemma strip_all_id n seps s : stripped seps s → strip_all n seps s = s.
Proof. intros Hs%strip_one_None. destruct n; simpl; by rewrite ?Hs. Qed.

Lemma white_space_nonempty : Forall (λ sep, sep ≠ "") white_space.
Proof. apply (bool_decide_unpack _). vm_compute. exact I. Qed.
Lemma white_space_rev_nonempty : Forall (λ sep, sep ≠ "") (String.rev <$> white_space).
Proof. apply (bool_decide_unpack _). vm_compute. exact I. Qed.
(** White space does not follow what is trimmed. *)
Lemma TrimSpace_right s : stripped (String.rev <$> white_space) (String.rev (TrimSpace s)).
Proof.
  unfold TrimSpace. rewrite rev_involutive. apply strip_all_stripped.
  - apply white_space_rev_nonempty.
  - by rewrite rev_length.
Qed.

Lemma HasPrefix_ext a id b : HasPrefix (a +:+ id) (a +:+ b) = HasPrefix id b.
Proof.
  apply eq_true_iff_eq. rewrite !HasPrefix_spec. split; intros [r Hr]; exists r.
  - apply (inj (String.app a)). by rewrite Hr, str_app_assoc.
  - by rewrite Hr, str_app_assoc.
Qed.
(** A separator that begins in [a] and goes on past it meets the next character. *)
Fixpoint occurs (c : ascii) (s : string) : bool :=
  match s with "" => false | String d s => bool_decide (c = d) || occurs c s end.
Lemma HasPrefix_cut a c b sep : occurs c sep = false →
  HasPrefix a sep = false → HasPrefix (a +:+ String c b) sep = false.
Proof.
  intros Hc Ha. apply not_true_iff_false. intros [r Hr]%HasPrefix_spec.
  revert a Ha Hr. induction sep as [|d sep IH]; intros a Ha Hr; [by destruct a|].
  simpl in Hc. apply orb_false_iff in Hc as [Hd%bool_decide_eq_false Hc].
  destruct a as [|e a].
  - rewrite str_app_nil_l, str_app_cons in Hr. by injection Hr as ->.
  - rewrite !str_app_cons in Hr. injection Hr as -> Hr. apply (IH Hc a); [|done].
    apply not_true_iff_false. intros [r' ->]%HasPrefix_spec.
    rewrite <-str_app_cons, HasPrefix_app in Ha. done.
Qed.
Lemma no_colon : Forall (λ sep, occurs ":" sep = false) (String.rev <$> white_space).
Proof. apply (bool_decide_unpack _). vm_compute. exact I. Qed.
(** Trimming again behind a scope and its colon. *)
Lemma TrimSpace_scoped scope t :
  stripped white_space (scope +:+ ":" +:+ TrimSpace t) →
  TrimSpace (scope +:+ ":" +:+ TrimSpace t) = scope +:+ ":" +:+ TrimSpace t.
Proof.
  intros Hl. pose proof (TrimSpace_right t) as Hr. revert Hl Hr.
  generalize (TrimSpace t). intros y Hl Hr. unfold TrimSpace. rewrite (strip_all_id _ white_space) by done.
  rewrite strip_all_id; [by rewrite rev_involutive|].
  rewrite !rev_append. change (String.rev ":") with (String ":" ""). rewrite str_app_assoc.
  rewrite str_app_cons, str_app_nil_l.
  pose proof no_colon as Hc. unfold stripped in *. rewrite Forall_forall in Hc, Hr |- *.
  intros sep Hsep. apply HasPrefix_cut; [by apply Hc|by apply Hr].
Qed.

(** ** Splitting at a character *)

Section char.
Context (ch : ascii).
Abbreviation sep := (String ch "").
Lemma HasPrefix_char c s : HasPrefix (String c s) sep = bool_decide (c = ch).
Proof.
  apply eq_true_iff_eq. rewrite HasPrefix_spec, bool_decide_eq_true. split.
  - intros [r Hr]. rewrite str_app_cons in Hr. congruence.
  - intros ->. by exists s.
Qed.
Lemma Index_char a b : Contains a sep = false → Index (a +:+ (sep +:+ b)) sep = Some (String.length a).
Proof.
  intros Ha. induction a as [|c a IH].
  { rewrite str_app_nil_l. by apply Index_prefix, HasPrefix_app. }
  rewrite str_app_cons. unfold Contains in *. cbn [Index] in Ha |- *. rewrite HasPrefix_char in Ha |- *.
  destruct (bool_decide (c = ch)); [done|]. destruct (Index a sep); [done|]. by rewrite IH.
Qed.
Lemma drop_char a b : str_drop (String.length a + String.length sep) (a +:+ (sep +:+ b)) = b.
Proof. by rewrite <-str_drop_drop, str_drop_app, str_drop_app. Qed.
Lemma split_rounds_cut n a b : Contains a sep = false →
  split_rounds (S n) (a +:+ (sep +:+ b)) sep = a :: split_rounds n b sep.
Proof. intros Ha. cbn [split_rounds]. by rewrite Index_char, str_take_app, drop_char. Qed.
Lemma split_rounds_last n a : Contains a sep = false → split_rounds n a sep = [a].
Proof. unfold Contains. destruct n; simpl; [done|]. by destruct (Index a sep). Qed.

(** [strings.Split] undoes [strings.Join]. *)
Lemma split_rounds_concat n l : l ≠ [] → Forall (λ a, Contains a sep = false) l →
  (length l ≤ S n)%nat → split_rounds n (String.concat sep l) sep = l.
Proof.
  intros Hl Hno. revert n. induction Hno as [|a l Ha Hno IH]; intros n Hn; [done|].
  destruct l as [|b l]; [by apply split_rounds_last|].
  destruct n as [|n]; [simpl in Hn; lia|].
  change (String.concat sep (a :: b :: l)) with (a +:+ (sep +:+ String.concat sep (b :: l))).
  rewrite split_rounds_cut by done. f_equal. apply IH; [done|simpl in *; lia].
Qed.
Lemma concat_length l : (length l ≤ S (String.length (String.concat sep l)))%nat.
Proof.
  induction l as [|a l IH]; simpl; [lia|]. destruct l as [|b l]; [simpl; lia|].
  change (String.concat sep (a :: b :: l)) with (a +:+ (sep +:+ String.concat sep (b :: l))).
  rewrite !str_length_app. simpl in *. lia.
Qed.
Lemma Split_concat l : l ≠ [] → Forall (λ a, Contains a sep = false) l →
  Split (String.concat sep l) sep = l.
Proof.
  intros Hl Hno. apply split_rounds_concat; [done..|]. pose proof (concat_length l). lia.
Qed.
(** And the other way round: the pieces hold no separator, and joined they are the text. *)
Lemma Contains_take s i : Index s sep = Some i → Contains (str_take i s) sep = false.
Proof.
  revert i. unfold Contains. induction s as [|c s IH]; intros i Hi; [done|].
  cbn [Index] in Hi. rewrite HasPrefix_char in Hi. destruct (bool_decide (c = ch)) eqn:Hc.
  { by injection Hi as <-. }
  destruct (Index s sep) as [j|] eqn:Hj; [|done]. injection Hi as <-. cbn [str_take Index].
  rewrite HasPrefix_char, Hc. specialize (IH j eq_refl). by destruct (Index (str_take j s) sep).
Qed.
Lemma split_rounds_shape n s : (String.length s < n)%nat →
  split_rounds n s sep ≠ [] ∧ Forall (λ a, Contains a sep = false) (split_rounds n s sep) ∧
  String.concat sep (split_rounds n s sep) = s.
Proof.
  revert s; induction n as [|n IH]; intros s Hn; [lia|]. cbn [split_rounds].
  destruct (Index s sep) as [i|] eqn:Hi.
  - pose proof (Index_Some _ _ _ Hi) as Hs. pose proof (Contains_take _ _ Hi) as Ht.
    set (rest := str_drop (i + String.length sep) s) in *.
    destruct (IH rest) as (Hne & Hno & Hcat).
    { apply (f_equal String.length) in Hs. rewrite !str_length_app in Hs. simpl in Hs. lia. }
    split; [done|]. split; [by constructor|].
    destruct (split_rounds n rest sep) as [|b l]; [done|].
    change (str_take i s +:+ (sep +:+ String.concat sep (b :: l)) = s). by rewrite Hcat.
  - split; [done|]. split; [|done]. constructor; [|done]. unfold Contains. by rewrite Hi.
Qed.
Lemma Split_two s a b :
  Split s sep = [a; b] ↔ s = a +:+ (sep +:+ b) ∧ Contains a sep = false ∧ Contains b sep = false.
Proof.
  split.
  - intros Hs. destruct (split_rounds_shape (S (String.length s)) s) as (_ & Hno & Hcat); [lia|].
    unfold Split in Hs. rewrite Hs in Hno, Hcat. apply Forall_cons in Hno as [Ha Hno].
    apply Forall_cons in Hno as [Hb _]. by split_and!.
  - intros (-> & Ha & Hb). apply (Split_concat [a; b]); [done|by repeat constructor].
Qed.
End char.

(** What is trimmed is a part of the text, and trimmed for good. *)
Lemma strip_one_suffix seps s s' : strip_one seps s = Some s' → ∃ z, s = z +:+ s'.
Proof.
  induction seps as [|sep seps IH]; simpl; [done|]. destruct (HasPrefix s sep) eqn:Hp; [|done].
  intros [= <-]. apply HasPrefix_spec in Hp as [r ->]. exists sep. by rewrite str_drop_app.
Qed.
Lemma strip_all_suffix n seps s : ∃ z, s = z +:+ strip_all n seps s.
Proof.
  revert s; induction n as [|n IH]; intros s; simpl; [by exists ""|].
  destruct (strip_one seps s) as [s'|] eqn:Hs; [|by exists ""].
  apply strip_one_suffix in Hs as [z ->]. destruct (IH s') as [z' Hz]. exists (z +:+ z').
  by rewrite str_app_assoc, <-Hz.
Qed.
Lemma TrimSpace_part s : ∃ a b, s = a +:+ (TrimSpace s +:+ b) ∧ stripped white_space (TrimSpace s +:+ b).
Proof.
  unfold TrimSpace. set (s1 := strip_all (String.length s) white_space s).
  destruct (strip_all_suffix (String.length s) white_space s) as [a Ha]. fold s1 in Ha.
  set (y := strip_all (String.length s1) _ (String.rev s1)).
  destruct (strip_all_suffix (String.length s1) (String.rev <$> white_space) (String.rev s1)) as [z Hz].
  fold y in Hz. exists a, (String.rev z).
  assert (s1 = String.rev y +:+ String.rev z) as <-.
  { by rewrite <-rev_append, <-Hz, rev_involutive. }
  split; [done|]. apply strip_all_stripped; [apply white_space_nonempty|done].
Qed.
Lemma stripped_prefix seps a b : stripped seps (a +:+ b) → stripped seps a.
Proof.
  unfold stripped. intros Hs. eapply Forall_impl; [exact Hs|]. intros sep Hf.
  apply not_true_iff_false. intros [r ->]%HasPrefix_spec. by rewrite str_app_assoc, HasPrefix_app in Hf.
Qed.
Lemma TrimSpace_idem s : TrimSpace (TrimSpace s) = TrimSpace s.
Proof.
  destruct (TrimSpace_part s) as (a & b & _ & Hl%stripped_prefix). pose proof (TrimSpace_right s) as Hr.
  revert Hl Hr. generalize (TrimSpace s). intros y Hl Hr. unfold TrimSpace.
  rewrite (strip_all_id _ white_space) by done. by rewrite strip_all_id, rev_involutive.
Qed.

Lemma occurs_app c a b : occurs c (a +:+ b) = occurs c a || occurs c b.
Proof. induction a as [|d a IH]; [done|]. rewrite str_app_cons. simpl. by rewrite IH, orb_assoc. Qed.
Lemma Contains_occurs s c : Contains s (String c "") = occurs c s.
Proof.
  unfold Contains. induction s as [|d s IH]; [done|]. cbn [Index occurs].
  rewrite HasPrefix_char, <-IH.
  destruct (decide (d = c)) as [->|Hne]; [by rewrite !bool_decide_true|].
  rewrite !bool_decide_false by congruence. by destruct (Index s (String c "")).
Qed.
Lemma occurs_TrimSpace c s : occurs c s = false → occurs c (TrimSpace s) = false.
Proof.
  destruct (TrimSpace_part s) as (a & b & Hs & _). intros Hc. rewrite Hs, !occurs_app in Hc.
  by apply orb_false_iff in Hc as [_ [? _]%orb_false_iff].
Qed.

(** ** Text without white space *)

(** Every character is printable ASCII and not a blank. *)
Definition plain (s : string) : Prop := Forall (λ c, 33 ≤ code c ≤ 126) (String.list_ascii_of_string s).
Lemma plain_app s t : plain (s +:+ t) ↔ plain s ∧ plain t.
Proof.
  unfold plain. induction s as [|c s IH]; [rewrite str_app_nil_l; simpl; by rewrite Forall_nil; tauto|].
  rewrite str_app_cons. simpl. rewrite !Forall_cons, IH. tauto.
Qed.
Lemma plain_rev s : plain s → plain (String.rev s).
Proof.
  induction s as [|c s IH]; [done|]. intros [Hc Hs]%Forall_cons.
  change (String c s) with (String c "" +:+ s). rewrite rev_append. apply plain_app.
  split; [by apply IH|]. by apply Forall_singleton.
Qed.
Definition blank_first (sep : string) : bool :=
  match sep with "" => false | String c _ => negb ((33 <=? code c) && (code c <=? 126)) end.
Lemma plain_stripped seps s : Forall (λ sep, blank_first sep = true) seps → plain s → stripped seps s.
Proof.
  intros Hseps Hs. eapply Forall_impl; [exact Hseps|]. intros [|c sep] Hc; [done|]. simpl in Hc.
  apply not_true_iff_false. intros [r ->]%HasPrefix_spec. rewrite str_app_cons in Hs.
  apply Forall_cons in Hs as [Hr _]. apply negb_true_iff, andb_false_iff in Hc.
  destruct Hc as [Hc|Hc]; apply Z.leb_gt in Hc; lia.
Qed.
Lemma white_space_blank : Forall (λ sep, blank_first sep = true) white_space ∧
  Forall (λ sep, blank_first sep = true) (String.rev <$> white_space).
Proof. split; apply (bool_decide_unpack _); vm_compute; exact I. Qed.
Lemma TrimSpace_plain s : plain s → TrimSpace s = s.
Proof.
  intros Hs. destruct white_space_blank as [Hl Hr]. unfold TrimSpace.
  rewrite (strip_all_id _ white_space) by (by apply plain_stripped).
  rewrite strip_all_id by (by apply plain_stripped, plain_rev). apply rev_involutive.
Qed.

Lemma hex_digit_plain z : 0 ≤ z < 16 → 33 ≤ code (hex_digit z) ≤ 126.
Proof.
  intros Hz. assert (Hin : z ∈ seqZ 0 16) by (apply elem_of_seqZ; lia).
  clear Hz. revert z Hin. apply Forall_forall. repeat apply Forall_cons_2; try apply Forall_nil_2;
    vm_compute; split; discriminate.
Qed.
Lemma EncodeToString_plain l : Forall (λ b, 0 ≤ b < 256) l → plain (EncodeToString l).
Proof.
  induction 1 as [|b l Hb _ IH]; [constructor|]. simpl. unfold plain. simpl. rewrite !Forall_cons. split; [|split; [|done]].
  - apply hex_digit_plain. rewrite Z.shiftr_div_pow2 by done. change (2 ^ 4) with 16.
    split; [apply Z.div_pos; lia|apply Z.div_lt_upper_bound; lia].
  - apply hex_digit_plain. change 15 with (Z.ones 4). rewrite Z.land_ones by done.
    by apply Z.mod_pos_bound.
Qed.
Lemma sha1_bytes s : Forall (λ b, 0 ≤ b < 256) (sha1_Sum s).
Proof.
  unfold sha1_Sum. destruct (sha1_blocks _ _ _) as [[[[h0 h1] h2] h3] h4].
  apply Forall_forall. intros b (l & Hb & Hl)%list_elem_of_join.
  apply list_elem_of_fmap in Hl as (h & -> & _). unfold big_endian in Hb.
  apply list_elem_of_fmap in Hb as (k & -> & _).
  change 255 with (Z.ones 8). rewrite Z.land_ones by done. by apply Z.mod_pos_bound.
Qed.
