(* ===== verification/Ticker.v ===== *)
(** * time.NewTicker and the loops over it

    Four goroutines of the program have the same shape: the interval jobs of the
    scheduler, the heartbeat and the watcher of the worker, and the retention of the
    server,

<<
      ticker := time.NewTicker(d)
      for {
        select {
        case <-ctx.Done(): return
        case <-ticker.C:   body
        }
      }
>>

    This file is that shape: when the body is called, given how long it takes each time
    and when the context ends. *)

From S2P Require Import Prelude GoLib.
Local Open Scope Z_scope.

(** ** The ticker

    A ticker made at [t0] sends at [t0 + d], [t0 + 2 * d] and so on.  Its channel holds
    one tick; a tick that finds it full is dropped.  [d] is positive: NewTicker panics
    otherwise. *)

(** How many ticks were sent up to [t]. *)
Definition ticks (t0 d t : Z) : Z := (t - t0) / d.
(** When the channel, emptied at [r], has a tick again. *)
Definition next_tick (t0 d r : Z) : time := t0 + (ticks t0 d r + 1) * d.

(** ** The loop *)

(** What the program does not determine in a round: how long after the tick was taken
    the body begins, how long it takes, and which case the [select] takes when both are
    ready. *)
Record round := mkRound { rd_lag : duration; rd_body : duration; rd_tick_wins : bool }.
(** A body called at its first instant, over at its second. *)
Definition call : Type := time * time.

Section loop.
Context (t0 d : Z) (done : option time).

(** The [select] that is reached at [t], the tick arriving at [next]: a case that is
    ready at [t] or the first that gets ready; both ready at once, either. *)
Definition takes_tick (rd : round) (t next : time) : bool :=
  match done with
  | None => true
  | Some c =>
      let tick_at := Z.max t next in
      let done_at := Z.max t c in
      (tick_at <? done_at) || (tick_at =? done_at) && rd_tick_wins rd
  end.
(** The calls of the body, and whether the loop has returned after these rounds.  The
    [select] is reached at [t]; the channel was last emptied at [r]. *)
Fixpoint tick_loop (rounds : list round) (r t : time) : list call * bool :=
  match rounds with
  | [] => ([], false)
  | rd :: rounds =>
      let next := next_tick t0 d r in
      if takes_tick rd t next then
        let taken := Z.max t next in
        let begins := taken + rd_lag rd in
        let ends := begins + rd_body rd in
        let '(calls, returned) := tick_loop rounds taken ends in
        ((begins, ends) :: calls, returned)
      else ([], true)
  end.
End loop.
Arguments takes_tick : simpl never.

(** ** What the ticker is *)

Lemma takes_tick_done c rd t next : t ≤ next → takes_tick (Some c) rd t next = true → next ≤ Z.max t c.
Proof.
  intros Ht. unfold takes_tick. cbv zeta. rewrite Z.max_r by done.
  intros [?%Z.ltb_lt|[?%Z.eqb_eq _]%andb_true_iff]%orb_true_iff; lia.
Qed.
Lemma leaves_tick_done c rd t next : takes_tick (Some c) rd t next = false → Z.max t c ≤ Z.max t next.
Proof. unfold takes_tick. cbv zeta. by intros [?%Z.ltb_ge _]%orb_false_iff. Qed.

Section ticker.
Context (t0 d : Z) (Hd : 0 < d).

Lemma next_tick_after r : r < next_tick t0 d r.
Proof using Hd. unfold next_tick, ticks. pose proof (Z.mul_succ_div_gt (r - t0) d Hd). lia. Qed.
Lemma ticks_mono r t : r ≤ t → ticks t0 d r ≤ ticks t0 d t.
Proof using Hd. intros. apply Z.div_le_mono; lia. Qed.
Lemma ticks_at k r : t0 + k * d ≤ r < t0 + (k + 1) * d → ticks t0 d r = k.
Proof using Hd. intros. unfold ticks. symmetry. apply (Z.div_unique_pos _ d k (r - t0 - k * d)); lia. Qed.
Lemma ticks_lower k r : t0 + k * d ≤ r → k ≤ ticks t0 d r.
Proof using Hd. intros. unfold ticks. apply Z.div_le_lower_bound; lia. Qed.
Lemma ticks_next r taken : next_tick t0 d r ≤ taken → ticks t0 d r + 1 ≤ ticks t0 d taken.
Proof using Hd. intros Hr. by apply ticks_lower. Qed.

Lemma ticks_next_tick r : ticks t0 d (next_tick t0 d r) = ticks t0 d r + 1.
Proof using Hd. apply ticks_at. unfold next_tick. lia. Qed.
Lemma next_tick_next r : next_tick t0 d (next_tick t0 d r) = next_tick t0 d r + d.
Proof using Hd. unfold next_tick at 1. rewrite ticks_next_tick. unfold next_tick. lia. Qed.

(** Nothing goes backwards. *)
Definition sane (rd : round) : Prop := 0 ≤ rd_lag rd ∧ 0 ≤ rd_body rd.
(** The body is over before the next tick. *)
Definition quick (rd : round) : Prop := sane rd ∧ rd_lag rd + rd_body rd < d.

(** ** Ticks bound the calls

    The calls follow each other, and the [i]-th takes a tick of its own. *)
Lemma tick_loop_paced done rounds calls returned r t :
  Forall sane rounds → tick_loop t0 d done rounds r t = (calls, returned) →
  ∀ i b e, calls !! i = Some (b, e) →
    t ≤ b ∧ b ≤ e ∧ t0 + (ticks t0 d r + 1 + Z.of_nat i) * d ≤ b ∧
    ∀ b' e', calls !! S i = Some (b', e') → e ≤ b'.
Proof using Hd.
  intros Hs. revert calls returned r t.
  induction Hs as [|rd rounds [Hl Hb] _ IH]; intros calls returned r t; simpl; [by intros [= <- _]|].
  destruct (takes_tick _ _ _ _); [|by intros [= <- _]].
  destruct (tick_loop _ _ _ _ _ _) as [calls' returned'] eqn:Hloop. intros [= <- <-].
  specialize (IH _ _ _ _ Hloop).
  pose proof (next_tick_after r) as Hnext.
  pose proof (ticks_next r (Z.max t (next_tick t0 d r)) ltac:(lia)) as Hk.
  intros [|i] b e; simpl.
  - intros [= <- <-]. split; [lia|]. split; [lia|]. split; [unfold next_tick in *; lia|].
    intros b' e' H0. destruct (IH 0%nat b' e' H0) as (H1 & _). lia.
  - intros Hi. destruct (IH i b e Hi) as (H1 & H2 & H3 & H4). split; [lia|]. split; [done|].
    split; [|done]. nia.
Qed.

(** ** A quick body loses no tick

    Its [i]-th call begins at the [i]-th tick from the start, but for the lag. *)
Lemma tick_loop_quick done rounds calls returned r t :
  Forall quick rounds → t < next_tick t0 d r → tick_loop t0 d done rounds r t = (calls, returned) →
  ∀ i b e, calls !! i = Some (b, e) → ∃ rd, rounds !! i = Some rd ∧
    let tick := t0 + (ticks t0 d r + 1 + Z.of_nat i) * d in
    b = tick + rd_lag rd ∧ e = b + rd_body rd ∧
    match done with Some c => tick ≤ c | None => True end.
Proof using Hd.
  intros Hq. revert calls returned r t.
  induction Hq as [|rd rounds [[Hl Hb] Hlt] _ IH]; intros calls returned r t Ht; simpl;
    [by intros [= <- _]|].
  destruct (takes_tick _ _ _ _) eqn:Htake; [|by intros [= <- _]].
  rewrite Z.max_r by lia.
  destruct (tick_loop _ _ _ _ _ _) as [calls' returned'] eqn:Hloop. intros [= <- <-].
  pose proof (ticks_next_tick r) as Hk. pose proof (next_tick_next r) as Hnn.
  specialize (IH _ _ (next_tick t0 d r) (next_tick t0 d r + rd_lag rd + rd_body rd) ltac:(lia) Hloop).
  rewrite Hk in IH.
  assert (Hdone : match done with Some c => next_tick t0 d r ≤ c | None => True end).
  { destruct done as [c|]; [|done]. apply takes_tick_done in Htake; lia. }
  intros [|i] b e; simpl.
  - intros [= <- <-]. exists rd. split; [done|]. unfold next_tick in *.
    split; [lia|]. split; [done|]. destruct done; lia.
  - intros Hi. destruct (IH i b e Hi) as (rd' & Hrd & Hb' & He' & Hc'). exists rd'. split; [done|].
    split; [lia|]. split; [done|]. destruct done as [c|]; [lia|done].
Qed.

(** Every tick before the end of the context has its call, as long as there are rounds. *)
Lemma tick_loop_all done rounds r t n :
  Forall quick rounds → t < next_tick t0 d r → (n < length rounds)%nat →
  match done with Some c => t0 + (ticks t0 d r + 1 + Z.of_nat n) * d < c | None => True end →
  is_Some ((tick_loop t0 d done rounds r t).1 !! n).
Proof using Hd.
  intros Hq. revert r t n.
  induction Hq as [|rd rounds [[Hl Hb] Hlt] _ IH]; intros r t n Ht Hn Hdone; simpl in *; [lia|].
  pose proof (ticks_next_tick r) as Hk. pose proof (next_tick_next r) as Hnn.
  assert (Htake : takes_tick done rd t (next_tick t0 d r) = true).
  { unfold takes_tick. destruct done as [c|]; [|done]. cbv zeta.
    rewrite (proj2 (Z.ltb_lt _ _)); [done|]. unfold next_tick in *. nia. }
  rewrite Htake, Z.max_r by lia.
  destruct n as [|n]; [by destruct (tick_loop _ _ _ _ _ _)|].
  specialize (IH (next_tick t0 d r) (next_tick t0 d r + rd_lag rd + rd_body rd) n).
  destruct (tick_loop _ _ _ _ _ _) as [calls returned]. simpl in *. apply IH; [lia|lia|].
  rewrite Hk. destruct done; [|done]. lia.
Qed.

(** ** The loop ends

    With a quick body it has returned before the first tick after the end of the
    context. *)
Lemma tick_loop_returns c rounds r t :
  Forall quick rounds → t < next_tick t0 d r →
  c < t0 + (ticks t0 d r + Z.of_nat (length rounds)) * d → rounds ≠ [] →
  (tick_loop t0 d (Some c) rounds r t).2 = true.
Proof using Hd.
  intros Hq. revert r t.
  induction Hq as [|rd rounds [[Hl Hb] Hlt] _ IH]; intros r t Ht Hc Hne; [done|]. simpl in *.
  destruct (takes_tick (Some c) rd t _) eqn:Htake; [|done]. rewrite Z.max_r by lia.
  assert (Hdone : next_tick t0 d r ≤ c).
  { apply takes_tick_done in Htake; lia. }
  pose proof (ticks_next_tick r) as Hk. pose proof (next_tick_next r) as Hnn.
  assert (Hrest : (tick_loop t0 d (Some c) rounds (next_tick t0 d r)
    (next_tick t0 d r + rd_lag rd + rd_body rd)).2 = true).
  { apply IH.
    - lia.
    - rewrite Hk. lia.
    - intros ->. simpl in Hc. unfold next_tick in Hdone. lia. }
  by destruct (tick_loop t0 d (Some c) rounds _ _).
Qed.
(** What has returned did so at the end of the context: no later tick was taken, and the
    next one is not due before. *)
Lemma tick_loop_returned c rounds calls r t :
  Forall quick rounds → t < next_tick t0 d r →
  tick_loop t0 d (Some c) rounds r t = (calls, true) →
  c ≤ t0 + (ticks t0 d r + 1 + Z.of_nat (length calls)) * d.
Proof using Hd.
  intros Hq. revert calls r t.
  induction Hq as [|rd rounds [[Hl Hb] Hlt] _ IH]; intros calls r t Ht; simpl; [done|].
  destruct (takes_tick _ _ _ _) eqn:Htake.
  - rewrite Z.max_r by lia. destruct (tick_loop _ _ _ _ _ _) as [calls' returned'] eqn:Hloop.
    intros [= <- ->].
    pose proof (IH _ _ _ (ltac:(rewrite next_tick_next; lia) :
      next_tick t0 d r + rd_lag rd + rd_body rd < next_tick t0 d (next_tick t0 d r)) Hloop) as H.
    rewrite ticks_next_tick in H. simpl length. lia.
  - intros [= <-]. simpl. apply leaves_tick_done in Htake. unfold next_tick in *. lia.
Qed.
End ticker.
