(* ===== verification/Domain.v ===== *)
(** * internal/domain: workflows, runs, jobs

    The Go structs as records, field by field; a struct's field [F] is the
    projection [<struct>_F].  The status types are Go [string] types whose
    constants do not exhaust the values a field can hold, so they stay strings.
    [map[string]string] is a [gmap]; a nil map and an empty one, which the
    program never tells apart, are both [∅]. *)

From S2P Require Import Prelude GoLib.

(** ** types.go: status constants *)

Abbreviation TaskStatus := string (only parsing).
Definition TaskStatusPending : TaskStatus := "PENDING".
Definition TaskStatusRunning : TaskStatus := "RUNNING".
Definition TaskStatusSuccess : TaskStatus := "SUCCESS".
Definition TaskStatusFailed : TaskStatus := "FAILED".
Definition TaskStatusSkipped : TaskStatus := "SKIPPED".

Abbreviation RunStatus := string (only parsing).
Definition RunStatusPending : RunStatus := "PENDING".
Definition RunStatusRunning : RunStatus := "RUNNING".
Definition RunStatusSuccess : RunStatus := "SUCCESS".
Definition RunStatusFailed : RunStatus := "FAILED".
Definition RunStatusCancelled : RunStatus := "CANCELLED".

Abbreviation CompensationStatus := string (only parsing).
Definition CompensationStatusNotRequired : CompensationStatus := "NOT_REQUIRED".
Definition CompensationStatusSuccess : CompensationStatus := "SUCCESS".
Definition CompensationStatusFailed : CompensationStatus := "FAILED".
Definition CompensationStatusSkipped : CompensationStatus := "SKIPPED".

Abbreviation RunJobStatus := string (only parsing).
Definition RunJobStatusQueued : RunJobStatus := "QUEUED".
Definition RunJobStatusLeased : RunJobStatus := "LEASED".
Definition RunJobStatusSucceeded : RunJobStatus := "SUCCEEDED".
Definition RunJobStatusFailed : RunJobStatus := "FAILED".
Definition RunJobStatusDead : RunJobStatus := "DEAD_LETTER".
Definition RunJobStatusCancelled : RunJobStatus := "CANCELLED".

(** ** types.go: workflows *)

Record RetryPolicy := mkRetryPolicy {
  retry_MaxAttempts : Z;
  retry_BackoffBase : duration;
}.

Record CompensationSpec := mkCompensationSpec {
  comp_Action : string;
  comp_Input : gmap string string;
  comp_Timeout : duration;
}.

Record TaskNode := mkTaskNode {
  task_ID : string;
  task_Name : string;
  task_Action : string;
  task_Input : gmap string string;
  task_DependsOn : list string;
  task_Condition : string;
  task_RunAfter : duration;
  task_Timeout : duration;
  task_RetryPolicy : RetryPolicy;
  task_AllowFailure : bool;
  task_Compensation : CompensationSpec;
}.
#[export] Instance TaskNode_settable : Settable TaskNode := λ t,
  mkTaskNode (task_ID t) (task_Name t) (task_Action t) (task_Input t)
    (task_DependsOn t) (task_Condition t) (task_RunAfter t) (task_Timeout t)
    (task_RetryPolicy t) (task_AllowFailure t) (task_Compensation t).

Record Workflow := mkWorkflow {
  wf_ID : string;
  wf_Name : string;
  wf_Description : string;
  wf_Version : string;
  wf_MaxConcurrency : Z;
  wf_FailFast : bool;
  wf_CompensateOnFailure : bool;
  wf_Timeout : duration;
  wf_Tasks : list TaskNode;
}.
#[export] Instance Workflow_settable : Settable Workflow := λ w,
  mkWorkflow (wf_ID w) (wf_Name w) (wf_Description w) (wf_Version w)
    (wf_MaxConcurrency w) (wf_FailFast w) (wf_CompensateOnFailure w)
    (wf_Timeout w) (wf_Tasks w).

(** ** types.go: runs *)

Record TaskResult := mkTaskResult {
  res_TaskID : string;
  res_Status : TaskStatus;
  res_StartedAt : time;
  res_FinishedAt : time;
  res_Attempts : Z;
  res_Duration : duration;
  res_Output : string;
  res_Error : string;
  res_UpstreamRef : list string;
}.
#[export] Instance TaskResult_settable : Settable TaskResult := λ r,
  mkTaskResult (res_TaskID r) (res_Status r) (res_StartedAt r) (res_FinishedAt r)
    (res_Attempts r) (res_Duration r) (res_Output r) (res_Error r)
    (res_UpstreamRef r).
(** [domain.TaskResult{}] *)
Definition TaskResult_zero : TaskResult :=
  mkTaskResult "" "" time_zero time_zero 0 0 "" "" [].

Record Run := mkRun {
  run_ID : string;
  run_WorkflowID : string;
  run_RequestID : string;
  run_Status : RunStatus;
  run_CompensationStatus : CompensationStatus;
  run_CompensationResults : list TaskResult;
  run_StartedAt : time;
  run_FinishedAt : time;
  run_Duration : duration;
  run_Results : gmap string TaskResult;
  run_Error : string;
}.
#[export] Instance Run_settable : Settable Run := λ r,
  mkRun (run_ID r) (run_WorkflowID r) (run_RequestID r) (run_Status r)
    (run_CompensationStatus r) (run_CompensationResults r) (run_StartedAt r)
    (run_FinishedAt r) (run_Duration r) (run_Results r) (run_Error r).
Definition Run_zero : Run :=
  mkRun "" "" "" "" "" [] time_zero time_zero 0 ∅ "".

Record ScheduleConfig := mkScheduleConfig {
  sched_WorkflowID : string;
  sched_Interval : duration;
  sched_Cron : string;
  sched_RunOnStartup : bool;
  sched_AllowOverlap : bool;
}.

(** ** types.go: the run queue *)

Record RunQueueJob := mkRunQueueJob {
  job_ID : string;
  job_WorkflowID : string;
  job_RunID : string;
  job_RequestID : string;
  job_Status : RunJobStatus;
  job_Attempts : Z;
  job_MaxAttempts : Z;
  job_LastError : string;
  job_LeaseOwner : string;
  job_LeaseUntil : time;
  job_AvailableAt : time;
  job_ReplayCount : Z;
  job_ReplayedBy : string;
  job_ReplayReason : string;
  job_ReplayedAt : time;
  job_CreatedAt : time;
  job_UpdatedAt : time;
}.
#[export] Instance RunQueueJob_settable : Settable RunQueueJob := λ j,
  mkRunQueueJob (job_ID j) (job_WorkflowID j) (job_RunID j) (job_RequestID j)
    (job_Status j) (job_Attempts j) (job_MaxAttempts j) (job_LastError j)
    (job_LeaseOwner j) (job_LeaseUntil j) (job_AvailableAt j) (job_ReplayCount j)
    (job_ReplayedBy j) (job_ReplayReason j) (job_ReplayedAt j) (job_CreatedAt j)
    (job_UpdatedAt j).

Record RunJobTransition := mkRunJobTransition {
  tr_JobID : string;
  tr_FromStatus : RunJobStatus;
  tr_ToStatus : RunJobStatus;
  tr_Reason : string;
  tr_Actor : string;
  tr_CreatedAt : time;
}.

#[export] Instance RetryPolicy_eq_dec : EqDecision RetryPolicy.
Proof. solve_decision. Defined.
#[export] Instance CompensationSpec_eq_dec : EqDecision CompensationSpec.
Proof. solve_decision. Defined.
#[export] Instance TaskNode_eq_dec : EqDecision TaskNode.
Proof. solve_decision. Defined.
#[export] Instance Workflow_eq_dec : EqDecision Workflow.
Proof. solve_decision. Defined.
#[export] Instance TaskResult_eq_dec : EqDecision TaskResult.
Proof. solve_decision. Defined.
#[export] Instance Run_eq_dec : EqDecision Run.
Proof. solve_decision. Defined.
#[export] Instance ScheduleConfig_eq_dec : EqDecision ScheduleConfig.
Proof. solve_decision. Defined.
#[export] Instance RunQueueJob_eq_dec : EqDecision RunQueueJob.
Proof. solve_decision. Defined.
#[export] Instance RunJobTransition_eq_dec : EqDecision RunJobTransition.
Proof. solve_decision. Defined.

(** The status constants are distinct: [done_status] closes goals and
    contradictory hypotheses between them. *)
Ltac unfold_status :=
  unfold TaskStatusPending, TaskStatusRunning, TaskStatusSuccess,
    TaskStatusFailed, TaskStatusSkipped, RunStatusPending, RunStatusRunning,
    RunStatusSuccess, RunStatusFailed, RunStatusCancelled,
    RunJobStatusQueued, RunJobStatusLeased, RunJobStatusSucceeded,
    RunJobStatusFailed, RunJobStatusDead, RunJobStatusCancelled,
    CompensationStatusNotRequired, CompensationStatusSuccess,
    CompensationStatusFailed, CompensationStatusSkipped in *.
Ltac done_status := unfold_status; congruence.
