(* ===== verification/Graph.v ===== *)
(** * internal/engine/graph.go: workflow validation

    [ValidateWorkflow], [validateConditionReference] and [hasCycle] with its
    depth-first search.  The search recurses on the graph, so it takes fuel;
    [hasCycle] supplies one more than the number of nodes, which
    [dfs_total] shows to be enough: every nested call marks a new node.  The
    search ranges over the adjacency map, so [hasCycle] takes the iteration
    order; [hasCycle_correct] shows that the answer does not depend on it. *)

From S2P Require Import Prelude GoLib Domain.

(** ** Definitions *)

Definition validateConditionReference `{!Quote} (task : TaskNode)
    (tasksByID : gmap string TaskNode) : result unit :=
  let condition := TrimSpace (task_Condition task) in
  if bool_decide (condition = "") || bool_decide (condition = "always") then Ok tt else
  let requireTaskExists (prefix : string) : result unit :=
    let taskID := TrimSpace (TrimPrefix condition prefix) in
    if bool_decide (taskID = "") then
      Err ("task " +:+ task_ID task +:+ " has invalid condition syntax")
    else
      match tasksByID !! taskID with
      | None => Err ("task " +:+ task_ID task +:+ " condition references unknown task " +:+ taskID)
      | Some _ => Ok tt
      end in
  if HasPrefix condition "on_success:" then requireTaskExists "on_success:" else
  if HasPrefix condition "on_failed:" then requireTaskExists "on_failed:" else
  if HasPrefix condition "output_contains:" then
    match SplitN2 (TrimPrefix condition "output_contains:") ":" with
    | [part0; _] =>
        if bool_decide (TrimSpace part0 = "") then
          Err ("task " +:+ task_ID task +:+ " has invalid condition syntax")
        else
          match tasksByID !! TrimSpace part0 with
          | None => Err ("task " +:+ task_ID task +:+ " condition references unknown task "
                           +:+ TrimSpace part0)
          | Some _ => Ok tt
          end
    | _ => Err ("task " +:+ task_ID task +:+ " has invalid condition syntax")
    end
  else Err ("task " +:+ task_ID task +:+ " has unsupported condition " +:+ quote condition).

(** The three colours of [hasCycle]. *)
Definition unvisited : Z := 0.
Definition visiting : Z := 1.
Definition visited : Z := 2.

(** [adj]: for each node the tasks that depend on it. *)
Definition add_dep (id : string) (adj : gmap string (list string)) (dep : string) :=
  <[dep := default [] (adj !! dep) ++ [id]]> adj.
Definition add_task (adj : gmap string (list string)) (t : TaskNode) :=
  let adj := foldl (add_dep (task_ID t)) adj (task_DependsOn t) in
  match adj !! task_ID t with
  | Some _ => adj
  | None => <[task_ID t := []]> adj
  end.
Definition build_adj (tasks : list TaskNode) : gmap string (list string) :=
  foldl add_task ∅ tasks.

(** [state[n]]: a Go map yields 0 for an absent key. *)
Definition color (state : gmap string Z) (n : string) : Z := default unvisited (state !! n).
Definition succs (adj : gmap string (list string)) (n : string) : list string :=
  default [] (adj !! n).

(** [for _, next := range adj[node] { if dfs(next) { return true } }] *)
Fixpoint dfs_range (dfs : string → gmap string Z → option (bool * gmap string Z))
    (l : list string) (state : gmap string Z) : option (bool * gmap string Z) :=
  match l with
  | [] => Some (false, state)
  | next :: l =>
      match dfs next state with
      | Some (false, state) => dfs_range dfs l state
      | r => r
      end
  end.
Fixpoint dfs (fuel : nat) (adj : gmap string (list string)) (node : string)
    (state : gmap string Z) : option (bool * gmap string Z) :=
  match fuel with
  | O => None
  | S fuel =>
      if Z.eqb (color state node) visiting then Some (true, state) else
      if Z.eqb (color state node) visited then Some (false, state) else
      match dfs_range (dfs fuel adj) (succs adj node) (<[node := visiting]> state) with
      | Some (false, state) => Some (false, <[node := visited]> state)
      | r => r
      end
  end.
(** [for n := range adj { if state[n] == unvisited && dfs(n) { return true } }] *)
Fixpoint dfs_all (fuel : nat) (adj : gmap string (list string)) (ns : list string)
    (state : gmap string Z) : option bool :=
  match ns with
  | [] => Some false
  | n :: ns =>
      if Z.eqb (color state n) unvisited then
        match dfs fuel adj n state with
        | None => None
        | Some (true, _) => Some true
        | Some (false, state) => dfs_all fuel adj ns state
        end
      else dfs_all fuel adj ns state
  end.
Definition hasCycle (ord : iter_order) (tasks : list TaskNode) : option bool :=
  let adj := build_adj tasks in
  dfs_all (S (size adj)) adj (iter_keys ord adj) ∅.

Section validate.
Context `{!Quote}.

Definition collect_task (t : TaskNode) (s : gset string * gmap string TaskNode) :
    result (gset string * gmap string TaskNode) :=
  let '(seen, tasksByID) := s in
  if bool_decide (task_ID t = "") then Err "task id is required" else
  if bool_decide (task_ID t ∈ seen) then Err ("duplicate task id: " +:+ task_ID t) else
  Ok ({[task_ID t]} ∪ seen, <[task_ID t := t]> tasksByID).

Definition check_dep (t : TaskNode) (tasksByID : gmap string TaskNode)
    (dep : string) (_ : unit) : result unit :=
  match tasksByID !! dep with
  | None => Err ("task " +:+ task_ID t +:+ " depends on unknown task " +:+ dep)
  | Some _ => Ok tt
  end.

Definition check_task (tasksByID : gmap string TaskNode) (t : TaskNode) (_ : unit) :
    result unit :=
  if Z.ltb (task_RunAfter t) 0 then
    Err ("task " +:+ task_ID t +:+ " has negative runAfter") else
  if bool_decide (comp_Action (task_Compensation t) = "")
     && Nat.ltb 0 (size (comp_Input (task_Compensation t))) then
    Err ("task " +:+ task_ID t +:+ " has compensation input without compensation action") else
  if Z.ltb (comp_Timeout (task_Compensation t)) 0 then
    Err ("task " +:+ task_ID t +:+ " has negative compensation timeout") else
  _ ← for_each (check_dep t tasksByID) (task_DependsOn t) tt;
  validateConditionReference t tasksByID.

(** The outer [option] is the fuel of [hasCycle]. *)
Definition ValidateWorkflow (ord : iter_order) (w : Workflow) : option (result unit) :=
  if bool_decide (wf_ID w = "") then Some (Err "workflow id is required") else
  if Nat.eqb (length (wf_Tasks w)) 0 then
    Some (Err "workflow must contain at least one task") else
  match for_each collect_task (wf_Tasks w) (∅, ∅) with
  | Err e => Some (Err e)
  | Ok (_, tasksByID) =>
      match for_each (check_task tasksByID) (wf_Tasks w) tt with
      | Err e => Some (Err e)
      | Ok _ =>
          match hasCycle ord (wf_Tasks w) with
          | None => None
          | Some true => Some (Err "workflow contains cyclic dependencies")
          | Some false => Some (Ok tt)
          end
      end
  end.
End validate.

(** ** The dependency graph *)

(** [u → v]: task [v] depends on [u]. *)
Definition dep_edge (tasks : list TaskNode) (u v : string) : Prop :=
  ∃ t, t ∈ tasks ∧ task_ID t = v ∧ u ∈ task_DependsOn t.
Definition acyclic (tasks : list TaskNode) : Prop := ∀ n, ¬ tc (dep_edge tasks) n n.

Lemma add_dep_fold id deps adj u v :
  v ∈ succs (foldl (add_dep id) adj deps) u ↔ v ∈ succs adj u ∨ (v = id ∧ u ∈ deps).
Proof.
  revert adj; induction deps as [|d deps IH]; intros adj; simpl.
  { rewrite elem_of_nil. naive_solver. }
  rewrite IH, elem_of_cons. unfold succs, add_dep.
  destruct (decide (u = d)) as [->|Hne].
  - rewrite lookup_insert_eq. simpl. rewrite elem_of_app, list_elem_of_singleton. naive_solver.
  - rewrite lookup_insert_ne by done. naive_solver.
Qed.
Lemma add_dep_fold_dom id deps adj n :
  is_Some (foldl (add_dep id) adj deps !! n) ↔ is_Some (adj !! n) ∨ n ∈ deps.
Proof.
  revert adj; induction deps as [|d deps IH]; intros adj; simpl.
  { rewrite elem_of_nil. naive_solver. }
  rewrite IH, elem_of_cons. unfold add_dep. rewrite lookup_insert_is_Some'. naive_solver.
Qed.
Lemma add_task_succs adj t u v :
  v ∈ succs (add_task adj t) u ↔ v ∈ succs adj u ∨ (v = task_ID t ∧ u ∈ task_DependsOn t).
Proof.
  rewrite <-add_dep_fold. unfold add_task. set (adj' := foldl _ adj _).
  destruct (adj' !! task_ID t) eqn:E; [done|].
  unfold succs. destruct (decide (u = task_ID t)) as [->|Hne].
  - by rewrite lookup_insert_eq, E.
  - by rewrite lookup_insert_ne.
Qed.
Lemma add_task_dom adj t n :
  is_Some (add_task adj t !! n) ↔ is_Some (adj !! n) ∨ n ∈ task_DependsOn t ∨ n = task_ID t.
Proof.
  pose proof (add_dep_fold_dom (task_ID t) (task_DependsOn t) adj) as Hd.
  unfold add_task. set (adj' := foldl _ adj _) in *.
  destruct (adj' !! task_ID t) eqn:E.
  - rewrite Hd. split; [naive_solver|]. intros [?|[?| ->]]; [by auto..|].
    apply Hd. by rewrite E.
  - rewrite lookup_insert_is_Some', Hd. naive_solver.
Qed.

Lemma build_adj_succs tasks u v : v ∈ succs (build_adj tasks) u ↔ dep_edge tasks u v.
Proof.
  unfold build_adj, dep_edge. induction tasks as [|t tasks IH] using rev_ind; simpl.
  { unfold succs. rewrite lookup_empty. simpl. setoid_rewrite elem_of_nil. naive_solver. }
  rewrite foldl_app. simpl. rewrite add_task_succs, IH.
  setoid_rewrite elem_of_app. setoid_rewrite list_elem_of_singleton. naive_solver.
Qed.
Lemma build_adj_dom_task tasks t :
  t ∈ tasks → is_Some (build_adj tasks !! task_ID t).
Proof.
  unfold build_adj. induction tasks as [|t' tasks IH] using rev_ind; simpl.
  { by rewrite elem_of_nil. }
  rewrite foldl_app, elem_of_app, list_elem_of_singleton. simpl. rewrite add_task_dom.
  naive_solver.
Qed.

(** ** Soundness of the search

    [settled]: the visited nodes are closed under [adj] and lie on no cycle.
    The nodes being visited are the search stack: each reaches the current node,
    so meeting one again closes a cycle. *)

Section dfs_sound.
Context (adj : gmap string (list string)).
Let edge (u v : string) : Prop := v ∈ succs adj u.

Definition palette (state : gmap string Z) : Prop :=
  ∀ v, color state v = unvisited ∨ color state v = visiting ∨ color state v = visited.
Record settled (state : gmap string Z) : Prop := {
  settled_palette : palette state;
  settled_closed u v : color state u = visited → edge u v → color state v = visited;
  settled_acyclic u : color state u = visited → ¬ tc edge u u;
}.
Record extends (state state' : gmap string Z) : Prop := {
  extends_stack v : color state' v = visiting ↔ color state v = visiting;
  extends_visited v : color state v = visited → color state' v = visited;
}.

Lemma color_insert state n c v :
  color (<[n := c]> state) v = if decide (n = v) then c else color state v.
Proof. unfold color. rewrite lookup_insert. by case_decide. Qed.

Lemma extends_refl state : extends state state.
Proof. by split. Qed.
Lemma extends_trans s1 s2 s3 : extends s1 s2 → extends s2 s3 → extends s1 s3.
Proof.
  intros [H1 H1'] [H2 H2']; split; [|auto]. intros v. by rewrite H2, H1.
Qed.

Lemma settled_closed_tc state u v :
  settled state → color state u = visited → tc edge u v → color state v = visited.
Proof.
  intros Hs Hu Htc. revert Hu.
  induction Htc as [u v He|u v w He _ IH]; intros Hu;
    [|apply IH]; by eapply settled_closed.
Qed.
Lemma settled_mark state n :
  settled state → color state n ≠ visited → settled (<[n := visiting]> state).
Proof.
  intros [Hp Hc Ha] Hn. split.
  - intros v. rewrite color_insert. case_decide; [auto|apply Hp].
  - intros u v. rewrite !color_insert.
    destruct (decide (n = u)) as [|Hu]; [done|]. intros Hvis He.
    specialize (Hc u v Hvis He). destruct (decide (n = v)) as [<-|]; done.
  - intros u. rewrite color_insert. case_decide; [done|apply Ha].
Qed.
(** A node whose successors are all visited, and which was on the stack
    meanwhile, can be visited too. *)
Lemma settled_finish state n :
  settled state → color state n = visiting →
  (∀ v, edge n v → color state v = visited) → settled (<[n := visited]> state).
Proof.
  intros Hs Hn Hsucc. destruct (id Hs) as [Hp Hc Ha]. split.
  - intros v. rewrite color_insert. case_decide; [auto|apply Hp].
  - intros u v. rewrite !color_insert.
    destruct (decide (n = v)) as [|Hv]; [done|].
    destruct (decide (n = u)) as [<-|Hu]; [intros _; apply Hsucc|apply Hc].
  - intros u. rewrite color_insert. case_decide as Hu; [subst u|apply Ha].
    intros _ Htc. assert (color state n = visited) as Hbad; [|by rewrite Hn in Hbad].
    inversion Htc as [x y He|x y z He Htc']; subst; [by apply Hsucc|].
    by eapply settled_closed_tc; [| |exact Htc']; [|apply Hsucc].
Qed.

Definition dfs_post (b : bool) (state state' : gmap string Z) (ns : list string) : Prop :=
  if b then ∃ n, tc edge n n
  else settled state' ∧ extends state state' ∧ ∀ n, n ∈ ns → color state' n = visited.

Lemma dfs_range_sound call node l state b state' :
  (∀ n st b st', settled st → (∀ u, color st u = visiting → tc edge u n) →
     call n st = Some (b, st') → dfs_post b st st' [n]) →
  settled state → (∀ v, v ∈ l → edge node v) →
  (∀ u, color state u = visiting → u = node ∨ tc edge u node) →
  dfs_range call l state = Some (b, state') → dfs_post b state state' l.
Proof.
  intros Hcall. revert state; induction l as [|n l IH]; intros state Hs Hl Hst Hr; simpl in Hr.
  { injection Hr as <- <-. split; [done|]. split; [apply extends_refl|].
    intros n Hn. by apply elem_of_nil in Hn. }
  destruct (call n state) as [[b1 st1]|] eqn:Ec; [|done].
  assert (He : edge node n) by (apply Hl; set_solver).
  assert (Hn : ∀ u, color state u = visiting → tc edge u n).
  { intros u [->|Hu]%Hst; [by apply tc_once|by eapply tc_r]. }
  pose proof (Hcall _ _ _ _ Hs Hn Ec) as Hpost.
  destruct b1; [by injection Hr as <- <-|]. destruct Hpost as (Hs1 & Hx1 & Hv1).
  pose proof (IH st1 Hs1 (λ v Hv, Hl v (list_elem_of_further _ _ _ Hv))
    (λ u Hu, Hst u (proj1 (extends_stack _ _ Hx1 u) Hu)) Hr) as Hpost.
  destruct b; [done|]. destruct Hpost as (Hs2 & Hx2 & Hv2).
  split; [done|]. split; [by eapply extends_trans|].
  intros v [->|Hv]%elem_of_cons; [|by apply Hv2].
  apply Hx2, Hv1. set_solver.
Qed.

Lemma dfs_sound fuel node state b state' :
  settled state → (∀ u, color state u = visiting → tc edge u node) →
  dfs fuel adj node state = Some (b, state') → dfs_post b state state' [node].
Proof.
  revert node state b state'; induction fuel as [|fuel IH];
    intros node state b state' Hs Hst Hd; simpl in Hd; [done|].
  destruct (Z.eqb_spec (color state node) visiting) as [Hv|Hnv].
  { injection Hd as <- <-. exists node. by apply Hst. }
  destruct (Z.eqb_spec (color state node) visited) as [Hv|Hnv'].
  { injection Hd as <- <-. split; [done|]. split; [apply extends_refl|].
    intros n ->%list_elem_of_singleton. done. }
  set (st1 := <[node := visiting]> state) in *.
  destruct (dfs_range _ _ st1) as [[b2 st2]|] eqn:Er; [|done].
  assert (Hpost : dfs_post b2 st1 st2 (succs adj node)).
  { eapply dfs_range_sound; [exact IH|by apply settled_mark|done| |exact Er].
    intros u. unfold st1. rewrite color_insert. case_decide; auto. }
  destruct b2; [by injection Hd as <- <-|]. injection Hd as <- <-.
  destruct Hpost as (Hs2 & [Hstk Hvis] & Hsucc).
  assert (Hn2 : color st2 node = visiting).
  { apply Hstk. unfold st1. by rewrite color_insert, decide_True. }
  split; [by apply settled_finish|]. split; [split|].
  - intros v. rewrite color_insert. case_decide as Hnode; [subst v; split; [done|]; by intros ?%Hnv|].
    rewrite Hstk. unfold st1. by rewrite color_insert, decide_False.
  - intros v Hv. rewrite color_insert. case_decide as Hnode; [done|]. apply Hvis.
    unfold st1. by rewrite color_insert, decide_False.
  - intros v ->%list_elem_of_singleton. by rewrite color_insert, decide_True.
Qed.

Lemma dfs_all_sound fuel ns state b :
  settled state → (∀ u, color state u ≠ visiting) →
  dfs_all fuel adj ns state = Some b →
  if b then ∃ n, tc edge n n else ∀ n, n ∈ ns → ¬ tc edge n n.
Proof.
  cut (settled state → (∀ u, color state u ≠ visiting) →
    dfs_all fuel adj ns state = Some b →
    if b then ∃ n, tc edge n n else
      ∀ n, n ∈ ns ∨ color state n = visited → ¬ tc edge n n).
  { intros Hcut Hs Hst Hd. specialize (Hcut Hs Hst Hd). destruct b; eauto. }
  revert state; induction ns as [|n ns IH]; intros state Hs Hst Hd; simpl in Hd.
  { injection Hd as <-. intros n [Hn|Hn]; [by apply elem_of_nil in Hn|by apply Hs]. }
  destruct (Z.eqb_spec (color state n) unvisited) as [Hu|Hu].
  - destruct (dfs fuel adj n state) as [[b1 st1]|] eqn:Ed; [|done].
    pose proof (dfs_sound _ _ _ _ _ Hs (λ u Hu, False_ind _ (Hst u Hu)) Ed) as Hpost.
    destruct b1; [by injection Hd as <-|]. destruct Hpost as (Hs1 & Hx1 & Hv1).
    specialize (IH st1 Hs1 (λ u Hu, Hst u (proj1 (extends_stack _ _ Hx1 u) Hu)) Hd).
    destruct b; [done|]. intros m [[->|Hm]%elem_of_cons|Hm]; apply IH; [|by left|].
    + right. apply Hv1. set_solver.
    + right. by apply Hx1.
  - specialize (IH state Hs Hst Hd). destruct b; [done|].
    intros m [[->|Hm]%elem_of_cons|Hm]; apply IH; [|by left|by right]. right.
    destruct (settled_palette _ Hs n) as [?|[?|?]]; [done| |done]. by destruct (Hst n).
Qed.
End dfs_sound.

(** ** Termination of the search

    [unmarked]: the nodes not yet visited or being visited.  A nested call marks
    its node first, so the number of unmarked nodes bounds the recursion. *)

Section dfs_total.
Context (adj : gmap string (list string)).
Hypothesis adj_closed : ∀ u v, v ∈ succs adj u → v ∈ dom adj.

Definition marked (state : gmap string Z) (n : string) : Prop :=
  color state n = visiting ∨ color state n = visited.
#[local] Instance marked_dec state n : Decision (marked state n).
Proof. unfold marked. apply _. Defined.
Definition unmarked (state : gmap string Z) : gset string :=
  filter (λ n, ¬ marked state n) (dom adj).

Lemma unmarked_mark state n c :
  c = visiting ∨ c = visited → n ∈ dom adj → ¬ marked state n →
  size (unmarked (<[n := c]> state)) < size (unmarked state).
Proof.
  intros Hc Hn Hm. apply subset_size. split.
  - intros v. unfold unmarked. rewrite !elem_of_filter. unfold marked.
    rewrite color_insert. case_decide; [|done]. naive_solver.
  - intros Hsub. assert (n ∈ unmarked state) as Hin%Hsub.
    { unfold unmarked. by rewrite elem_of_filter. }
    unfold unmarked in Hin. apply elem_of_filter in Hin as [Hin _]. apply Hin.
    unfold marked. rewrite color_insert, decide_True by done. naive_solver.
Qed.
Lemma unmarked_mono state n c :
  c = visiting ∨ c = visited → unmarked (<[n := c]> state) ⊆ unmarked state.
Proof.
  intros Hc v. unfold unmarked, marked. rewrite !elem_of_filter, color_insert.
  case_decide; naive_solver.
Qed.

Lemma dfs_range_total call l state :
  (∀ n st, n ∈ l → unmarked st ⊆ unmarked state →
     ∃ b st', call n st = Some (b, st') ∧ unmarked st' ⊆ unmarked st) →
  ∃ b st', dfs_range call l state = Some (b, st') ∧ unmarked st' ⊆ unmarked state.
Proof.
  clear adj_closed.
  revert state; induction l as [|n l IH]; intros state Hcall; simpl; [eauto|].
  destruct (Hcall n state) as (b & st1 & -> & Hst1); [set_solver..|].
  destruct b; [eauto|].
  destruct (IH st1) as (b & st2 & -> & Hst2).
  { intros m st Hm Hst. apply Hcall; set_solver. }
  exists b, st2. split; [done|]. set_solver.
Qed.

Lemma dfs_total fuel node state :
  node ∈ dom adj → size (unmarked state) < fuel →
  ∃ b st', dfs fuel adj node state = Some (b, st') ∧ unmarked st' ⊆ unmarked state.
Proof using adj_closed.
  revert node state; induction fuel as [|fuel IH]; intros node state Hn Hf; [lia|].
  simpl. destruct (Z.eqb_spec (color state node) visiting) as [|Hnv]; [eauto|].
  destruct (Z.eqb_spec (color state node) visited) as [|Hnv']; [eauto|].
  assert (Hm : ¬ marked state node) by (unfold marked; tauto).
  pose proof (unmarked_mark state node visiting (or_introl eq_refl) Hn Hm) as Hlt.
  destruct (dfs_range_total (dfs fuel adj) (succs adj node) (<[node := visiting]> state))
    as (b & st1 & -> & Hst1).
  { intros v st Hv Hst. apply IH; [by eapply adj_closed|].
    apply subseteq_size in Hst. lia. }
  pose proof (unmarked_mono state node visiting (or_introl eq_refl)).
  pose proof (unmarked_mono st1 node visited (or_intror eq_refl)).
  destruct b; eexists _, _; (split; [done|]); set_solver.
Qed.

Lemma dfs_all_total fuel ns state :
  (∀ n, n ∈ ns → n ∈ dom adj) → size (unmarked state) < fuel →
  ∃ b, dfs_all fuel adj ns state = Some b.
Proof using adj_closed.
  revert state; induction ns as [|n ns IH]; intros state Hns Hf; simpl; [eauto|].
  destruct (Z.eqb (color state n) unvisited); [|apply IH; set_solver].
  destruct (dfs_total fuel n state) as (b & st1 & -> & Hst1); [set_solver|done|].
  destruct b; [eauto|]. apply IH; [set_solver|].
  apply subseteq_size in Hst1. lia.
Qed.
End dfs_total.

Lemma build_adj_closed tasks u v :
  v ∈ succs (build_adj tasks) u → v ∈ dom (build_adj tasks).
Proof.
  intros (t & Ht & <- & _)%build_adj_succs. by apply elem_of_dom, build_adj_dom_task.
Qed.
Lemma unmarked_size adj state : size (unmarked adj state) ≤ size adj.
Proof.
  rewrite <-(size_dom adj). apply subseteq_size. unfold unmarked. set_solver.
Qed.
Lemma tc_build_adj tasks u v :
  tc (λ u v, v ∈ succs (build_adj tasks) u) u v ↔ tc (dep_edge tasks) u v.
Proof.
  split; apply tc_mono; intros x y; apply build_adj_succs.
Qed.

Lemma hasCycle_total ord tasks : ∃ b, hasCycle ord tasks = Some b.
Proof.
  apply dfs_all_total; [apply build_adj_closed| |].
  - intros n Hn. by apply elem_of_dom, (elem_of_iter_keys ord).
  - pose proof (unmarked_size (build_adj tasks) ∅). lia.
Qed.
Lemma hasCycle_sound ord tasks b :
  hasCycle ord tasks = Some b → if b then ∃ n, tc (dep_edge tasks) n n else acyclic tasks.
Proof.
  intros Hb. unfold hasCycle in Hb. apply dfs_all_sound in Hb; cycle 1.
  { split.
    - intros v. left. unfold color. by rewrite lookup_empty.
    - intros u v. unfold color at 1. by rewrite lookup_empty.
    - intros u. unfold color at 1. by rewrite lookup_empty. }
  { intros u. unfold color. by rewrite lookup_empty. }
  destruct b.
  - destruct Hb as [n Hn]. exists n. by apply tc_build_adj.
  - intros n Hn%tc_build_adj. apply (Hb n); [|done].
    apply elem_of_iter_keys. inversion Hn as [x y He|x y z He _]; subst;
      unfold succs in He; destruct (_ !! n); simpl in He; eauto;
      by apply elem_of_nil in He.
Qed.
Lemma hasCycle_iff ord tasks b :
  hasCycle ord tasks = Some b → b = true ↔ ¬ acyclic tasks.
Proof.
  intros Hb%hasCycle_sound. split; [intros ->|].
  - intros Ha. destruct Hb as [n Hn]. by apply (Ha n).
  - destruct b; [done|]. intros Hna. by destruct Hna.
Qed.

(** ** What validation establishes *)

(** A condition string that parses and names a known task. *)
Inductive condition_ok (known : string → Prop) (c : string) : Prop :=
| cond_always : c = "" ∨ c = "always" → condition_ok known c
| cond_success r : c = "on_success:" +:+ r → TrimSpace r ≠ "" → known (TrimSpace r) →
    condition_ok known c
| cond_failed r : c = "on_failed:" +:+ r → TrimSpace r ≠ "" → known (TrimSpace r) →
    condition_ok known c
| cond_output id needle : c = "output_contains:" +:+ (id +:+ (":" +:+ needle)) →
    Index (id +:+ (":" +:+ needle)) ":" = Some (String.length id) →
    TrimSpace id ≠ "" → known (TrimSpace id) → condition_ok known c.

Definition task_ids (tasks : list TaskNode) : list string := task_ID <$> tasks.

(** The tasks of a workflow that passes validation. *)
Record well_formed (tasks : list TaskNode) : Prop := {
  wellf_nonempty : tasks ≠ [];
  wellf_ids : Forall (λ t, task_ID t ≠ "") tasks;
  wellf_nodup : NoDup (task_ids tasks);
  wellf_runAfter : Forall (λ t, (0 ≤ task_RunAfter t)%Z) tasks;
  wellf_comp_input : Forall (λ t, comp_Action (task_Compensation t) = "" →
                              comp_Input (task_Compensation t) = ∅) tasks;
  wellf_comp_timeout : Forall (λ t, (0 ≤ comp_Timeout (task_Compensation t))%Z) tasks;
  wellf_deps : Forall (λ t, Forall (.∈ task_ids tasks) (task_DependsOn t)) tasks;
  wellf_conditions : Forall (λ t, condition_ok (.∈ task_ids tasks)
                              (TrimSpace (task_Condition t))) tasks;
  wellf_acyclic : acyclic tasks;
}.

Lemma condition_ok_iff (P Q : string → Prop) c :
  (∀ id, P id ↔ Q id) → condition_ok P c ↔ condition_ok Q c.
Proof.
  intros HPQ. split; destruct 1;
    (by constructor 1) || (by econstructor 2; try done; apply HPQ) ||
    (by econstructor 3; try done; apply HPQ) || (by econstructor 4; try done; apply HPQ).
Qed.

Section validate_facts.
Context `{!Quote}.

Lemma collect_task_ok l seen m :
  is_Ok (for_each collect_task l (seen, m)) ↔
  Forall (λ t, task_ID t ≠ "") l ∧ NoDup (task_ids l) ∧ ∀ id, id ∈ task_ids l → id ∉ seen.
Proof.
  revert seen m; induction l as [|t l IH]; intros seen m; simpl.
  { split; [|by eexists]. repeat split; [constructor..|]. by intros id ?%elem_of_nil. }
  rewrite Forall_cons, NoDup_cons. setoid_rewrite elem_of_cons.
  destruct (decide (task_ID t = "")) as [Ht|Ht].
  { rewrite bool_decide_true by done. split; [intros [? ?]; done|naive_solver]. }
  rewrite bool_decide_false by done.
  destruct (decide (task_ID t ∈ seen)) as [Hs|Hs].
  { rewrite bool_decide_true by done. split; [intros [? ?]; done|naive_solver]. }
  rewrite bool_decide_false by done. simpl. rewrite IH.
  setoid_rewrite not_elem_of_union. setoid_rewrite not_elem_of_singleton.
  split; [|naive_solver]. intros (? & ? & Hd). split_and!; try naive_solver.
Qed.
Lemma collect_task_lookup l seen m seen' m' :
  for_each collect_task l (seen, m) = Ok (seen', m') →
  NoDup (task_ids l) →
  (∀ t, t ∈ l → m' !! task_ID t = Some t) ∧
  (∀ id, id ∉ task_ids l → m' !! id = m !! id).
Proof.
  revert seen m; induction l as [|t l IH]; intros seen m Hl Hnd; simpl in Hl.
  { injection Hl as <- <-. split; [|done]. by intros t ?%elem_of_nil. }
  do 2 (destruct (bool_decide _); [done|]). simpl in Hl, Hnd.
  apply NoDup_cons in Hnd as [Hnt Hnd]. destruct (IH _ _ Hl Hnd) as [H1 H2]. split.
  - intros t' [->|Ht']%elem_of_cons; [|by apply H1].
    rewrite H2 by done. apply lookup_insert_eq.
  - intros id Hid. simpl in Hid. apply not_elem_of_cons in Hid as [Hne Hid].
    rewrite H2 by done. by rewrite lookup_insert_ne.
Qed.

Lemma require_ok (e1 e2 id : string) (m : gmap string TaskNode) :
  (if bool_decide (id = "") then Err e1 else
   match m !! id with None => Err e2 | Some _ => Ok tt end) = Ok tt ↔
  id ≠ "" ∧ is_Some (m !! id).
Proof.
  case_bool_decide; [naive_solver|]. destruct (m !! id); [|split; [done|by intros [_ [? ?]]]].
  split; [|done]. intros _. split; [done|by eexists].
Qed.

Lemma validateConditionReference_spec t m :
  validateConditionReference t m = Ok tt ↔
  condition_ok (λ id, is_Some (m !! id)) (TrimSpace (task_Condition t)).
Proof.
  unfold validateConditionReference. set (c := TrimSpace (task_Condition t)). clearbody c.
  cbv zeta. split.
  - destruct (bool_decide (c = "") || bool_decide (c = "always")) eqn:E0.
    { intros _. apply cond_always. rewrite orb_true_iff, !bool_decide_eq_true in E0. done. }
    destruct (HasPrefix c "on_success:") eqn:E1.
    { apply HasPrefix_spec in E1 as [r ->]. rewrite TrimPrefix_app, require_ok.
      intros [? ?]. by eapply cond_success. }
    destruct (HasPrefix c "on_failed:") eqn:E2.
    { apply HasPrefix_spec in E2 as [r ->]. rewrite TrimPrefix_app, require_ok.
      intros [? ?]. by eapply cond_failed. }
    destruct (HasPrefix c "output_contains:") eqn:E3; [|done].
    apply HasPrefix_spec in E3 as [r ->]. rewrite TrimPrefix_app. unfold SplitN2.
    destruct (Index r ":") as [i|] eqn:Ei; [|done]. rewrite require_ok. intros [? ?].
    pose proof (Index_Some _ _ _ Ei) as Hr.
    eapply (cond_output _ _ (str_take i r) (str_drop (i + String.length ":") r)); [by f_equal| |done..].
    rewrite <-Hr, Ei. f_equal. apply Index_le in Ei. clear -Ei.
    revert r Ei; induction i as [|i IH]; intros [|x r] Hi; simpl in *; try lia.
    f_equal. apply IH. lia.
  - destruct 1 as [[-> | ->]|r -> Hne Hk|r -> Hne Hk|id needle -> Hi Hne Hk]; [done..| | |].
    + rewrite HasPrefix_app, TrimPrefix_app.
      rewrite bool_decide_false by done. rewrite bool_decide_false by done.
      by apply require_ok.
    + change (HasPrefix _ "on_success:") with false.
      rewrite HasPrefix_app, TrimPrefix_app.
      rewrite bool_decide_false by done. rewrite bool_decide_false by done.
      by apply require_ok.
    + change (HasPrefix _ "on_success:") with false.
      change (HasPrefix _ "on_failed:") with false.
      rewrite HasPrefix_app, TrimPrefix_app.
      rewrite bool_decide_false by done. rewrite bool_decide_false by done.
      unfold SplitN2. rewrite Hi, str_take_app. by apply require_ok.
Qed.

Lemma check_dep_ok t m deps :
  for_each (check_dep t m) deps tt = Ok tt ↔ Forall (λ d, is_Some (m !! d)) deps.
Proof.
  rewrite for_each_check. apply Forall_proper; [|done]. intros d. unfold check_dep.
  destruct (m !! d); split; by (done || eexists || intros []).
Qed.

Lemma check_task_ok m t :
  check_task m t tt = Ok tt ↔
  (0 ≤ task_RunAfter t)%Z ∧
  (comp_Action (task_Compensation t) = "" → comp_Input (task_Compensation t) = ∅) ∧
  (0 ≤ comp_Timeout (task_Compensation t))%Z ∧
  Forall (λ d, is_Some (m !! d)) (task_DependsOn t) ∧
  condition_ok (λ id, is_Some (m !! id)) (TrimSpace (task_Condition t)).
Proof.
  unfold check_task.
  destruct (Z.ltb_spec (task_RunAfter t) 0); [split; [done|lia]|].
  destruct (bool_decide _ && _) eqn:E.
  { apply andb_true_iff in E as [E1%bool_decide_eq_true E2%Nat.ltb_lt].
    split; [done|]. intros (_ & Hi & _). rewrite Hi, map_size_empty in E2 by done. lia. }
  assert (Hi : comp_Action (task_Compensation t) = "" → comp_Input (task_Compensation t) = ∅).
  { intros Ha. rewrite bool_decide_true in E by done. simpl in E. apply Nat.ltb_ge in E.
    apply map_size_empty_inv. lia. }
  destruct (Z.ltb_spec (comp_Timeout (task_Compensation t)) 0); [split; [done|lia]|].
  rewrite <-validateConditionReference_spec, <-(check_dep_ok t).
  destruct (for_each _ _ _) as [[]|e]; simpl; naive_solver.
Qed.

Lemma ValidateWorkflow_total ord w : ∃ r, ValidateWorkflow ord w = Some r.
Proof.
  unfold ValidateWorkflow. case_bool_decide; [eauto|]. destruct (Nat.eqb _ _); [eauto|].
  destruct (for_each _ _ (∅, ∅)) as [[seen m]|]; [|eauto].
  destruct (for_each _ _ tt); [|eauto].
  destruct (hasCycle_total ord (wf_Tasks w)) as [[] ->]; eauto.
Qed.

Lemma ValidateWorkflow_ok ord w :
  ValidateWorkflow ord w = Some (Ok tt) ↔ wf_ID w ≠ "" ∧ well_formed (wf_Tasks w).
Proof.
  unfold ValidateWorkflow. set (ts := wf_Tasks w). clearbody ts.
  destruct (decide (wf_ID w = "")) as [He|Hne].
  { rewrite bool_decide_true by done. naive_solver. }
  rewrite bool_decide_false by done.
  destruct (Nat.eqb_spec (length ts) 0) as [Hl|Hl].
  { split; [done|]. intros [_ [Hts _ _ _ _ _ _ _ _]]. by apply nil_length_inv in Hl. }
  pose proof (collect_task_ok ts ∅ ∅) as Hcol.
  destruct (for_each collect_task ts (∅, ∅)) as [[seen m]|e] eqn:Ec; cycle 1.
  { split; [done|]. intros [_ Hwf].
    destruct (proj2 Hcol) as [? [=]]; split_and!; [apply Hwf..|]. set_solver. }
  destruct (proj1 Hcol) as (Hids & Hnd & _); [by eexists|].
  destruct (collect_task_lookup _ _ _ _ _ Ec Hnd) as [Hm1 Hm2].
  assert (Hdom : ∀ id, is_Some (m !! id) ↔ id ∈ task_ids ts).
  { intros id. destruct (decide (id ∈ task_ids ts)) as [Hin|Hin].
    - split; [done|]. intros _. apply list_elem_of_fmap in Hin as (t & -> & Ht).
      rewrite Hm1 by done. by eexists.
    - rewrite Hm2 by done. rewrite lookup_empty. split; [by intros []|done]. }
  assert (Hck : for_each (check_task m) ts tt = Ok tt ↔
    Forall (λ t, (0 ≤ task_RunAfter t)%Z) ts ∧
    Forall (λ t, comp_Action (task_Compensation t) = "" →
                 comp_Input (task_Compensation t) = ∅) ts ∧
    Forall (λ t, (0 ≤ comp_Timeout (task_Compensation t))%Z) ts ∧
    Forall (λ t, Forall (.∈ task_ids ts) (task_DependsOn t)) ts ∧
    Forall (λ t, condition_ok (.∈ task_ids ts) (TrimSpace (task_Condition t))) ts).
  { rewrite for_each_check, <-!Forall_and. apply Forall_proper; [|done]. intros t.
    rewrite check_task_ok, (condition_ok_iff _ _ _ Hdom).
    assert (HF : Forall (λ d, is_Some (m !! d)) (task_DependsOn t) ↔
                 Forall (.∈ task_ids ts) (task_DependsOn t))
      by (apply Forall_proper; [exact Hdom|done]).
    by rewrite HF. }
  destruct (for_each (check_task m) ts tt) as [[]|e] eqn:Et; cycle 1.
  { split; [done|]. intros [_ [? ? ? ? ? ? ? ? ?]]. by destruct (proj2 Hck). }
  destruct (proj1 Hck eq_refl) as (? & ? & ? & ? & ?).
  destruct (hasCycle_total ord ts) as [b Hb]. rewrite Hb.
  pose proof (hasCycle_sound _ _ _ Hb) as Hs. destruct b; (split; [try done|]).
  - intros [_ [? ? ? ? ? ? ? ? Ha]]. destruct Hs as [n Hn]. by destruct (Ha n).
  - intros _. split; [done|]. split; try done. by intros ->.
  - done.
Qed.
End validate_facts.

(** ** The properties *)

(** Cycle detection is exact: the search always returns, and it answers [true]
    just when some task transitively depends on itself - whatever order the
    runtime iterates the adjacency map in. *)
Theorem hasCycle_correct ord tasks :
  ∃ b, hasCycle ord tasks = Some b ∧ (b = true ↔ ∃ n, tc (dep_edge tasks) n n).
Proof.
  destruct (hasCycle_total ord tasks) as [b Hb]. exists b. split; [done|].
  pose proof (hasCycle_sound _ _ _ Hb) as Hs. destruct b; [done|].
  split; [done|]. intros [n Hn]. by destruct (Hs n).
Qed.

(** C18. Validation is sound and complete: it always returns, and accepts exactly the
    workflows that have an ID and a non-empty list of tasks with unique non-empty
    IDs, known dependencies, parsable conditions on known tasks, no negative
    [RunAfter] and no negative timeout of a compensation (the timeouts of tasks and of
    the workflow are not looked at), no compensation input without an action, and no
    dependency cycle.  Neither the verdict nor the error message depends on the
    map order. *)
Theorem ValidateWorkflow_correct `{!Quote} ord w :
  ∃ r, ValidateWorkflow ord w = Some r ∧
    (r = Ok tt ↔ wf_ID w ≠ "" ∧ well_formed (wf_Tasks w)) ∧
    ∀ ord', ValidateWorkflow ord' w = Some r.
Proof.
  destruct (ValidateWorkflow_total ord w) as [r Hr]. exists r. split; [done|]. split.
  - rewrite <-(ValidateWorkflow_ok ord w), Hr. split; [by intros ->|by intros [=]].
  - intros ord'. rewrite <-Hr. unfold ValidateWorkflow.
    destruct (hasCycle_total ord (wf_Tasks w)) as [b Hb].
    destruct (hasCycle_total ord' (wf_Tasks w)) as [b' Hb'].
    assert (b' = b) as ->; [|by rewrite Hb, Hb'].
    apply hasCycle_iff in Hb, Hb'. apply eq_true_iff_eq. by rewrite Hb, Hb'.
Qed.
