(* ===== verification/Template.v ===== *)
(** * internal/engine/executor.go: conditions and input templates

    [evaluateCondition], [resolveValue] and [resolveInputTemplates].  The loop
    of [resolveValue] rescans its output after every replacement, so it need
    not terminate; the model takes fuel and answers [None] when it runs out.
    [resolveValue_terminates] gives a fuel that is enough when the fields of the
    results hold no opening brace, and [resolveValue_diverges] a field for which
    none is.  [expands] is the specification, free of fuel. *)

From S2P Require Import Prelude GoLib GoText Domain Graph.

(** ** Definitions *)

Definition evaluateCondition (task : TaskNode) (results : gmap string TaskResult) :
    bool * string :=
  let condition := TrimSpace (task_Condition task) in
  if bool_decide (condition = "") || bool_decide (condition = "always") then (true, "") else
  let with_status (prefix : string) (status : TaskStatus) : bool * string :=
    let taskID := TrimSpace (TrimPrefix condition prefix) in
    match results !! taskID with
    | Some res =>
        if bool_decide (res_Status res = status) then (true, "")
        else (false, "condition not met: " +:+ condition)
    | None => (false, "condition not met: " +:+ condition)
    end in
  if HasPrefix condition "on_success:" then with_status "on_success:" TaskStatusSuccess else
  if HasPrefix condition "on_failed:" then with_status "on_failed:" TaskStatusFailed else
  if HasPrefix condition "output_contains:" then
    match SplitN2 (TrimPrefix condition "output_contains:") ":" with
    | [part0; needle] =>
        let taskID := TrimSpace part0 in
        match results !! taskID with
        | Some res =>
            if Contains (res_Output res) needle then (true, "")
            else (false, "condition not met: " +:+ condition)
        | None => (false, "condition not met: " +:+ condition)
        end
    | _ => (false, "invalid condition syntax: " +:+ condition)
    end
  else (false, "unsupported condition: " +:+ condition).

Section resolve.
Context `{!Quote}.

(** The [switch field] of [resolveValue]. *)
Definition template_field (field : string) (res : TaskResult) : result string :=
  if bool_decide (field = "output") then Ok (res_Output res) else
  if bool_decide (field = "status") then Ok (res_Status res) else
  if bool_decide (field = "error") then Ok (res_Error res) else
  Err ("unsupported template field " +:+ quote field).

(** The replacement of a template token. *)
Definition template_token (token : string) (results : gmap string TaskResult) :
    result string :=
  match Split token "." with
  | [part0; part1] =>
      let taskID := TrimSpace part0 in
      let field := TrimSpace part1 in
      match results !! taskID with
      | None => Err ("template references unknown task " +:+ quote taskID)
      | Some res => template_field field res
      end
  | _ => Err ("invalid template token " +:+ quote token)
  end.

Fixpoint resolve_loop (fuel : nat) (raw output : string)
    (results : gmap string TaskResult) : option (result string) :=
  match fuel with
  | O => None
  | S fuel =>
      match Index output "${" with
      | None => Some (Ok output)
      | Some start =>
          match Index (str_drop start output) "}" with
          | None => Some (Err ("unclosed template in input: " +:+ raw))
          | Some endRelative =>
              let last := start + endRelative in
              let token := TrimSpace
                (str_take (last - (start + 2)) (str_drop (start + 2) output)) in
              match template_token token results with
              | Err e => Some (Err e)
              | Ok replacement =>
                  resolve_loop fuel raw
                    (str_take start output +:+ (replacement +:+ str_drop (last + 1) output))
                    results
              end
          end
      end
  end.
Definition resolveValue (fuel : nat) (raw : string) (results : gmap string TaskResult) :
    option (result string) :=
  resolve_loop fuel raw raw results.

Fixpoint resolve_entries (fuel : nat) (results : gmap string TaskResult)
    (entries : list (string * string)) (resolved : gmap string string) :
    option (result (gmap string string)) :=
  match entries with
  | [] => Some (Ok resolved)
  | (k, v) :: entries =>
      match resolveValue fuel v results with
      | None => None
      | Some (Err e) => Some (Err e)
      | Some (Ok next) => resolve_entries fuel results entries (<[k := next]> resolved)
      end
  end.
Definition resolveInputTemplates (fuel : nat) (ord : iter_order)
    (input : gmap string string) (results : gmap string TaskResult) :
    option (result (gmap string string)) :=
  resolve_entries fuel results (iter ord input) ∅.
End resolve.

(** ** Conditions *)

(** The condition language, as the documentation of the workflow format reads
    it: what a condition string asks of the results so far. *)
Inductive condition_holds (results : gmap string TaskResult) (c : string) : Prop :=
| holds_always : c = "" ∨ c = "always" → condition_holds results c
| holds_success r res : c = "on_success:" +:+ r →
    results !! TrimSpace r = Some res → res_Status res = TaskStatusSuccess →
    condition_holds results c
| holds_failed r res : c = "on_failed:" +:+ r →
    results !! TrimSpace r = Some res → res_Status res = TaskStatusFailed →
    condition_holds results c
| holds_output id needle res : c = "output_contains:" +:+ (id +:+ (":" +:+ needle)) →
    Index (id +:+ (":" +:+ needle)) ":" = Some (String.length id) →
    results !! TrimSpace id = Some res → Contains (res_Output res) needle = true →
    condition_holds results c.

Lemma SplitN2_Some r i :
  Index r ":" = Some i →
  r = str_take i r +:+ (":" +:+ str_drop (i + 1) r) ∧ String.length (str_take i r) = i.
Proof.
  intros Hi. split; [exact (Index_Some _ _ _ Hi)|]. apply Index_le in Hi.
  revert r Hi; induction i as [|i IH]; intros [|x r] Hi; simpl in *; try lia.
  f_equal. apply IH. lia.
Qed.

(** The keyword a condition starts with, if any; the four cases exclude each
    other. *)
Lemma condition_cases c :
  (c = "" ∨ c = "always") ∨
  (∃ r, c = "on_success:" +:+ r) ∨ (∃ r, c = "on_failed:" +:+ r) ∨
  (∃ r, c = "output_contains:" +:+ r) ∨
  (c ≠ "" ∧ c ≠ "always" ∧ HasPrefix c "on_success:" = false ∧
   HasPrefix c "on_failed:" = false ∧ HasPrefix c "output_contains:" = false).
Proof.
  destruct (decide (c = "")); [by auto|]. destruct (decide (c = "always")); [by auto|].
  destruct (HasPrefix c "on_success:") eqn:E1.
  { apply HasPrefix_spec in E1. by auto. }
  destruct (HasPrefix c "on_failed:") eqn:E2.
  { apply HasPrefix_spec in E2. by auto. }
  destruct (HasPrefix c "output_contains:") eqn:E3.
  { apply HasPrefix_spec in E3. by auto 6. }
  by auto 10.
Qed.

Lemma on_success_not_failed r : HasPrefix ("on_failed:" +:+ r) "on_success:" = false.
Proof. done. Qed.
Lemma on_success_not_output r : HasPrefix ("output_contains:" +:+ r) "on_success:" = false.
Proof. done. Qed.
Lemma on_failed_not_output r : HasPrefix ("output_contains:" +:+ r) "on_failed:" = false.
Proof. done. Qed.
#[export] Hint Rewrite on_success_not_failed on_success_not_output on_failed_not_output
  HasPrefix_app TrimPrefix_app : sched_str.

Lemma evaluateCondition_eq task results c :
  TrimSpace (task_Condition task) = c →
  (evaluateCondition task results).1 = true ↔ condition_holds results c.
Proof.
  intros Hc. unfold evaluateCondition. rewrite Hc. cbv zeta. clear Hc.
  destruct (condition_cases c) as [[-> | ->]|[[r ->]|[[r ->]|[[r ->]|(H1 & H2 & H3 & H4 & H5)]]]].
  - split; [intros _; apply holds_always; auto|done].
  - split; [intros _; apply holds_always; auto|done].
  - autorewrite with sched_str. rewrite !bool_decide_false by done. simpl. split.
    + destruct (results !! TrimSpace r) as [res|] eqn:E; [|done].
      case_bool_decide; [|done]. intros _. by eapply holds_success.
    + destruct 1 as [[? | ?]|r' res Hr Hl Hs|r' res Hr|id n res Hr]; try discriminate.
      apply (inj (String.app _)) in Hr as <-. rewrite Hl. by rewrite bool_decide_true.
  - autorewrite with sched_str. rewrite !bool_decide_false by done. simpl. split.
    + destruct (results !! TrimSpace r) as [res|] eqn:E; [|done].
      case_bool_decide; [|done]. intros _. by eapply holds_failed.
    + destruct 1 as [[? | ?]|r' res Hr|r' res Hr Hl Hs|id n res Hr]; try discriminate.
      apply (inj (String.app _)) in Hr as <-. rewrite Hl. by rewrite bool_decide_true.
  - autorewrite with sched_str. rewrite !bool_decide_false by done. simpl. split.
    + unfold SplitN2. destruct (Index r ":") as [i|] eqn:Ei; [|done].
      destruct (results !! TrimSpace (str_take i r)) as [res|] eqn:E; [|done].
      destruct (Contains _ _) eqn:Hcont; [|done]. intros _.
      destruct (SplitN2_Some _ _ Ei) as [Hr Hlen].
      eapply (holds_output _ _ (str_take i r) (str_drop (i + 1) r)); [by f_equal| |done..].
      by rewrite <-Hr, Ei, Hlen.
    + destruct 1 as [[? | ?]|r' res Hr|r' res Hr|id n res Hr Hi Hl Hn]; try discriminate.
      apply (inj (String.app _)) in Hr as ->. unfold SplitN2. rewrite Hi, str_take_app, Hl.
      change (String.length ":") with 1.
      replace (str_drop (String.length id + 1) _) with n; [by rewrite Hn|].
      by rewrite <-str_drop_drop, str_drop_app.
  - rewrite !bool_decide_false by done. simpl. rewrite H3, H4, H5. split; [done|].
    destruct 1 as [[? | ?]|r' res Hr|r' res Hr|id n res Hr]; subst; autorewrite with sched_str in *;
      try discriminate; done.
Qed.

(** A condition that passed [validateConditionReference] is never rejected for
    its syntax: its only possible skip reason is that it does not hold. *)
Lemma evaluateCondition_reason task results known :
  condition_ok known (TrimSpace (task_Condition task)) →
  (evaluateCondition task results).1 = false →
  (evaluateCondition task results).2 =
    "condition not met: " +:+ TrimSpace (task_Condition task).
Proof.
  intros Hok. unfold evaluateCondition. cbv zeta. revert Hok.
  generalize (TrimSpace (task_Condition task)) as c. intros c Hok.
  destruct Hok as [[-> | ->]|r -> _ _|r -> _ _|id n -> Hi _ _]; [done..| | |];
    autorewrite with sched_str; rewrite !bool_decide_false by done; simpl.
  - destruct (results !! _); [case_bool_decide|]; done.
  - destruct (results !! _); [case_bool_decide|]; done.
  - unfold SplitN2. rewrite Hi, str_take_app. destruct (results !! _); [destruct (Contains _ _)|]; done.
Qed.

(** ** Templates: the shape of one expansion step *)

Lemma Index_brace_cons c s :
  Index (String c s) "}" = if ascii_dec "}" c then Some 0 else S <$> Index s "}".
Proof.
  cbn [Index]. unfold HasPrefix. cbn [String.prefix].
  destruct (ascii_dec "}" c); [by destruct s|done].
Qed.
Lemma Index_brace_app tok b :
  Index tok "}" = None → Index (tok +:+ ("}" +:+ b)) "}" = Some (String.length tok).
Proof.
  induction tok as [|c tok IH]; intros Hn.
  - rewrite str_app_nil_l, str_app_cons, Index_brace_cons. done.
  - rewrite str_app_cons, Index_brace_cons. rewrite Index_brace_cons in Hn.
    destruct (ascii_dec "}" c); [done|]. apply fmap_None in Hn. by rewrite IH.
Qed.
Lemma Index_brace_take s i : Index s "}" = Some i → Index (str_take i s) "}" = None.
Proof.
  revert i; induction s as [|c s IH]; intros i Hi; [done|].
  rewrite Index_brace_cons in Hi. destruct (ascii_dec "}" c); [by injection Hi as <-|].
  destruct (Index s "}") as [j|]; [|done]. injection Hi as <-. simpl str_take.
  rewrite Index_brace_cons. destruct (ascii_dec "}" c); [done|]. by rewrite IH.
Qed.
Lemma Index_brace_open rest :
  Index ("${" +:+ rest) "}" = (λ i, S (S i)) <$> Index rest "}".
Proof.
  rewrite !str_app_cons, str_app_nil_l, !Index_brace_cons. simpl.
  by destruct (Index rest "}").
Qed.

(** [output] starts with a template-free [a], then [${tok}], then [b]. *)
Record opens (output a tok b : string) : Prop := {
  opens_eq : output = a +:+ ("${" +:+ (tok +:+ ("}" +:+ b)));
  opens_first : Index output "${" = Some (String.length a);
  opens_close : Index tok "}" = None;
}.
Record unclosed (output a rest : string) : Prop := {
  unclosed_eq : output = a +:+ ("${" +:+ rest);
  unclosed_first : Index output "${" = Some (String.length a);
  unclosed_close : Index rest "}" = None;
}.

Lemma length_str_take i s : i ≤ String.length s → String.length (str_take i s) = i.
Proof.
  revert s; induction i as [|i IH]; intros [|c s] Hi; simpl in *; try lia.
  f_equal. apply IH. lia.
Qed.

Lemma template_cases output :
  Index output "${" = None ∨ (∃ a rest, unclosed output a rest) ∨
  (∃ a tok b, opens output a tok b).
Proof.
  destruct (Index output "${") as [start|] eqn:Es; [|by left]. right.
  pose proof (Index_Some _ _ _ Es) as Heq. pose proof (Index_le _ _ _ Es) as Hle.
  set (a := str_take start output) in *. set (rest := str_drop (start + _) output) in *.
  assert (Ha : String.length a = start) by by apply length_str_take.
  destruct (Index rest "}") as [i|] eqn:Ei.
  - right. exists a, (str_take i rest), (str_drop (i + String.length "}") rest). split.
    + rewrite <-(Index_Some rest "}" i Ei). exact Heq.
    + by rewrite Es, Ha.
    + by apply Index_brace_take.
  - left. exists a, rest. split; [done| |done]. by rewrite Es, Ha.
Qed.

Section resolve_facts.
Context `{!Quote}.

Lemma resolve_loop_done fuel raw output results :
  Index output "${" = None → resolve_loop (S fuel) raw output results = Some (Ok output).
Proof. intros Hn. simpl. by rewrite Hn. Qed.
Lemma resolve_loop_unclosed fuel raw output results a rest :
  unclosed output a rest →
  resolve_loop (S fuel) raw output results =
    Some (Err ("unclosed template in input: " +:+ raw)).
Proof.
  intros [-> Hf Hc]. simpl. rewrite Hf, str_drop_app, Index_brace_open, Hc. done.
Qed.
Lemma resolve_loop_open fuel raw output results a tok b :
  opens output a tok b →
  resolve_loop (S fuel) raw output results =
    match template_token (TrimSpace tok) results with
    | Err e => Some (Err e)
    | Ok replacement => resolve_loop fuel raw (a +:+ (replacement +:+ b)) results
    end.
Proof.
  intros [-> Hf Hc]. simpl. rewrite Hf, str_drop_app, Index_brace_open.
  rewrite Index_brace_app by done. simpl.
  replace (String.length a + S (S (String.length tok)) - (String.length a + 2))
    with (String.length tok) by lia.
  rewrite <-str_drop_drop, str_drop_app. rewrite !str_app_cons, str_app_nil_l.
  change (str_drop 2 (String ?x (String ?y ?z))) with z.
  rewrite str_take_app.
  destruct (template_token _ _); [|done]. f_equal. rewrite str_take_app. do 2 f_equal.
  replace (String.length a + S (S (String.length tok)) + 1)
    with (String.length a + S (S (String.length tok + 1))) by lia.
  rewrite <-str_drop_drop, str_drop_app. simpl.
  by rewrite <-str_drop_drop, str_drop_app.
Qed.
End resolve_facts.

(** ** What a template expands to

    The specification: replace the first [${tok}] by the field it names and
    start over, until no [${] is left. *)

(** [id.field], with no other dot. *)
Definition two_parts (token id field : string) : Prop :=
  token = id +:+ ("." +:+ field) ∧ Contains id "." = false ∧ Contains field "." = false.
(** What [id.output], [id.status] and [id.error] stand for, space around the two parts
    apart, and why another token stands for nothing. *)
Inductive denotes `{!Quote} (results : gmap string TaskResult) (token : string) :
    result string → Prop :=
| denotes_output id field res : two_parts token id field →
    results !! TrimSpace id = Some res → TrimSpace field = "output" →
    denotes results token (Ok (res_Output res))
| denotes_status id field res : two_parts token id field →
    results !! TrimSpace id = Some res → TrimSpace field = "status" →
    denotes results token (Ok (res_Status res))
| denotes_error id field res : two_parts token id field →
    results !! TrimSpace id = Some res → TrimSpace field = "error" →
    denotes results token (Ok (res_Error res))
| denotes_no_field id field res : two_parts token id field →
    results !! TrimSpace id = Some res → TrimSpace field ∉ ["output"; "status"; "error"] →
    denotes results token (Err ("unsupported template field " +:+ quote (TrimSpace field)))
| denotes_no_task id field : two_parts token id field → results !! TrimSpace id = None →
    denotes results token (Err ("template references unknown task " +:+ quote (TrimSpace id)))
| denotes_nothing : (∀ id field, ¬ two_parts token id field) →
    denotes results token (Err ("invalid template token " +:+ quote token)).

Lemma denotes_token `{!Quote} results token r :
  denotes results token r ↔ template_token token results = r.
Proof.
  assert (Htwo : ∀ id field, two_parts token id field ↔ Split token "." = [id; field])
    by (intros; symmetry; apply (Split_two ".")).
  unfold template_token. split.
  - destruct 1 as [id field res Hp Hr Hf|id field res Hp Hr Hf|id field res Hp Hr Hf
                  |id field res Hp Hr Hf|id field Hp Hr|Hn].
    1-5: apply Htwo in Hp; rewrite Hp; cbv zeta; rewrite Hr; try done.
    1-3: unfold template_field; by rewrite Hf.
    + unfold template_field. rewrite !elem_of_cons in Hf.
      rewrite !bool_decide_false by tauto. done.
    + destruct (Split token ".") as [|a [|b [|]]] eqn:E; try done.
      destruct (Hn a b). by apply Htwo.
  - intros <-.
    assert (Hno : (∀ id field, Split token "." ≠ [id; field]) → ∀ id field, ¬ two_parts token id field)
      by (intros Hs id field Hp; by apply (Hs id field), Htwo).
    destruct (Split token ".") as [|a [|b [|c l]]] eqn:E; try by apply denotes_nothing, Hno.
    assert (Hp : two_parts token a b) by by apply Htwo. cbv zeta.
    destruct (results !! TrimSpace a) as [res|] eqn:Er; [|by eapply denotes_no_task].
    unfold template_field. case_bool_decide; [by eapply denotes_output|].
    case_bool_decide; [by eapply denotes_status|].
    case_bool_decide; [by eapply denotes_error|].
    eapply denotes_no_field; [done..|]. rewrite !elem_of_cons, elem_of_nil. tauto.
Qed.

Inductive expands `{!Quote} (results : gmap string TaskResult) (raw : string) :
    string → result string → Prop :=
| expands_done output : Index output "${" = None → expands results raw output (Ok output)
| expands_unclosed output a rest : unclosed output a rest →
    expands results raw output (Err ("unclosed template in input: " +:+ raw))
| expands_bad output a tok b e : opens output a tok b →
    denotes results (TrimSpace tok) (Err e) → expands results raw output (Err e)
| expands_step output a tok b replacement r : opens output a tok b →
    denotes results (TrimSpace tok) (Ok replacement) →
    expands results raw (a +:+ (replacement +:+ b)) r → expands results raw output r.

Section resolve_spec.
Context `{!Quote}.
Implicit Types (results : gmap string TaskResult) (raw output : string).

Lemma resolve_loop_sound fuel raw output results r :
  resolve_loop fuel raw output results = Some r → expands results raw output r.
Proof.
  revert output; induction fuel as [|fuel IH]; intros output Hr; [done|].
  destruct (template_cases output) as [Hn|[(a & rest & Hu)|(a & tok & b & Ho)]].
  - rewrite resolve_loop_done in Hr by done. injection Hr as <-. by constructor.
  - erewrite resolve_loop_unclosed in Hr by done. injection Hr as <-.
    by eapply expands_unclosed.
  - erewrite resolve_loop_open in Hr by done.
    destruct (template_token _ _) as [rep|e] eqn:Et; apply denotes_token in Et.
    + eapply expands_step; eauto.
    + injection Hr as <-. by eapply expands_bad.
Qed.
Lemma resolve_loop_complete raw output results r :
  expands results raw output r → ∃ fuel, resolve_loop fuel raw output results = Some r.
Proof.
  induction 1 as [output Hn|output a rest Hu|output a tok b e Ho Ht
                 |output a tok b rep r Ho Ht _ [fuel IH]].
  - exists 1. by apply resolve_loop_done.
  - exists 1. by eapply resolve_loop_unclosed.
  - apply denotes_token in Ht. exists 1. erewrite resolve_loop_open by done. by rewrite Ht.
  - apply denotes_token in Ht. exists (S fuel). erewrite resolve_loop_open by done. by rewrite Ht.
Qed.
Lemma resolve_loop_mono fuel fuel' raw output results r :
  fuel ≤ fuel' → resolve_loop fuel raw output results = Some r →
  resolve_loop fuel' raw output results = Some r.
Proof.
  revert fuel' output; induction fuel as [|fuel IH]; intros [|fuel'] output Hle Hr;
    [done|done|lia|].
  destruct (template_cases output) as [Hn|[(a & rest & Hu)|(a & tok & b & Ho)]].
  - by rewrite resolve_loop_done in Hr |- * by done.
  - by erewrite resolve_loop_unclosed in Hr |- * by done.
  - erewrite resolve_loop_open in Hr |- * by done.
    destruct (template_token _ _); [|done]. apply IH; [lia|done].
Qed.

(** *** Termination *)

Fixpoint count_char (c : Ascii.ascii) (s : string) : nat :=
  match s with
  | "" => 0
  | String d s => (if ascii_dec c d then 1 else 0) + count_char c s
  end.
Lemma count_char_app c s t : count_char c (s +:+ t) = count_char c s + count_char c t.
Proof.
  induction s as [|d s IH]; [done|]. rewrite str_app_cons. simpl. rewrite IH. lia.
Qed.

(** No field of a result holds an opening brace. *)
Definition brace_free results : Prop :=
  map_Forall (λ _ res, count_char "{" (res_Output res) = 0 ∧
    count_char "{" (res_Status res) = 0 ∧ count_char "{" (res_Error res) = 0) results.

Lemma template_token_brace_free token results replacement :
  brace_free results → template_token token results = Ok replacement →
  count_char "{" replacement = 0.
Proof.
  intros Hb. unfold template_token. destruct (Split token ".") as [|p0 [|p1 [|]]]; try done.
  destruct (results !! TrimSpace p0) as [res|] eqn:E; [|done].
  destruct (Hb _ _ E) as (H1 & H2 & H3). unfold template_field.
  repeat case_bool_decide; intros [=<-]; done.
Qed.
Lemma resolve_loop_returns fuel raw output results :
  brace_free results → count_char "{" output < fuel →
  ∃ r, resolve_loop fuel raw output results = Some r.
Proof.
  intros Hb. revert output; induction fuel as [|fuel IH]; intros output Hf; [lia|].
  destruct (template_cases output) as [Hn|[(a & rest & Hu)|(a & tok & b & Ho)]].
  - rewrite resolve_loop_done by done. eauto.
  - erewrite resolve_loop_unclosed by done. eauto.
  - erewrite resolve_loop_open by done.
    destruct (template_token _ _) as [rep|e] eqn:Et; [|eauto].
    apply IH. rewrite !count_char_app, (template_token_brace_free _ _ _ Hb Et).
    rewrite (opens_eq _ _ _ _ Ho), !count_char_app in Hf. simpl in Hf. lia.
Qed.

(** A returned value holds no template. *)
Lemma resolve_loop_template_free fuel raw output results s :
  resolve_loop fuel raw output results = Some (Ok s) → Index s "${" = None.
Proof.
  intros Hr%resolve_loop_sound. remember (Ok s) as r eqn:E.
  induction Hr; simplify_eq; eauto.
Qed.
End resolve_spec.

Section entries.
Context `{!Quote}.

Lemma resolve_entries_ok fuel results entries resolved m :
  NoDup entries.*1 →
  resolve_entries fuel results entries resolved = Some (Ok m) →
  (∀ k v, (k, v) ∈ entries →
     ∃ s, resolveValue fuel v results = Some (Ok s) ∧ m !! k = Some s) ∧
  (∀ k, k ∉ entries.*1 → m !! k = resolved !! k).
Proof.
  revert resolved; induction entries as [|[k v] entries IH]; intros resolved Hnd Hr; simpl in *.
  { injection Hr as <-. split; [|done]. by intros k v ?%elem_of_nil. }
  apply NoDup_cons in Hnd as [Hk Hnd].
  destruct (resolveValue fuel v results) as [[s|e]|] eqn:Ev; [|done..].
  destruct (IH _ Hnd Hr) as [H1 H2]. split.
  - intros k' v' [[= -> ->]|Hin]%elem_of_cons; [|by apply H1].
    exists s. split; [done|]. rewrite H2 by done. apply lookup_insert_eq.
  - intros k' [Hne Hin]%not_elem_of_cons. rewrite H2 by done. by rewrite lookup_insert_ne.
Qed.
Lemma resolve_entries_complete fuel results entries resolved :
  (∀ k v, (k, v) ∈ entries → ∃ s, resolveValue fuel v results = Some (Ok s)) →
  ∃ m, resolve_entries fuel results entries resolved = Some (Ok m).
Proof.
  revert resolved; induction entries as [|[k v] entries IH]; intros resolved He; simpl; [eauto|].
  destruct (He k v) as [s ->]; [set_solver|]. apply IH. intros k' v' Hin.
  apply (He k' v'). set_solver.
Qed.
Lemma resolve_entries_returns fuel results entries resolved :
  (∀ k v, (k, v) ∈ entries → is_Some (resolveValue fuel v results)) →
  is_Some (resolve_entries fuel results entries resolved).
Proof.
  revert resolved; induction entries as [|[k v] entries IH]; intros resolved He; simpl; [eauto|].
  destruct (He k v) as [[s|e] ->]; [set_solver| |eauto]. apply IH. intros k' v' Hin.
  apply (He k' v'). set_solver.
Qed.

Lemma resolveInputTemplates_ok fuel ord input results m :
  resolveInputTemplates fuel ord input results = Some (Ok m) ↔
  dom m = dom input ∧
  ∀ k v, input !! k = Some v →
    ∃ s, resolveValue fuel v results = Some (Ok s) ∧ m !! k = Some s.
Proof.
  unfold resolveInputTemplates. pose proof (NoDup_iter_keys ord input) as Hnd.
  assert (Hin : ∀ k, k ∈ (iter ord input).*1 ↔ is_Some (input !! k))
    by apply elem_of_iter_keys.
  assert (Hspec : ∀ m, resolve_entries fuel results (iter ord input) ∅ = Some (Ok m) →
    dom m = dom input ∧ ∀ k v, input !! k = Some v →
      ∃ s, resolveValue fuel v results = Some (Ok s) ∧ m !! k = Some s).
  { intros m' Hm. apply resolve_entries_ok in Hm as [H1 H2]; [|done]. split.
    - apply set_eq. intros k. rewrite !elem_of_dom.
      destruct (input !! k) as [v|] eqn:Ek.
      + destruct (H1 k v) as (s & _ & ->); [by apply elem_of_iter|]. done.
      + rewrite H2; [by rewrite lookup_empty|]. rewrite Hin, Ek. by intros [].
    - intros k v Hk. apply H1. by apply elem_of_iter. }
  split; [apply Hspec|]. intros [Hdom Hm].
  destruct (resolve_entries_complete fuel results (iter ord input) ∅) as [m' Hm'].
  { intros k v Hk%elem_of_iter. destruct (Hm k v Hk) as (s & ? & _). eauto. }
  rewrite Hm'. do 2 f_equal. apply Hspec in Hm' as [Hdom' Hm']. apply map_eq. intros k.
  destruct (input !! k) as [v|] eqn:Ek.
  - destruct (Hm k v Ek) as (s & Hs & ->). destruct (Hm' k v Ek) as (s' & Hs' & ->).
    congruence.
  - assert (k ∉ dom input) as Hk by by apply not_elem_of_dom.
    rewrite <-Hdom' in Hk at 1. apply not_elem_of_dom in Hk as ->.
    assert (k ∉ dom input) as Hk' by by apply not_elem_of_dom.
    rewrite <-Hdom in Hk'. by apply not_elem_of_dom in Hk' as ->.
Qed.
(** The error is that of a value that does not expand. *)
Lemma resolve_entries_err fuel results entries resolved e :
  resolve_entries fuel results entries resolved = Some (Err e) →
  ∃ k v, (k, v) ∈ entries ∧ resolveValue fuel v results = Some (Err e).
Proof.
  revert resolved; induction entries as [|[k v] entries IH]; intros resolved Hr; [done|].
  simpl in Hr. destruct (resolveValue fuel v results) as [[s|e']|] eqn:Ev; [|injection Hr as ->|done].
  - destruct (IH _ Hr) as (k' & v' & Hin & Hv). exists k', v'. split; [by right|done].
  - exists k, v. split; [by left|done].
Qed.
Lemma resolveInputTemplates_err fuel ord input results e :
  resolveInputTemplates fuel ord input results = Some (Err e) →
  ∃ k v, input !! k = Some v ∧ expands results v v (Err e).
Proof.
  intros (k & v & Hin & Hv)%resolve_entries_err. exists k, v. apply elem_of_iter in Hin.
  split; [done|]. by eapply resolve_loop_sound.
Qed.
End entries.

(** ** The properties *)

(** C33. Conditions: [evaluateCondition] runs a task just when its condition holds as
    the workflow format reads it; and if validation accepted the condition, the
    only reason it ever gives for skipping is that the condition is not met. *)
Theorem evaluateCondition_correct `{!Quote} task results :
  ((evaluateCondition task results).1 = true ↔
     condition_holds results (TrimSpace (task_Condition task))) ∧
  ∀ tasksByID, validateConditionReference task tasksByID = Ok tt →
    (evaluateCondition task results).1 = false →
    (evaluateCondition task results).2 =
      "condition not met: " +:+ TrimSpace (task_Condition task).
Proof.
  split; [by apply evaluateCondition_eq|].
  intros m Hv%validateConditionReference_spec. by eapply evaluateCondition_reason.
Qed.

Lemma resolveInputTemplates_mono `{!Quote} fuel fuel' raw results r :
  fuel ≤ fuel' → resolveValue fuel raw results = Some r → resolveValue fuel' raw results = Some r.
Proof. apply resolve_loop_mono. Qed.

(** Finitely many values that each expand do so within one fuel. *)
Lemma common_fuel `{!Quote} (input m : gmap string string) results :
  (∀ k v, input !! k = Some v → ∃ s, m !! k = Some s ∧ expands results v v (Ok s)) →
  ∃ fuel, ∀ k v, input !! k = Some v →
    ∃ s, resolveValue fuel v results = Some (Ok s) ∧ m !! k = Some s.
Proof.
  induction input as [|k v input Hk IH] using map_ind; intros Hm.
  { exists 0. intros k v. by rewrite lookup_empty. }
  destruct IH as [fuel IH].
  { intros k' v' Hl. apply Hm. rewrite lookup_insert_ne; [done|congruence]. }
  destruct (Hm k v) as (s & Hs & [fuel' Hf]%resolve_loop_complete); [by apply lookup_insert_eq|].
  exists (fuel `max` fuel'). intros k' v' Hl.
  apply lookup_insert_Some in Hl as [[<- <-]|[_ Hl]].
  - exists s. split; [|done]. eapply resolveInputTemplates_mono; [|exact Hf]. lia.
  - destruct (IH _ _ Hl) as (s' & ? & ?). exists s'. split; [|done].
    eapply resolveInputTemplates_mono; [|done]. lia.
Qed.

(** C32. Input templates: the resolution of a task's input succeeds with [m] just when
    every value of the input expands, by repeatedly replacing its first [${...}]
    by what it names - the output, the status or the error of the result of a task - until
    none is left, to the value [m] has for its key; [m] has no other keys.  So success and the resolved input do not depend on the
    order of the map, and no resolved value holds a template. *)
Theorem resolveInputTemplates_correct `{!Quote} ord input results m :
  ((∃ fuel, resolveInputTemplates fuel ord input results = Some (Ok m)) ↔
     dom m = dom input ∧
     ∀ k v, input !! k = Some v → ∃ s, m !! k = Some s ∧ expands results v v (Ok s)) ∧
  ∀ fuel, resolveInputTemplates fuel ord input results = Some (Ok m) →
    map_Forall (λ _ s, Index s "${" = None) m.
Proof.
  split; [split|].
  - intros (fuel & [Hd Hm]%resolveInputTemplates_ok). split; [done|]. intros k v Hk.
    destruct (Hm k v Hk) as (s & Hs%resolve_loop_sound & ?). eauto.
  - intros [Hd Hm]. destruct (common_fuel _ _ _ Hm) as [fuel Hf]. exists fuel.
    by apply resolveInputTemplates_ok.
  - intros fuel [Hd Hm]%resolveInputTemplates_ok k s Hs.
    assert (Hk : is_Some (input !! k)) by (apply elem_of_dom; rewrite <-Hd; by eapply elem_of_dom_2).
    destruct Hk as [v Hv]. destruct (Hm k v Hv) as (s' & Hr & Hs'). simplify_eq.
    by eapply resolve_loop_template_free.
Qed.

(** Termination of the expansion: when no output, status or error of the results
    holds an opening brace, one rescan per opening brace of the value, and one
    more, is enough. *)
Theorem resolveValue_terminates `{!Quote} raw results :
  brace_free results → ∃ r, resolveValue (S (count_char "{" raw)) raw results = Some r.
Proof. intros Hb. apply resolve_loop_returns; [done|lia]. Qed.

(** It need not terminate otherwise: if the field that [${tok}] names holds the
    text [${tok}] itself - a task that prints its own template - then resolving
    [${tok}] never ends, whatever the fuel. *)
Theorem resolveValue_diverges `{!Quote} tok results fuel :
  Index tok "}" = None →
  template_token (TrimSpace tok) results = Ok ("${" +:+ (tok +:+ "}")) →
  resolveValue fuel ("${" +:+ (tok +:+ "}")) results = None.
Proof.
  intros Hc Ht. unfold resolveValue. set (raw := "${" +:+ _) in *.
  assert (Ho : opens raw "" tok "").
  { split; [done| |done]. apply Index_prefix, HasPrefix_app. }
  assert (Hr : "" +:+ (raw +:+ "") = raw) by by rewrite str_app_nil_l, str_app_nil_r.
  assert (Hloop : ∀ raw0, resolve_loop fuel raw0 raw results = None); [|exact (Hloop raw)].
  intros raw0. induction fuel as [|fuel IH]; [done|].
  by rewrite (resolve_loop_open _ _ _ _ _ _ _ Ho), Ht, Hr.
Qed.

(** ** A concrete task: [a] has printed its own template *)
Module TemplateSample.
Definition quote_id : Quote := λ s, s.
Definition result_of (output : string) : TaskResult :=
  TaskResult_zero <| res_TaskID := "a" |> <| res_Status := TaskStatusSuccess |>
                  <| res_Output := output |>.
Definition results (output : string) : gmap string TaskResult := {["a" := result_of output]}.
#[local] Existing Instance quote_id.
Example resolves :
  resolveValue 3 "<${ a.output }|${a.status}>" (results "hi") = Some (Ok "<hi|SUCCESS>").
Proof. vm_compute. reflexivity. Qed.
End TemplateSample.
#[local] Existing Instance TemplateSample.quote_id.
(** Each of the three fields, of a task that failed. *)
Lemma resolveInputTemplates_correct_witness :
  let results : gmap string TaskResult := {["a" := TaskResult_zero <| res_TaskID := "a" |>
    <| res_Status := TaskStatusFailed |> <| res_Output := "none" |> <| res_Error := "boom" |>]} in
  let input : gmap string string :=
    <["x" := "${a.output}/${a.status}"]> (<["y" := "why: ${ a . error }!"]> ∅) in
  let m : gmap string string := <["x" := "none/FAILED"]> (<["y" := "why: boom!"]> ∅) in
  (∃ fuel, resolveInputTemplates fuel canonical_order input results = Some (Ok m)) ∧
  expands results "why: ${ a . error }!" "why: ${ a . error }!" (Ok "why: boom!").
Proof.
  intros results input m.
  assert (Hr : ∃ fuel, resolveInputTemplates fuel canonical_order input results = Some (Ok m))
    by (exists 3; vm_compute; reflexivity).
  split; [exact Hr|].
  destruct (resolveInputTemplates_correct canonical_order input results m) as [[Hspec _] _].
  destruct (Hspec Hr) as [_ Hy].
  destruct (Hy "y" "why: ${ a . error }!") as (s & Hs & He); [vm_compute; reflexivity|].
  vm_compute in Hs. injection Hs as <-. exact He.
Defined.
Lemma resolveValue_terminates_witness :
  ∃ r, resolveValue 3 "<${ a.output }|${a.status}>" (TemplateSample.results "hi") = Some r.
Proof.
  apply (resolveValue_terminates "<${ a.output }|${a.status}>").
  apply map_Forall_singleton. vm_compute. auto.
Defined.
Lemma resolveValue_diverges_witness :
  resolveValue 1000 "${a.output}" (TemplateSample.results "${a.output}") = None.
Proof. apply (resolveValue_diverges "a.output"); vm_compute; reflexivity. Defined.
