(* ===== verification/Actions.v ===== *)
(** * internal/actions/registry.go: the action registry and the built-in actions

    An action is [Execute(ctx, input) (string, error)].  What it sees of the
    world - whether its context ends first, the random number it draws, any
    other choice of an action registered from outside - is an [exec_env]; the
    actions of the repository are functions of it. *)

From S2P Require Import Prelude GoLib Domain.
Local Open Scope Z_scope.

(** An [error] with what the program asks of it: its message and
    [errors.Is(err, context.Canceled)], [errors.Is(err, context.DeadlineExceeded)]. *)
Record GoError := mkGoError {
  err_msg : string;
  err_Canceled : bool;
  err_DeadlineExceeded : bool;
}.
Definition errors_New (msg : string) : GoError := mkGoError msg false false.
Definition context_Canceled : GoError := mkGoError "context canceled" true false.
Definition context_DeadlineExceeded : GoError := mkGoError "context deadline exceeded" false true.

Record exec_env := mkExecEnv {
  env_done : option GoError;  (** [Some e]: [<-ctx.Done()] wins a select, [ctx.Err() = e] *)
  env_rand : Z;               (** the value of [rand.Intn(100)] *)
  env_seed : nat;             (** any other choice of an action from outside *)
}.

Inductive exec_result := ExecOk (output : string) | ExecErr (err : GoError).

(** [domain.Action] *)
Definition Action : Type := exec_env → gmap string string → exec_result.

(** ** The registry *)

Abbreviation Registry := (gmap string Action).
Definition NewRegistry : Registry := ∅.
Definition Register (name : string) (action : Action) (r : Registry) : Registry :=
  <[name := action]> r.
Definition Get (name : string) (r : Registry) : option Action := r !! name.

(** ** The built-in actions *)

(** [input[key]] *)
Definition input_get (input : gmap string string) (key : string) : string :=
  default "" (input !! key).

Definition PrintAction : Action := λ _ input,
  let message := input_get input "message" in
  let message := if bool_decide (message = "") then "print action executed" else message in
  ExecOk message.

Section actions.
Context `{!Quote}.

Definition WaitAction : Action := λ env input,
  let msRaw := input_get input "durationMs" in
  let msRaw := if bool_decide (msRaw = "") then "100" else msRaw in
  match Atoi msRaw with
  | Err e => ExecErr (errors_New ("invalid durationMs: " +:+ e))
  | Ok durationMs =>
      match env_done env with
      | Some err => ExecErr err
      | None => ExecOk ("waited for " +:+ pretty durationMs +:+ "ms")
      end
  end.

Definition fail_threshold (input : gmap string string) : result Z :=
  match input !! "failPercent" with
  | None => Ok 50
  | Some val =>
      if bool_decide (val = "") then Ok 50 else
      match Atoi val with
      | Err e => Err ("invalid failPercent: " +:+ e)
      | Ok parsed =>
          if (parsed <? 0) || (100 <? parsed)
          then Err "failPercent must be between 0 and 100"
          else Ok parsed
      end
  end.
Definition RandomFailAction : Action := λ env input,
  match fail_threshold input with
  | Err e => ExecErr (errors_New e)
  | Ok threshold =>
      if env_rand env <? threshold then ExecErr (errors_New "random failure triggered")
      else ExecOk "random success"
  end.

Definition RegisterBuiltins (registry : Registry) : Registry :=
  Register "randomFail" RandomFailAction
    (Register "wait" WaitAction (Register "print" PrintAction registry)).

(** ** Facts *)

Lemma Get_Register name name' a r :
  Get name (Register name' a r) = if decide (name = name') then Some a else Get name r.
Proof.
  unfold Get, Register. rewrite lookup_insert. case_decide; case_decide; congruence.
Qed.

Lemma fail_threshold_range input p : fail_threshold input = Ok p → 0 ≤ p ≤ 100.
Proof.
  unfold fail_threshold. destruct (input !! _) as [val|]; [|intros [= <-]; lia].
  case_bool_decide; [intros [= <-]; lia|]. destruct (Atoi val); [|done].
  destruct (_ || _) eqn:E; [done|]. intros [= <-]. reflect_Z. lia.
Qed.
End actions.
