(* ===== verification/RunTask.v ===== *)
(** * internal/engine/executor.go: one task, with its retries

    [runTask] calls the action until it succeeds, fails for good or exhausts
    its attempts.  What the environment does to it is a [task_trace]: the world
    of each call of [Execute], how each backoff [select] ended, and the readings
    of the clock.  The answer is [None] when the trace stops before the task
    does (an action that never returns); [runTask_total] shows that a trace
    with one entry per attempt is always long enough. *)

From S2P Require Import Prelude GoLib Domain Actions.
Local Open Scope Z_scope.

(** ** Definitions *)

Record attempt := mkAttempt {
  at_env : exec_env;
  at_wait : option GoError;  (** the backoff select: [Some e] is [<-ctx.Done()] *)
}.
Record task_trace := mkTaskTrace {
  tt_start : time;
  tt_attempts : list attempt;
  tt_finish : time;
}.

(** [maxAttempts <= 0] means one attempt, [backoff <= 0] 100 ms. *)
Definition max_attempts (task : TaskNode) : Z :=
  let m := retry_MaxAttempts (task_RetryPolicy task) in if m <=? 0 then 1 else m.
Definition backoff_base (task : TaskNode) : duration :=
  let b := retry_BackoffBase (task_RetryPolicy task) in
  if b <=? 0 then 100 * Millisecond else b.
(** [backoff * time.Duration(1<<(attempt-1))] *)
Definition backoff_wait (backoff : duration) (attempt : Z) : duration :=
  wrap64 (backoff * shl64 (attempt - 1)).

(** How the retry loop ends: with an output, or with the last error; together
    with [res.Attempts] and the backoffs it slept through. *)
Record loop_exit := mkLoopExit {
  le_outcome : string + GoError;
  le_attempts : Z;
  le_waits : list duration;
}.
#[export] Instance loop_exit_settable : Settable loop_exit := λ e,
  mkLoopExit (le_outcome e) (le_attempts e) (le_waits e).

(** The loop [for attempt := 1; attempt <= maxAttempts; attempt++]; [None] when
    the trace is exhausted.  The loop leaves with the last error when the error
    is a context error ([break]), when the context ends during the backoff
    ([attempt = maxAttempts]) and after the last attempt. *)
Fixpoint retry_loop (action : Action) (input : gmap string string)
    (maxAttempts backoff : Z) (attempts : list attempt) (attempt : Z) : option loop_exit :=
  match attempts with
  | [] => None
  | a :: attempts =>
      match action (at_env a) input with
      | ExecOk output => Some (mkLoopExit (inl output) attempt [])
      | ExecErr err =>
          if err_Canceled err || err_DeadlineExceeded err then
            Some (mkLoopExit (inr err) attempt [])
          else if attempt <? maxAttempts then
            match at_wait a with
            | Some ctxErr => Some (mkLoopExit (inr ctxErr) attempt [])
            | None =>
                e ← retry_loop action input maxAttempts backoff attempts (attempt + 1);
                Some (e <| le_waits := backoff_wait backoff attempt :: le_waits e |>)
            end
          else Some (mkLoopExit (inr err) attempt [])
      end
  end.

Definition runTask (registry : Registry) (tr : task_trace) (task : TaskNode) :
    option (TaskResult * list duration) :=
  let res := TaskResult_zero <| res_TaskID := task_ID task |>
    <| res_Status := TaskStatusRunning |> <| res_StartedAt := tt_start tr |> in
  let finish (res : TaskResult) : TaskResult :=
    res <| res_FinishedAt := tt_finish tr |>
        <| res_Duration := time_Sub (tt_finish tr) (tt_start tr) |> in
  match Get (task_Action task) registry with
  | None =>
      Some (finish (res <| res_Status := TaskStatusFailed |>
                        <| res_Error := "action not found: " +:+ task_Action task |>), [])
  | Some action =>
      e ← retry_loop action (task_Input task) (max_attempts task) (backoff_base task)
            (tt_attempts tr) 1;
      let res := res <| res_Attempts := le_attempts e |> in
      match le_outcome e with
      | inl output =>
          Some (finish (res <| res_Status := TaskStatusSuccess |>
                            <| res_Output := output |>), le_waits e)
      | inr lastErr =>
          Some (finish (res <| res_Status := TaskStatusFailed |>
                            <| res_Error := err_msg lastErr |>), le_waits e)
      end
  end.

(** ** Facts *)

Lemma max_attempts_pos task : 1 ≤ max_attempts task.
Proof. unfold max_attempts. destruct (Z.leb_spec (retry_MaxAttempts (task_RetryPolicy task)) 0); lia. Qed.

Lemma retry_loop_total action input m b attempts k :
  m - k < Z.of_nat (length attempts) → 1 ≤ Z.of_nat (length attempts) →
  ∃ e, retry_loop action input m b attempts k = Some e.
Proof.
  revert k; induction attempts as [|a attempts IH]; intros k Hlen Hpos; simpl in *; [lia|].
  destruct (action (at_env a) input); [eauto|].
  destruct (_ || _); [eauto|]. destruct (Z.ltb_spec k m) as [Hk|Hk]; [|eauto].
  destruct (at_wait a); [eauto|]. destruct (IH (k + 1)) as [e ->]; [lia..|]. eauto.
Qed.
Lemma retry_loop_attempts action input m b attempts k e :
  k ≤ m → retry_loop action input m b attempts k = Some e →
  k ≤ le_attempts e ≤ m ∧
  le_waits e = (λ i, backoff_wait b (k + Z.of_nat i)) <$>
                 seq 0 (Z.to_nat (le_attempts e - k)).
Proof.
  revert k e; induction attempts as [|a attempts IH]; intros k e Hk Hr; simpl in *; [done|].
  assert (Hend : ∀ o, k ≤ le_attempts (mkLoopExit o k []) ≤ m ∧
    le_waits (mkLoopExit o k []) = (λ i, backoff_wait b (k + Z.of_nat i)) <$>
      seq 0 (Z.to_nat (le_attempts (mkLoopExit o k []) - k))).
  { intros o. simpl. rewrite Z.sub_diag. simpl. split; [lia|done]. }
  destruct (action (at_env a) input) as [o|err]; [by simplify_eq|].
  destruct (_ || _); [by simplify_eq|].
  destruct (Z.ltb_spec k m); [|by simplify_eq].
  destruct (at_wait a); [by simplify_eq|].
  destruct (retry_loop _ _ _ _ _ _) as [e'|] eqn:Er; [|done]. simplify_eq/=.
  destruct (IH (k + 1) e') as [Ha Hw]; [lia|done|]. split; [lia|]. rewrite Hw.
  replace (Z.to_nat (le_attempts e' - k)) with (S (Z.to_nat (le_attempts e' - (k + 1)))) by lia.
  simpl. f_equal; [f_equal; lia|]. rewrite <-fmap_S_seq, <-list_fmap_compose.
  apply list_fmap_ext. intros i j _. simpl. f_equal. lia.
Qed.

(** The attempt loop as the documentation reads it: the failures before the
    last attempt were all worth a retry. *)
Definition retriable (action : Action) (input : gmap string string) (a : attempt) : Prop :=
  ∃ err, action (at_env a) input = ExecErr err ∧ err_Canceled err = false ∧
         err_DeadlineExceeded err = false ∧ at_wait a = None.

Lemma retry_loop_prefix action input m b pre attempts k :
  k + Z.of_nat (length pre) ≤ m → Forall (retriable action input) pre →
  retry_loop action input m b (pre ++ attempts) k =
    e ← retry_loop action input m b attempts (k + Z.of_nat (length pre));
    Some (e <| le_waits := ((λ i, backoff_wait b (k + Z.of_nat i)) <$> seq 0 (length pre))
                              ++ le_waits e |>).
Proof.
  revert k; induction pre as [|a pre IH]; intros k Hk Hpre; simpl.
  { rewrite Z.add_0_r. by destruct (retry_loop _ _ _ _ _ _) as [[]|]. }
  apply Forall_cons in Hpre as [(err & -> & -> & -> & ->) Hpre]. simpl in *.
  destruct (Z.ltb_spec k m); [|lia]. rewrite IH by (done || lia).
  replace (k + 1 + Z.of_nat (length pre)) with (k + Z.of_nat (S (length pre))) by lia.
  destruct (retry_loop _ _ _ _ _ _) as [e|]; simpl; [|done].
  unfold upd; simpl. do 2 f_equal. rewrite Z.add_0_r. f_equal. f_equal.
  rewrite <-fmap_S_seq, <-list_fmap_compose. apply list_fmap_ext.
  intros i j _. simpl. f_equal. lia.
Qed.

Lemma runTask_result registry tr task res waits :
  runTask registry tr task = Some (res, waits) →
  res_TaskID res = task_ID task ∧
  (res_Status res = TaskStatusSuccess ∨ res_Status res = TaskStatusFailed).
Proof.
  unfold runTask. destruct (Get _ _) as [action|]; [|intros [= <- _]; simpl; auto].
  destruct (retry_loop _ _ _ _ _ _) as [e|]; [|done]. simpl.
  destruct (le_outcome e); intros [= <- _]; simpl; auto.
Qed.
(** What ended the loop: the last call, or the context after it. *)
Lemma retry_loop_ends action input m b attempts k e :
  retry_loop action input m b attempts k = Some e →
  ∃ a, a ∈ attempts ∧
    match le_outcome e with
    | inl output => action (at_env a) input = ExecOk output
    | inr lastErr => ∃ err, action (at_env a) input = ExecErr err ∧
        (lastErr = err ∨ at_wait a = Some lastErr)
    end.
Proof.
  revert k e; induction attempts as [|a attempts IH]; intros k e Hr; simpl in *; [done|].
  destruct (action (at_env a) input) as [o|err] eqn:Ha.
  { injection Hr as <-. exists a. split; [by left|done]. }
  assert (Hlast : e = mkLoopExit (inr err) k [] → ∃ a', a' ∈ a :: attempts ∧
    match le_outcome e with
    | inl output => action (at_env a') input = ExecOk output
    | inr lastErr => ∃ err', action (at_env a') input = ExecErr err' ∧
        (lastErr = err' ∨ at_wait a' = Some lastErr)
    end) by (intros ->; exists a; split; [by left|]; exists err; auto).
  destruct (_ || _); [injection Hr as <-; by apply Hlast|].
  destruct (k <? m); [|injection Hr as <-; by apply Hlast].
  destruct (at_wait a) as [c|] eqn:Hw.
  { injection Hr as <-. exists a. split; [by left|]. exists err. auto. }
  destruct (retry_loop _ _ _ _ _ _) as [e'|] eqn:Er; [|done]. injection Hr as <-.
  destruct (IH _ _ Er) as (a' & Hin & Ho). exists a'. split; [by right|exact Ho].
Qed.
(** What the result says of the calls: SUCCESS is the output of the last one ... *)
Definition task_succeeded (registry : Registry) (task : TaskNode) (res : TaskResult) : Prop :=
  res_Status res = TaskStatusSuccess ∧
  ∃ action env, Get (task_Action task) registry = Some action ∧
    action env (task_Input task) = ExecOk (res_Output res).
(** ... FAILED its error, or that of the context that ended the wait after it, unless there
    is no such action. *)
Definition task_failed (registry : Registry) (task : TaskNode) (res : TaskResult) : Prop :=
  res_Status res = TaskStatusFailed ∧
  match Get (task_Action task) registry with
  | None => res_Error res = "action not found: " +:+ task_Action task
  | Some action => ∃ a err, action (at_env a) (task_Input task) = ExecErr err ∧
      (res_Error res = err_msg err ∨ ∃ ctxErr, at_wait a = Some ctxErr ∧ res_Error res = err_msg ctxErr)
  end.
Lemma runTask_outcome registry tr task res waits :
  runTask registry tr task = Some (res, waits) →
  task_succeeded registry task res ∨ task_failed registry task res.
Proof.
  unfold runTask, task_succeeded, task_failed.
  destruct (Get _ _) as [action|]; [|intros [= <- _]; right; done].
  destruct (retry_loop _ _ _ _ _ _) as [e|] eqn:Er; [|done]. simpl.
  apply retry_loop_ends in Er as (a & _ & Ho).
  destruct (le_outcome e) as [o|lastErr]; intros [= <- _]; simpl; [left|right]; (split; [done|]).
  - by exists action, (at_env a).
  - destruct Ho as (err & He & Hl). exists a, err. split; [done|].
    destruct Hl as [->|Hw]; [by left|right; eauto].
Qed.
Lemma runTask_attempts registry tr task res waits :
  runTask registry tr task = Some (res, waits) →
  0 ≤ res_Attempts res ≤ max_attempts task.
Proof.
  pose proof (max_attempts_pos task).
  unfold runTask. destruct (Get _ _) as [action|]; [|intros [= <- _]; simpl; lia].
  destruct (retry_loop _ _ _ _ _ _) as [e|] eqn:Er; [|done]. simpl.
  apply retry_loop_attempts in Er as [Hr _]; [|done].
  destruct (le_outcome e); intros [= <- _]; simpl; lia.
Qed.
Lemma runTask_returns registry tr task :
  max_attempts task ≤ Z.of_nat (length (tt_attempts tr)) →
  is_Some (runTask registry tr task).
Proof.
  intros Hlen. pose proof (max_attempts_pos task).
  unfold runTask. destruct (Get _ _) as [action|]; [|by eexists].
  edestruct (retry_loop_total action (task_Input task) (max_attempts task)
    (backoff_base task) (tt_attempts tr) 1) as [e ->]; [lia..|]. simpl.
  destruct (le_outcome e); by eexists.
Qed.

(** Doubling: without overflow the wait before attempt [k + 1] is
    [backoff * 2^(k-1)]. *)
Lemma backoff_wait_double b k :
  0 < b → 1 ≤ k → b * 2 ^ (k - 1) ≤ int64_max → backoff_wait b k = b * 2 ^ (k - 1).
Proof.
  intros Hb Hk Hov. unfold backoff_wait, shl64.
  assert (0 < 2 ^ (k - 1)) by (apply Z.pow_pos_nonneg; lia).
  assert (Hlt : k - 1 < 63).
  { destruct (Z.lt_ge_cases (k - 1) 63); [done|].
    assert (2 ^ 63 ≤ 2 ^ (k - 1)) by (apply Z.pow_le_mono_r; lia).
    unfold int64_max in Hov. nia. }
  destruct (Z.leb_spec 64 (k - 1)); [lia|].
  assert (2 ^ (k - 1) ≤ b * 2 ^ (k - 1)) by nia.
  rewrite (wrap64_id (2 ^ (k - 1))) by (unfold int64_min; lia).
  apply wrap64_id. unfold int64_min. nia.
Qed.

Lemma backoff_base_pos task : 0 < backoff_base task.
Proof.
  unfold backoff_base. destruct (Z.leb_spec (retry_BackoffBase (task_RetryPolicy task)) 0);
    unfold Millisecond; lia.
Qed.
(** The two settings of the policy, as the documentation states them. *)
Lemma max_attempts_spec task : Z.max 1 (retry_MaxAttempts (task_RetryPolicy task)) = max_attempts task.
Proof. unfold max_attempts. destruct (Z.leb_spec (retry_MaxAttempts (task_RetryPolicy task)) 0); lia. Qed.
Lemma backoff_base_spec task :
  (let b := retry_BackoffBase (task_RetryPolicy task) in
   if decide (0 < b) then b else 100 * 1000000) = backoff_base task.
Proof.
  unfold backoff_base. cbv zeta.
  destruct (Z.leb_spec (retry_BackoffBase (task_RetryPolicy task)) 0); case_decide; (done || lia).
Qed.
(** The backoffs before attempt [n + 1], when the largest fits. *)
Lemma fmap_waits task n :
  backoff_base task * 2 ^ (max_attempts task - 1) ≤ int64_max →
  Z.of_nat n < max_attempts task →
  (λ i, backoff_wait (backoff_base task) (1 + Z.of_nat i)) <$> seq 0 n =
  (λ i : nat, backoff_base task * 2 ^ Z.of_nat i) <$> seq 0 n.
Proof.
  intros Hov Hn. pose proof (backoff_base_pos task). apply list_fmap_ext.
  intros j i Hi. apply lookup_seq in Hi as [-> Hj].
  assert (2 ^ Z.of_nat j ≤ 2 ^ (max_attempts task - 1)) by (apply Z.pow_le_mono_r; lia).
  simpl. rewrite backoff_wait_double by (rewrite ?Z.add_simpl_l; lia || nia).
  by rewrite Z.add_simpl_l.
Qed.

(** ** The properties *)

(** C31. Retries.  The attempt limit is the [MaxAttempts] of the policy, 1 if that is not
    positive; the base backoff its [BackoffBase], 100 ms if that is not.  A task whose first
    attempts fail for reasons worth a retry, fewer of them than the limit, is tried once
    more, having slept through the base backoff doubled each time (as long as the products
    fit 64 bits).  If that attempt succeeds the task is SUCCESS with its output; if it fails
    because its context ended, or is the last one allowed, the task is FAILED with its error;
    if the context ends during the next backoff, with the error of the context.
    The attempts are counted. *)
Theorem runTask_retries registry task action start finish pre a rest :
  let policy := task_RetryPolicy task in
  let limit := Z.max 1 (retry_MaxAttempts policy) in
  let base := if decide (0 < retry_BackoffBase policy) then retry_BackoffBase policy
              else 100 * 1000000 in
  Get (task_Action task) registry = Some action →
  Z.of_nat (length pre) < limit →
  Forall (retriable action (task_Input task)) pre →
  base * 2 ^ (limit - 1) ≤ int64_max →
  let last := Z.of_nat (length pre) + 1 =? limit in
  let ended err := err_Canceled err || err_DeadlineExceeded err in
  match action (at_env a) (task_Input task) with
  | ExecErr err => ended err = true ∨ last = true ∨ is_Some (at_wait a)
  | ExecOk _ => True
  end →
  ∃ res, runTask registry (mkTaskTrace start (pre ++ a :: rest) finish) task =
      Some (res, (λ i : nat, base * 2 ^ Z.of_nat i) <$> seq 0 (length pre)) ∧
    res_TaskID res = task_ID task ∧ res_Attempts res = Z.of_nat (length pre) + 1 ∧
    match action (at_env a) (task_Input task) with
    | ExecOk output => res_Status res = TaskStatusSuccess ∧ res_Output res = output
    | ExecErr err => res_Status res = TaskStatusFailed ∧
        res_Error res = err_msg (if ended err || last then err else default err (at_wait a))
    end.
Proof.
  intros policy limit base Hget Hlt Hpre Hov last ended Hend.
  assert (limit = max_attempts task) as -> by apply max_attempts_spec.
  assert (base = backoff_base task) as -> by apply backoff_base_spec.
  subst last ended. cbv beta zeta in *.
  unfold runTask. rewrite Hget. simpl tt_attempts.
  rewrite retry_loop_prefix by (done || lia). cbn [retry_loop].
  rewrite (fmap_waits task (length pre)) by (done || lia).
  replace (1 + Z.of_nat (length pre)) with (Z.of_nat (length pre) + 1) by lia.
  destruct (action _ _) as [o|err]; [eexists; split; [simpl; by rewrite app_nil_r|done]|].
  destruct (_ || _); [eexists; split; [simpl; by rewrite app_nil_r|done]|].
  destruct (Z.eqb_spec (Z.of_nat (length pre) + 1) (max_attempts task)) as [He|He];
    destruct (Z.ltb_spec (Z.of_nat (length pre) + 1) (max_attempts task)); try lia.
  - eexists; split; [simpl; by rewrite app_nil_r|done].
  - destruct Hend as [?|[?|[e He']]]; [done..|]. rewrite He'.
    eexists; split; [simpl; by rewrite app_nil_r|done].
Qed.

(** Every call of [runTask] ends when its attempts do - a trace with one entry
    per allowed attempt is long enough - and its result is final: SUCCESS or
    FAILED for the task it was called for, after at most the allowed attempts (at
    least one unless the action is unknown) with one backoff between consecutive
    attempts, and timed by the clock readings around the loop. *)
Theorem runTask_total registry tr task :
  max_attempts task ≤ Z.of_nat (length (tt_attempts tr)) →
  ∃ res waits, runTask registry tr task = Some (res, waits) ∧
    res_TaskID res = task_ID task ∧
    (res_Status res = TaskStatusSuccess ∨ res_Status res = TaskStatusFailed) ∧
    res_StartedAt res = tt_start tr ∧ res_FinishedAt res = tt_finish tr ∧
    res_Duration res = time_Sub (tt_finish tr) (tt_start tr) ∧
    match Get (task_Action task) registry with
    | None => res_Attempts res = 0 ∧ waits = [] ∧ res_Status res = TaskStatusFailed
    | Some _ => 1 ≤ res_Attempts res ≤ max_attempts task ∧ zlen waits = res_Attempts res - 1
    end.
Proof.
  intros Hlen. pose proof (max_attempts_pos task).
  unfold runTask. destruct (Get _ _) as [action|]; [|by eexists _, _; simpl; auto 10].
  edestruct (retry_loop_total action (task_Input task) (max_attempts task)
    (backoff_base task) (tt_attempts tr) 1) as [e He]; [lia..|]. rewrite He. simpl.
  apply retry_loop_attempts in He as [Ha Hw]; [|done].
  assert (Hz : zlen (le_waits e) = le_attempts e - 1).
  { unfold zlen. rewrite Hw, length_fmap, length_seq. lia. }
  destruct (le_outcome e); eexists _, _; simpl; auto 10.
Qed.

(** A task tried three times: it fails twice, then succeeds. *)
Module RetrySample.
Definition quote_id : Quote := λ s, s.
Definition task : TaskNode :=
  mkTaskNode "t" "t" "randomFail" ∅ [] "" 0 0 (mkRetryPolicy 3 5) false
    (mkCompensationSpec "" ∅ 0).
#[local] Existing Instance quote_id.
Definition registry : Registry := RegisterBuiltins NewRegistry.
Definition try_with (r : Z) : attempt := mkAttempt (mkExecEnv None r 0) None.
Definition action : Action := default PrintAction (Get "randomFail" registry).
End RetrySample.
Lemma runTask_retries_witness :
  ∃ res, runTask RetrySample.registry
      (mkTaskTrace 10 ([RetrySample.try_with 0; RetrySample.try_with 49] ++
                       [RetrySample.try_with 50]) 20) RetrySample.task =
      Some (res, [5; 10]) ∧
    res_TaskID res = "t" ∧ res_Attempts res = 2 + 1 ∧
    res_Status res = TaskStatusSuccess ∧ res_Output res = "random success".
Proof.
  apply (runTask_retries RetrySample.registry RetrySample.task RetrySample.action 10 20
    [RetrySample.try_with 0; RetrySample.try_with 49] (RetrySample.try_with 50) []).
  - vm_compute. reflexivity.
  - vm_compute. reflexivity.
  - repeat constructor; eexists; repeat split.
  - vm_compute. discriminate.
  - exact I.
Defined.
Lemma runTask_total_witness :
  ∃ res waits, runTask RetrySample.registry
      (mkTaskTrace 10 (replicate 3 (RetrySample.try_with 0)) 20) RetrySample.task =
      Some (res, waits) ∧ res_TaskID res = "t" ∧
    (res_Status res = TaskStatusSuccess ∨ res_Status res = TaskStatusFailed) ∧
    res_StartedAt res = 10 ∧ res_FinishedAt res = 20 ∧ res_Duration res = time_Sub 20 10 ∧
    1 ≤ res_Attempts res ≤ max_attempts RetrySample.task ∧ zlen waits = res_Attempts res - 1.
Proof.
  apply (runTask_total RetrySample.registry
    (mkTaskTrace 10 (replicate 3 (RetrySample.try_with 0)) 20) RetrySample.task).
  vm_compute. discriminate.
Defined.
