(* ===== verification/Interfaces.v ===== *)
(** * internal/domain/interfaces.go: what the components promise each other

    The executor and the worker are written against [domain.WorkflowStore] and
    [domain.RunQueue].  Each interface is a class of operations on a state type
    and a class of the laws its clients rely on.  Every reading of [time.Now()]
    during a call is a value of [clk]: the call's first reading is [clk 0], the
    next [clk 1], and so on. *)

From S2P Require Import Prelude GoLib Domain.
Local Open Scope Z_scope.

Definition clock : Type := nat → time.

(** ** domain.WorkflowStore (the operations its clients in this development call) *)

Class WorkflowStore (S : Type) := {
  SaveWorkflow : Workflow → S → result unit * S;
  GetWorkflow : string → S → result Workflow;
  SaveRun : Run → S → result unit * S;
  GetRun : string → S → result Run;
}.

(** Its listings.  A page whose bounds overflow is a run-time panic, [None]. *)
Class WorkflowStoreListing (S : Type) := {
  ListWorkflows : iter_order → S → result (list Workflow);
  ListRunsFiltered : iter_order → string → RunStatus → string → time → time → bool → Z → Z → S →
    option (result (list Run));
  CountRunsFiltered : iter_order → string → RunStatus → string → time → time → S → result Z;
}.

Class WorkflowStoreLaws (S : Type) `{!WorkflowStore S} := {
  GetRun_SaveRun run s s' id :
    SaveRun run s = (Ok tt, s') →
    GetRun id s' = if decide (id = run_ID run) then Ok run else GetRun id s;
  GetRun_SaveRun_other run s s' r id :
    SaveRun run s = (r, s') → id ≠ run_ID run → GetRun id s' = GetRun id s;
  GetWorkflow_SaveRun run s s' r id :
    SaveRun run s = (r, s') → GetWorkflow id s' = GetWorkflow id s;
  GetWorkflow_SaveWorkflow w s s' id :
    SaveWorkflow w s = (Ok tt, s') →
    GetWorkflow id s' = if decide (id = wf_ID w) then Ok w else GetWorkflow id s;
  GetWorkflow_SaveWorkflow_any w s s' r id :
    SaveWorkflow w s = (r, s') →
    GetWorkflow id s' = GetWorkflow id s ∨ GetWorkflow id s' = Ok w;
  GetRun_SaveWorkflow w s s' r id :
    SaveWorkflow w s = (r, s') → GetRun id s' = GetRun id s;
}.

(** ** domain.RunQueue (the operations of a job's life) *)

Class RunQueue (Q : Type) := {
  EnqueueRunJob : clock → RunQueueJob → Q → result unit * Q;
  GetRunJob : string → Q → result RunQueueJob;
  LeaseNextRunJob : iter_order → clock → string → duration → Q → result RunQueueJob * Q;
  ExtendRunJobLease : clock → string → string → duration → Q → result unit * Q;
  CompleteRunJob : clock → string → Q → result unit * Q;
  CancelRunJob : clock → string → string → Q → result unit * Q;
  RetryRunJob : clock → string → duration → string → Q → result unit * Q;
  FailRunJob : clock → string → string → Q → result unit * Q;
  DeadLetterRunJob : clock → string → string → Q → result unit * Q;
  RequeueRunJob : clock → string → duration → string → string → Q → result unit * Q;
}.

(** Its listings and the purge. *)
Class RunQueueListing (Q : Type) := {
  GetRunJobByRequest : iter_order → string → string → Q → result RunQueueJob;
  ListRunJobsFiltered : iter_order → string → string → string → time → time → Z → Z → Q →
    option (result (list RunQueueJob));
  CountRunJobsFiltered : iter_order → string → string → string → time → time → Q → result Z;
  ListRunJobsByRun : iter_order → string → Z → Z → Q → option (result (list RunQueueJob));
  CountRunJobsByStatus : iter_order → Q → result (gmap string Z);
  PurgeRunJobs : iter_order → clock → string → duration → Z → Q → result Z * Q;
  ListRunJobTransitionsFiltered : string → string → string → time → time → Z → Z → Q →
    option (result (list RunJobTransition));
  CountRunJobTransitionsFiltered : string → string → string → time → time → Q → result Z;
}.

(** What the operations that end a lease have in common: on a leased job they
    succeed, give the job its new status and release it; on any other job they
    fail and change nothing.  No other job is touched. *)
Definition ends_lease {Q} `{!RunQueue Q} (op : Q → result unit * Q) (id : string)
    (status : RunJobStatus) : Prop :=
  ∀ q r q', op q = (r, q') →
    match GetRunJob id q with
    | Ok job =>
        if bool_decide (job_Status job = RunJobStatusLeased) then
          r = Ok tt ∧
          (∃ job', GetRunJob id q' = Ok job' ∧ job_Status job' = status ∧
             job_LeaseOwner job' = "" ∧ job_Attempts job' = job_Attempts job) ∧
          (∀ id', id' ≠ id → GetRunJob id' q' = GetRunJob id' q)
        else (∃ e, r = Err e) ∧ q' = q
    | Err _ => (∃ e, r = Err e) ∧ q' = q
    end.

(** The statuses in which [CancelRunJob] leaves the job cancelled (it may report an
    error when the job was already). *)
Definition cancellable (s : RunJobStatus) : bool :=
  bool_decide (s ∈ [RunJobStatusQueued; RunJobStatusLeased; RunJobStatusFailed; RunJobStatusDead;
                    RunJobStatusCancelled]).

Class RunQueueLaws (Q : Type) `{!RunQueue Q} := {
  LeaseNextRunJob_Ok ord clk w d q job q' :
    LeaseNextRunJob ord clk w d q = (Ok job, q') →
    GetRunJob (job_ID job) q' = Ok job ∧ job_Status job = RunJobStatusLeased ∧
    job_LeaseOwner job = w;
  CompleteRunJob_law clk id : ends_lease (CompleteRunJob clk id) id RunJobStatusSucceeded;
  RetryRunJob_law clk id d e : ends_lease (RetryRunJob clk id d e) id RunJobStatusQueued;
  FailRunJob_law clk id e : ends_lease (FailRunJob clk id e) id RunJobStatusFailed;
  DeadLetterRunJob_law clk id e : ends_lease (DeadLetterRunJob clk id e) id RunJobStatusDead;
  CancelRunJob_law clk id e q r q' job :
    CancelRunJob clk id e q = (r, q') → GetRunJob id q = Ok job →
    cancellable (job_Status job) = true →
    (∃ job', GetRunJob id q' = Ok job' ∧ job_Status job' = RunJobStatusCancelled) ∧
    ∀ id', id' ≠ id → GetRunJob id' q' = GetRunJob id' q;
  ExtendRunJobLease_law clk id w d q r q' job :
    ExtendRunJobLease clk id w d q = (r, q') → GetRunJob id q = Ok job →
    ∃ job', GetRunJob id q' = Ok job' ∧ job_Status job' = job_Status job ∧
      job_Attempts job' = job_Attempts job;
}.
