(* ===== verification/Store.v ===== *)
(** * internal/store: the in-memory store and the file store

    [MemoryStore] keeps two maps.  [FileStore] is a [MemoryStore] whose contents
    are written to a snapshot file after every save and read back when the store
    is opened; the JSON codec and the file system are parameters.  The Go
    [MemoryStore] keeps the map [Run.Results] it is given by reference, and the
    executor goes on writing into it: [Shared] is the store with its references.
    [Memory] is the store as it is read through them, which is all that its
    operations depend on ([shared_store_viewed]); what the executor writes into the
    map of a stored run is an operation of its own, [Memory.write_result].  The locks
    make every operation atomic. *)

From S2P Require Import Prelude GoLib Domain Interfaces.
Local Open Scope Z_scope.

(** ** memory_store.go *)

Record MemoryStore := mkMemoryStore {
  workflows : gmap string Workflow;
  runs : gmap string Run;
}.
#[export] Instance MemoryStore_settable : Settable MemoryStore := λ s,
  mkMemoryStore (workflows s) (runs s).
Definition NewMemoryStore : MemoryStore := mkMemoryStore ∅ ∅.

Module Memory.
Definition SaveWorkflow (workflow : Workflow) (s : MemoryStore) : result unit * MemoryStore :=
  (Ok tt, s <| workflows := <[wf_ID workflow := workflow]> (workflows s) |>).
Definition GetWorkflow (workflowID : string) (s : MemoryStore) : result Workflow :=
  match workflows s !! workflowID with
  | None => Err "workflow not found"
  | Some workflow => Ok workflow
  end.
Definition ListWorkflows (ord : iter_order) (s : MemoryStore) : result (list Workflow) :=
  let items := iter_values ord (workflows s) in
  Ok (sort_slice (λ a b, str_ltb (wf_ID a) (wf_ID b)) items).
Definition SaveRun (run : Run) (s : MemoryStore) : result unit * MemoryStore :=
  (Ok tt, s <| runs := <[run_ID run := run]> (runs s) |>).
(** [run.Results[taskID] = result] in the executor, as it shows in the runs under the IDs
    [holders], which hold that map. *)
Definition write_result (holders : gset string) (taskID : string) (res : TaskResult) (s : MemoryStore) :
    MemoryStore :=
  s <| runs := map_imap (λ id run, Some
         (if bool_decide (id ∈ holders)
          then run <| run_Results := <[taskID := res]> (run_Results run) |> else run)) (runs s) |>.
Definition GetRun (runID : string) (s : MemoryStore) : result Run :=
  match runs s !! runID with
  | None => Err "run not found"
  | Some run => Ok run
  end.
Definition started_less (a b : Run) : bool := Before (run_StartedAt a) (run_StartedAt b).
Definition ListRuns (ord : iter_order) (workflowID : string) (s : MemoryStore) :
    result (list Run) :=
  let items := filter (λ r, workflowID = "" ∨ run_WorkflowID r = workflowID)
                 (iter_values ord (runs s)) in
  Ok (sort_slice started_less items).

(** The [continue]s of [ListRunsFiltered] and [CountRunsFiltered]. *)
Definition run_matches (workflowID : string) (status : RunStatus) (requestID : string)
    (startedAfter startedBefore : time) (run : Run) : bool :=
  if bool_decide (workflowID ≠ "") && bool_decide (run_WorkflowID run ≠ workflowID)
  then false else
  if bool_decide (status ≠ "") && bool_decide (run_Status run ≠ status) then false else
  if bool_decide (requestID ≠ "") && bool_decide (run_RequestID run ≠ requestID)
  then false else
  if negb (IsZero startedAfter) && Before (run_StartedAt run) startedAfter then false else
  if negb (IsZero startedBefore) && After (run_StartedAt run) startedBefore then false else
  true.
Definition run_less (orderDesc : bool) (a b : Run) : bool :=
  if orderDesc then After (run_StartedAt a) (run_StartedAt b)
  else Before (run_StartedAt a) (run_StartedAt b).
Definition matching_runs (ord : iter_order) (p : Run → bool) (s : MemoryStore) : list Run :=
  filter (λ r, p r = true) (iter_values ord (runs s)).
(** [None]: the slice expression panics. *)
Definition ListRunsFiltered (ord : iter_order) (workflowID : string) (status : RunStatus)
    (requestID : string) (startedAfter startedBefore : time) (orderDesc : bool)
    (limit offset : Z) (s : MemoryStore) : option (result (list Run)) :=
  let items := sort_slice (run_less orderDesc)
    (matching_runs ord (run_matches workflowID status requestID startedAfter startedBefore) s) in
  Ok <$> page limit offset items.
Definition CountRunsFiltered (ord : iter_order) (workflowID : string) (status : RunStatus)
    (requestID : string) (startedAfter startedBefore : time) (s : MemoryStore) : result Z :=
  Ok (zlen
    (matching_runs ord (run_matches workflowID status requestID startedAfter startedBefore) s)).
End Memory.

#[export] Instance MemoryStore_listing : WorkflowStoreListing MemoryStore := {|
  ListWorkflows := Memory.ListWorkflows;
  ListRunsFiltered := Memory.ListRunsFiltered;
  CountRunsFiltered := Memory.CountRunsFiltered;
|}.
#[export] Instance MemoryStore_store : WorkflowStore MemoryStore := {|
  SaveWorkflow := Memory.SaveWorkflow;
  GetWorkflow := Memory.GetWorkflow;
  SaveRun := Memory.SaveRun;
  GetRun := Memory.GetRun;
|}.

(** *** The references

    A run as Go has it: its [Results] are wherever the reference points. *)
Module Shared.
Definition ref : Type := nat.
Record run_value := mkRunValue {
  rv_run : Run;         (** the fields but [Results] *)
  rv_Results : ref;
}.
Record SharedStore := mkSharedStore {
  workflows : gmap string Workflow;
  runs : gmap string run_value;
  heap : gmap ref (gmap string TaskResult);
}.
#[export] Instance SharedStore_settable : Settable SharedStore := λ s,
  mkSharedStore (workflows s) (runs s) (heap s).
Definition SaveWorkflow_shared (workflow : Workflow) (s : SharedStore) : result unit * SharedStore :=
  (Ok tt, s <| workflows := <[wf_ID workflow := workflow]> (workflows s) |>).
Definition SaveRun_shared (run : run_value) (s : SharedStore) : result unit * SharedStore :=
  (Ok tt, s <| runs := <[run_ID (rv_run run) := run]> (runs s) |>).
Definition GetRun_shared (runID : string) (s : SharedStore) : result run_value :=
  match runs s !! runID with
  | None => Err "run not found"
  | Some run => Ok run
  end.
(** The executor writes into the map behind [r]. *)
Definition write_result_shared (r : ref) (taskID : string) (res : TaskResult) (s : SharedStore) :
    SharedStore :=
  s <| heap := <[r := <[taskID := res]> (default ∅ (heap s !! r))]> (heap s) |>.

(** The IDs under which the map behind [r] is stored. *)
Definition holders (r : ref) (s : SharedStore) : gset string :=
  dom (filter (λ kv, rv_Results kv.2 = r) (runs s)).
End Shared.

(** What is read through the references. *)
Definition viewed_run (s : Shared.SharedStore) (run : Shared.run_value) : Run :=
  (Shared.rv_run run) <| run_Results := default ∅ (Shared.heap s !! Shared.rv_Results run) |>.
Definition viewed (s : Shared.SharedStore) : MemoryStore :=
  mkMemoryStore (Shared.workflows s) (viewed_run s <$> Shared.runs s).

(** ** file_store.go *)

(** [persistedSnapshot] *)
Record snapshot := mkSnapshot {
  snap_Workflows : list Workflow;
  snap_Runs : list Run;
}.
Record FileStore := mkFileStore {
  mem : MemoryStore;
  disk : option string;   (** the contents of [snapshot.json], if it exists *)
}.
#[export] Instance FileStore_settable : Settable FileStore := λ s,
  mkFileStore (mem s) (disk s).

(** What the operating system does: [os.MkdirAll] on the directory; [os.Stat]
    ([Ok false] is [os.ErrNotExist]), [os.ReadFile] and [os.WriteFile] on the
    snapshot file, of which the model sees the contents. *)
Record file_system := mkFileSystem {
  MkdirAll : string → result unit;
  Stat : option string → result bool;
  ReadFile : option string → result string;
  WriteFile : string → option string → result unit * option string;
}.
(** A file system in working order: an existing file can be read, and a write
    that reports success has replaced the contents. *)
Record file_system_ok (fs : file_system) (baseDir : string) : Prop := {
  MkdirAll_ok : MkdirAll fs baseDir = Ok tt;
  Stat_ok content : Stat fs (Some content) = Ok true;
  ReadFile_ok content : ReadFile fs (Some content) = Ok content;
  WriteFile_ok content d d' : WriteFile fs content d = (Ok tt, d') → d' = Some content;
}.

Section file_store.
(** [json.MarshalIndent] and [json.Unmarshal] on snapshots, the file system,
    and the order the maps are read in. *)
Context (MarshalIndent : snapshot → result string) (Unmarshal : string → result snapshot).
Context (fs : file_system) (ord : iter_order).

(** [for _, x := range l { if err := s.mem.Save(ctx, x); err != nil { return err } }] *)
Definition save_all {A} (save : A → MemoryStore → result unit * MemoryStore)
    (l : list A) (s : MemoryStore) : result MemoryStore :=
  for_each (λ x s, match save x s with (Err e, _) => Err e | (Ok _, s) => Ok s end) l s.
Definition load (disk : option string) (s : MemoryStore) : result MemoryStore :=
  match Stat fs disk with
  | Err e => Err e
  | Ok false => Ok s
  | Ok true =>
      match ReadFile fs disk with
      | Err e => Err e
      | Ok content =>
          match Unmarshal content with
          | Err e => Err ("decode snapshot: " +:+ e)
          | Ok snapshot =>
              s ← save_all Memory.SaveWorkflow (snap_Workflows snapshot) s;
              save_all Memory.SaveRun (snap_Runs snapshot) s
          end
      end
  end.
Definition NewFileStore (baseDir : string) (disk : option string) : result FileStore :=
  if bool_decide (baseDir = "") then Err "baseDir is required" else
  _ ← MkdirAll fs baseDir;
  m ← load disk NewMemoryStore;
  Ok (mkFileStore m disk).

Definition flushLocked (s : FileStore) : result unit * FileStore :=
  match Memory.ListWorkflows ord (mem s) with
  | Err e => (Err e, s)
  | Ok ws =>
      match Memory.ListRuns ord "" (mem s) with
      | Err e => (Err e, s)
      | Ok rs =>
          match MarshalIndent (mkSnapshot ws rs) with
          | Err e => (Err e, s)
          | Ok content =>
              let '(r, d) := WriteFile fs content (disk s) in (r, s <| disk := d |>)
          end
      end
  end.
Definition SaveWorkflow_file (workflow : Workflow) (s : FileStore) : result unit * FileStore :=
  match Memory.SaveWorkflow workflow (mem s) with
  | (Err e, m) => (Err e, s <| mem := m |>)
  | (Ok _, m) => flushLocked (s <| mem := m |>)
  end.
Definition SaveRun_file (run : Run) (s : FileStore) : result unit * FileStore :=
  match Memory.SaveRun run (mem s) with
  | (Err e, m) => (Err e, s <| mem := m |>)
  | (Ok _, m) => flushLocked (s <| mem := m |>)
  end.

#[export] Instance FileStore_store : WorkflowStore FileStore := {|
  SaveWorkflow := SaveWorkflow_file;
  GetWorkflow := λ id s, Memory.GetWorkflow id (mem s);
  SaveRun := SaveRun_file;
  GetRun := λ id s, Memory.GetRun id (mem s);
|}.

(** The reads go to memory. *)
Definition ListWorkflows_file (s : FileStore) : result (list Workflow) :=
  Memory.ListWorkflows ord (mem s).
Definition ListRuns_file (workflowID : string) (s : FileStore) : result (list Run) :=
  Memory.ListRuns ord workflowID (mem s).
Definition ListRunsFiltered_file (workflowID : string) (status : RunStatus)
    (requestID : string) (startedAfter startedBefore : time) (orderDesc : bool)
    (limit offset : Z) (s : FileStore) : option (result (list Run)) :=
  Memory.ListRunsFiltered ord workflowID status requestID startedAfter startedBefore orderDesc
    limit offset (mem s).
Definition CountRunsFiltered_file (workflowID : string) (status : RunStatus)
    (requestID : string) (startedAfter startedBefore : time) (s : FileStore) : result Z :=
  Memory.CountRunsFiltered ord workflowID status requestID startedAfter startedBefore (mem s).
End file_store.

(** ** The memory store is what is read through its references *)

Theorem shared_store_viewed (s : Shared.SharedStore) :
  (∀ w, viewed (Shared.SaveWorkflow_shared w s).2 = (Memory.SaveWorkflow w (viewed s)).2) ∧
  (∀ run, viewed (Shared.SaveRun_shared run s).2 =
     (Memory.SaveRun (viewed_run s run) (viewed s)).2) ∧
  (∀ id, viewed_run s <$> Shared.GetRun_shared id s = Memory.GetRun id (viewed s)) ∧
  ∀ r taskID res, viewed (Shared.write_result_shared r taskID res s) =
    Memory.write_result (Shared.holders r s) taskID res (viewed s).
Proof.
  split; [done|]. split; [|split].
  - intros run. unfold viewed. simpl. f_equal. rewrite fmap_insert. done.
  - intros id. unfold Shared.GetRun_shared, Memory.GetRun. simpl. rewrite lookup_fmap.
    by destruct (Shared.runs s !! id).
  - intros r taskID res. unfold viewed, Memory.write_result, upd. simpl. f_equal.
    apply map_eq. intros id.
    rewrite lookup_fmap, map_lookup_imap, lookup_fmap.
    destruct (Shared.runs s !! id) as [[run r']|] eqn:Hid; simpl; [|done]. f_equal.
    unfold viewed_run, Shared.holders. simpl. case_bool_decide as Hin.
    + apply elem_of_dom in Hin as [v [Hv Hr]%map_lookup_filter_Some]. simpl in Hr.
      rewrite Hid in Hv. injection Hv as <-. simpl in Hr. subst r'. by rewrite lookup_insert_eq.
    + rewrite lookup_insert_ne; [done|]. intros ->. apply Hin, elem_of_dom. eexists.
      by apply map_lookup_filter_Some.
Qed.

(** ** The memory store keeps the promises of the interface *)

Lemma Memory_GetRun_SaveRun run s id :
  Memory.GetRun id (Memory.SaveRun run s).2 =
  if decide (id = run_ID run) then Ok run else Memory.GetRun id s.
Proof.
  unfold Memory.GetRun. simpl. rewrite lookup_insert. repeat case_decide; naive_solver.
Qed.
Lemma Memory_GetWorkflow_SaveWorkflow w s id :
  Memory.GetWorkflow id (Memory.SaveWorkflow w s).2 =
  if decide (id = wf_ID w) then Ok w else Memory.GetWorkflow id s.
Proof.
  unfold Memory.GetWorkflow. simpl. rewrite lookup_insert. repeat case_decide; naive_solver.
Qed.
#[export] Instance MemoryStore_laws : WorkflowStoreLaws MemoryStore.
Proof.
  split; simpl.
  - intros run s s' id [= <-]. apply Memory_GetRun_SaveRun.
  - intros run s s' r id [= <- <-] Hne.
    pose proof (Memory_GetRun_SaveRun run s id) as Hg. by rewrite decide_False in Hg.
  - intros run s s' r id [= <- <-]. done.
  - intros w s s' id [= <-]. apply Memory_GetWorkflow_SaveWorkflow.
  - intros w s s' r id [= <- <-]. pose proof (Memory_GetWorkflow_SaveWorkflow w s id) as Hg.
    case_decide; auto.
  - intros w s s' r id [= <- <-]. done.
Qed.

Section file_facts.
Context (MarshalIndent : snapshot → result string) (Unmarshal : string → result snapshot).
Context (fs : file_system) (ord : iter_order).
Abbreviation flush := (flushLocked MarshalIndent fs ord).

Lemma flush_mem s r s' : flush s = (r, s') → mem s' = mem s.
Proof.
  unfold flushLocked. simpl. destruct (MarshalIndent _); [|by intros [= _ <-]].
  destruct (WriteFile _ _ _). by intros [= _ <-].
Qed.
Lemma SaveRun_file_mem run s r s' :
  SaveRun_file MarshalIndent fs ord run s = (r, s') →
  mem s' = (Memory.SaveRun run (mem s)).2.
Proof. intros Hs. by apply flush_mem in Hs. Qed.
Lemma SaveWorkflow_file_mem w s r s' :
  SaveWorkflow_file MarshalIndent fs ord w s = (r, s') →
  mem s' = (Memory.SaveWorkflow w (mem s)).2.
Proof. intros Hs. by apply flush_mem in Hs. Qed.

#[export] Instance FileStore_laws :
  @WorkflowStoreLaws FileStore (FileStore_store MarshalIndent fs ord).
Proof.
  split; simpl.
  - intros run s s' id ->%SaveRun_file_mem. apply Memory_GetRun_SaveRun.
  - intros run s s' r id ->%SaveRun_file_mem Hne.
    by rewrite Memory_GetRun_SaveRun, decide_False.
  - intros run s s' r id ->%SaveRun_file_mem. done.
  - intros w s s' id ->%SaveWorkflow_file_mem. apply Memory_GetWorkflow_SaveWorkflow.
  - intros w s s' r id ->%SaveWorkflow_file_mem. rewrite Memory_GetWorkflow_SaveWorkflow.
    case_decide; auto.
  - intros w s s' r id ->%SaveWorkflow_file_mem. done.
Qed.
End file_facts.

(** ** The file store survives a restart *)

(** Every value is stored under its own ID. *)
Definition keyed (s : MemoryStore) : Prop :=
  map_Forall (λ id w, wf_ID w = id) (workflows s) ∧ map_Forall (λ id r, run_ID r = id) (runs s).

Lemma keyed_SaveRun run s : keyed s → keyed (Memory.SaveRun run s).2.
Proof. intros [H1 H2]. split; simpl; [done|]. by apply map_Forall_insert_2. Qed.
Lemma keyed_SaveWorkflow w s : keyed s → keyed (Memory.SaveWorkflow w s).2.
Proof. intros [H1 H2]. split; simpl; [|done]. by apply map_Forall_insert_2. Qed.

(** Saving a list of values under their IDs, when no two share an ID. *)
Lemma foldl_insert_lookup {A} (key : A → string) (l : list A) (m : gmap string A) id :
  NoDup (key <$> l) →
  foldl (λ m x, <[key x := x]> m) m l !! id =
  match list_find (λ x, key x = id) l with Some (_, x) => Some x | None => m !! id end.
Proof.
  revert m; induction l as [|x l IH]; intros m Hnd; [done|]. simpl.
  apply NoDup_cons in Hnd as [Hx Hnd]. rewrite IH by done.
  destruct (decide (key x = id)) as [<-|Hne].
  - destruct (list_find (λ y, key y = key x) l) as [[i y]|] eqn:E; simpl.
    + apply list_find_Some in E as (Hy & Heq & _). exfalso. apply Hx. simpl in Heq.
      rewrite <-Heq. apply list_elem_of_fmap_2. by eapply list_elem_of_lookup_2.
    + apply lookup_insert_eq.
  - destruct (list_find _ l) as [[i y]|]; simpl; [done|]. by apply lookup_insert_ne.
Qed.
(** Reading a map in any order, sorted or not, and inserting everything again. *)
Lemma foldl_insert_perm {A} (key : A → string) (l : list A) (m : gmap string A) :
  l ≡ₚ (map_to_list m).*2 → map_Forall (λ id x, key x = id) m →
  foldl (λ m x, <[key x := x]> m) ∅ l = m.
Proof.
  intros Hl Hm.
  assert (Hkeys : key <$> (map_to_list m).*2 = (map_to_list m).*1).
  { rewrite <-list_fmap_compose. apply list_fmap_ext. intros i [k x] Hi. simpl.
    apply list_elem_of_lookup_2, elem_of_map_to_list in Hi. by apply Hm. }
  assert (Hnd : NoDup (key <$> l)).
  { rewrite Hl, Hkeys. apply NoDup_fst_map_to_list. }
  assert (Hin : ∀ x, x ∈ l ↔ m !! key x = Some x).
  { intros x. rewrite Hl, list_elem_of_fmap. split.
    - intros ([k y] & -> & Hy%elem_of_map_to_list). simpl. by rewrite (Hm _ _ Hy).
    - intros Hx. exists (key x, x). split; [done|]. by apply elem_of_map_to_list. }
  apply map_eq. intros id. rewrite foldl_insert_lookup by done.
  destruct (list_find _ l) as [[i x]|] eqn:E.
  - apply list_find_Some in E as (Hx & Heq & _). simpl in Heq. subst id.
    symmetry. apply Hin. by eapply list_elem_of_lookup_2.
  - apply list_find_None in E. destruct (m !! id) as [x|] eqn:Ex; [|apply lookup_empty].
    exfalso. pose proof (Hm _ _ Ex) as Hk. simpl in Hk. subst id.
    apply Hin in Ex. rewrite Forall_forall in E. by apply (E x).
Qed.

Section restart.
Context (MarshalIndent : snapshot → result string) (Unmarshal : string → result snapshot).
Context (fs : file_system) (ord : iter_order).

(** What is written for a store, and [Unmarshal] reading it back. *)
Definition snapshot_of (s : MemoryStore) : snapshot :=
  mkSnapshot (sort_slice (λ a b, str_ltb (wf_ID a) (wf_ID b)) (iter_values ord (workflows s)))
    (sort_slice Memory.started_less
       (filter (λ r, "" = "" ∨ run_WorkflowID r = "") (iter_values ord (runs s)))).
Definition json_round_trip (s : MemoryStore) : Prop := ∀ content,
  MarshalIndent (snapshot_of s) = Ok content → Unmarshal content = Ok (snapshot_of s).

Inductive file_op := OpWorkflow (w : Workflow) | OpRun (r : Run).
Definition run_op (op : file_op) (s : FileStore) : result unit * FileStore :=
  match op with
  | OpWorkflow w => SaveWorkflow_file MarshalIndent fs ord w s
  | OpRun r => SaveRun_file MarshalIndent fs ord r s
  end.
(** What happens to the store: it is asked to save, and executors write into the maps of
    runs that it holds, which does not touch the disk. *)
Inductive file_event :=
| Saved (op : file_op)
| Wrote (holders : gset string) (taskID : string) (res : TaskResult).
Definition run_event (ev : file_event) (s : FileStore) : FileStore :=
  match ev with
  | Saved op => (run_op op s).2
  | Wrote holders taskID res => s <| mem := Memory.write_result holders taskID res (mem s) |>
  end.
Definition run_events (evs : list file_event) (s : FileStore) : FileStore :=
  foldl (λ s ev, run_event ev s) s evs.
Definition is_write (ev : file_event) : Prop := match ev with Wrote _ _ _ => True | _ => False end.

(** Saving into the memory store never fails. *)
Lemma save_all_workflows l ws rs :
  save_all Memory.SaveWorkflow l (mkMemoryStore ws rs) =
    Ok (mkMemoryStore (foldl (λ m x, <[wf_ID x := x]> m) ws l) rs).
Proof. revert ws; induction l as [|x l IH]; intros ws; [done|]. exact (IH _). Qed.
Lemma save_all_runs l ws rs :
  save_all Memory.SaveRun l (mkMemoryStore ws rs) =
    Ok (mkMemoryStore ws (foldl (λ m x, <[run_ID x := x]> m) rs l)).
Proof. revert rs; induction l as [|x l IH]; intros rs; [done|]. exact (IH _). Qed.

Lemma load_flush baseDir s s' :
  file_system_ok fs baseDir → keyed (mem s) → json_round_trip (mem s) →
  flushLocked MarshalIndent fs ord s = (Ok tt, s') →
  load Unmarshal fs (disk s') NewMemoryStore = Ok (mem s').
Proof.
  intros Hfs [Hw Hr] Hjson Hf. pose proof (flush_mem _ _ _ _ _ _ Hf) as Hm.
  unfold flushLocked in Hf. simpl in Hf. fold (snapshot_of (mem s)) in Hf.
  destruct (MarshalIndent _) as [content|] eqn:Hj; [|done].
  destruct (WriteFile _ content (disk s)) as [r d] eqn:Hwr. injection Hf as -> <-. simpl.
  apply (WriteFile_ok _ _ Hfs) in Hwr as ->. unfold load.
  rewrite (Stat_ok _ _ Hfs), (ReadFile_ok _ _ Hfs), (Hjson _ Hj).
  unfold NewMemoryStore. rewrite save_all_workflows. simpl. rewrite save_all_runs.
  f_equal. simpl in Hm. unfold snapshot_of, iter_values. simpl.
  rewrite !foldl_insert_perm with (m := workflows (mem s)) by
    (done || by rewrite sort_slice_perm, iter_perm).
  rewrite foldl_insert_perm with (m := runs (mem s)); [by destruct (mem s)| |done].
  rewrite sort_slice_perm, list_filter_all by (intros; by left). by rewrite iter_perm.
Qed.

Lemma run_op_flush op s :
  ∃ m, mem (run_op op s).2 = m ∧ (keyed (mem s) → keyed m) ∧
    run_op op s = flushLocked MarshalIndent fs ord (s <| mem := m |>).
Proof.
  destruct op as [w|r]; simpl.
  - exists (Memory.SaveWorkflow w (mem s)).2. split; [|split; [apply keyed_SaveWorkflow|done]].
    by eapply SaveWorkflow_file_mem, surjective_pairing.
  - exists (Memory.SaveRun r (mem s)).2. split; [|split; [apply keyed_SaveRun|done]].
    by eapply SaveRun_file_mem, surjective_pairing.
Qed.
Lemma keyed_write holders taskID res s : keyed s → keyed (Memory.write_result holders taskID res s).
Proof.
  intros [Hw Hr]. split; [done|]. intros id run. simpl. rewrite map_lookup_imap.
  destruct (runs s !! id) as [run0|] eqn:Hid; simpl; [|done]. intros [= <-].
  specialize (Hr _ _ Hid). by case_bool_decide.
Qed.
Lemma run_events_keyed evs s : keyed (mem s) → keyed (mem (run_events evs s)).
Proof.
  revert s; induction evs as [|ev evs IH]; intros s Hs; [done|]. simpl. apply IH.
  destruct ev as [op|h k v]; simpl; [|by apply keyed_write].
  destruct (run_op_flush op s) as (m & -> & Hm & _). by apply Hm.
Qed.
Lemma writes_disk evs s : Forall is_write evs → disk (run_events evs s) = disk s.
Proof.
  intros Hw. revert s. induction Hw as [|[|] evs Hev _ IH]; intros s; [done|done|].
  simpl. by rewrite IH.
Qed.
End restart.

(** A save that reported success is on disk, with all that was saved before. *)
Lemma restart_after_op MarshalIndent Unmarshal fs ord baseDir op s s' :
  file_system_ok fs baseDir → baseDir ≠ "" → keyed (mem s) →
  run_op MarshalIndent fs ord op s = (Ok tt, s') → json_round_trip MarshalIndent Unmarshal ord (mem s') →
  NewFileStore Unmarshal fs baseDir (disk s') = Ok s'.
Proof.
  intros Hfs Hdir Hk Hop Hjson.
  destruct (run_op_flush MarshalIndent fs ord op s) as (m & Hm & Hkeyed & Hflush).
  rewrite Hop in Hm, Hflush. simpl in Hm. symmetry in Hflush. apply Hkeyed in Hk. subst m.
  unfold NewFileStore. rewrite bool_decide_false, (MkdirAll_ok _ _ Hfs) by done. simpl.
  rewrite (load_flush MarshalIndent Unmarshal fs ord baseDir (s <| mem := mem s' |>) s');
    [|done..]. simpl. by destruct s'.
Qed.
(** What a store is opened with is stored under its IDs. *)
Lemma keyed_inserts {A} (key : A → string) (l : list A) (m : gmap string A) :
  map_Forall (λ id x, key x = id) m → map_Forall (λ id x, key x = id) (foldl (λ m x, <[key x := x]> m) m l).
Proof.
  revert m; induction l as [|x l IH]; intros m Hm; [done|]. simpl. apply IH. by apply map_Forall_insert_2.
Qed.
Lemma NewFileStore_keyed Unmarshal fs baseDir disk s :
  NewFileStore Unmarshal fs baseDir disk = Ok s → keyed (mem s).
Proof.
  assert (H0 : keyed NewMemoryStore) by (split; apply map_Forall_empty).
  unfold NewFileStore, load. case_bool_decide; [done|]. destruct (MkdirAll fs baseDir); [|done]. simpl.
  destruct (Stat fs disk) as [[]|]; simpl; [|by intros [= <-]|done].
  destruct (ReadFile fs disk); [|done]. destruct (Unmarshal _) as [snap|]; [|done].
  unfold NewMemoryStore. rewrite save_all_workflows. simpl. rewrite save_all_runs. simpl. intros [= <-].
  split; apply keyed_inserts; apply map_Forall_empty.
Qed.

(** C34. Durability of the file store: after anything that happened to it - saves, failed ones
    too, and results that executors wrote into the maps of runs it holds - when a save reports
    success, opening a store on the directory gives back exactly the workflows and runs the
    store held in memory at that moment, whatever the order the maps were read in; what is
    only written into its maps afterwards is not on disk.  (A write in the middle of a save is
    a data race of the program; those between two saves are covered.) *)
Theorem restart_recovers MarshalIndent Unmarshal fs ord baseDir evs op s' writes :
  file_system_ok fs baseDir → baseDir ≠ "" →
  let s0 := mkFileStore NewMemoryStore None in
  run_op MarshalIndent fs ord op (run_events MarshalIndent fs ord evs s0) = (Ok tt, s') →
  json_round_trip MarshalIndent Unmarshal ord (mem s') → Forall is_write writes →
  NewFileStore Unmarshal fs baseDir (disk (run_events MarshalIndent fs ord writes s')) = Ok s'.
Proof.
  intros Hfs Hdir s0 Hop Hjson Hw. rewrite writes_disk by done.
  eapply restart_after_op; [done|done| |exact Hop|done].
  apply run_events_keyed. split; apply map_Forall_empty.
Qed.
Module StoreSample.
Definition workflow : Workflow := mkWorkflow "w" "" "" "" 1 false false 0 [].
Definition started : Run :=
  mkRun "r" "w" "" RunStatusRunning CompensationStatusNotRequired [] 5 0 0 ∅ "".
Definition result_ : TaskResult := TaskResult_zero <| res_Status := TaskStatusSuccess |>.
Definition run : Run :=
  started <| run_Status := RunStatusSuccess |> <| run_Results := {["a" := result_]} |>.
Definition snap : snapshot := mkSnapshot [workflow] [run].
Definition marshal (s : snapshot) : result string :=
  if decide (snap_Workflows s = snap_Workflows snap ∧ snap_Runs s = snap_Runs snap)
  then Ok "{...}" else Err "json: unsupported value".
Definition unmarshal (content : string) : result snapshot :=
  if decide (content = "{...}") then Ok snap else Err "invalid character".
Definition fs : file_system := mkFileSystem (λ _, Ok tt)
  (λ d, Ok match d with Some _ => true | None => false end)
  (λ d, match d with Some content => Ok content | None => Err "no such file" end)
  (λ content _, (Ok tt, Some content)).
End StoreSample.
(** A run is saved when it starts and when it has ended; its result comes between. *)
Lemma restart_recovers_witness :
  let evs := [Saved (OpWorkflow StoreSample.workflow); Saved (OpRun StoreSample.started);
              Wrote {["r"]} "a" StoreSample.result_] in
  let late := [Wrote {["r"]} "b" StoreSample.result_] in
  let step := run_events StoreSample.marshal StoreSample.fs canonical_order in
  let s := step evs (mkFileStore NewMemoryStore None) in
  let s' := step [Saved (OpRun StoreSample.run)] s in
  Memory.GetRun "r" (mem s) = Ok (StoreSample.started <| run_Results := {["a" := StoreSample.result_]} |>) ∧
  NewFileStore StoreSample.unmarshal StoreSample.fs "data" (disk (step late s')) = Ok s' ∧
  step late s' ≠ s'.
Proof.
  intros evs late step s s'. split; [vm_compute; reflexivity|].
  split; [|vm_compute; discriminate].
  apply (restart_recovers StoreSample.marshal StoreSample.unmarshal StoreSample.fs
    canonical_order "data" evs (OpRun StoreSample.run) s' late).
  - split; [done..|]. by intros content d d' [= <-].
  - done.
  - vm_compute. reflexivity.
  - intros content Hc. vm_compute in Hc. injection Hc as <-. vm_compute. reflexivity.
  - repeat constructor.
Defined.

(** ** Listing runs *)

(** The runs a filter selects. *)
Definition run_selected (workflowID : string) (status : RunStatus) (requestID : string)
    (startedAfter startedBefore : time) (run : Run) : Prop :=
  (workflowID = "" ∨ run_WorkflowID run = workflowID) ∧
  (status = "" ∨ run_Status run = status) ∧
  (requestID = "" ∨ run_RequestID run = requestID) ∧
  (startedAfter = time_zero ∨ startedAfter ≤ run_StartedAt run) ∧
  (startedBefore = time_zero ∨ run_StartedAt run ≤ startedBefore).
#[export] Instance run_selected_dec workflowID status requestID after before run :
  Decision (run_selected workflowID status requestID after before run).
Proof. unfold run_selected. apply _. Defined.
Lemma run_matches_spec workflowID status requestID after before run :
  Memory.run_matches workflowID status requestID after before run = true ↔
  run_selected workflowID status requestID after before run.
Proof.
  unfold Memory.run_matches, run_selected. autorewrite with sched_filter. tauto.
Qed.
Lemma matching_runs_perm ord workflowID status requestID after before s :
  Memory.matching_runs ord (Memory.run_matches workflowID status requestID after before) s ≡ₚ
  filter (run_selected workflowID status requestID after before) (map_to_list (runs s)).*2.
Proof.
  unfold Memory.matching_runs, iter_values. rewrite iter_perm.
  erewrite list_filter_iff; [done|]. intros r. apply run_matches_spec.
Qed.

Lemma run_less_asym desc a b : Memory.run_less desc a b = true → Memory.run_less desc b a = false.
Proof. unfold Memory.run_less, After, Before. destruct desc; rewrite Z.ltb_lt, Z.ltb_ge; lia. Qed.
Lemma run_le_trans desc a b c :
  sorted_le (Memory.run_less desc) a b → sorted_le (Memory.run_less desc) b c →
  sorted_le (Memory.run_less desc) a c.
Proof.
  unfold sorted_le, Memory.run_less, After, Before. destruct desc; rewrite !Z.ltb_ge; lia.
Qed.

(** Paging through runs: reading all pages of [ListRunsFiltered] one after the
    other gives every run that the filter selects exactly once, in the order
    asked for, and as many as [CountRunsFiltered] announces (which may range over
    the map in another order). *)
Theorem ListRunsFiltered_pages ord ord' workflowID status requestID after before desc limit n s :
  0 < limit → Z.of_nat (size (runs s)) ≤ Z.of_nat n * limit → Z.of_nat n * limit ≤ int64_max →
  ∃ pages,
    mapM (λ k, Memory.ListRunsFiltered ord workflowID status requestID after before desc
                 limit (Z.of_nat k * limit) s) (seq 0 n) = Some (Ok <$> pages) ∧
    Forall (λ p, zlen p ≤ limit) pages ∧
    let all := mjoin pages in
    all ≡ₚ filter (run_selected workflowID status requestID after before)
             ((map_to_list (runs s)).*2) ∧
    StronglySorted (λ a b, if desc then run_StartedAt b ≤ run_StartedAt a
                           else run_StartedAt a ≤ run_StartedAt b) all ∧
    Memory.CountRunsFiltered ord' workflowID status requestID after before s = Ok (zlen all).
Proof.
  intros Hl Hn Hov. unfold Memory.ListRunsFiltered, Memory.CountRunsFiltered. cbv zeta.
  set (items := sort_slice (Memory.run_less desc) _).
  assert (Hitems : items ≡ₚ filter (run_selected workflowID status requestID after before)
                     (map_to_list (runs s)).*2).
  { unfold items. by rewrite sort_slice_perm, matching_runs_perm. }
  assert (Hlen : zlen items ≤ Z.of_nat (size (runs s))).
  { rewrite Hitems. unfold zlen.
    pose proof (length_filter (run_selected workflowID status requestID after before)
      (map_to_list (runs s)).*2) as Hf.
    rewrite length_fmap, length_map_to_list in Hf. lia. }
  destruct (pages_concat limit n items Hl) as (pages & Hp & Hjoin & Hsize); [lia|done|].
  exists pages. split; [|split; [done|]].
  - apply mapM_Some in Hp. apply mapM_Some. apply Forall2_fmap_r.
    eapply Forall2_impl; [exact Hp|]. intros k p Hk. simpl in *. by rewrite Hk.
  - simpl. rewrite Hjoin. split; [done|]. split.
    + eapply StronglySorted_weaken; [|apply sort_slice_sorted;
        [apply run_less_asym|apply run_le_trans]].
      intros a b. unfold sorted_le, Memory.run_less, After, Before.
      destruct desc; rewrite Z.ltb_ge; lia.
    + f_equal. by rewrite Hitems, matching_runs_perm.
Qed.
Lemma ListRunsFiltered_pages_witness :
  let s := run_events (λ _, Err "") StoreSample.fs canonical_order
    ((λ k, Saved $ OpRun (StoreSample.run <| run_ID := pretty k |> <| run_StartedAt := Z.of_nat k |>))
       <$> [3; 1; 2]%nat) (mkFileStore NewMemoryStore None) in
  ∃ pages, mapM (λ k, Memory.ListRunsFiltered canonical_order "w" "" "" 0 0 true 2
                        (Z.of_nat k * 2) (mem s)) (seq 0 2) = Some (Ok <$> pages) ∧
    run_StartedAt <$> mjoin pages = [3; 2; 1].
Proof.
  intros s.
  destruct (ListRunsFiltered_pages canonical_order canonical_order "w" "" "" 0 0 true 2 2 (mem s))
    as (pages & Hp & _).
  - done.
  - vm_compute. discriminate.
  - vm_compute. discriminate.
  - exists pages. split; [exact Hp|]. vm_compute in Hp.
    destruct pages as [|p1 [|p2 [|]]]; try discriminate Hp. by injection Hp as <- <-.
Defined.

(** A page that reaches past the largest integer crashes: when [offset + limit]
    overflows and the offset lies within the selected runs, the upper bound of
    the slice expression is negative and [ListRunsFiltered] panics. *)
Theorem ListRunsFiltered_overflow ord workflowID status requestID after before desc limit offset s :
  let selected := filter (run_selected workflowID status requestID after before)
                    (map_to_list (runs s)).*2 in
  0 < limit ≤ int64_max → 0 ≤ offset < zlen selected → zlen selected ≤ int64_max →
  int64_max < offset + limit →
  Memory.ListRunsFiltered ord workflowID status requestID after before desc limit offset s = None.
Proof.
  intros selected Hl Ho Hlen Hov. unfold Memory.ListRunsFiltered.
  assert (Hz : zlen (sort_slice (Memory.run_less desc) (Memory.matching_runs ord
    (Memory.run_matches workflowID status requestID after before) s)) = zlen selected).
  { by rewrite sort_slice_perm, matching_runs_perm. }
  rewrite page_overflow; [done|lia..].
Qed.
Lemma ListRunsFiltered_overflow_witness :
  let s := mem (run_events (λ _, Err "") StoreSample.fs canonical_order
    ((λ k, Saved $ OpRun (StoreSample.run <| run_ID := pretty k |>)) <$> [1; 2]%nat)
    (mkFileStore NewMemoryStore None)) in
  Memory.ListRunsFiltered canonical_order "" "" "" 0 0 false int64_max 1 s = None.
Proof. intros s. apply ListRunsFiltered_overflow; vm_compute; intuition discriminate. Defined.
