(* ===== verification/Queue.v ===== *)
(** * internal/queue/memory_queue.go: the run queue

    [MemoryRunQueue]: the jobs by ID and, for each, the history of its status
    changes.  Every operation holds the queue's lock from start to end, so an
    operation is one step; the readings of the clock it makes are [clk 0],
    [clk 1], ... in program order. *)

From S2P Require Import Prelude GoLib Domain Interfaces.
Local Open Scope Z_scope.

Record MemoryRunQueue := mkMemoryRunQueue {
  q_jobs : gmap string RunQueueJob;
  q_transitions : gmap string (list RunJobTransition);
}.
#[export] Instance MemoryRunQueue_settable : Settable MemoryRunQueue := λ q,
  mkMemoryRunQueue (q_jobs q) (q_transitions q).
Definition NewMemoryRunQueue : MemoryRunQueue := mkMemoryRunQueue ∅ ∅.

Definition appendTransition (now : time) (jobID : string) (fromStatus toStatus : RunJobStatus)
    (reason actor : string) (q : MemoryRunQueue) : MemoryRunQueue :=
  let tr := mkRunJobTransition jobID fromStatus toStatus reason actor now in
  q <| q_transitions :=
         <[jobID := default [] (q_transitions q !! jobID) ++ [tr]]> (q_transitions q) |>.
(** [q.jobs[jobID] = job] *)
Definition put_job (jobID : string) (job : RunQueueJob) (q : MemoryRunQueue) : MemoryRunQueue :=
  q <| q_jobs := <[jobID := job]> (q_jobs q) |>.

Module MemQ.
Definition EnqueueRunJob (clk : clock) (job : RunQueueJob) (q : MemoryRunQueue) :
    result unit * MemoryRunQueue :=
  match q_jobs q !! job_ID job with
  | Some _ => (Ok tt, q)
  | None =>
      let now := clk 0%nat in
      let job := if IsZero (job_CreatedAt job) then job <| job_CreatedAt := now |> else job in
      let job := if IsZero (job_UpdatedAt job) then job <| job_UpdatedAt := now |> else job in
      let job := if IsZero (job_AvailableAt job) then job <| job_AvailableAt := now |> else job in
      let job := if bool_decide (job_Status job = "")
                 then job <| job_Status := RunJobStatusQueued |> else job in
      let q := put_job (job_ID job) job q in
      (Ok tt, appendTransition (clk 1%nat) (job_ID job) "" (job_Status job) "enqueued" "system" q)
  end.

Definition GetRunJob (jobID : string) (q : MemoryRunQueue) : result RunQueueJob :=
  match q_jobs q !! jobID with
  | None => Err "run job not found"
  | Some job => Ok job
  end.

Definition GetRunJobByRequest (ord : iter_order) (workflowID requestID : string)
    (q : MemoryRunQueue) : result RunQueueJob :=
  match list_find (λ job, job_WorkflowID job = workflowID ∧ job_RequestID job = requestID)
          (iter_values ord (q_jobs q)) with
  | Some (_, job) => Ok job
  | None => Err "run job not found"
  end.

(** The two conditions under which a job may be leased at [now]. *)
Definition leasable (now : time) (job : RunQueueJob) : bool :=
  (bool_decide (job_Status job = RunJobStatusQueued) && negb (After (job_AvailableAt job) now))
  || (bool_decide (job_Status job = RunJobStatusLeased)
      && negb (IsZero (job_LeaseUntil job)) && Before (job_LeaseUntil job) now).
Definition created_less (a b : RunQueueJob) : bool := Before (job_CreatedAt a) (job_CreatedAt b).
Definition LeaseNextRunJob (ord : iter_order) (clk : clock) (workerID : string)
    (leaseDuration : duration) (q : MemoryRunQueue) : result RunQueueJob * MemoryRunQueue :=
  let now := clk 0%nat in
  let candidates := filter (λ job, leasable now job = true) (iter_values ord (q_jobs q)) in
  match sort_slice created_less candidates with
  | [] => (Err "no run job available", q)
  | job :: _ =>
      let fromStatus := job_Status job in
      let job := job <| job_Status := RunJobStatusLeased |>
        <| job_LeaseOwner := workerID |>
        <| job_LeaseUntil := time_Add now leaseDuration |>
        <| job_Attempts := wrap64 (job_Attempts job + 1) |>
        <| job_UpdatedAt := now |> in
      let q := put_job (job_ID job) job q in
      (Ok job, appendTransition (clk 1%nat) (job_ID job) fromStatus RunJobStatusLeased "leased"
                 workerID q)
  end.

Definition ExtendRunJobLease (clk : clock) (jobID workerID : string) (leaseDuration : duration)
    (q : MemoryRunQueue) : result unit * MemoryRunQueue :=
  match q_jobs q !! jobID with
  | None => (Err "run job not found", q)
  | Some job =>
      if bool_decide (job_Status job ≠ RunJobStatusLeased) then
        (Err "run job is not leased", q) else
      if bool_decide (job_LeaseOwner job ≠ workerID) then
        (Err "run job lease owner mismatch", q) else
      let job := job <| job_LeaseUntil := time_Add (clk 0%nat) leaseDuration |>
        <| job_UpdatedAt := clk 1%nat |> in
      (Ok tt, put_job jobID job q)
  end.

Definition CompleteRunJob (clk : clock) (jobID : string) (q : MemoryRunQueue) :
    result unit * MemoryRunQueue :=
  match q_jobs q !! jobID with
  | None => (Err "run job not found", q)
  | Some job =>
      if bool_decide (job_Status job ≠ RunJobStatusLeased) then
        (Err "run job is not leased", q) else
      let fromStatus := job_Status job in
      let job := job <| job_Status := RunJobStatusSucceeded |> <| job_LeaseOwner := "" |>
        <| job_LeaseUntil := time_zero |> <| job_UpdatedAt := clk 0%nat |> in
      (Ok tt, appendTransition (clk 1%nat) jobID fromStatus (job_Status job) "completed" "worker"
                (put_job jobID job q))
  end.

Definition CancelRunJob (clk : clock) (jobID reason : string) (q : MemoryRunQueue) :
    result unit * MemoryRunQueue :=
  match q_jobs q !! jobID with
  | None => (Err "run job not found", q)
  | Some job =>
      if bool_decide (job_Status job = RunJobStatusSucceeded) then
        (Err "run job cannot be cancelled in current state", q) else
      if bool_decide (job_Status job = RunJobStatusCancelled) then (Ok tt, q) else
      let fromStatus := job_Status job in
      let job := job <| job_Status := RunJobStatusCancelled |> <| job_LastError := reason |>
        <| job_LeaseOwner := "" |> <| job_LeaseUntil := time_zero |>
        <| job_UpdatedAt := clk 0%nat |> in
      (Ok tt, appendTransition (clk 1%nat) jobID fromStatus (job_Status job) reason "api"
                (put_job jobID job q))
  end.

Definition RetryRunJob (clk : clock) (jobID : string) (retryAfter : duration)
    (lastError : string) (q : MemoryRunQueue) : result unit * MemoryRunQueue :=
  match q_jobs q !! jobID with
  | None => (Err "run job not found", q)
  | Some job =>
      if bool_decide (job_Status job ≠ RunJobStatusLeased) then
        (Err "run job is not leased", q) else
      let fromStatus := job_Status job in
      let job := job <| job_Status := RunJobStatusQueued |>
        <| job_AvailableAt := time_Add (clk 0%nat) retryAfter |>
        <| job_LastError := lastError |> <| job_LeaseOwner := "" |>
        <| job_LeaseUntil := time_zero |> <| job_UpdatedAt := clk 1%nat |> in
      (Ok tt, appendTransition (clk 2%nat) jobID fromStatus (job_Status job) lastError "worker"
                (put_job jobID job q))
  end.

Definition FailRunJob (clk : clock) (jobID lastError : string) (q : MemoryRunQueue) :
    result unit * MemoryRunQueue :=
  match q_jobs q !! jobID with
  | None => (Err "run job not found", q)
  | Some job =>
      if bool_decide (job_Status job ≠ RunJobStatusLeased) then
        (Err "run job is not leased", q) else
      let fromStatus := job_Status job in
      let job := job <| job_Status := RunJobStatusFailed |> <| job_LastError := lastError |>
        <| job_LeaseOwner := "" |> <| job_LeaseUntil := time_zero |>
        <| job_UpdatedAt := clk 0%nat |> in
      (Ok tt, appendTransition (clk 1%nat) jobID fromStatus (job_Status job) lastError "worker"
                (put_job jobID job q))
  end.

Definition DeadLetterRunJob (clk : clock) (jobID lastError : string) (q : MemoryRunQueue) :
    result unit * MemoryRunQueue :=
  match q_jobs q !! jobID with
  | None => (Err "run job not found", q)
  | Some job =>
      if bool_decide (job_Status job ≠ RunJobStatusLeased) then
        (Err "run job is not leased", q) else
      let fromStatus := job_Status job in
      let job := job <| job_Status := RunJobStatusDead |> <| job_LastError := lastError |>
        <| job_LeaseOwner := "" |> <| job_LeaseUntil := time_zero |>
        <| job_UpdatedAt := clk 0%nat |> in
      (Ok tt, appendTransition (clk 1%nat) jobID fromStatus (job_Status job) lastError "worker"
                (put_job jobID job q))
  end.

Definition RequeueRunJob (clk : clock) (jobID : string) (availableAfter : duration)
    (replayedBy replayReason : string) (q : MemoryRunQueue) : result unit * MemoryRunQueue :=
  match q_jobs q !! jobID with
  | None => (Err "run job not found", q)
  | Some job =>
      if bool_decide (job_Status job ≠ RunJobStatusDead)
         && bool_decide (job_Status job ≠ RunJobStatusFailed) then
        (Err "only failed or dead-letter jobs can be requeued", q) else
      let fromStatus := job_Status job in
      let job := job <| job_Status := RunJobStatusQueued |> <| job_LeaseOwner := "" |>
        <| job_LeaseUntil := time_zero |>
        <| job_AvailableAt := time_Add (clk 0%nat) availableAfter |>
        <| job_ReplayCount := wrap64 (job_ReplayCount job + 1) |>
        <| job_ReplayedBy := replayedBy |> <| job_ReplayReason := replayReason |>
        <| job_ReplayedAt := clk 1%nat |> <| job_UpdatedAt := clk 2%nat |> in
      (Ok tt, appendTransition (clk 3%nat) jobID fromStatus (job_Status job) replayReason
                replayedBy (put_job jobID job q))
  end.

(** *** Listing *)

Definition job_less (a b : RunQueueJob) : bool :=
  if time_Equal (job_CreatedAt a) (job_CreatedAt b) then str_ltb (job_ID a) (job_ID b)
  else Before (job_CreatedAt a) (job_CreatedAt b).
Definition ListRunJobs (ord : iter_order) (status : string) (limit offset : Z)
    (q : MemoryRunQueue) : option (result (list RunQueueJob)) :=
  let items := filter (λ job, status = "" ∨ job_Status job = status)
                 (iter_values ord (q_jobs q)) in
  Ok <$> page limit offset (sort_slice job_less items).

Definition job_matches (status workflowID requestID : string)
    (updatedAfter updatedBefore : time) (job : RunQueueJob) : bool :=
  if bool_decide (status ≠ "") && bool_decide (job_Status job ≠ status) then false else
  if bool_decide (workflowID ≠ "") && bool_decide (job_WorkflowID job ≠ workflowID)
  then false else
  if bool_decide (requestID ≠ "") && bool_decide (job_RequestID job ≠ requestID)
  then false else
  if negb (IsZero updatedAfter) && Before (job_UpdatedAt job) updatedAfter then false else
  if negb (IsZero updatedBefore) && After (job_UpdatedAt job) updatedBefore then false else
  true.
Definition matching_jobs (ord : iter_order) (p : RunQueueJob → bool) (q : MemoryRunQueue) :
    list RunQueueJob := filter (λ job, p job = true) (iter_values ord (q_jobs q)).
Definition ListRunJobsFiltered (ord : iter_order) (status workflowID requestID : string)
    (updatedAfter updatedBefore : time) (limit offset : Z) (q : MemoryRunQueue) :
    option (result (list RunQueueJob)) :=
  let items :=
    matching_jobs ord (job_matches status workflowID requestID updatedAfter updatedBefore) q in
  Ok <$> page limit offset (sort_slice job_less items).
Definition CountRunJobsFiltered (ord : iter_order) (status workflowID requestID : string)
    (updatedAfter updatedBefore : time) (q : MemoryRunQueue) : result Z :=
  Ok (zlen
    (matching_jobs ord (job_matches status workflowID requestID updatedAfter updatedBefore) q)).
Definition ListRunJobsByRun (ord : iter_order) (runID : string) (limit offset : Z)
    (q : MemoryRunQueue) : option (result (list RunQueueJob)) :=
  let items := filter (λ job, job_RunID job = runID) (iter_values ord (q_jobs q)) in
  Ok <$> page limit offset (sort_slice job_less items).

Definition count_status (counts : gmap string Z) (job : RunQueueJob) : gmap string Z :=
  <[job_Status job := default 0 (counts !! job_Status job) + 1]> counts.
Definition CountRunJobsByStatus (ord : iter_order) (q : MemoryRunQueue) :
    result (gmap string Z) :=
  Ok (foldl count_status ∅ (iter_values ord (q_jobs q))).

(** *** Purging *)

(** A candidate: the map key and [job.UpdatedAt]. *)
Definition purge_less (a b : string * time) : bool :=
  if time_Equal a.2 b.2 then str_ltb a.1 b.1 else Before a.2 b.2.
Definition purgeable (status : string) (cutoff : time) (job : RunQueueJob) : bool :=
  if bool_decide (status ≠ "") && bool_decide (job_Status job ≠ status) then false else
  if negb (IsZero cutoff) && After (job_UpdatedAt job) cutoff then false else true.
Definition purge_cutoff (clk : clock) (olderThan : duration) : time :=
  if 0 <? olderThan then time_Add (clk 0%nat) (- olderThan) else time_zero.
Definition purge_candidates (ord : iter_order) (status : string) (cutoff : time)
    (q : MemoryRunQueue) : list (string * time) :=
  sort_slice purge_less
    ((λ kv, (kv.1, job_UpdatedAt kv.2)) <$>
       filter (λ kv, purgeable status cutoff kv.2 = true) (iter ord (q_jobs q))).
Definition delete_job (q : MemoryRunQueue) (c : string * time) : MemoryRunQueue :=
  q <| q_jobs := delete c.1 (q_jobs q) |> <| q_transitions := delete c.1 (q_transitions q) |>.
Definition PurgeRunJobs (ord : iter_order) (clk : clock) (status : string)
    (olderThan : duration) (limit : Z) (q : MemoryRunQueue) : result Z * MemoryRunQueue :=
  let limit := if limit <=? 0 then 1000 else limit in
  let candidates := purge_candidates ord status (purge_cutoff clk olderThan) q in
  let candidates := if limit <? zlen candidates then take (Z.to_nat limit) candidates
                    else candidates in
  (Ok (zlen candidates), foldl delete_job q candidates).

(** *** History *)

Definition history (jobID : string) (q : MemoryRunQueue) : list RunJobTransition :=
  default [] (q_transitions q !! jobID).
Definition ListRunJobTransitions (jobID : string) (limit offset : Z) (q : MemoryRunQueue) :
    option (result (list RunJobTransition)) := Ok <$> page limit offset (history jobID q).
Definition transition_matches (toStatus actor : string) (createdAfter createdBefore : time)
    (item : RunJobTransition) : bool :=
  if bool_decide (toStatus ≠ "") && bool_decide (tr_ToStatus item ≠ toStatus) then false else
  if bool_decide (actor ≠ "") && bool_decide (tr_Actor item ≠ actor) then false else
  if negb (IsZero createdAfter) && Before (tr_CreatedAt item) createdAfter then false else
  if negb (IsZero createdBefore) && After (tr_CreatedAt item) createdBefore then false else
  true.
Definition ListRunJobTransitionsFiltered (jobID toStatus actor : string)
    (createdAfter createdBefore : time) (limit offset : Z) (q : MemoryRunQueue) :
    option (result (list RunJobTransition)) :=
  let items := filter (λ i, transition_matches toStatus actor createdAfter createdBefore i = true)
                 (history jobID q) in
  Ok <$> page limit offset items.
Definition CountRunJobTransitionsFiltered (jobID toStatus actor : string)
    (createdAfter createdBefore : time) (q : MemoryRunQueue) : result Z :=
  Ok (zlen (filter (λ i, transition_matches toStatus actor createdAfter createdBefore i = true)
              (history jobID q))).
End MemQ.

#[export] Instance MemoryRunQueue_queue : RunQueue MemoryRunQueue := {|
  EnqueueRunJob := MemQ.EnqueueRunJob;
  GetRunJob := MemQ.GetRunJob;
  LeaseNextRunJob := MemQ.LeaseNextRunJob;
  ExtendRunJobLease := MemQ.ExtendRunJobLease;
  CompleteRunJob := MemQ.CompleteRunJob;
  CancelRunJob := MemQ.CancelRunJob;
  RetryRunJob := MemQ.RetryRunJob;
  FailRunJob := MemQ.FailRunJob;
  DeadLetterRunJob := MemQ.DeadLetterRunJob;
  RequeueRunJob := MemQ.RequeueRunJob;
|}.
#[export] Instance MemoryRunQueue_listing : RunQueueListing MemoryRunQueue := {|
  GetRunJobByRequest := MemQ.GetRunJobByRequest;
  ListRunJobsFiltered := MemQ.ListRunJobsFiltered;
  CountRunJobsFiltered := MemQ.CountRunJobsFiltered;
  ListRunJobsByRun := MemQ.ListRunJobsByRun;
  CountRunJobsByStatus := MemQ.CountRunJobsByStatus;
  PurgeRunJobs := MemQ.PurgeRunJobs;
  ListRunJobTransitionsFiltered := MemQ.ListRunJobTransitionsFiltered;
  CountRunJobTransitionsFiltered := MemQ.CountRunJobTransitionsFiltered;
|}.
