(* ===== verification/QueueProps.v ===== *)
(** * internal/queue/memory_queue.go: properties of the run queue

    The life of a job: every operation changes the queue by one [change], so an
    invariant proved for [change] holds of every queue a program can build.  The
    invariant ties the jobs to their histories; the theorems say which status
    changes can happen, who gets a lease, what purging removes and what the
    listings show. *)

From S2P Require Import Prelude GoLib Domain Interfaces Queue.
Local Open Scope Z_scope.

(** ** One operation, one change *)

(** The status changes of a job's life. *)
Inductive lifecycle : RunJobStatus → RunJobStatus → Prop :=
| life_lease : lifecycle RunJobStatusQueued RunJobStatusLeased
| life_release : lifecycle RunJobStatusLeased RunJobStatusLeased
| life_complete : lifecycle RunJobStatusLeased RunJobStatusSucceeded
| life_retry : lifecycle RunJobStatusLeased RunJobStatusQueued
| life_fail : lifecycle RunJobStatusLeased RunJobStatusFailed
| life_dead : lifecycle RunJobStatusLeased RunJobStatusDead
| life_requeue s : s = RunJobStatusFailed ∨ s = RunJobStatusDead →
    lifecycle s RunJobStatusQueued
| life_cancel s : s ≠ RunJobStatusSucceeded → s ≠ RunJobStatusCancelled →
    lifecycle s RunJobStatusCancelled.

(** Only a leased job names an owner and an end of its lease. *)
Definition lease_ok (job : RunQueueJob) : Prop :=
  job_Status job ≠ RunJobStatusLeased → job_LeaseOwner job = "" ∧ job_LeaseUntil job = time_zero.
(** What no operation changes in a job. *)
Definition same_identity (job job' : RunQueueJob) : Prop :=
  job_ID job' = job_ID job ∧ job_WorkflowID job' = job_WorkflowID job ∧
  job_RunID job' = job_RunID job ∧ job_RequestID job' = job_RequestID job ∧
  job_MaxAttempts job' = job_MaxAttempts job ∧ job_CreatedAt job' = job_CreatedAt job.

(** [q.jobs[id] = job'; q.appendTransition(id, from, job'.Status, reason, actor)] *)
Definition move_job (now : time) (id : string) (job' : RunQueueJob) (from reason actor : string)
    (q : MemoryRunQueue) : MemoryRunQueue :=
  appendTransition now id from (job_Status job') reason actor (put_job id job' q).

Inductive change (q : MemoryRunQueue) : MemoryRunQueue → Prop :=
| change_none : change q q
| change_create now id job : q_jobs q !! id = None → job_ID job = id →
    job_Status job = RunJobStatusQueued → lease_ok job →
    change q (move_job now id job "" "enqueued" "system" q)
| change_touch id job job' : q_jobs q !! id = Some job → same_identity job job' →
    job_Status job = RunJobStatusLeased → job_Status job' = job_Status job →
    job_Attempts job' = job_Attempts job → change q (put_job id job' q)
| change_move now id job job' reason actor : q_jobs q !! id = Some job →
    same_identity job job' → lifecycle (job_Status job) (job_Status job') → lease_ok job' →
    change q (move_job now id job' (job_Status job) reason actor q)
| change_delete cs : change q (foldl MemQ.delete_job q cs).

(** The operations that change the queue, as a program calls them. *)
Inductive queue_op :=
| OpEnqueue (clk : clock) (job : RunQueueJob)
| OpLease (ord : iter_order) (clk : clock) (w : string) (d : duration)
| OpExtend (clk : clock) (id w : string) (d : duration)
| OpComplete (clk : clock) (id : string)
| OpCancel (clk : clock) (id reason : string)
| OpRetry (clk : clock) (id : string) (d : duration) (e : string)
| OpFail (clk : clock) (id e : string)
| OpDeadLetter (clk : clock) (id e : string)
| OpRequeue (clk : clock) (id : string) (d : duration) (by_ reason : string)
| OpPurge (ord : iter_order) (clk : clock) (status : string) (d : duration) (limit : Z).
Definition apply_op (op : queue_op) (q : MemoryRunQueue) : MemoryRunQueue :=
  match op with
  | OpEnqueue clk job => (MemQ.EnqueueRunJob clk job q).2
  | OpLease ord clk w d => (MemQ.LeaseNextRunJob ord clk w d q).2
  | OpExtend clk id w d => (MemQ.ExtendRunJobLease clk id w d q).2
  | OpComplete clk id => (MemQ.CompleteRunJob clk id q).2
  | OpCancel clk id e => (MemQ.CancelRunJob clk id e q).2
  | OpRetry clk id d e => (MemQ.RetryRunJob clk id d e q).2
  | OpFail clk id e => (MemQ.FailRunJob clk id e q).2
  | OpDeadLetter clk id e => (MemQ.DeadLetterRunJob clk id e q).2
  | OpRequeue clk id d b e => (MemQ.RequeueRunJob clk id d b e q).2
  | OpPurge ord clk s d l => (MemQ.PurgeRunJobs ord clk s d l q).2
  end.
Definition apply_ops (ops : list queue_op) (q : MemoryRunQueue) : MemoryRunQueue :=
  foldl (λ q op, apply_op op q) q ops.

(** The jobs the program enqueues: new, not leased to anybody. *)
Definition op_ok (op : queue_op) : Prop :=
  match op with
  | OpEnqueue _ job =>
      (job_Status job = "" ∨ job_Status job = RunJobStatusQueued) ∧
      job_LeaseOwner job = "" ∧ job_LeaseUntil job = time_zero
  | _ => True
  end.

Definition jobs_keyed (q : MemoryRunQueue) : Prop :=
  map_Forall (λ id job, job_ID job = id) (q_jobs q).

(** *** Leasing *)

Lemma created_less_asym a b : MemQ.created_less a b = true → MemQ.created_less b a = false.
Proof. unfold MemQ.created_less, Before. rewrite Z.ltb_lt, Z.ltb_ge. lia. Qed.
Lemma created_le_trans a b c :
  sorted_le MemQ.created_less a b → sorted_le MemQ.created_less b c →
  sorted_le MemQ.created_less a c.
Proof. unfold sorted_le, MemQ.created_less, Before. rewrite !Z.ltb_ge. lia. Qed.

(** When a job may be leased at [now]. *)
Definition eligible_at (now : time) (job : RunQueueJob) : Prop :=
  (job_Status job = RunJobStatusQueued ∧ job_AvailableAt job ≤ now) ∨
  (job_Status job = RunJobStatusLeased ∧ job_LeaseUntil job ≠ time_zero ∧
   job_LeaseUntil job < now).
Lemma leasable_spec now job : MemQ.leasable now job = true ↔ eligible_at now job.
Proof.
  unfold MemQ.leasable, eligible_at, After, Before, IsZero.
  rewrite orb_true_iff, !andb_true_iff, !bool_decide_eq_true, !negb_true_iff,
    Z.ltb_ge, Z.ltb_lt, Z.eqb_neq. tauto.
Qed.
(** The job as it is leased. *)
Definition leased_job (now : time) (w : string) (d : duration) (job : RunQueueJob) :
    RunQueueJob :=
  job <| job_Status := RunJobStatusLeased |> <| job_LeaseOwner := w |>
    <| job_LeaseUntil := time_Add now d |>
    <| job_Attempts := wrap64 (job_Attempts job + 1) |> <| job_UpdatedAt := now |>.

Lemma LeaseNextRunJob_spec ord clk w d q r q' :
  MemQ.LeaseNextRunJob ord clk w d q = (r, q') →
  (∃ id job, q_jobs q !! id = Some job ∧ eligible_at (clk 0%nat) job ∧
     (∀ id' job', q_jobs q !! id' = Some job' → eligible_at (clk 0%nat) job' →
        job_CreatedAt job ≤ job_CreatedAt job') ∧
     r = Ok (leased_job (clk 0%nat) w d job) ∧
     q' = move_job (clk 1%nat) (job_ID job) (leased_job (clk 0%nat) w d job) (job_Status job)
            "leased" w q) ∨
  ((∀ id job, q_jobs q !! id = Some job → ¬ eligible_at (clk 0%nat) job) ∧
   r = Err "no run job available" ∧ q' = q).
Proof.
  unfold MemQ.LeaseNextRunJob. cbv zeta. set (cands := filter _ _).
  assert (Hin : ∀ job, job ∈ cands ↔
    eligible_at (clk 0%nat) job ∧ ∃ id, q_jobs q !! id = Some job).
  { intros job. unfold cands. by rewrite list_elem_of_filter, leasable_spec, elem_of_iter_values. }
  destruct (sort_slice MemQ.created_less cands) as [|job l] eqn:Hs; intros [= <- <-].
  - right. split; [|done]. intros id job Hj He.
    assert (Hj' : job ∈ cands) by (apply Hin; eauto).
    apply (elem_of_sort_slice MemQ.created_less) in Hj'. rewrite Hs in Hj'.
    by apply elem_of_nil in Hj'.
  - left. apply (sort_slice_head _ created_less_asym created_le_trans) in Hs as [Hj Hmin].
    apply Hin in Hj as [He [id Hid]]. exists id, job. split; [done|]. split; [done|].
    split; [|done]. intros id' job' Hj' He'.
    assert (Hc : job' ∈ cands) by (apply Hin; eauto). apply Hmin in Hc.
    unfold MemQ.created_less, Before in Hc. by apply Z.ltb_ge in Hc.
Qed.

(** *** Every operation is a change *)

(** An operation on one job: the job is missing, a guard rejects it, or it moves. *)
Ltac queue_cases :=
  repeat match goal with
         | |- context [match q_jobs ?q !! ?id with _ => _ end] =>
             destruct (q_jobs q !! id) as [?job|] eqn:?Hjob; simpl; [|apply change_none]
         | |- context [if bool_decide (?a ≠ ?b) then _ else _] =>
             destruct (decide (a = b)) as [?Heq|?Hne];
             [rewrite (bool_decide_false (a ≠ b)) by tauto
             |rewrite (bool_decide_true (a ≠ b)) by done; apply change_none]; simpl
         | |- context [if bool_decide ?P then _ else _] =>
             destruct (decide P);
             [rewrite (bool_decide_true P) by done|rewrite (bool_decide_false P) by done]; simpl
         end.
Lemma change_move_to q now id job job' to reason actor :
  q_jobs q !! id = Some job → same_identity job job' → job_Status job' = to →
  lifecycle (job_Status job) to → lease_ok job' →
  change q (appendTransition now id (job_Status job) to reason actor (put_job id job' q)).
Proof. intros Hj Hi <- Hl Hk. exact (change_move q now id job job' reason actor Hj Hi Hl Hk). Qed.
Ltac move_with job :=
  apply (change_move_to _ _ _ job);
  [assumption|split_and!; reflexivity|reflexivity| |intros _; split; reflexivity].

Lemma apply_op_change op q : op_ok op → jobs_keyed q → change q (apply_op op q).
Proof.
  intros Hok Hkey. destruct op as [clk job|ord clk w d|clk id w d|clk id|clk id e|clk id d e
    |clk id e|clk id e|clk id d b e|ord clk s d l]; simpl in *.
  - unfold MemQ.EnqueueRunJob. destruct (q_jobs q !! job_ID job) eqn:Hj; [apply change_none|].
    destruct Hok as (Hs & Ho & Hl). cbv zeta.
    repeat match goal with |- context [if IsZero ?t then _ else _] => destruct (IsZero t) end;
      case_bool_decide; simpl in *;
      match goal with |- change _ (appendTransition ?now ?id _ _ _ _ (put_job _ ?job' _)) =>
        apply (change_create q now id job'); [done|done|naive_solver|by intros _] end.
  - destruct (MemQ.LeaseNextRunJob ord clk w d q) as [r q'] eqn:Hl. simpl.
    apply LeaseNextRunJob_spec in Hl as [(id & job & Hj & He & _ & _ & ->)|(_ & _ & ->)];
      [|apply change_none].
    apply change_move; [by rewrite (Hkey _ _ Hj)|by repeat split| |by intros []].
    simpl. destruct He as [[-> _]|[-> _]]; constructor.
  - unfold MemQ.ExtendRunJobLease. queue_cases.
    by eapply change_touch.
  - unfold MemQ.CompleteRunJob. queue_cases. move_with job. rewrite Heq. constructor.
  - unfold MemQ.CancelRunJob. queue_cases; try apply change_none.
    move_with job. by constructor.
  - unfold MemQ.RetryRunJob. queue_cases. move_with job. rewrite Heq. constructor.
  - unfold MemQ.FailRunJob. queue_cases. move_with job. rewrite Heq. constructor.
  - unfold MemQ.DeadLetterRunJob. queue_cases. move_with job. rewrite Heq. constructor.
  - unfold MemQ.RequeueRunJob. queue_cases.
    destruct (decide (job_Status job = RunJobStatusFailed ∨ job_Status job = RunJobStatusDead))
      as [Hs|Hs].
    + rewrite (proj2 (andb_false_iff _ _)) by (rewrite !bool_decide_eq_false; tauto).
      move_with job. by constructor.
    + rewrite (proj2 (andb_true_iff _ _)) by (rewrite !bool_decide_eq_true; tauto).
      apply change_none.
  - unfold MemQ.PurgeRunJobs. cbv zeta. apply change_delete.
Qed.

(** ** The invariant *)

(** [trace_of id h s]: [h] is a history of job [id] that starts by enqueueing it,
    goes through lifecycle changes only, and ends in status [s]. *)
Inductive trace_of (id : string) : list RunJobTransition → RunJobStatus → Prop :=
| trace_enqueued t : tr_JobID t = id → tr_FromStatus t = "" →
    tr_ToStatus t = RunJobStatusQueued → trace_of id [t] RunJobStatusQueued
| trace_snoc h s t : trace_of id h s → tr_JobID t = id → tr_FromStatus t = s →
    lifecycle s (tr_ToStatus t) → trace_of id (h ++ [t]) (tr_ToStatus t).

Record queue_inv (q : MemoryRunQueue) : Prop := {
  qi_keyed : jobs_keyed q;
  qi_dom : dom (q_transitions q) = dom (q_jobs q);
  qi_history id job : q_jobs q !! id = Some job →
    trace_of id (MemQ.history id q) (job_Status job);
  qi_lease : map_Forall (λ _ job, lease_ok job) (q_jobs q);
}.

Lemma queue_inv_new : queue_inv NewMemoryRunQueue.
Proof. split; [apply map_Forall_empty|set_solver|done|apply map_Forall_empty]. Qed.

Lemma history_append now id from to reason actor q id' :
  MemQ.history id' (appendTransition now id from to reason actor q) =
  if decide (id = id') then MemQ.history id q ++ [mkRunJobTransition id from to reason actor now]
  else MemQ.history id' q.
Proof.
  unfold MemQ.history, appendTransition. simpl. rewrite lookup_insert.
  by case_decide; subst.
Qed.
Lemma history_missing q id :
  dom (q_transitions q) = dom (q_jobs q) → q_jobs q !! id = None → MemQ.history id q = [].
Proof.
  intros Hd Hj. unfold MemQ.history.
  assert (Hn : id ∉ dom (q_transitions q)) by (rewrite Hd; by apply not_elem_of_dom).
  by apply not_elem_of_dom in Hn as ->.
Qed.
Lemma delete_jobs_lookup cs q id :
  let q' := foldl MemQ.delete_job q cs in
  q_jobs q' !! id = (if decide (id ∈ cs.*1) then None else q_jobs q !! id) ∧
  q_transitions q' !! id = (if decide (id ∈ cs.*1) then None else q_transitions q !! id).
Proof.
  revert q; induction cs as [|c cs IH]; intros q.
  { split; case_decide as Hd; (done || by apply elem_of_nil in Hd). }
  cbn [foldl fmap list_fmap].
  destruct (IH (MemQ.delete_job q c)) as [-> ->]. unfold MemQ.delete_job; simpl.
  rewrite !lookup_delete. pose proof (elem_of_cons cs.*1 id c.1) as Hc.
  change ((c :: cs).*1) with (c.1 :: cs.*1) in *.
  split; repeat case_decide; (done || naive_solver).
Qed.

Lemma queue_inv_change q q' : queue_inv q → change q q' → queue_inv q'.
Proof.
  intros [Hkey Hdom Hhist Hlease] Hch.
  destruct Hch as [|now id job Hj HID Hs Hl|id job job' Hj (HID & _) Hs Hs' _
                  |now id job job' reason actor Hj (HID & _) Hlife Hl|cs].
  - by split.
  - split; simpl.
    + by apply map_Forall_insert_2.
    + rewrite !dom_insert_L. by rewrite Hdom.
    + intros i j. rewrite lookup_insert. unfold move_job. rewrite history_append.
      case_decide as Hi; [|apply Hhist]. intros [= <-]. subst i.
      change (MemQ.history id (put_job id job q)) with (MemQ.history id q).
      rewrite history_missing by done. rewrite Hs. by apply trace_enqueued.
    + by apply map_Forall_insert_2.
  - split; simpl.
    + apply map_Forall_insert_2; [|done]. by rewrite HID, (Hkey _ _ Hj).
    + rewrite dom_insert_L, Hdom. apply elem_of_dom_2 in Hj. set_solver.
    + intros i j. rewrite lookup_insert. case_decide as Hi; [|apply Hhist].
      intros [= <-]. subst i. rewrite Hs'. by apply Hhist.
    + apply map_Forall_insert_2; [|done]. intros Hn. congruence.
  - split; simpl.
    + apply map_Forall_insert_2; [|done]. by rewrite HID, (Hkey _ _ Hj).
    + rewrite !dom_insert_L. by rewrite Hdom.
    + intros i j. rewrite lookup_insert. unfold move_job. rewrite history_append.
      case_decide as Hi; [|apply Hhist]. intros [= <-]. subst i.
      by eapply (trace_snoc id _ _ (mkRunJobTransition id _ _ reason actor now)); [by apply Hhist|..].
    + by apply map_Forall_insert_2.
  - assert (Hlk := λ i, delete_jobs_lookup cs q i). cbv zeta in Hlk. split.
    + intros i j. rewrite (proj1 (Hlk i)). case_decide; [done|]. apply Hkey.
    + apply set_eq. intros i. rewrite !elem_of_dom, (proj1 (Hlk i)), (proj2 (Hlk i)).
      case_decide; [done|]. by rewrite <-!elem_of_dom, Hdom.
    + intros i j. rewrite (proj1 (Hlk i)). case_decide as Hi; [done|]. intros Hj.
      unfold MemQ.history. rewrite (proj2 (Hlk i)), decide_False by done. by apply Hhist.
    + intros i j. rewrite (proj1 (Hlk i)). case_decide; [done|]. apply Hlease.
Qed.
Lemma queue_inv_op op q : op_ok op → queue_inv q → queue_inv (apply_op op q).
Proof. intros Hok Hi. eapply queue_inv_change; [done|]. by apply apply_op_change, Hi. Qed.
Lemma queue_inv_ops ops q : Forall op_ok ops → queue_inv q → queue_inv (apply_ops ops q).
Proof.
  intros Hok. revert q; induction Hok as [|op ops Hop _ IH]; intros q Hq; [done|].
  apply IH. by apply queue_inv_op.
Qed.

(** *** Final statuses *)

Definition final (s : RunJobStatus) : Prop := s = RunJobStatusSucceeded ∨ s = RunJobStatusCancelled.
Lemma lifecycle_final s s' : final s → ¬ lifecycle s s'.
Proof.
  intros Hf Hl. destruct Hl as [| | | | | |s [?|?]|s ? ?]; destruct Hf; subst; done_status.
Qed.
Lemma change_final q q' id job :
  change q q' → q_jobs q !! id = Some job → final (job_Status job) →
  q_jobs q' !! id = Some job ∨ q_jobs q' !! id = None.
Proof.
  intros Hch Hj Hf.
  destruct Hch as [|now i j Hn _ _ _|i j j' Hj' _ Hs _ _|now i j j' reason actor Hj' _ Hl _|cs].
  - by left.
  - left. simpl. rewrite lookup_insert_ne; [done|congruence].
  - left. simpl. rewrite lookup_insert_ne; [done|]. intros ->. simplify_eq.
    destruct Hf; done_status.
  - left. simpl. rewrite lookup_insert_ne; [done|]. intros ->. simplify_eq.
    by apply (lifecycle_final _ _ Hf) in Hl.
  - rewrite (proj1 (delete_jobs_lookup cs q id)). case_decide; auto.
Qed.

(** *** What an operation leaves alone *)

(** The job that an operation names. *)
Definition op_job (op : queue_op) : option string :=
  match op with
  | OpExtend _ id _ _ | OpComplete _ id | OpCancel _ id _ | OpRetry _ id _ _ | OpFail _ id _
  | OpDeadLetter _ id _ | OpRequeue _ id _ _ _ => Some id
  | _ => None
  end.
Definition is_purge (op : queue_op) : bool :=
  match op with OpPurge _ _ _ _ _ => true | _ => false end.

(** Runs through the guards of an operation. *)
Ltac queue_step :=
  repeat match goal with
         | |- context [match q_jobs ?q !! ?id with _ => _ end] =>
             destruct (q_jobs q !! id) eqn:?; simpl
         | |- context [if bool_decide ?P then _ else _] => destruct (bool_decide P); simpl
         | |- context [if bool_decide ?P && bool_decide ?Q then _ else _] =>
             destruct (bool_decide P && bool_decide Q); simpl
         end.

Lemma apply_op_keeps op q id :
  is_purge op = false → is_Some (q_jobs q !! id) → is_Some (q_jobs (apply_op op q) !! id).
Proof.
  intros Hp Hj. destruct op; try discriminate Hp; simpl; clear Hp;
    unfold MemQ.EnqueueRunJob, MemQ.LeaseNextRunJob, MemQ.ExtendRunJobLease,
      MemQ.CompleteRunJob, MemQ.CancelRunJob, MemQ.RetryRunJob, MemQ.FailRunJob,
      MemQ.DeadLetterRunJob, MemQ.RequeueRunJob;
    cbv zeta; queue_step; try done;
    try (destruct (sort_slice _ _); simpl; [done|]);
    rewrite ?lookup_insert; try (case_decide; [by eexists|done]).
Qed.
(** A job that an operation does not name stays as it is, unless the operation
    leases it, enqueues it, or purges. *)
Lemma apply_op_other op q id job :
  q_jobs q !! id = Some job → jobs_keyed q →
  match op with
  | OpLease ord clk w d => ¬ eligible_at (clk 0%nat) job
  | OpPurge _ _ _ _ _ => False
  | _ => op_job op ≠ Some id
  end → q_jobs (apply_op op q) !! id = Some job.
Proof.
  intros Hj Hkey Hop. destruct op as [clk j|ord clk w d|clk i w d|clk i|clk i e|clk i d e
    |clk i e|clk i e|clk i d b e|ord clk s d l]; simpl in *; try done.
  - unfold MemQ.EnqueueRunJob. destruct (q_jobs q !! job_ID j) eqn:E; [done|]. simpl.
    rewrite lookup_insert_ne; [done|].
    intros Heq. repeat case_match; simpl in Heq; congruence.
  - destruct (MemQ.LeaseNextRunJob ord clk w d q) as [r q'] eqn:Hl. simpl.
    apply LeaseNextRunJob_spec in Hl as [(i & j & Hj' & He & _ & _ & ->)|(_ & _ & ->)]; [|done].
    simpl. rewrite lookup_insert_ne; [done|]. rewrite (Hkey _ _ Hj'). intros ->.
    rewrite Hj in Hj'. by injection Hj' as ->.
  - unfold MemQ.ExtendRunJobLease. queue_step; try done. rewrite lookup_insert_ne; congruence.
  - unfold MemQ.CompleteRunJob. queue_step; try done. rewrite lookup_insert_ne; congruence.
  - unfold MemQ.CancelRunJob. queue_step; try done. rewrite lookup_insert_ne; congruence.
  - unfold MemQ.RetryRunJob. queue_step; try done. rewrite lookup_insert_ne; congruence.
  - unfold MemQ.FailRunJob. queue_step; try done. rewrite lookup_insert_ne; congruence.
  - unfold MemQ.DeadLetterRunJob. queue_step; try done. rewrite lookup_insert_ne; congruence.
  - unfold MemQ.RequeueRunJob. queue_step; try done. rewrite lookup_insert_ne; congruence.
Qed.

(** ** The queue keeps the promises of the interface *)

Lemma put_get_job id job q now i from to reason actor :
  MemQ.GetRunJob id (appendTransition now i from to reason actor (put_job id job q)) = Ok job.
Proof. unfold MemQ.GetRunJob. simpl. by rewrite lookup_insert_eq. Qed.
Lemma put_get_other id id' job q now i from to reason actor :
  id' ≠ id →
  MemQ.GetRunJob id' (appendTransition now i from to reason actor (put_job id job q)) =
  MemQ.GetRunJob id' q.
Proof. intros Hne. unfold MemQ.GetRunJob. simpl. by rewrite lookup_insert_ne. Qed.

Ltac solve_ends_lease op :=
  intros q r q'; simpl; unfold op, MemQ.GetRunJob;
  destruct (q_jobs q !! _) as [job|] eqn:Hj; [|intros [= <- <-]; by eauto];
  destruct (decide (job_Status job = RunJobStatusLeased)) as [Hs|Hs];
  [rewrite (bool_decide_false (_ ≠ _)), (bool_decide_true (_ = _)) by tauto
  |rewrite (bool_decide_true (_ ≠ _)), (bool_decide_false (_ = _)) by done;
   intros [= <- <-]; by eauto];
  intros [= <- <-]; split; [reflexivity|]; split;
  [eexists; split; [apply put_get_job|by repeat split]
  |intros id' Hne; by apply put_get_other].

#[export] Instance MemoryRunQueue_laws : RunQueueLaws MemoryRunQueue.
Proof.
  split.
  - intros ord clk w d q job q' Hl.
    apply LeaseNextRunJob_spec in Hl as [(id & j & _ & _ & _ & [= ->] & ->)|(_ & [=] & _)].
    split; [|done]. apply put_get_job.
  - intros clk id. solve_ends_lease MemQ.CompleteRunJob.
  - intros clk id d e. solve_ends_lease MemQ.RetryRunJob.
  - intros clk id e. solve_ends_lease MemQ.FailRunJob.
  - intros clk id e. solve_ends_lease MemQ.DeadLetterRunJob.
  - intros clk id e q r q' job. simpl. unfold MemQ.CancelRunJob, MemQ.GetRunJob at 1.
    destruct (q_jobs q !! id) as [j|] eqn:Hj; [|done]. intros Hc [= ->] Hcan. revert Hc.
    assert (Hs : job_Status job ≠ RunJobStatusSucceeded) by (intros Hs; by rewrite Hs in Hcan).
    rewrite (bool_decide_false _ Hs). destruct (decide (job_Status job = RunJobStatusCancelled)).
    + rewrite bool_decide_true by done. intros [= _ <-]. split; [|done]. exists job.
      unfold MemQ.GetRunJob. by rewrite Hj.
    + rewrite bool_decide_false by done. intros [= _ <-]. split.
      * eexists. split; [apply put_get_job|done].
      * intros id' Hne. by apply put_get_other.
  - intros clk id w d q r q' job. simpl. unfold MemQ.ExtendRunJobLease, MemQ.GetRunJob.
    destruct (q_jobs q !! id) as [j|] eqn:Hj; [|done]. intros Hc [= ->]. revert Hc.
    destruct (bool_decide _); [intros [= _ <-]; exists job; by rewrite Hj|].
    destruct (bool_decide _); [intros [= _ <-]; exists job; by rewrite Hj|].
    intros [= _ <-]. simpl. rewrite lookup_insert_eq. by eexists.
Qed.

(** ** The life of a job *)

(** A small history: enqueue, lease by two workers in turn, complete. *)
Module QueueSample.
Definition at_ (t : time) : clock := λ k, t + Z.of_nat k.
Definition job (id : string) : RunQueueJob :=
  mkRunQueueJob id "w" ("run-" +:+ id) "" RunJobStatusQueued 0 3 "" "" time_zero time_zero
    0 "" "" time_zero time_zero time_zero.
Definition ops : list queue_op :=
  [OpEnqueue (at_ 10) (job "j1"); OpEnqueue (at_ 20) (job "j2");
   OpLease canonical_order (at_ 100) "w1" 50; OpLease canonical_order (at_ 110) "w2" 50].
Definition queue : MemoryRunQueue := apply_ops ops NewMemoryRunQueue.
Definition done_ops : list queue_op := [OpComplete (at_ 120) "j1"; OpFail (at_ 130) "j2" "boom"].
Definition queue2 : MemoryRunQueue := apply_ops (ops ++ done_ops) NewMemoryRunQueue.
Definition get (id : string) (q : MemoryRunQueue) : RunQueueJob :=
  default (job "") (q_jobs q !! id).
Lemma ops_ok : Forall op_ok ops.
Proof. repeat constructor; by vm_compute. Qed.
Lemma all_ops_ok : Forall op_ok (ops ++ done_ops).
Proof. repeat constructor; by vm_compute. Qed.
End QueueSample.

(** C19. Histories are faithful: whatever operations the program runs, the history
    kept for a job starts with its enqueueing, each entry starts where the one
    before ended, every entry is one of the lifecycle's status changes, and the
    last one leads to the status the job has; a purged job leaves no history, and
    only a leased job has an owner. *)
Theorem queue_history ops id :
  Forall op_ok ops →
  let q := apply_ops ops NewMemoryRunQueue in
  match q_jobs q !! id with
  | Some job => job_ID job = id ∧ trace_of id (MemQ.history id q) (job_Status job) ∧ lease_ok job
  | None => MemQ.history id q = []
  end.
Proof.
  intros Hok q. destruct (queue_inv_ops ops _ Hok queue_inv_new) as [H1 H2 H3 H4]. fold q in H1, H2, H3, H4.
  destruct (q_jobs q !! id) as [job|] eqn:Hj; [|by apply history_missing].
  split; [by apply H1|]. split; [by apply H3|]. by apply (H4 id).
Qed.
Lemma queue_history_witness :
  let q := QueueSample.queue2 in
  (tr_ToStatus <$> MemQ.history "j2" q) = ["QUEUED"; "LEASED"; "FAILED"] ∧
  match q_jobs q !! "j2" with
  | Some job => job_ID job = "j2" ∧ trace_of "j2" (MemQ.history "j2" q) (job_Status job) ∧ lease_ok job
  | None => MemQ.history "j2" q = []
  end.
Proof.
  intros q. split; [vm_compute; reflexivity|].
  exact (queue_history (QueueSample.ops ++ QueueSample.done_ops) "j2" QueueSample.all_ops_ok).
Defined.

(** Succeeded and cancelled are final: once a job is in one of them, no
    operation but a purge - not a late completion, retry, failure, cancellation,
    requeue or lease by any worker - changes anything about it. *)
Theorem final_job_unchanged ops1 ops2 id job :
  Forall op_ok (ops1 ++ ops2) → Forall (λ op, is_purge op = false) ops2 →
  let q := apply_ops ops1 NewMemoryRunQueue in
  q_jobs q !! id = Some job →
  job_Status job = RunJobStatusSucceeded ∨ job_Status job = RunJobStatusCancelled →
  q_jobs (apply_ops ops2 q) !! id = Some job.
Proof.
  intros [Hok1 Hok2]%Forall_app Hp q Hj Hf.
  pose proof (queue_inv_ops _ _ Hok1 queue_inv_new) as Hi. fold q in Hi. clearbody q.
  revert q Hj Hi. induction Hp as [|op ops2 Hop _ IH]; intros q Hj Hi; [done|].
  apply Forall_cons in Hok2 as [Hop' Hok2]. simpl. apply IH; [done| |by apply queue_inv_op].
  pose proof (apply_op_change op q Hop' (qi_keyed _ Hi)) as Hch.
  destruct (change_final q _ id job Hch Hj Hf) as [?|Hn]; [done|].
  destruct (apply_op_keeps op q id Hop) as [? ?]; [by eexists|congruence].
Qed.
Lemma final_job_unchanged_witness :
  let late := [OpFail (QueueSample.at_ 200) "j1" "late"; OpCancel (QueueSample.at_ 201) "j1" "";
               OpLease canonical_order (QueueSample.at_ 900) "w3" 50] in
  job_Status (QueueSample.get "j1" QueueSample.queue2) = RunJobStatusSucceeded ∧
  q_jobs (apply_ops late QueueSample.queue2) !! "j1" =
    Some (QueueSample.get "j1" QueueSample.queue2).
Proof.
  intros late. split; [vm_compute; reflexivity|].
  apply (final_job_unchanged (QueueSample.ops ++ QueueSample.done_ops) late).
  - apply Forall_app. split; [apply QueueSample.all_ops_ok|repeat constructor].
  - repeat constructor.
  - vm_compute. reflexivity.
  - left. vm_compute. reflexivity.
Defined.

(** ** Leases *)

(** C22. Leasing is fair and exact: [LeaseNextRunJob] hands out the oldest job that
    is queued and due, or whose lease has run out, whatever order the map is read
    in; it fails only when there is none, and then changes nothing.  The job
    comes back leased to the caller until [now + leaseDuration] with one attempt
    more; every other job is as before. *)
Theorem lease_oldest ops ord clk w d r q' :
  Forall op_ok ops →
  let q := apply_ops ops NewMemoryRunQueue in
  let now := clk 0%nat in
  MemQ.LeaseNextRunJob ord clk w d q = (r, q') →
  match r with
  | Ok job' => ∃ job, q_jobs q !! job_ID job' = Some job ∧ eligible_at now job ∧
      (∀ id other, q_jobs q !! id = Some other → eligible_at now other →
         job_CreatedAt job ≤ job_CreatedAt other) ∧
      job' = leased_job now w d job ∧
      q_jobs q' = <[job_ID job' := job']> (q_jobs q)
  | Err _ => q' = q ∧ ∀ id job, q_jobs q !! id = Some job → ¬ eligible_at now job
  end.
Proof.
  intros Hok q now Hl. subst now. pose proof (queue_inv_ops _ _ Hok queue_inv_new) as Hi. fold q in Hi.
  apply LeaseNextRunJob_spec in Hl as [(id & job & Hj & He & Hmin & -> & ->)|(Hn & -> & ->)];
    [|done].
  assert (HID : job_ID (leased_job (clk 0%nat) w d job) = id) by exact (qi_keyed _ Hi _ _ Hj).
  exists job. rewrite HID. split_and!; try done. simpl. by rewrite (qi_keyed _ Hi _ _ Hj).
Qed.
Lemma lease_oldest_witness :
  let clk := QueueSample.at_ 155 in
  let '(r, q') := MemQ.LeaseNextRunJob canonical_order clk "w3" 50 QueueSample.queue in
  match r with
  | Ok job' => job_ID job' = "j1" ∧ job_Attempts job' = 2 ∧
      q_jobs q' = <[job_ID job' := job']> (q_jobs QueueSample.queue)
  | Err _ => False
  end.
Proof.
  intros clk.
  destruct (MemQ.LeaseNextRunJob canonical_order clk "w3" 50 QueueSample.queue) as [r q'] eqn:Hl.
  pose proof (lease_oldest QueueSample.ops canonical_order clk "w3" 50 r q' QueueSample.ops_ok Hl)
    as Hspec.
  destruct r as [job'|e].
  - destruct Hspec as (job & _ & _ & _ & _ & Hq). split; [|split; [|exact Hq]];
      vm_compute in Hl; by injection Hl as <- _.
  - vm_compute in Hl. discriminate Hl.
Defined.

(** An operation that respects the lease of job [id] until [until]. *)
Definition respects_lease (id : string) (until : time) (op : queue_op) : Prop :=
  match op with
  | OpEnqueue _ _ => True
  | OpLease _ clk _ _ => clk 0%nat ≤ until
  | OpPurge _ _ _ _ _ => False
  | _ => op_job op ≠ Some id
  end.

(** C20. A lease excludes everybody else: after a worker leased a job, whatever is
    enqueued, leased by any worker up to the end of that lease, or done to other
    jobs, the job stays exactly as that worker got it. *)
Theorem lease_exclusive ops ord clk w d job q' later :
  Forall op_ok (ops ++ later) →
  let q := apply_ops ops NewMemoryRunQueue in
  MemQ.LeaseNextRunJob ord clk w d q = (Ok job, q') →
  Forall (respects_lease (job_ID job) (clk 0%nat + d)) later →
  q_jobs (apply_ops later q') !! job_ID job = Some job.
Proof.
  intros [Hok1 Hok2]%Forall_app q Hl Hresp.
  pose proof (queue_inv_ops _ _ Hok1 queue_inv_new) as Hi. fold q in Hi.
  assert (Hi' : queue_inv q').
  { replace q' with (apply_op (OpLease ord clk w d) q) by (simpl; by rewrite Hl).
    by apply queue_inv_op. }
  apply LeaseNextRunJob_spec in Hl as [(id & j & Hj & He & _ & [= ->] & Hq')|(_ & [=] & _)].
  assert (HID : job_ID j = id) by exact (qi_keyed _ Hi _ _ Hj).
  set (job := leased_job (clk 0%nat) w d j) in *.
  assert (Hjob : q_jobs q' !! job_ID job = Some job).
  { rewrite Hq'. simpl. apply lookup_insert_eq. }
  clear Hq' Hj He Hi HID. clearbody q. revert q' Hjob Hi'.
  induction Hresp as [|op later Hop _ IH]; intros q' Hjob Hi'; [done|].
  apply Forall_cons in Hok2 as [Hop' Hok2]. simpl. apply IH; [done| |by apply queue_inv_op].
  apply apply_op_other; [done|apply Hi'|].
  destruct op; simpl in *; try done.
  intros [[Hs _]|(_ & _ & Hlt)]; [by vm_compute in Hs|].
  unfold job in Hlt. simpl in Hlt. unfold time_Add in Hlt. lia.
Qed.
Lemma lease_exclusive_witness :
  let others := [OpLease canonical_order (QueueSample.at_ 149) "w3" 50;
                 OpComplete (QueueSample.at_ 160) "j1"] in
  let q' := (MemQ.LeaseNextRunJob canonical_order (QueueSample.at_ 110) "w2" 50
               (apply_ops (take 3 QueueSample.ops) NewMemoryRunQueue)).2 in
  job_LeaseOwner (QueueSample.get "j2" (apply_ops others q')) = "w2" ∧
  q_jobs (apply_ops others q') !! "j2" = Some (QueueSample.get "j2" q').
Proof.
  intros others q'. split; [vm_compute; reflexivity|].
  apply (lease_exclusive (take 3 QueueSample.ops) canonical_order (QueueSample.at_ 110) "w2" 50
    (QueueSample.get "j2" q') q' others).
  - repeat constructor; by vm_compute.
  - vm_compute. reflexivity.
  - constructor; [by vm_compute|]. constructor; [|constructor]. by vm_compute.
Defined.

(** ** Purging *)

Lemma purge_less_asym a b : MemQ.purge_less a b = true → MemQ.purge_less b a = false.
Proof.
  unfold MemQ.purge_less, time_Equal, Before. destruct (Z.eqb_spec a.2 b.2) as [Heq|Hne].
  - rewrite Heq, Z.eqb_refl. apply str_ltb_asym.
  - rewrite (proj2 (Z.eqb_neq b.2 a.2)) by done. rewrite Z.ltb_lt, Z.ltb_ge. lia.
Qed.
Lemma purge_le_spec a b :
  sorted_le MemQ.purge_less a b ↔ a.2 < b.2 ∨ (a.2 = b.2 ∧ str_ltb b.1 a.1 = false).
Proof.
  unfold sorted_le, MemQ.purge_less, time_Equal, Before.
  destruct (Z.eqb_spec b.2 a.2) as [Heq|Hne]; [intuition (lia || done)|].
  rewrite Z.ltb_ge. intuition lia.
Qed.
Lemma purge_le_trans a b c :
  sorted_le MemQ.purge_less a b → sorted_le MemQ.purge_less b c → sorted_le MemQ.purge_less a c.
Proof.
  rewrite !purge_le_spec. intros [?|[? H1]] [?|[? H2]]; [left; lia..|].
  right. split; [lia|]. by eapply str_le_trans.
Qed.

(** The jobs a purge may delete. *)
Definition purge_selected (status : string) (cutoff : time) (job : RunQueueJob) : Prop :=
  (status = "" ∨ job_Status job = status) ∧
  (cutoff = time_zero ∨ job_UpdatedAt job ≤ cutoff).
Lemma purgeable_spec status cutoff job :
  MemQ.purgeable status cutoff job = true ↔ purge_selected status cutoff job.
Proof. unfold MemQ.purgeable, purge_selected. autorewrite with sched_filter. tauto. Qed.
Lemma purge_candidates_spec ord status cutoff q id t :
  (id, t) ∈ MemQ.purge_candidates ord status cutoff q ↔
  ∃ job, q_jobs q !! id = Some job ∧ purge_selected status cutoff job ∧ t = job_UpdatedAt job.
Proof.
  unfold MemQ.purge_candidates. rewrite elem_of_sort_slice, list_elem_of_fmap. split.
  - intros ([i job] & [= -> ->] & [Hp Hj%elem_of_iter]%list_elem_of_filter).
    exists job. by rewrite purgeable_spec in Hp.
  - intros (job & Hj & Hp & ->). exists (id, job). split; [done|].
    apply list_elem_of_filter. split; [by apply purgeable_spec|by apply elem_of_iter].
Qed.
Lemma purge_candidates_NoDup ord status cutoff q :
  NoDup (MemQ.purge_candidates ord status cutoff q).*1.
Proof.
  unfold MemQ.purge_candidates. rewrite sort_slice_perm, <-list_fmap_compose. simpl.
  eapply sublist_NoDup; [apply (NoDup_iter_keys ord (q_jobs q))|].
  apply fmap_sublist, sublist_filter.
Qed.

(** A purge spares the jobs of another status. *)
Lemma purge_spares ord clk status d limit q id job :
  q_jobs q !! id = Some job → status ≠ "" → job_Status job ≠ status →
  q_jobs (MemQ.PurgeRunJobs ord clk status d limit q).2 !! id = Some job.
Proof.
  intros Hj Hne Hs. unfold MemQ.PurgeRunJobs. cbv zeta. simpl.
  set (cands := MemQ.purge_candidates ord status _ q).
  set (cs := if _ <? zlen cands then _ else _). rewrite (proj1 (delete_jobs_lookup cs q id)).
  rewrite decide_False; [done|]. intros ([i t] & -> & Hin)%list_elem_of_fmap. simpl in *.
  assert (Hc : (i, t) ∈ cands).
  { unfold cs in Hin. destruct (_ <? _); [|done]. apply elem_of_take in Hin as (k & Hk & _).
    by eapply list_elem_of_lookup_2. }
  apply purge_candidates_spec in Hc as (job' & Hj' & [[?|?] _] & _); congruence.
Qed.
(** The jobs that a purge is asked for: those in the given status, if one is given, and
    not updated since [olderThan] ago, if that is positive.  (An instant that is the zero
    time of Go counts as none.) *)
Definition purge_asked (status : string) (olderThan : duration) (now : time) (job : RunQueueJob) :
    Prop :=
  (status = "" ∨ job_Status job = status) ∧
  (0 < olderThan → now - olderThan ≠ time_zero → job_UpdatedAt job ≤ now - olderThan).
Lemma purge_asked_selected status olderThan (clk : clock) job :
  purge_selected status (MemQ.purge_cutoff clk olderThan) job ↔
  purge_asked status olderThan (clk 0%nat) job.
Proof.
  unfold purge_selected, purge_asked, MemQ.purge_cutoff, time_Add.
  replace (clk 0%nat + - olderThan) with (clk 0%nat - olderThan) by lia.
  destruct (Z.ltb_spec 0 olderThan).
  - destruct (decide (clk 0%nat - olderThan = time_zero)); intuition lia.
  - intuition lia.
Qed.
(** C35. Purging deletes only what it is asked for, oldest first: at most [limit]
    jobs go (1000 if no limit is given), all of them in the given status (if one is given)
    and not updated for [olderThan] (if it is positive); a job that matches survives only if
    the limit was reached and every purged job is at least as old; the number returned is
    the number of jobs gone; their histories go with them; nothing else changes. *)
Theorem purge_spec ord clk status olderThan limit q r q' :
  MemQ.PurgeRunJobs ord clk status olderThan limit q = (r, q') →
  let asked := purge_asked status olderThan (clk 0%nat) in
  let max := if limit <=? 0 then 1000 else limit in
  ∃ gone : list string, NoDup gone ∧ r = Ok (zlen gone) ∧ zlen gone ≤ max ∧
    (∀ id, q_jobs q' !! id = (if decide (id ∈ gone) then None else q_jobs q !! id) ∧
           MemQ.history id q' = (if decide (id ∈ gone) then [] else MemQ.history id q)) ∧
    (∀ id, id ∈ gone → ∃ job, q_jobs q !! id = Some job ∧ asked job) ∧
    (∀ id job, q_jobs q' !! id = Some job → asked job →
       zlen gone = max ∧ ∀ id' job', id' ∈ gone → q_jobs q !! id' = Some job' →
         job_UpdatedAt job' ≤ job_UpdatedAt job).
Proof.
  unfold MemQ.PurgeRunJobs. cbv zeta. set (cutoff := MemQ.purge_cutoff clk olderThan).
  set (max := if limit <=? 0 then 1000 else limit).
  assert (Hmax : 0 < max) by (unfold max; destruct (Z.leb_spec limit 0); lia).
  set (cands := MemQ.purge_candidates ord status cutoff q).
  set (cs := if max <? zlen cands then _ else _). intros [= <- <-].
  assert (Hcs : cs = take (Z.to_nat max) cands).
  { unfold cs, zlen. destruct (Z.ltb_spec max (Z.of_nat (length cands))); [done|].
    rewrite take_ge; [done|lia]. }
  assert (Hlen : zlen cs = Z.min max (zlen cands)).
  { rewrite Hcs. unfold zlen. rewrite length_take. lia. }
  clearbody cs. subst cs.
  assert (Hnd : NoDup cands.*1) by apply purge_candidates_NoDup.
  assert (Hsplit : cands.*1 = (take (Z.to_nat max) cands).*1 ++ (drop (Z.to_nat max) cands).*1).
  { by rewrite <-fmap_app, take_drop. }
  assert (Hgone : zlen (take (Z.to_nat max) cands).*1 = zlen (take (Z.to_nat max) cands)).
  { unfold zlen. by rewrite length_fmap. }
  exists (take (Z.to_nat max) cands).*1. rewrite Hgone. split_and!.
  - rewrite Hsplit in Hnd. by apply NoDup_app in Hnd as [? _].
  - done.
  - lia.
  - intros id. destruct (delete_jobs_lookup (take (Z.to_nat max) cands) q id) as [H1 H2].
    split; [done|]. unfold MemQ.history. rewrite H2. by case_decide.
  - intros id ([i t] & -> & Hin)%list_elem_of_fmap. simpl.
    apply elem_of_take in Hin as (k & Hk & _). apply list_elem_of_lookup_2 in Hk.
    apply purge_candidates_spec in Hk as (job & ? & ? & _). exists job.
    by rewrite <-purge_asked_selected.
  - intros id job Hj Hsel. apply purge_asked_selected in Hsel. rewrite (proj1 (delete_jobs_lookup _ q id)) in Hj.
    case_decide as Hni; [done|].
    assert (Hc : (id, job_UpdatedAt job) ∈ cands) by (apply purge_candidates_spec; eauto).
    rewrite <-(take_drop (Z.to_nat max) cands) in Hc. apply elem_of_app in Hc as [Hc|Hc].
    { exfalso. apply Hni. by apply (list_elem_of_fmap_2 fst) in Hc. }
    assert (Hover : max < zlen cands).
    { apply list_elem_of_lookup_1 in Hc as [k Hk]. rewrite lookup_drop in Hk.
      apply lookup_lt_Some in Hk. unfold zlen. lia. }
    split; [lia|]. intros id' job' ([i t] & -> & Hin)%list_elem_of_fmap Hj'. simpl in *.
    assert (Hin' : (i, t) ∈ cands).
    { rewrite <-(take_drop (Z.to_nat max) cands). apply elem_of_app. by left. }
    apply purge_candidates_spec in Hin' as (j & Hj2 & _ & ->). simplify_eq.
    pose proof (sort_slice_sorted _ purge_less_asym purge_le_trans
      ((λ kv, (kv.1, job_UpdatedAt kv.2)) <$>
         filter (λ kv, MemQ.purgeable status cutoff kv.2 = true) (iter ord (q_jobs q)))) as Hsort.
    change (sort_slice _ _) with cands in Hsort.
    rewrite <-(take_drop (Z.to_nat max) cands) in Hsort.
    apply StronglySorted_app in Hsort as (Hcross & _ & _).
    specialize (Hcross _ _ Hin Hc). apply purge_le_spec in Hcross as [Ht|[Ht _]]; simpl in Ht; lia.
Qed.
Lemma purge_spec_witness :
  let purge now := MemQ.PurgeRunJobs canonical_order (QueueSample.at_ now) "FAILED" 100 0
                     QueueSample.queue2 in
  (purge 1000).1 = Ok 1 ∧ (purge 200).1 = Ok 0 ∧
  ∀ now, ∃ gone : list string, NoDup gone ∧ (purge now).1 = Ok (zlen gone) ∧
    ∀ id, id ∈ gone → ∃ job, q_jobs QueueSample.queue2 !! id = Some job ∧
      purge_asked "FAILED" 100 (QueueSample.at_ now 0%nat) job.
Proof.
  intros purge. split; [vm_compute; reflexivity|]. split; [vm_compute; reflexivity|]. intros now.
  destruct (purge_spec canonical_order (QueueSample.at_ now) "FAILED" 100 0 QueueSample.queue2
    (purge now).1 (purge now).2 (surjective_pairing _)) as (gone & Hnd & Hr & _ & _ & Hin & _).
  exists gone. split; [exact Hnd|]. split; [exact Hr|exact Hin].
Defined.

(** ** Attempts *)

Lemma apply_ops_snoc ops op q : apply_ops (ops ++ [op]) q = apply_op op (apply_ops ops q).
Proof. unfold apply_ops. by rewrite foldl_app. Qed.

(** A job whose worker disappears after every lease: it is enqueued at 10 and
    leased again whenever the lease of 50 has run out. *)
Definition crash_ops (n : nat) : list queue_op :=
  OpEnqueue (QueueSample.at_ 10) ((QueueSample.job "j") <| job_MaxAttempts := 1 |>) ::
  ((λ k, OpLease canonical_order (QueueSample.at_ (100 * Z.of_nat (S k))) "w" 50) <$> seq 0 n).

Lemma crash_ops_state n :
  Z.of_nat n ≤ int64_max →
  ∃ job : RunQueueJob,
    q_jobs (apply_ops (crash_ops n) NewMemoryRunQueue) = <["j" := job]> ∅ ∧
    job_ID job = "j" ∧ job_MaxAttempts job = 1 ∧ job_Attempts job = Z.of_nat n ∧
    if decide (n = 0%nat) then job_Status job = RunJobStatusQueued ∧ job_AvailableAt job = 10
    else job_Status job = RunJobStatusLeased ∧ job_LeaseUntil job = 100 * Z.of_nat n + 50.
Proof.
  induction n as [|n IH]; intros Hn; [by eexists|].
  destruct IH as (job & Hq & HID & Hmax & Hatt & Hst); [lia|].
  set (clk := QueueSample.at_ (100 * Z.of_nat (S n))).
  assert (Hops : crash_ops (S n) = crash_ops n ++ [OpLease canonical_order clk "w" 50]).
  { unfold crash_ops. by rewrite seq_S, fmap_app. }
  rewrite Hops, apply_ops_snoc. cbn [apply_op].
  destruct (MemQ.LeaseNextRunJob canonical_order clk "w" 50 _) as [r q'] eqn:Hl. simpl.
  assert (Hnow : clk 0%nat = 100 * Z.of_nat (S n)) by (unfold clk, QueueSample.at_; lia).
  assert (He : eligible_at (clk 0%nat) job).
  { rewrite Hnow. destruct (decide (n = 0%nat)) as [->|Hne].
    - destruct Hst as [Hs Ha]. left. split; [done|]. lia.
    - destruct Hst as [Hs Ha]. right. split; [done|]. unfold time_zero. lia. }
  apply LeaseNextRunJob_spec in Hl as [(id & job' & Hj & _ & _ & _ & ->)|(Hno & _)].
  - rewrite Hq in Hj. apply lookup_insert_Some in Hj as [[<- <-]|[_ Hj]];
      [|by rewrite lookup_empty in Hj].
    exists (leased_job (clk 0%nat) "w" 50 job).
    assert (Hput : ∀ q now i j from reason actor,
      q_jobs (move_job now i j from reason actor q) = <[i := j]> (q_jobs q)) by done.
    rewrite Hput, Hq, HID. split; [by rewrite insert_insert_eq|]. split; [done|]. split; [done|]. simpl.
    rewrite Hatt, wrap64_id by (unfold int64_min, int64_max in *; lia). split; [lia|].
    split; [done|]. unfold time_Add. lia.
  - exfalso. apply (Hno "j" job); [|done]. rewrite Hq. apply lookup_insert_eq.
Qed.

(** The queue does not enforce [MaxAttempts]: a job that allows one attempt
    and whose worker disappears each time is leased again after every expiry, any
    number of times - it never dies, its attempts just grow. *)
Theorem expired_leases_ignore_max_attempts n :
  (0 < n)%nat → Z.of_nat n ≤ int64_max →
  Forall op_ok (crash_ops n) ∧
  ∃ job, q_jobs (apply_ops (crash_ops n) NewMemoryRunQueue) !! "j" = Some job ∧
    job_MaxAttempts job = 1 ∧ job_Attempts job = Z.of_nat n ∧
    job_Status job = RunJobStatusLeased.
Proof.
  intros Hpos Hn. split.
  - constructor; [split; [by right|done]|]. apply Forall_fmap, Forall_forall. by intros k _.
  - destruct (crash_ops_state n Hn) as (job & -> & HID & Hmax & Hatt & Hst). exists job.
    split; [apply lookup_insert_eq|]. split_and!; [done..|].
    rewrite decide_False in Hst by lia. apply Hst.
Qed.
Lemma expired_leases_ignore_max_attempts_witness :
  ∃ job, q_jobs (apply_ops (crash_ops 7) NewMemoryRunQueue) !! "j" = Some job ∧
    job_MaxAttempts job = 1 ∧ job_Attempts job = 7 ∧ job_Status job = RunJobStatusLeased.
Proof. apply (expired_leases_ignore_max_attempts 7); [lia|unfold int64_max; lia]. Defined.

(** ** Listing *)

Definition job_selected (status workflowID requestID : string) (after before : time)
    (job : RunQueueJob) : Prop :=
  (status = "" ∨ job_Status job = status) ∧
  (workflowID = "" ∨ job_WorkflowID job = workflowID) ∧
  (requestID = "" ∨ job_RequestID job = requestID) ∧
  (after = time_zero ∨ after ≤ job_UpdatedAt job) ∧
  (before = time_zero ∨ job_UpdatedAt job ≤ before).
#[export] Instance job_selected_dec status workflowID requestID after before job :
  Decision (job_selected status workflowID requestID after before job).
Proof. unfold job_selected. apply _. Defined.
Lemma matching_jobs_perm ord status workflowID requestID after before q :
  MemQ.matching_jobs ord (MemQ.job_matches status workflowID requestID after before) q ≡ₚ
  filter (job_selected status workflowID requestID after before) (map_to_list (q_jobs q)).*2.
Proof.
  unfold MemQ.matching_jobs, iter_values. rewrite iter_perm.
  erewrite list_filter_iff; [done|]. intros job.
  unfold MemQ.job_matches, job_selected. autorewrite with sched_filter. tauto.
Qed.

(** The order of the listings: by creation, then by ID. *)
Definition job_le (a b : RunQueueJob) : Prop :=
  job_CreatedAt a < job_CreatedAt b ∨
  (job_CreatedAt a = job_CreatedAt b ∧ str_ltb (job_ID b) (job_ID a) = false).
Lemma job_le_spec a b : sorted_le MemQ.job_less a b ↔ job_le a b.
Proof.
  unfold sorted_le, MemQ.job_less, job_le, time_Equal, Before.
  destruct (Z.eqb_spec (job_CreatedAt b) (job_CreatedAt a)); [intuition (lia || done)|].
  rewrite Z.ltb_ge. intuition lia.
Qed.
Lemma job_less_asym a b : MemQ.job_less a b = true → MemQ.job_less b a = false.
Proof.
  unfold MemQ.job_less, time_Equal, Before.
  destruct (Z.eqb_spec (job_CreatedAt a) (job_CreatedAt b)) as [Heq|Hne].
  - rewrite Heq, Z.eqb_refl. apply str_ltb_asym.
  - rewrite (proj2 (Z.eqb_neq (job_CreatedAt b) (job_CreatedAt a))) by done.
    rewrite Z.ltb_lt, Z.ltb_ge. lia.
Qed.
Lemma job_le_trans a b c :
  sorted_le MemQ.job_less a b → sorted_le MemQ.job_less b c → sorted_le MemQ.job_less a c.
Proof.
  rewrite !job_le_spec. unfold job_le. intros [?|[? H1]] [?|[? H2]]; [left; lia..|].
  right. split; [lia|]. by eapply str_le_trans.
Qed.
(** The listings do not depend on the order the map is read in. *)
Lemma sorted_jobs_unique l1 l2 q :
  jobs_keyed q → l1 ≡ₚ l2 → (∀ job, job ∈ l1 → ∃ id, q_jobs q !! id = Some job) →
  sort_slice MemQ.job_less l1 = sort_slice MemQ.job_less l2.
Proof.
  intros Hkey Hp Hin. apply (sort_slice_perm_eq _ job_less_asym job_le_trans); [|done].
  intros a b Ha Hb. rewrite !job_le_spec. unfold job_le. intros [?|[? H1]] [?|[? H2]]; [lia..|].
  destruct (Hin _ Ha) as [i Hi], (Hin _ Hb) as [j Hj].
  pose proof (str_le_antisym _ _ H1 H2) as Heq.
  pose proof (Hkey _ _ Hi) as <-. pose proof (Hkey _ _ Hj) as Hj'. simpl in Hj'. congruence.
Qed.

(** C36. Paging through jobs: the pages of [ListRunJobsFiltered], read one after the
    other, show every job the filter selects exactly once, by creation time and
    then ID - so that each page is the same whatever order the map is read in -
    and [CountRunJobsFiltered] is their number. *)
Theorem ListRunJobsFiltered_pages ops status workflowID requestID after before limit n :
  Forall op_ok ops →
  let q := apply_ops ops NewMemoryRunQueue in
  0 < limit → Z.of_nat (size (q_jobs q)) ≤ Z.of_nat n * limit → Z.of_nat n * limit ≤ int64_max →
  ∃ pages,
    (∀ ord, mapM (λ k, MemQ.ListRunJobsFiltered ord status workflowID requestID after before
                         limit (Z.of_nat k * limit) q) (seq 0 n) = Some (Ok <$> pages)) ∧
    Forall (λ p, zlen p ≤ limit) pages ∧
    let all := mjoin pages in
    all ≡ₚ filter (job_selected status workflowID requestID after before)
             ((map_to_list (q_jobs q)).*2) ∧
    StronglySorted job_le all ∧
    ∀ ord, MemQ.CountRunJobsFiltered ord status workflowID requestID after before q = Ok (zlen all).
Proof.
  intros Hok q Hl Hn Hov. pose proof (queue_inv_ops _ _ Hok queue_inv_new) as Hi. fold q in Hi.
  set (sel := filter (job_selected status workflowID requestID after before)
                (map_to_list (q_jobs q)).*2).
  assert (Hlen : zlen (sort_slice MemQ.job_less sel) ≤ Z.of_nat (size (q_jobs q))).
  { rewrite sort_slice_perm. unfold zlen, sel.
    pose proof (length_filter (job_selected status workflowID requestID after before)
      (map_to_list (q_jobs q)).*2) as Hf.
    rewrite length_fmap, length_map_to_list in Hf. lia. }
  destruct (pages_concat limit n (sort_slice MemQ.job_less sel) Hl)
    as (pages & Hp & Hjoin & Hsize); [lia|done|].
  exists pages. split; [|split; [done|]].
  - intros ord. unfold MemQ.ListRunJobsFiltered. cbv zeta.
    rewrite (sorted_jobs_unique _ sel q (qi_keyed _ Hi)).
    + apply mapM_Some in Hp. apply mapM_Some. apply Forall2_fmap_r.
      eapply Forall2_impl; [exact Hp|]. intros k p Hk. simpl in *. by rewrite Hk.
    + apply matching_jobs_perm.
    + intros job. rewrite matching_jobs_perm. intros [_ Hj]%list_elem_of_filter.
      apply list_elem_of_fmap in Hj as ([id j] & -> & Hj%elem_of_map_to_list). by exists id.
  - simpl. rewrite Hjoin. split; [apply sort_slice_perm|]. split.
    + eapply StronglySorted_weaken; [|apply sort_slice_sorted;
        [apply job_less_asym|apply job_le_trans]]. intros a b. apply job_le_spec.
    + intros ord. unfold MemQ.CountRunJobsFiltered. f_equal.
      by rewrite matching_jobs_perm, sort_slice_perm.
Qed.
Lemma ListRunJobsFiltered_pages_witness :
  ∃ pages, mapM (λ k, MemQ.ListRunJobsFiltered canonical_order "" "w" "" 0 0 1
                        (Z.of_nat k * 1) QueueSample.queue2) (seq 0 2) = Some (Ok <$> pages) ∧
    job_ID <$> mjoin pages = ["j1"; "j2"].
Proof.
  destruct (ListRunJobsFiltered_pages (QueueSample.ops ++ QueueSample.done_ops) "" "w" "" 0 0 1 2
    QueueSample.all_ops_ok) as (pages & Hp & _).
  - done.
  - vm_compute. discriminate.
  - vm_compute. discriminate.
  - exists pages. specialize (Hp canonical_order). split; [exact Hp|].
    vm_compute in Hp. destruct pages as [|p1 [|p2 [|]]]; try discriminate Hp.
    by injection Hp as <- <-.
Defined.
