(* ===== verification/Telemetry.v ===== *)
(** * internal/telemetry/collector.go: counters and the duration histogram

    The [Collector] and everything that updates it.  Counters are [uint64] and
    wrap; durations are accumulated as [float64], computed here with the
    IEEE-754 operations of [SpecFloat].  [Prometheus.v] formats the counters. *)

From Stdlib Require Import SpecFloat.
From S2P Require Import Prelude GoLib Domain.
Local Open Scope Z_scope.

(** ** Numbers *)

(** [atomic.Uint64.Add(1)] and [x++] on a [uint64]. *)
Definition incr (x : Z) : Z := (x + 1) mod 2 ^ 64.

(** [float64] *)
Abbreviation float64 := spec_float.
Definition of_int (z : Z) : float64 := binary_normalize 53 1024 z 0 false.
(** The double nearest to [n / d]. *)
Definition of_quot (n d : Z) : float64 := SFdiv 53 1024 (of_int n) (of_int d).
(** [d.Seconds()]: [float64(d / Second) + float64(d % Second) / 1e9] *)
Definition Seconds (d : duration) : float64 :=
  SFadd 53 1024 (of_int (Z.quot d Second)) (of_quot (Z.rem d Second) 1000000000).

(** ** State *)

Record Collector := mkCollector {
  totalRuns : Z;
  runsSuccess : Z;
  runsFailed : Z;
  runsCancelled : Z;
  totalTasks : Z;
  tasksSuccess : Z;
  tasksFailed : Z;
  tasksSkipped : Z;
  compSuccess : Z;
  compFailed : Z;
  compSkipped : Z;
  workerLeased : Z;
  workerSuccess : Z;
  workerRetry : Z;
  workerDead : Z;
  workerFailed : Z;
  runDurationS : float64;
  runCount : Z;
  buckets : list float64;
  bucketCounts : list Z;
  httpByKey : gmap string Z;
  queueDepth : gmap string Z;
}.
#[export] Instance Collector_settable : Settable Collector := λ c,
  mkCollector (totalRuns c) (runsSuccess c) (runsFailed c) (runsCancelled c)
    (totalTasks c) (tasksSuccess c) (tasksFailed c) (tasksSkipped c)
    (compSuccess c) (compFailed c) (compSkipped c)
    (workerLeased c) (workerSuccess c) (workerRetry c) (workerDead c) (workerFailed c)
    (runDurationS c) (runCount c) (buckets c) (bucketCounts c) (httpByKey c) (queueDepth c).

Definition NewCollector : Collector :=
  mkCollector 0 0 0 0 0 0 0 0 0 0 0 0 0 0 0 0 (S754_zero false) 0
    [of_quot 1 10; of_quot 1 4; of_quot 1 2; of_int 1; of_quot 5 2; of_int 5; of_int 10;
     of_int 30; of_int 60]
    (replicate 9 0) ∅ ∅.

(** ** Operations *)

Definition record_status (status : RunStatus) (c : Collector) : Collector :=
  if bool_decide (status = RunStatusSuccess) then
    c <| runsSuccess := incr (runsSuccess c) |>
  else if bool_decide (status = RunStatusFailed) then
    c <| runsFailed := incr (runsFailed c) |>
  else if bool_decide (status = RunStatusCancelled) then
    c <| runsCancelled := incr (runsCancelled c) |>
  else c.
Definition record_task (c : Collector) (result : TaskResult) : Collector :=
  let c := c <| totalTasks := incr (totalTasks c) |> in
  if bool_decide (res_Status result = TaskStatusSuccess) then
    c <| tasksSuccess := incr (tasksSuccess c) |>
  else if bool_decide (res_Status result = TaskStatusFailed) then
    c <| tasksFailed := incr (tasksFailed c) |>
  else if bool_decide (res_Status result = TaskStatusSkipped) then
    c <| tasksSkipped := incr (tasksSkipped c) |>
  else c.
Definition record_compensation (c : Collector) (result : TaskResult) : Collector :=
  if bool_decide (res_Status result = TaskStatusSuccess) then
    c <| compSuccess := incr (compSuccess c) |>
  else if bool_decide (res_Status result = TaskStatusFailed) then
    c <| compFailed := incr (compFailed c) |>
  else if bool_decide (res_Status result = TaskStatusSkipped) then
    c <| compSkipped := incr (compSkipped c) |>
  else c.

(** [for i, upper := range buckets { if durationS <= upper { bucketCounts[i]++ } }] *)
Fixpoint count_buckets (durationS : float64) (uppers : list float64) (counts : list Z) : list Z :=
  match uppers, counts with
  | upper :: uppers, n :: counts =>
      (if SFleb durationS upper then incr n else n) :: count_buckets durationS uppers counts
  | _, counts => counts
  end.
Definition record_duration (d : duration) (c : Collector) : Collector :=
  let durationS := Seconds d in
  c <| runDurationS := SFadd 53 1024 (runDurationS c) durationS |>
    <| runCount := incr (runCount c) |>
    <| bucketCounts := count_buckets durationS (buckets c) (bucketCounts c) |>.

Definition RecordRun (ord : iter_order) (run : Run) (c : Collector) : Collector :=
  let c := c <| totalRuns := incr (totalRuns c) |> in
  let c := record_status (run_Status run) c in
  let c := foldl record_task c (iter_values ord (run_Results run)) in
  let c := foldl record_compensation c (run_CompensationResults run) in
  record_duration (run_Duration run) c.

Definition RecordHTTPRequest (method route : string) (statusCode : Z) (c : Collector) :
    Collector :=
  let key := method +:+ "|" +:+ route +:+ "|" +:+ pretty statusCode in
  c <| httpByKey := <[key := incr (default 0 (httpByKey c !! key))]> (httpByKey c) |>.

Definition RecordWorkerLease (c : Collector) : Collector :=
  c <| workerLeased := incr (workerLeased c) |>.
Definition RecordWorkerSuccess (c : Collector) : Collector :=
  c <| workerSuccess := incr (workerSuccess c) |>.
Definition RecordWorkerRetry (c : Collector) : Collector :=
  c <| workerRetry := incr (workerRetry c) |>.
Definition RecordWorkerDeadLetter (c : Collector) : Collector :=
  c <| workerDead := incr (workerDead c) |>.
Definition RecordWorkerFailure (c : Collector) : Collector :=
  c <| workerFailed := incr (workerFailed c) |>.

(** The counts are copied into a fresh map. *)
Definition SetQueueDepthByStatus (ord : iter_order) (counts : gmap string Z) (c : Collector) :
    Collector :=
  c <| queueDepth := foldl (λ m kv, <[kv.1 := kv.2]> m) ∅ (iter ord counts) |>.

(** ** The counters *)

Lemma incr_range x : 0 ≤ incr x < 2 ^ 64.
Proof. apply Z.mod_pos_bound. done. Qed.
Lemma incr_plain x : 0 ≤ x < 2 ^ 64 - 1 → incr x = x + 1.
Proof. intros. unfold incr. rewrite Z.mod_small; lia. Qed.

Definition count_status (status : TaskStatus) (l : list TaskResult) : Z :=
  zlen (filter (λ r, res_Status r = status) l).
Lemma count_status_cons status r l :
  count_status status (r :: l) =
  (if bool_decide (res_Status r = status) then 1 else 0) + count_status status l.
Proof.
  unfold count_status, zlen. case_bool_decide.
  - rewrite filter_cons_True by done. simpl. lia.
  - by rewrite filter_cons_False.
Qed.
#[export] Instance count_status_perm status : Proper ((≡ₚ) ==> eq) (count_status status).
Proof. intros l1 l2 Hp. unfold count_status, zlen. by rewrite Hp. Qed.

(** [new = old + n] on [uint64] counters. *)
Definition advanced (old new n : Z) : Prop := new mod 2 ^ 64 = (old + n) mod 2 ^ 64.
Lemma advanced_0 x : advanced x x 0.
Proof. unfold advanced. by rewrite Z.add_0_r. Qed.
Lemma advanced_incr old new n : advanced (incr old) new n → advanced old new (1 + n).
Proof.
  unfold advanced, incr. intros ->. rewrite Zplus_mod_idemp_l. f_equal. lia.
Qed.
#[export] Hint Resolve advanced_0 advanced_incr : sched.

(** What recording a list of results leaves alone. *)
Lemma record_tasks_frame l c :
  let c' := foldl record_task c l in
  totalRuns c' = totalRuns c ∧ runsSuccess c' = runsSuccess c ∧
  runsFailed c' = runsFailed c ∧ runsCancelled c' = runsCancelled c ∧
  runCount c' = runCount c ∧ runDurationS c' = runDurationS c ∧
  buckets c' = buckets c ∧ bucketCounts c' = bucketCounts c.
Proof.
  revert c; induction l as [|r l IH]; intros c; [done|]. simpl.
  destruct (IH (record_task c r)) as (-> & -> & -> & -> & -> & -> & -> & ->).
  unfold record_task. by repeat case_bool_decide.
Qed.
Lemma record_compensations_frame l c :
  let c' := foldl record_compensation c l in
  totalRuns c' = totalRuns c ∧ runsSuccess c' = runsSuccess c ∧
  runsFailed c' = runsFailed c ∧ runsCancelled c' = runsCancelled c ∧
  totalTasks c' = totalTasks c ∧ tasksSuccess c' = tasksSuccess c ∧
  tasksFailed c' = tasksFailed c ∧ tasksSkipped c' = tasksSkipped c ∧
  runCount c' = runCount c ∧ runDurationS c' = runDurationS c ∧
  buckets c' = buckets c ∧ bucketCounts c' = bucketCounts c.
Proof.
  revert c; induction l as [|r l IH]; intros c; [done|]. simpl.
  destruct (IH (record_compensation c r))
    as (-> & -> & -> & -> & -> & -> & -> & -> & -> & -> & -> & ->).
  unfold record_compensation. by repeat case_bool_decide.
Qed.
Lemma record_tasks_counts l c :
  let c' := foldl record_task c l in
  advanced (totalTasks c) (totalTasks c') (zlen l) ∧
  advanced (tasksSuccess c) (tasksSuccess c') (count_status TaskStatusSuccess l) ∧
  advanced (tasksFailed c) (tasksFailed c') (count_status TaskStatusFailed l) ∧
  advanced (tasksSkipped c) (tasksSkipped c') (count_status TaskStatusSkipped l).
Proof.
  revert c; induction l as [|r l IH]; intros c; [auto with sched|]. simpl.
  destruct (IH (record_task c r)) as (H0 & H1 & H2 & H3). rewrite !count_status_cons.
  replace (zlen (r :: l)) with (1 + zlen l) by (unfold zlen; simpl; lia).
  revert H0 H1 H2 H3. unfold record_task.
  repeat case_bool_decide; simpl; intros; try done_status; auto with sched.
Qed.

(** ** The histogram *)

Lemma count_buckets_spec d uppers (f : float64 → Z) :
  count_buckets d uppers (f <$> uppers) =
  (λ u, if SFleb d u then incr (f u) else f u) <$> uppers.
Proof. induction uppers as [|u uppers IH]; [done|]. simpl. f_equal. exact IH. Qed.

Lemma SFleb_trans a b c : SFleb a b = true → SFleb b c = true → SFleb a c = true.
Proof.
  unfold SFleb, SFcompare.
  destruct a as [[]|[]| |[] ma ea], b as [[]|[]| |[] mb eb], c as [[]|[]| |[] mc ec];
    try done;
    destruct (Z.compare_spec ea eb), (Z.compare_spec eb ec), (Z.compare_spec ea ec);
    try done; try lia;
    change (PosDef.Pos.compare_cont Eq) with Pos.compare in *;
    destruct (Pos.compare_spec ma mb), (Pos.compare_spec mb mc), (Pos.compare_spec ma mc);
    simpl; done || lia.
Qed.

(** How many of the durations fall into the bucket of bound [upper]. *)
Definition at_most (upper : float64) (ds : list duration) : nat :=
  length (filter (λ d, SFleb (Seconds d) upper = true) ds).
Lemma at_most_mono u v ds : SFleb u v = true → (at_most u ds ≤ at_most v ds)%nat.
Proof.
  intros Huv. unfold at_most. induction ds as [|d ds IH]; [done|].
  destruct (decide (SFleb (Seconds d) u = true)) as [Hd|Hd].
  - rewrite !filter_cons_True by eauto using SFleb_trans. simpl. lia.
  - rewrite filter_cons_False by done.
    destruct (decide (SFleb (Seconds d) v = true)) as [Hv|Hv].
    + rewrite filter_cons_True by done. simpl. lia.
    + by rewrite filter_cons_False.
Qed.

Lemma RecordRun_frame ord run c :
  let c' := RecordRun ord run c in
  runCount c' = incr (runCount c) ∧ buckets c' = buckets c ∧
  bucketCounts c' = count_buckets (Seconds (run_Duration run)) (buckets c) (bucketCounts c).
Proof.
  unfold RecordRun. cbv zeta. unfold record_duration. simpl.
  match goal with |- context [foldl record_compensation ?s ?l] =>
    destruct (record_compensations_frame l s) as (_&_&_&_&_&_&_&_& -> & _ & -> & ->) end.
  match goal with |- context [foldl record_task ?s ?l] =>
    destruct (record_tasks_frame l s) as (_&_&_&_& -> & _ & -> & ->) end.
  unfold record_status. by repeat case_bool_decide.
Qed.

Definition record_runs (runs : list (iter_order * Run)) (c : Collector) : Collector :=
  foldl (λ c r, RecordRun r.1 r.2 c) c runs.
Definition run_durations (runs : list (iter_order * Run)) : list duration :=
  (λ r, run_Duration r.2) <$> runs.

Lemma record_runs_snoc runs r c :
  record_runs (runs ++ [r]) c = RecordRun r.1 r.2 (record_runs runs c).
Proof. unfold record_runs. by rewrite foldl_app. Qed.
Lemma at_most_snoc u ds d :
  at_most u (ds ++ [d]) = (at_most u ds + if SFleb (Seconds d) u then 1 else 0)%nat.
Proof.
  unfold at_most. rewrite filter_app, length_app. f_equal.
  destruct (SFleb (Seconds d) u) eqn:E.
  - by rewrite filter_cons_True.
  - by rewrite filter_cons_False by (rewrite E; done).
Qed.

Lemma record_runs_histogram runs :
  Z.of_nat (length runs) < 2 ^ 64 →
  let c := record_runs runs NewCollector in
  buckets c = buckets NewCollector ∧ runCount c = zlen runs ∧
  bucketCounts c =
    (λ upper, Z.of_nat (at_most upper (run_durations runs))) <$> buckets NewCollector.
Proof.
  induction runs as [|r runs IH] using rev_ind; intros Hlen; [by vm_compute|].
  rewrite length_app in Hlen. simpl in Hlen. destruct IH as (Hb & Hn & Hc); [lia|].
  rewrite record_runs_snoc.
  destruct (RecordRun_frame r.1 r.2 (record_runs runs NewCollector)) as (Hn' & Hb' & Hc').
  cbv zeta. rewrite Hb', Hn', Hc', Hb, Hn, Hc. split; [done|]. split.
  { rewrite incr_plain; unfold zlen; [rewrite length_app; simpl; lia|lia]. }
  rewrite count_buckets_spec. apply list_fmap_ext. intros i u _. unfold run_durations.
  rewrite fmap_app. simpl. rewrite at_most_snoc.
  destruct (SFleb _ u); [|lia]. rewrite incr_plain; [lia|].
  pose proof (length_filter (λ d, SFleb (Seconds d) u = true) ((λ r, run_Duration r.2) <$> runs))
    as Hle. rewrite length_fmap in Hle. unfold at_most. lia.
Qed.

(** ** What the counters mean *)

(** The duration histogram of the metrics is cumulative and exact: after
    any fewer than 2^64 recorded runs each bucket counts the runs whose duration
    in seconds is at most its bound, every later bucket counts at least as many,
    and none counts more than the total. *)
Theorem histogram_cumulative runs :
  Z.of_nat (length runs) < 2 ^ 64 →
  let c := record_runs runs NewCollector in
  bucketCounts c =
    (λ upper, Z.of_nat (at_most upper (run_durations runs))) <$> buckets c ∧
  StronglySorted Z.le (bucketCounts c) ∧
  Forall (λ n, n ≤ runCount c) (bucketCounts c).
Proof.
  intros Hlen c. destruct (record_runs_histogram runs Hlen) as (Hb & Hn & Hc). fold c in Hb, Hn, Hc.
  rewrite Hb, Hc, Hn. split; [done|]. split.
  - assert (Hs : StronglySorted (λ u v, SFleb u v = true) (buckets NewCollector)).
    { repeat (constructor; [|by repeat constructor]). constructor. }
    clear -Hs. induction Hs as [|u us _ IH Hu]; simpl; constructor; [done|].
    apply Forall_fmap. eapply Forall_impl; [exact Hu|]. intros v Huv. simpl.
    pose proof (at_most_mono _ _ (run_durations runs) Huv). lia.
  - apply Forall_fmap, Forall_forall. intros u _. simpl. unfold at_most, zlen.
    pose proof (length_filter (λ d, SFleb (Seconds d) u = true) (run_durations runs)) as Hle.
    unfold run_durations in Hle at 2. rewrite length_fmap in Hle. lia.
Qed.
Definition sample_run (d : duration) (results : gmap string TaskResult) : Run :=
  mkRun "r" "w" "" RunStatusSuccess CompensationStatusNotRequired [] 0 d d results "".
Lemma histogram_cumulative_witness :
  let runs := (λ d, (canonical_order, sample_run d ∅)) <$> [250000000; 2000000000; 90000000000] in
  bucketCounts (record_runs runs NewCollector) = [0; 1; 1; 1; 2; 2; 2; 2; 2] ∧
  Forall (λ n, n ≤ runCount (record_runs runs NewCollector))
    (bucketCounts (record_runs runs NewCollector)).
Proof.
  intros runs. split; [by vm_compute|]. apply (histogram_cumulative runs). done.
Defined.

(** Recording a finished run advances the run counter and exactly one of the
    three outcome counters by one, and the task counters by the number of its
    results with each status, whatever order the result map is read in (all
    modulo 2^64). *)
Theorem RecordRun_counters ord run c :
  let c' := RecordRun ord run c in
  let results := (map_to_list (run_Results run)).*2 in
  let one (status : RunStatus) : Z := if bool_decide (run_Status run = status) then 1 else 0 in
  advanced (totalRuns c) (totalRuns c') 1 ∧
  advanced (runsSuccess c) (runsSuccess c') (one RunStatusSuccess) ∧
  advanced (runsFailed c) (runsFailed c') (one RunStatusFailed) ∧
  advanced (runsCancelled c) (runsCancelled c') (one RunStatusCancelled) ∧
  advanced (totalTasks c) (totalTasks c') (zlen results) ∧
  advanced (tasksSuccess c) (tasksSuccess c') (count_status TaskStatusSuccess results) ∧
  advanced (tasksFailed c) (tasksFailed c') (count_status TaskStatusFailed results) ∧
  advanced (tasksSkipped c) (tasksSkipped c') (count_status TaskStatusSkipped results).
Proof.
  cbv zeta.
  assert (Hperm : iter_values ord (run_Results run) ≡ₚ (map_to_list (run_Results run)).*2).
  { unfold iter_values. by rewrite iter_perm. }
  rewrite <-Hperm. unfold RecordRun. cbv zeta. unfold record_duration. simpl.
  match goal with |- context [foldl record_compensation ?s ?l] =>
    destruct (record_compensations_frame l s)
      as (-> & -> & -> & -> & -> & -> & -> & -> & _) end.
  match goal with |- context [foldl record_task ?s ?l] =>
    destruct (record_tasks_frame l s) as (-> & -> & -> & -> & _);
    destruct (record_tasks_counts l s) as (H0 & H1 & H2 & H3) end.
  revert H0 H1 H2 H3.
  unfold record_status. repeat case_bool_decide; simpl; intros;
    try done_status; split_and!; auto with sched;
    by (apply (advanced_incr _ _ 0), advanced_0).
Qed.
