(* ===== verification/Prometheus.v ===== *)
(** * internal/telemetry/collector.go: the text of [Prometheus]

    [fmt] on counters and doubles, the lines of the exposition, and what a scrape of
    [/metrics] shows. *)

From Stdlib Require Import SpecFloat.
From S2P Require Import Prelude GoLib GoText Domain Telemetry.
Local Open Scope Z_scope.

(** ** Doubles as decimals *)

(** The integer nearest to [n / d], ties to the even one. *)
Definition nearest (n d : Z) : Z :=
  let q := n / d in
  let r := n mod d in
  if (2 * r <? d) || ((2 * r =? d) && Z.even q) then q else q + 1.
(** [m * 2^e] as a fraction. *)
Definition fraction (m : positive) (e : Z) : Z * Z :=
  if 0 <=? e then (Z.pos m * 2 ^ e, 1) else (Z.pos m, 2 ^ (- e)).
Definition zeros (n : nat) : string := String.concat "" (replicate n "0").
Definition pad (width : nat) (z : Z) : string :=
  zeros (width - String.length (pretty z)) +:+ pretty z.
Definition minus (negative : bool) : string := if negative then "-" else "".

(** [%f]: six places after the point. *)
Definition format_f (x : float64) : string :=
  match x with
  | S754_nan => "NaN"
  | S754_infinity s => if s then "-Inf" else "+Inf"
  | S754_zero s => minus s +:+ "0.000000"
  | S754_finite s m e =>
      let '(n, d) := fraction m e in
      let z := nearest (n * 10 ^ 6) d in
      minus s +:+ pretty (z / 10 ^ 6) +:+ "." +:+ pad 6 (z mod 10 ^ 6)
  end.

(** The place of the decimal point: [10^(p-1) <= n/d < 10^p]. *)
Definition digits_of (z : Z) : Z := Z.of_nat (String.length (pretty z)).
Definition point (n d : Z) : Z := if d <=? n then digits_of (n / d) else 1 - digits_of (d / n).
(** Whether [c * 10^q] reads back as [m * 2^e]: it is within half a unit in the last place
    on either side, the limits included for an even [m]. *)
Definition reads_back (m : positive) (e c q : Z) : bool :=
  let low := if bool_decide (Z.pos m = 2 ^ 52) && (-1074 <? e) then 4 * Z.pos m - 1
             else 4 * Z.pos m - 2 in
  let high := 4 * Z.pos m + 2 in
  let scaled z := z * 2 ^ Z.max 0 (e - 2) * 10 ^ Z.max 0 (- q) in
  let c := c * 10 ^ Z.max 0 q * 2 ^ Z.max 0 (2 - e) in
  if Z.even (Z.pos m) then (scaled low <=? c) && (c <=? scaled high)
  else (scaled low <? c) && (c <? scaled high).
(** The shortest digits that read back, from [k] on; 17 always do. *)
Fixpoint shortest (fuel k : nat) (m : positive) (e : Z) : Z * Z :=
  let '(n, d) := fraction m e in
  let p := point n d in
  let q := p - Z.of_nat k in
  let c := nearest (n * 10 ^ Z.max 0 (- q)) (d * 10 ^ Z.max 0 q) in
  match fuel with
  | O => (c, q)
  | S fuel => if reads_back m e c q then (c, q) else shortest fuel (S k) m e
  end.
Fixpoint strip_zeros (fuel : nat) (c q : Z) : Z * Z :=
  match fuel with
  | O => (c, q)
  | S fuel => if (c mod 10 =? 0) then strip_zeros fuel (c / 10) (q + 1) else (c, q)
  end.
(** [%g]: the shortest digits, with an exponent if it is below -4 or from 6 on. *)
Definition format_g (x : float64) : string :=
  match x with
  | S754_nan => "NaN"
  | S754_infinity s => if s then "-Inf" else "+Inf"
  | S754_zero s => minus s +:+ "0"
  | S754_finite s m e =>
      let '(c, q) := shortest 16 1 m e in
      let '(c, q) := strip_zeros 17 c q in
      let digits := pretty c in
      let nd := digits_of c in
      let exp := nd + q - 1 in
      minus s +:+
      (if (exp <? -4) || (6 <=? exp) then
         str_take 1 digits +:+ (if 1 <? nd then "." +:+ str_drop 1 digits else "") +:+ "e" +:+
         (if exp <? 0 then "-" else "+") +:+ pad 2 (Z.abs exp)
       else if 0 <=? q then digits +:+ zeros (Z.to_nat q)
       else if 0 <=? exp then
         str_take (Z.to_nat (exp + 1)) digits +:+ "." +:+ str_drop (Z.to_nat (exp + 1)) digits
       else "0." +:+ zeros (Z.to_nat (- exp - 1)) +:+ digits)
  end.

Example format_buckets : format_g <$> buckets NewCollector =
  ["0.1"; "0.25"; "0.5"; "1"; "2.5"; "5"; "10"; "30"; "60"].
Proof. vm_compute. reflexivity. Qed.
Example format_large : format_g <$> [of_int 123456; of_int 1000000; of_quot 3 20000000; of_int (-1)] =
  ["123456"; "1e+06"; "1.5e-07"; "-1"].
Proof. vm_compute. reflexivity. Qed.
Example format_sum : format_f <$> [Seconds 1500000000; of_quot 1 3; of_int 0; of_quot (-1) 4] =
  ["1.500000"; "0.333333"; "0.000000"; "-0.250000"].
Proof. vm_compute. reflexivity. Qed.

(** [int(x)] truncates; what it gives for no number is left to the implementation, here 0. *)
Definition int_of_float (x : float64) : Z :=
  match x with
  | S754_finite s m e => let '(n, d) := fraction m e in if s then - (n / d) else n / d
  | _ => 0
  end.

(** ** The lines *)

(** [strings.ReplaceAll] for a non-empty [old]. *)
Definition ReplaceAll (s old new : string) : string := String.concat new (Split s old).
Definition backslash : string := String (Ascii.ascii_of_nat 92) "".
Definition quote : string := String (Ascii.ascii_of_nat 34) "".
Definition escape (s : string) : string :=
  let s := ReplaceAll s backslash (backslash +:+ backslash) in
  ReplaceAll s quote (backslash +:+ quote).
(** [label="value"] *)
Definition label (name value : string) : string := name +:+ "=" +:+ quote +:+ value +:+ quote.

(** The header of a metric. *)
Definition header (name help type : string) : list string :=
  ["# HELP " +:+ name +:+ " " +:+ help; "# TYPE " +:+ name +:+ " " +:+ type].
Definition count_line (name : string) (n : Z) : string := name +:+ " " +:+ pretty n.
Definition bucket_line (le : string) (n : Z) : string :=
  count_line ("orchestrator_run_duration_seconds_bucket{" +:+ label "le" le +:+ "}") n.
(** [buckets[i]] with [bucketCounts[i]]; [None] is the panic of an index out of range. *)
Fixpoint bucket_lines (uppers : list float64) (counts : list Z) : option (list string) :=
  match uppers, counts with
  | [], _ => Some []
  | upper :: uppers, n :: counts =>
      lines ← bucket_lines uppers counts;
      Some (bucket_line (format_g upper) n :: lines)
  | _ :: _, [] => None
  end.
(** [strings.SplitN(k, "|", 3)]; a key of another shape is left out. *)
Definition http_line (k : string) (n : Z) : list string :=
  match split_rounds 2 k "|" with
  | [method; route; status] =>
      [count_line ("orchestrator_http_requests_total{" +:+ label "method" method +:+ "," +:+
                   label "route" (escape route) +:+ "," +:+ label "status" status +:+ "}") n]
  | _ => []
  end.
Definition depth_line (status : string) (n : Z) : list string :=
  [count_line ("orchestrator_queue_depth{" +:+ label "status" (escape status) +:+ "}") n].

(** The copy of a map, and its entries in the order of the sorted keys. *)
Definition copy {A} (ord : iter_order) (m : gmap string A) : gmap string A :=
  foldl (λ m kv, <[kv.1 := kv.2]> m) ∅ (iter ord m).
Definition sorted_lines (ord : iter_order) (line : string → Z → list string) (m : gmap string Z) :
    list string :=
  mjoin ((λ k, line k (default 0 (m !! k))) <$> sort_slice str_ltb (iter_keys ord m)).

(** The lines that [writeMetric] is given, in groups. *)
Definition sections (bucketLines httpLines depthLines : list string) (c : Collector) :
    list (list string) := [
  header "orchestrator_runs_total" "Total workflow runs" "counter";
  [count_line "orchestrator_runs_total" (totalRuns c);
   count_line "orchestrator_runs_success_total" (runsSuccess c);
   count_line "orchestrator_runs_failed_total" (runsFailed c);
   count_line "orchestrator_runs_cancelled_total" (runsCancelled c)];
  header "orchestrator_tasks_total" "Total task executions" "counter";
  [count_line "orchestrator_tasks_total" (totalTasks c);
   count_line "orchestrator_tasks_success_total" (tasksSuccess c);
   count_line "orchestrator_tasks_failed_total" (tasksFailed c);
   count_line "orchestrator_tasks_skipped_total" (tasksSkipped c)];
  header "orchestrator_compensation_total" "Compensation task outcomes" "counter";
  [count_line "orchestrator_compensation_success_total" (compSuccess c);
   count_line "orchestrator_compensation_failed_total" (compFailed c);
   count_line "orchestrator_compensation_skipped_total" (compSkipped c)];
  header "orchestrator_run_duration_seconds" "Workflow run duration histogram" "histogram";
  bucketLines;
  [bucket_line "+Inf" (runCount c)];
  header "orchestrator_run_duration_seconds_sum" "Total run duration in seconds" "counter";
  ["orchestrator_run_duration_seconds_sum " +:+ format_f (runDurationS c)];
  header "orchestrator_run_duration_seconds_count" "Number of completed runs" "counter";
  [count_line "orchestrator_run_duration_seconds_count" (runCount c)];
  header "orchestrator_http_requests_total" "API request count" "counter";
  httpLines;
  header "orchestrator_worker_leases_total" "Queue jobs leased by workers" "counter";
  [count_line "orchestrator_worker_leases_total" (workerLeased c)];
  header "orchestrator_worker_success_total" "Queue jobs completed successfully" "counter";
  [count_line "orchestrator_worker_success_total" (workerSuccess c)];
  header "orchestrator_worker_retry_total" "Queue jobs retried by workers" "counter";
  [count_line "orchestrator_worker_retry_total" (workerRetry c)];
  header "orchestrator_worker_dead_letter_total" "Queue jobs moved to dead letter" "counter";
  [count_line "orchestrator_worker_dead_letter_total" (workerDead c)];
  header "orchestrator_worker_failure_total" "Queue job processing failures" "counter";
  [count_line "orchestrator_worker_failure_total" (workerFailed c)];
  header "orchestrator_queue_depth" "Current queue depth by status" "gauge";
  depthLines].
(** [None] is a panic. *)
Definition exposition (ord : nat → iter_order) (c : Collector) : option (list string) :=
  let httpCopy := copy (ord 0%nat) (httpByKey c) in
  let queueDepthCopy := copy (ord 1%nat) (queueDepth c) in
  bucketLines ← bucket_lines (buckets c) (bucketCounts c);
  Some (mjoin (sections bucketLines (sorted_lines (ord 2%nat) http_line httpCopy)
                 (sorted_lines (ord 3%nat) depth_line queueDepthCopy) c)).
Definition Prometheus (ord : nat → iter_order) (c : Collector) : option string :=
  lines ← exposition ord c;
  Some (String.concat "" ((λ line, line +:+ String (Ascii.ascii_of_nat 10) "") <$> lines)).

(** ** A scrape *)

Lemma foldl_insert_pairs {A} (l : list (string * A)) (m : gmap string A) : NoDup l.*1 →
  (∀ k x, (k, x) ∈ l → foldl (λ m kv, <[kv.1 := kv.2]> m) m l !! k = Some x) ∧
  (∀ k, k ∉ l.*1 → foldl (λ m kv, <[kv.1 := kv.2]> m) m l !! k = m !! k).
Proof.
  revert m; induction l as [|[k0 x0] l IH]; intros m; [by split; [intros ?? ?%not_elem_of_nil|]|].
  rewrite fmap_cons. intros [Hk0 Hnd]%NoDup_cons. simpl in Hk0. simpl.
  destruct (IH (<[k0 := x0]> m) Hnd) as [H1 H2]. split.
  - intros k x [[= -> ->]|Hin]%elem_of_cons; [|by apply H1].
    rewrite H2 by done. apply lookup_insert_eq.
  - intros k [Hne Hk]%not_elem_of_cons. rewrite H2 by done. by apply lookup_insert_ne.
Qed.
(** The order of iteration does not matter to a copy, *)
Lemma copy_id {A} ord (m : gmap string A) : copy ord m = m.
Proof.
  unfold copy. destruct (foldl_insert_pairs (iter ord m) ∅ (NoDup_iter_keys ord m)) as [H1 H2].
  apply map_eq. intros k. destruct (m !! k) as [x|] eqn:Hk.
  - apply H1. by apply elem_of_iter.
  - rewrite H2, lookup_empty; [done|]. fold (iter_keys ord m). rewrite elem_of_iter_keys, Hk.
    by intros [].
Qed.
(** nor to the lines of a section. *)
Lemma sorted_lines_ord ord ord' line m : sorted_lines ord line m = sorted_lines ord' line m.
Proof.
  unfold sorted_lines. do 2 f_equal.
  apply (sort_slice_perm_eq _ str_ltb_asym (λ s t u H1 H2, str_le_trans s t u H1 H2)).
  - intros x y _ _. apply str_le_antisym.
  - unfold iter_keys. by rewrite !iter_perm.
Qed.
Lemma elem_of_sorted_lines ord line m k n l :
  m !! k = Some n → l ∈ line k n → l ∈ sorted_lines ord line m.
Proof.
  intros Hk Hl. unfold sorted_lines. apply list_elem_of_join. exists (line k n). split; [done|].
  apply list_elem_of_fmap. exists k. rewrite Hk. split; [done|].
  rewrite elem_of_sort_slice, elem_of_iter_keys. by rewrite Hk.
Qed.

(** What a collector goes through. *)
Inductive collected : Collector → Prop :=
| collected_new : collected NewCollector
| collected_run ord run c : collected c → collected (RecordRun ord run c)
| collected_request method route status c :
    collected c → collected (RecordHTTPRequest method route status c)
| collected_lease c : collected c → collected (RecordWorkerLease c)
| collected_success c : collected c → collected (RecordWorkerSuccess c)
| collected_retry c : collected c → collected (RecordWorkerRetry c)
| collected_dead c : collected c → collected (RecordWorkerDeadLetter c)
| collected_failure c : collected c → collected (RecordWorkerFailure c)
| collected_depth ord counts c : collected c → collected (SetQueueDepthByStatus ord counts c).
Lemma length_count_buckets d uppers counts : length (count_buckets d uppers counts) = length counts.
Proof. revert counts; induction uppers as [|u us IH]; intros [|n ns]; simpl; auto. Qed.
Lemma collected_buckets c : collected c → length (bucketCounts c) = length (buckets c).
Proof.
  induction 1 as [|ord run c Hc IH|m r st c _ IH|c _ IH|c _ IH|c _ IH|c _ IH|c _ IH|o cs c _ IH];
    try exact IH; try done.
  destruct (RecordRun_frame ord run c) as (_ & -> & ->). by rewrite length_count_buckets.
Qed.
Lemma bucket_lines_total uppers counts :
  length counts = length uppers → is_Some (bucket_lines uppers counts).
Proof.
  revert counts; induction uppers as [|u us IH]; intros [|n ns]; try done; simpl.
  intros [= Hlen]. destruct (IH ns Hlen) as [ls ->]. by eexists.
Qed.

(** The key of a request is taken apart again. *)
Lemma split_request_key method route status :
  Contains method "|" = false → Contains route "|" = false →
  split_rounds 2 (method +:+ ("|" +:+ (route +:+ ("|" +:+ status)))) "|" = [method; route; status].
Proof. intros Hm Hr. by rewrite !(split_rounds_cut "|"). Qed.

Definition request_line (method route : string) (status n : Z) : string :=
  count_line ("orchestrator_http_requests_total{" +:+ label "method" method +:+ "," +:+
    label "route" (escape route) +:+ "," +:+ label "status" (pretty status) +:+ "}") n.
Definition newline (line : string) : string := line +:+ String (Ascii.ascii_of_nat 10) "".

(** A scrape of the metrics never panics and does not depend on the order the maps are
    read in: whatever was recorded, the text is one and the same, made of whole lines,
    with a line of its own for every method, route and status that was counted (without a
    bar in the method or the route, which separates them in the keys) and every queue
    status, with the count. *)
Theorem scrape c :
  collected c →
  ∃ lines, (∀ ord, Prometheus ord c = Some (String.concat "" (newline <$> lines))) ∧
    (∀ method route status n,
       httpByKey c !! (method +:+ "|" +:+ route +:+ "|" +:+ pretty status) = Some n →
       Contains method "|" = false → Contains route "|" = false →
       request_line method route status n ∈ lines) ∧
    (∀ status n, queueDepth c !! status = Some n →
       count_line ("orchestrator_queue_depth{" +:+ label "status" (escape status) +:+ "}") n ∈ lines).
Proof.
  intros Hc.
  destruct (bucket_lines_total (buckets c) (bucketCounts c) (collected_buckets c Hc)) as [ls Hls].
  set (http := sorted_lines canonical_order http_line (httpByKey c)).
  set (depth := sorted_lines canonical_order depth_line (queueDepth c)).
  exists (mjoin (sections ls http depth c)). split; [|split].
  - intros ord. unfold Prometheus, exposition. rewrite Hls, !copy_id. simpl option_bind.
    by rewrite (sorted_lines_ord (ord 2%nat) canonical_order),
      (sorted_lines_ord (ord 3%nat) canonical_order).
  - intros method route status n Hk Hm Hr. apply list_elem_of_join. exists http. split.
    + apply (elem_of_sorted_lines canonical_order http_line _ _ _ _ Hk).
      unfold http_line. rewrite split_request_key by done. by apply list_elem_of_singleton.
    + by apply (list_elem_of_lookup_2 _ 14).
  - intros status n Hk. apply list_elem_of_join. exists depth. split.
    + apply (elem_of_sorted_lines canonical_order depth_line _ _ _ _ Hk).
      by apply list_elem_of_singleton.
    + by apply (list_elem_of_lookup_2 _ 26).
Qed.
Lemma scrape_witness :
  let c := RecordWorkerLease (SetQueueDepthByStatus canonical_order {["QUEUED" := 7]}
             (RecordHTTPRequest "GET" "/jobs" 200 (RecordHTTPRequest "GET" "/jobs" 200 NewCollector))) in
  ∃ lines, Prometheus (λ _, canonical_order) c = Some (String.concat "" (newline <$> lines)) ∧
    request_line "GET" "/jobs" 200 2 ∈ lines.
Proof.
  intros c. destruct (scrape c) as (lines & Ht & Hl & _).
  - repeat constructor.
  - exists lines. split; [exact (Ht _)|]. apply Hl.
    + vm_compute. reflexivity.
    + vm_compute. reflexivity.
    + vm_compute. reflexivity.
Defined.
(** A method with a bar - HTTP allows it - is shown as another request. *)
Theorem bar_in_method :
  http_line "A|B|/jobs|200" 1 = [count_line ("orchestrator_http_requests_total{" +:+
    label "method" "A" +:+ "," +:+ label "route" "B" +:+ "," +:+ label "status" "/jobs|200" +:+ "}") 1].
Proof. reflexivity. Qed.
