(* ===== verification/Executor.v ===== *)
(** * internal/engine/executor.go: the execution loop of a workflow

    [runWithID] as a state machine.  A [loop_state] holds the local variables
    of the Go function together with the goroutines that [startTask] launched
    and whose result was not received yet.  [fill_step] is one iteration of the
    inner loop, [on_result] the receive branch of the [select] and [on_done] its
    [<-runCtx.Done()] branch; [step] is the transition relation they make up and
    [main_loop] runs them against a list of events, what the environment makes
    the [select] see.  [finish] and [runWithID] are the code after the loop. *)

From S2P Require Import Prelude GoLib Domain Graph Template Actions RunTask Interfaces.
Local Open Scope Z_scope.

(** ** State *)

Record loop_state := mkLoopState {
  ls_results : gmap string TaskResult;        (** [run.Results] *)
  ls_remainingDeps : gmap string Z;
  ls_blockedByFailure : gmap string bool;
  ls_ready : list string;
  ls_active : Z;
  ls_completed : Z;
  ls_failFastTriggered : bool;
  ls_running : list (string * TaskNode);      (** the goroutines in flight *)
  ls_status : RunStatus;                      (** [run.Status] *)
  ls_error : string;                          (** [run.Error] *)
  ls_tick : nat;                              (** clock readings so far *)
}.
#[export] Instance loop_state_settable : Settable loop_state := λ s,
  mkLoopState (ls_results s) (ls_remainingDeps s) (ls_blockedByFailure s) (ls_ready s)
    (ls_active s) (ls_completed s) (ls_failFastTriggered s) (ls_running s)
    (ls_status s) (ls_error s) (ls_tick s).

Definition TaskNode_zero : TaskNode :=
  mkTaskNode "" "" "" ∅ [] "" 0 0 (mkRetryPolicy 0 0) false (mkCompensationSpec "" ∅ 0).

(** What a [select] of the loop can see. *)
Inductive event :=
| EvDone (err : string)                       (** [<-runCtx.Done()], [runCtx.Err().Error()] *)
| EvResult (taskID : string) (tr : task_trace). (** the result of a goroutine *)

(** [for _, t := range tasks { m[t.ID] = f(t) }] *)
Definition index_task {A} (f : TaskNode → A) (m : gmap string A) (t : TaskNode) : gmap string A :=
  <[task_ID t := f t]> m.
Definition index_tasks {A} (f : TaskNode → A) (tasks : list TaskNode) : gmap string A :=
  foldl (index_task f) ∅ tasks.
(** [for _, dep := range t.DependsOn { dependents[dep] = append(dependents[dep], t.ID) }] *)
Definition add_dependent (m : gmap string (list string)) (t : TaskNode) :=
  foldl (add_dep (task_ID t)) m (task_DependsOn t).
Definition build_dependents (tasks : list TaskNode) : gmap string (list string) :=
  foldl add_dependent ∅ tasks.

Section executor.
Context `{!Quote}.
(** The workflow, the registered actions, the clock, the iteration orders of
    the maps ranged over (one for each moment), and the fuel granted to each
    template expansion. *)
Context (workflow : Workflow) (registry : Registry).
Context (clk : clock) (ords : nat → iter_order) (tfuel : nat).

Definition tasksByID : gmap string TaskNode := index_tasks id (wf_Tasks workflow).
Definition dependents : gmap string (list string) := build_dependents (wf_Tasks workflow).
Definition task_of (id : string) : TaskNode := default TaskNode_zero (tasksByID !! id).
Definition children (id : string) : list string := default [] (dependents !! id).
Definition maxConcurrency : Z :=
  let m := wf_MaxConcurrency workflow in if m <=? 0 then 1 else m.
Definition total : Z := zlen (wf_Tasks workflow).

(** Before the loop; the ready tasks come out of a range over a map. *)
Definition init : loop_state :=
  let remainingDeps := index_tasks (λ t, zlen (task_DependsOn t)) (wf_Tasks workflow) in
  mkLoopState ∅ remainingDeps ∅
    ((filter (λ kv, kv.2 = 0) (iter (ords 0%nat) remainingDeps)).*1)
    0 0 false [] RunStatusRunning "" 0.

(** *** The inner loop *)

(** [remainingDeps[child]--; if blocked { blockedByFailure[child] = true };
    if remainingDeps[child] == 0 { ready = append(ready, child) }] *)
Definition release (blocked : bool) (st : loop_state) (child : string) : loop_state :=
  let left_ := default 0 (ls_remainingDeps st !! child) - 1 in
  let st := st <| ls_remainingDeps := <[child := left_]> (ls_remainingDeps st) |> in
  let st := if blocked
            then st <| ls_blockedByFailure := <[child := true]> (ls_blockedByFailure st) |>
            else st in
  if left_ =? 0 then st <| ls_ready := ls_ready st ++ [child] |> else st.

(** [run.Results[taskID] = res; completed++], with the two clock readings of
    the result. *)
Definition record (taskID : string) (res : TaskResult) (st : loop_state) : loop_state :=
  st <| ls_results := <[taskID := res]> (ls_results st) |>
     <| ls_completed := ls_completed st + 1 |>
     <| ls_tick := (ls_tick st + 2)%nat |>.

(** A result made without running the task. *)
Definition immediate (taskID : string) (status : TaskStatus) (attempts : Z)
    (error : string) (deps : list string) (st : loop_state) : TaskResult :=
  mkTaskResult taskID status (clk (ls_tick st)) (clk (S (ls_tick st))) attempts 0 "" error deps.

Definition upstream_failure : string := "skipped due to upstream failure".

(** One iteration of [for active < maxConcurrency && len(ready) > 0]; [None]
    when a template expansion does not return.  The [RunAfter] select ends the
    same way on both branches and only takes time. *)
Definition fill_step (st : loop_state) : option loop_state :=
  match ls_ready st with
  | [] => Some st
  | taskID :: ready =>
      let st := st <| ls_ready := ready |> in
      let task := task_of taskID in
      if default false (ls_blockedByFailure st !! taskID) then
        let res := immediate taskID TaskStatusSkipped 0 upstream_failure
                     (task_DependsOn task) st in
        Some (foldl (release true) (record taskID res st) (children taskID))
      else
        let '(shouldRun, skipReason) := evaluateCondition task (ls_results st) in
        if negb shouldRun then
          let res := immediate taskID TaskStatusSkipped 0 skipReason
                       (task_DependsOn task) st in
          Some (foldl (release false) (record taskID res st) (children taskID))
        else
          match resolveInputTemplates tfuel (ords (ls_tick st)) (task_Input task)
                  (ls_results st) with
          | None => None
          | Some (Err err) =>
              let res := immediate taskID TaskStatusFailed 1 err (task_DependsOn task) st in
              let st := foldl (release true) (record taskID res st) (children taskID) in
              Some (if wf_FailFast workflow && negb (task_AllowFailure task)
                    then st <| ls_failFastTriggered := true |> else st)
          | Some (Ok resolvedInput) =>
              let task := task <| task_Input := resolvedInput |> in
              Some (st <| ls_active := ls_active st + 1 |>
                       <| ls_running := ls_running st ++ [(taskID, task)] |>)
          end
  end.

Definition can_fill (st : loop_state) : bool :=
  (ls_active st <? maxConcurrency) && negb (bool_decide (ls_ready st = [])).

Fixpoint fill (fuel : nat) (st : loop_state) : option loop_state :=
  if can_fill st then
    match fuel with
    | O => None
    | S fuel => st ← fill_step st; fill fuel st
    end
  else Some st.

(** *** The select *)

Definition block (st : loop_state) (child : string) : loop_state :=
  st <| ls_blockedByFailure := <[child := true]> (ls_blockedByFailure st) |>.

Definition on_result (taskID : string) (res : TaskResult)
    (running : list (string * TaskNode)) (st : loop_state) : loop_state :=
  let st := st <| ls_active := ls_active st - 1 |>
               <| ls_completed := ls_completed st + 1 |>
               <| ls_running := running |>
               <| ls_results := <[taskID := res]> (ls_results st) |> in
  let currentTask := task_of taskID in
  let failed := bool_decide (res_Status res = TaskStatusFailed) in
  let st :=
    if failed && negb (task_AllowFailure currentTask) then
      let st := foldl block st (children taskID) in
      if wf_FailFast workflow then st <| ls_failFastTriggered := true |> else st
    else st in
  foldl (release false) st (children taskID).

Definition on_done (err : string) (st : loop_state) : loop_state :=
  if ls_failFastTriggered st then
    st <| ls_status := RunStatusFailed |>
       <| ls_error := "fail-fast: stopped after critical task failure" |>
  else st <| ls_status := RunStatusCancelled |> <| ls_error := err |>.

(** Takes the goroutine of [taskID] out of those in flight. *)
Fixpoint take_running (taskID : string) (l : list (string * TaskNode)) :
    option (TaskNode * list (string * TaskNode)) :=
  match l with
  | [] => None
  | (id, task) :: l =>
      if bool_decide (id = taskID) then Some (task, l) else
      '(t, l') ← take_running taskID l; Some (t, (id, task) :: l')
  end.

(** [for completed < len(workflow.Tasks)]: [None] when the fuel runs out, an
    expansion does not return, or the [select] waits for an event that the
    list does not hold. *)
Fixpoint main_loop (fuel : nat) (events : list event) (st : loop_state) :
    option loop_state :=
  if ls_completed st <? total then
    match fuel with
    | O => None
    | S fuel =>
        st ← fill (length (wf_Tasks workflow)) st;
        if ls_active st =? 0 then
          if bool_decide (ls_ready st = []) then Some st else main_loop fuel events st
        else
          match events with
          | [] => None
          | EvDone err :: _ => Some (on_done err st)
          | EvResult taskID tr :: events =>
              '(task, running) ← take_running taskID (ls_running st);
              '(res, _) ← runTask registry tr task;
              main_loop fuel events (on_result taskID res running st)
          end
    end
  else Some st.

(** *** The loop as a transition relation *)

Inductive step (st : loop_state) : loop_state → Prop :=
| step_fill st' :
    ls_completed st < total → can_fill st = true → fill_step st = Some st' → step st st'
| step_result taskID tr task running res waits :
    ls_completed st < total → can_fill st = false → ls_active st ≠ 0 →
    take_running taskID (ls_running st) = Some (task, running) →
    runTask registry tr task = Some (res, waits) →
    step st (on_result taskID res running st).

(** The states at the head of the inner or outer loop. *)
Definition reachable (st : loop_state) : Prop := rtc step init st.
End executor.
