(* ===== verification/ExecutorInv.v ===== *)
(** * The execution loop: invariants, progress and termination

    For a validated workflow ([Graph.well_formed]) every reachable state of the
    loop satisfies [inv]: the counters agree with the results and the goroutines
    in flight, a task is started exactly when its dependencies are finished, at
    most [maxConcurrency] tasks run, and a failure that counts is contained.
    Progress uses acyclicity: while tasks are missing, one is ready or in
    flight. *)

From S2P Require Import Prelude GoLib Domain Graph Template Actions RunTask Interfaces Executor.
Local Open Scope Z_scope.

(** ** Lookups in the maps built from the task list *)

Lemma index_tasks_fold {A} (f : TaskNode → A) tasks m :
  NoDup (task_ids tasks) →
  (∀ t, t ∈ tasks → foldl (index_task f) m tasks !! task_ID t = Some (f t)) ∧
  (∀ id, id ∉ task_ids tasks → foldl (index_task f) m tasks !! id = m !! id).
Proof.
  revert m; induction tasks as [|t tasks IH]; intros m Hnd; simpl in *.
  { split; [|done]. by intros t ?%elem_of_nil. }
  apply NoDup_cons in Hnd as [Ht Hnd]. destruct (IH (index_task f m t) Hnd) as [H1 H2].
  split.
  - intros t' [->|Hin]%elem_of_cons; [|by apply H1]. rewrite H2 by done. apply lookup_insert_eq.
  - intros id [Hne Hin]%not_elem_of_cons. rewrite H2 by done. by apply lookup_insert_ne.
Qed.
Lemma index_tasks_in {A} (f : TaskNode → A) tasks t :
  NoDup (task_ids tasks) → t ∈ tasks → index_tasks f tasks !! task_ID t = Some (f t).
Proof. intros Hnd. by apply index_tasks_fold. Qed.
Lemma index_tasks_notin {A} (f : TaskNode → A) tasks id :
  NoDup (task_ids tasks) → id ∉ task_ids tasks → index_tasks f tasks !! id = None.
Proof.
  intros Hnd Hid. unfold index_tasks. by rewrite (proj2 (index_tasks_fold f tasks ∅ Hnd)).
Qed.

Lemma add_dep_fold_count i deps m c id :
  count_occ_of c (succs (foldl (add_dep i) m deps) id) =
  (count_occ_of c (succs m id) + if decide (c = i) then count_occ_of id deps else 0)%nat.
Proof.
  revert m; induction deps as [|d deps IH]; intros m; simpl.
  { case_decide; rewrite ?count_occ_nil; lia. }
  rewrite IH. unfold succs at 1, add_dep. destruct (decide (id = d)) as [->|Hne].
  - rewrite lookup_insert_eq. simpl. rewrite count_occ_app, count_occ_cons_eq.
    unfold succs. destruct (decide (c = i)) as [->|Hc].
    + rewrite count_occ_cons_eq, count_occ_nil. lia.
    + rewrite (count_occ_cons_ne c i), count_occ_nil by done. lia.
  - rewrite lookup_insert_ne, count_occ_cons_ne by done. done.
Qed.
Lemma build_dependents_fold tasks m id :
  NoDup (task_ids tasks) →
  let d := foldl add_dependent m tasks in
  (∀ t, t ∈ tasks → count_occ_of (task_ID t) (succs d id) =
     (count_occ_of (task_ID t) (succs m id) + count_occ_of id (task_DependsOn t))%nat) ∧
  (∀ c, c ∉ task_ids tasks → count_occ_of c (succs d id) = count_occ_of c (succs m id)).
Proof.
  revert m; induction tasks as [|t tasks IH]; intros m Hnd; simpl in *.
  { split; [|done]. by intros t ?%elem_of_nil. }
  apply NoDup_cons in Hnd as [Ht Hnd].
  destruct (IH (add_dependent m t) Hnd) as [H1 H2]. unfold add_dependent in *. split.
  - intros t' [->|Hin]%elem_of_cons.
    + rewrite H2 by done. by rewrite add_dep_fold_count, decide_True.
    + rewrite H1 by done. rewrite add_dep_fold_count, decide_False; [lia|].
      intros Heq. apply Ht. rewrite <-Heq. by apply list_elem_of_fmap_2.
  - intros c [Hne Hin]%not_elem_of_cons. rewrite H2 by done.
    rewrite add_dep_fold_count, decide_False by done. lia.
Qed.

(** ** Releasing the dependents of a finished task *)

Section release.
Definition rem (st : loop_state) (c : string) : Z := default 0 (ls_remainingDeps st !! c).

(** What [release] leaves alone. *)
Definition same_frame (st st' : loop_state) : Prop :=
  ls_results st' = ls_results st ∧ ls_running st' = ls_running st ∧
  ls_active st' = ls_active st ∧ ls_completed st' = ls_completed st ∧
  ls_failFastTriggered st' = ls_failFastTriggered st ∧ ls_status st' = ls_status st ∧
  ls_error st' = ls_error st.

Lemma release_one blocked st c :
  let st' := release blocked st c in
  same_frame st st' ∧
  (∀ c', rem st' c' = rem st c' - if decide (c' = c) then 1 else 0) ∧
  ls_ready st' = ls_ready st ++ (if rem st c =? 1 then [c] else []) ∧
  (∀ c', ls_blockedByFailure st' !! c' =
     if decide (blocked = true ∧ c' = c) then Some true else ls_blockedByFailure st !! c').
Proof.
  assert (Hb : (default 0 (ls_remainingDeps st !! c) - 1 =? 0) = (rem st c =? 1)).
  { unfold rem. destruct (Z.eqb_spec (default 0 (ls_remainingDeps st !! c)) 1);
      [apply Z.eqb_eq; lia|apply Z.eqb_neq; lia]. }
  unfold release. rewrite Hb. destruct (rem st c =? 1) eqn:E; destruct blocked; simpl;
    (split; [by repeat split|]); (split; [|split; [by rewrite ?app_nil_r|]]).
  all: intros c'; unfold rem; simpl; rewrite ?lookup_insert;
    destruct (decide (c = c')) as [->|Hne]; rewrite ?decide_True, ?decide_False by naive_solver;
    simpl; try done; try lia.
Qed.

(** The whole range over the children: every count drops by the number of
    occurrences, and exactly the children whose count reaches 0 become ready,
    once each. *)
Lemma release_all blocked cs st :
  (∀ c, Z.of_nat (count_occ_of c cs) ≤ rem st c ∨ c ∉ cs) →
  let st' := foldl (release blocked) st cs in
  same_frame st st' ∧
  (∀ c, rem st' c = rem st c - Z.of_nat (count_occ_of c cs)) ∧
  (∃ new, ls_ready st' = ls_ready st ++ new ∧ NoDup new ∧
     ∀ c, c ∈ new ↔ c ∈ cs ∧ rem st c = Z.of_nat (count_occ_of c cs)) ∧
  (∀ c, ls_blockedByFailure st' !! c =
     if decide (blocked = true ∧ c ∈ cs) then Some true else ls_blockedByFailure st !! c).
Proof.
  revert st; induction cs as [|c cs IH]; intros st Hle; simpl.
  { split; [done|]. split; [intros c; rewrite count_occ_nil; lia|]. split.
    - exists []. rewrite app_nil_r. split; [done|]. split; [constructor|].
      intros c. rewrite !elem_of_nil. naive_solver.
    - intros c. rewrite decide_False; [done|]. by intros [_ ?%elem_of_nil]. }
  destruct (release_one blocked st c) as (Hf1 & Hr1 & Hready1 & Hb1).
  set (st1 := release blocked st c) in *.
  assert (Hc : Z.of_nat (S (count_occ_of c cs)) ≤ rem st c).
  { destruct (Hle c) as [Hc|Hc]; [by rewrite count_occ_cons_eq in Hc|].
    rewrite elem_of_cons in Hc. tauto. }
  assert (Hle1 : ∀ c', Z.of_nat (count_occ_of c' cs) ≤ rem st1 c' ∨ c' ∉ cs).
  { intros c'. rewrite Hr1. destruct (decide (c' = c)) as [->|Hne]; [left; lia|].
    destruct (Hle c') as [Hc'|Hc']; [left|right].
    - rewrite count_occ_cons_ne in Hc' by done. lia.
    - rewrite elem_of_cons in Hc'. tauto. }
  destruct (IH st1 Hle1) as (Hf2 & Hr2 & (new & Hready2 & Hnd & Hnew) & Hb2).
  split; [|split; [|split]].
  - unfold same_frame in *. naive_solver congruence.
  - intros c'. rewrite Hr2, Hr1. destruct (decide (c' = c)) as [->|Hne].
    + rewrite count_occ_cons_eq. lia.
    + rewrite count_occ_cons_ne by done. lia.
  - exists ((if rem st c =? 1 then [c] else []) ++ new).
    rewrite Hready2, Hready1, app_assoc. split; [done|].
    assert (Hcnew : rem st c = 1 → c ∉ new).
    { intros H1 [Hin _]%Hnew. apply (count_occ_0 c cs); [|done]. lia. }
    split.
    + destruct (Z.eqb_spec (rem st c) 1); simpl; [|done]. constructor; auto.
    + intros c'. rewrite elem_of_app, Hnew, Hr1, elem_of_cons.
      destruct (Z.eqb_spec (rem st c) 1) as [H1|H1];
        [rewrite list_elem_of_singleton|rewrite elem_of_nil];
        (destruct (decide (c' = c)) as [->|Hne];
          [rewrite count_occ_cons_eq|rewrite count_occ_cons_ne by done]).
      * split; [|auto]. intros _. split; [by left|]. lia.
      * rewrite Z.sub_0_r. naive_solver.
      * split; [intros [[]|[? ?]]; split; [by left|lia]|].
        intros [_ Heq]. right. split; [|lia]. destruct (decide (c ∈ cs)) as [|Hn]; [done|].
        apply count_occ_0 in Hn. lia.
      * rewrite Z.sub_0_r. naive_solver.
  - intros c'. rewrite Hb2, Hb1.
    destruct (decide (blocked = true ∧ c' ∈ cs)) as [Hd|Hd];
      destruct (decide (blocked = true ∧ c' = c)) as [Hd'|Hd'];
      destruct (decide (blocked = true ∧ c' ∈ c :: cs)) as [Hd''|Hd''];
      rewrite elem_of_cons in Hd''; tauto || done.
Qed.

Lemma block_all cs st :
  let st' := foldl block st cs in
  same_frame st st' ∧ ls_remainingDeps st' = ls_remainingDeps st ∧
  ls_ready st' = ls_ready st ∧
  (∀ c, ls_blockedByFailure st' !! c =
     if decide (c ∈ cs) then Some true else ls_blockedByFailure st !! c).
Proof.
  revert st; induction cs as [|c cs IH]; intros st; simpl.
  { repeat split; try done. }
  destruct (IH (block st c)) as (Hf & Hr & Hready & Hb). split; [|split; [|split]].
  - unfold same_frame in *. naive_solver congruence.
  - by rewrite Hr.
  - by rewrite Hready.
  - intros c'. rewrite Hb. unfold block; simpl. rewrite lookup_insert.
    destruct (decide (c' ∈ cs)), (decide (c = c')), (decide (c' ∈ c :: cs)) as [Hd|Hd];
      rewrite elem_of_cons in Hd; naive_solver.
Qed.
End release.

(** ** The dependency bookkeeping *)

Definition pending (results : gmap string TaskResult) (deps : list string) : nat :=
  length (filter (λ d, results !! d = None) deps).

Lemma pending_insert results id res deps :
  results !! id = None →
  pending results deps = (pending (<[id := res]> results) deps + count_occ_of id deps)%nat.
Proof.
  intros Hid. unfold pending. induction deps as [|d deps IH]; [done|].
  destruct (decide (id = d)) as [->|Hne].
  - rewrite count_occ_cons_eq, filter_cons_True by done.
    rewrite filter_cons_False by (rewrite lookup_insert_eq; done). simpl. lia.
  - rewrite count_occ_cons_ne by done. destruct (decide (results !! d = None)) as [Hd|Hd].
    + rewrite !filter_cons_True by (rewrite ?lookup_insert_ne by done; done). simpl. lia.
    + rewrite !filter_cons_False by (rewrite ?lookup_insert_ne by done; done). done.
Qed.
Lemma pending_empty deps : pending ∅ deps = length deps.
Proof.
  unfold pending. by rewrite list_filter_all.
Qed.
Lemma pending_0 results deps :
  (pending results deps = 0%nat) ↔ ∀ d, d ∈ deps → is_Some (results !! d).
Proof.
  unfold pending. induction deps as [|d deps IH].
  { split; [|done]. by intros _ d ?%elem_of_nil. }
  setoid_rewrite elem_of_cons. destruct (results !! d) as [r|] eqn:E.
  - rewrite filter_cons_False by (rewrite E; done). rewrite IH. naive_solver.
  - rewrite filter_cons_True by done. split; [done|]. intros H.
    destruct (H d) as [? ?]; [by left|]. congruence.
Qed.

Section core.
Context (tasks : list TaskNode) (kids : string → list string).
Hypothesis Hnd : NoDup (task_ids tasks).
Hypothesis kids_count : ∀ t id, t ∈ tasks →
  count_occ_of (task_ID t) (kids id) = count_occ_of id (task_DependsOn t).
Hypothesis kids_task : ∀ c id, c ∈ kids id → ∃ t, t ∈ tasks ∧ task_ID t = c.

(** [results]: finished tasks, [remaining]: the counters, [started]: ready or
    in flight. *)
Record core (results : gmap string TaskResult) (remaining : string → Z)
    (started : list string) : Prop := {
  core_remaining t : t ∈ tasks →
    remaining (task_ID t) = Z.of_nat (pending results (task_DependsOn t));
  core_nodup : NoDup started;
  core_fresh id : id ∈ started → results !! id = None;
  core_known id : id ∈ started ∨ is_Some (results !! id) → id ∈ task_ids tasks;
  core_released t : t ∈ tasks →
    (pending results (task_DependsOn t) = 0%nat) ↔
    (task_ID t ∈ started ∨ is_Some (results !! task_ID t));
}.

Lemma core_perm results remaining started started' :
  started ≡ₚ started' → core results remaining started → core results remaining started'.
Proof.
  intros Hp [H1 H2 H3 H4 H5]. split; [done|by rewrite <-Hp|..]; intros x;
    rewrite <-Hp; auto.
Qed.

(** The counter of a child covers its occurrences. *)
Lemma core_kids_le results remaining started id :
  core results remaining started → results !! id = None →
  ∀ c, Z.of_nat (count_occ_of c (kids id)) ≤ remaining c ∨ c ∉ kids id.
Proof using kids_count kids_task.
  intros Hc Hid c. destruct (decide (c ∈ kids id)) as [Hin|]; [left|by right].
  destruct (kids_task _ _ Hin) as (t & Ht & <-).
  rewrite (core_remaining _ _ _ Hc), kids_count by done.
  rewrite (pending_insert results id TaskResult_zero) by done. lia.
Qed.

(** Finishing a started task and releasing its children. *)
Lemma core_finish results remaining started id res remaining' new :
  core results remaining (id :: started) →
  (∀ c, remaining' c = remaining c - Z.of_nat (count_occ_of c (kids id))) →
  NoDup new →
  (∀ c, c ∈ new ↔ c ∈ kids id ∧ remaining c = Z.of_nat (count_occ_of c (kids id))) →
  core (<[id := res]> results) remaining' (started ++ new).
Proof using Hnd kids_count kids_task.
  intros [H1 H2 H3 H4 H5] Hrem Hndn Hnew.
  assert (Hid : results !! id = None) by (apply H3; set_solver).
  apply NoDup_cons in H2 as [Hids Hnds].
  assert (Hpend : ∀ t, t ∈ tasks → pending results (task_DependsOn t) =
    (pending (<[id := res]> results) (task_DependsOn t) +
     count_occ_of (task_ID t) (kids id))%nat).
  { intros t Ht. rewrite kids_count by done. by apply pending_insert. }
  assert (Hfresh : ∀ c, c ∈ new → (c ∉ id :: started) ∧ results !! c = None).
  { intros c [Hk _]%Hnew. destruct (kids_task _ _ Hk) as (t & Ht & <-).
    assert (¬ (task_ID t ∈ id :: started ∨ is_Some (results !! task_ID t))) as Hn.
    { rewrite <-H5, Hpend by done. intros H0.
      apply (count_occ_0 (task_ID t) (kids id)); [lia|done]. }
    split; [tauto|]. apply eq_None_not_Some. tauto. }
  assert (Hnewt : ∀ t, t ∈ tasks → task_ID t ∈ new ↔
    (task_ID t ∈ kids id ∧ pending (<[id := res]> results) (task_DependsOn t) = 0%nat)).
  { intros t Ht. rewrite Hnew, H1, Hpend by done. split; intros [? ?]; (split; [done|lia]). }
  split.
  - intros t Ht. rewrite Hrem, H1, Hpend by done. lia.
  - apply NoDup_app. split_and!; [done| |done]. intros c Hc Hcn.
    apply Hfresh in Hcn as [Hcn _]. set_solver.
  - intros c [Hc|Hc]%elem_of_app; rewrite lookup_insert_ne.
    + apply H3; set_solver.
    + intros ->. done.
    + by apply Hfresh.
    + intros ->. apply Hfresh in Hc as [Hc _]. set_solver.
  - intros c [[Hc|Hc]%elem_of_app|Hc].
    + apply H4. left. set_solver.
    + apply Hnew in Hc as [Hk _]. destruct (kids_task _ _ Hk) as (t & Ht & <-).
      by apply list_elem_of_fmap_2.
    + destruct (decide (c = id)) as [->|Hne]; [apply H4; left; set_solver|].
      rewrite lookup_insert_ne in Hc by done. by apply H4; right.
  - intros t Ht. rewrite elem_of_app, Hnewt by done.
    specialize (Hpend t Ht). specialize (H5 t Ht).
    destruct (decide (task_ID t = id)) as [Heq|Hne].
    { rewrite Heq, lookup_insert_eq. split; [intros _; right; by eexists|]. intros _.
      assert (pending results (task_DependsOn t) = 0%nat); [|lia]. apply H5. left.
      rewrite Heq. set_solver. }
    rewrite lookup_insert_ne by done. rewrite elem_of_cons in H5. split.
    + intros H0. destruct (decide (task_ID t ∈ kids id)) as [|Hk]; [by auto|].
      apply count_occ_0 in Hk.
      assert (pending results (task_DependsOn t) = 0%nat) by lia. tauto.
    + intros [[?|[_ ?]]|?]; [|done|].
      * assert (pending results (task_DependsOn t) = 0%nat) by tauto. lia.
      * assert (pending results (task_DependsOn t) = 0%nat) by tauto. lia.
Qed.

(** While tasks are missing, some task is started. *)
Lemma core_progress results remaining started :
  acyclic tasks → Forall (λ t, Forall (.∈ task_ids tasks) (task_DependsOn t)) tasks →
  core results remaining started →
  (∃ t, t ∈ tasks ∧ results !! task_ID t = None) → started ≠ [].
Proof using Type.
  clear Hnd kids_count kids_task.
  intros Hacyc Hdeps Hc (t0 & Ht0 & Hr0).
  set (missing := filter (λ id, results !! id = None) (task_ids tasks)).
  assert (Hdec : RelDecision (λ u v, Exists (λ t, task_ID t = v ∧ u ∈ task_DependsOn t) tasks)).
  { intros u v. apply _. }
  destruct (acyclic_minimal
    (λ u v, Exists (λ t, task_ID t = v ∧ u ∈ task_DependsOn t) tasks) missing)
    as (v & Hv & Hmin).
  { intros n Hn. apply (Hacyc n). revert Hn. apply tc_mono. intros u w Hu.
    by apply Exists_exists in Hu. }
  { intros Hm. assert (Hin : task_ID t0 ∈ missing); [|rewrite Hm in Hin; by apply elem_of_nil in Hin].
    apply list_elem_of_filter. split; [done|by apply list_elem_of_fmap_2]. }
  apply list_elem_of_filter in Hv as [Hv (t & -> & Ht)%list_elem_of_fmap].
  assert (Hp : pending results (task_DependsOn t) = 0%nat).
  { apply pending_0. intros d Hd. destruct (results !! d) eqn:E; [by eexists|].
    exfalso. apply (Hmin d).
    - apply list_elem_of_filter. split; [done|]. rewrite Forall_forall in Hdeps.
      specialize (Hdeps t Ht). rewrite Forall_forall in Hdeps. by apply Hdeps.
    - apply Exists_exists. by exists t. }
  apply (core_released _ _ _ Hc t Ht) in Hp as [Hin|[? ?]]; [|congruence].
  intros ->. by apply elem_of_nil in Hin.
Qed.
End core.

(** ** The invariant *)

Section invariant.
Context `{!Quote}.
Context (workflow : Workflow) (registry : Registry).
Context (clk : clock) (ords : nat → iter_order) (tfuel : nat).
Abbreviation tasks := (wf_Tasks workflow).
Abbreviation task_of := (task_of workflow).
Abbreviation children := (children workflow).
Abbreviation results_map := (gmap string TaskResult).

(** A result that says the task never ran because of an upstream failure. *)
Definition contained (res : TaskResult) : Prop :=
  res_Status res = TaskStatusSkipped ∧ res_Error res = upstream_failure.

(** The failures that the program must contain ... *)
Definition hard_block (snap : results_map) (id : string) : Prop :=
  ∃ res, snap !! id = Some res ∧
    ((res_Status res = TaskStatusFailed ∧ task_AllowFailure (task_of id) = false) ∨
     contained res).
(** ... and those it does contain: an input that does not resolve blocks the
    dependents whatever [AllowFailure] says. *)
Definition template_failed (snap : results_map) (id : string) (res : TaskResult) : Prop :=
  ∃ snap' ord, snap' ⊆ snap ∧
    resolveInputTemplates tfuel ord (task_Input (task_of id)) snap' =
      Some (Err (res_Error res)).
Definition may_block (snap : results_map) (id : string) : Prop :=
  ∃ res, snap !! id = Some res ∧
    ((res_Status res = TaskStatusFailed ∧
      (task_AllowFailure (task_of id) = false ∨ template_failed snap id res)) ∨
     contained res).

Definition deps_done (snap : results_map) (id : string) : Prop :=
  ∀ d, d ∈ task_DependsOn (task_of id) → is_Some (snap !! d).
(** Task [id] may start on the results [snap] with the given input. *)
Record admitted (snap : results_map) (id : string) : Prop := {
  adm_deps : deps_done snap id;
  adm_unblocked d : d ∈ task_DependsOn (task_of id) → ¬ hard_block snap d;
  adm_condition : (evaluateCondition (task_of id) snap).1 = true;
}.

(** Why task [id] has the result [res], told by the results [snap] that were
    there when it left the ready list. *)
Inductive explains (snap : results_map) (id : string) (res : TaskResult) : Prop :=
| explains_blocked d :
    deps_done snap id → d ∈ task_DependsOn (task_of id) → may_block snap d →
    contained res → res_Attempts res = 0 → explains snap id res
| explains_condition :
    deps_done snap id →
    (∀ d, d ∈ task_DependsOn (task_of id) → ¬ hard_block snap d) →
    (evaluateCondition (task_of id) snap).1 = false →
    res_Status res = TaskStatusSkipped →
    res_Error res = (evaluateCondition (task_of id) snap).2 →
    res_Attempts res = 0 → explains snap id res
| explains_template ord :
    admitted snap id →
    resolveInputTemplates tfuel ord (task_Input (task_of id)) snap =
      Some (Err (res_Error res)) →
    res_Status res = TaskStatusFailed → res_Attempts res = 1 → explains snap id res
| explains_run ord input tr (waits : list duration) :
    admitted snap id →
    resolveInputTemplates tfuel ord (task_Input (task_of id)) snap = Some (Ok input) →
    runTask registry tr ((task_of id) <| task_Input := input |>) = Some (res, waits) →
    explains snap id res.

(** The goroutine of [id] was started with [task]. *)
Definition launched (snap : results_map) (id : string) (task : TaskNode) : Prop :=
  ∃ ord input, admitted snap id ∧
    resolveInputTemplates tfuel ord (task_Input (task_of id)) snap = Some (Ok input) ∧
    task = (task_of id) <| task_Input := input |>.

Record inv (st : loop_state) : Prop := {
  inv_core : core tasks (ls_results st) (rem st) (ls_ready st ++ (ls_running st).*1);
  inv_completed : ls_completed st = Z.of_nat (size (ls_results st));
  inv_active : ls_active st = zlen (ls_running st);
  inv_bound : ls_active st ≤ maxConcurrency workflow;
  inv_status : ls_status st = RunStatusRunning ∧ ls_error st = "";
  inv_blocked c d : d ∈ task_DependsOn (task_of c) → hard_block (ls_results st) d →
    ls_blockedByFailure st !! c = Some true;
  inv_blocked_why c : ls_blockedByFailure st !! c = Some true →
    ∃ d, d ∈ task_DependsOn (task_of c) ∧ may_block (ls_results st) d;
  inv_running id task : (id, task) ∈ ls_running st →
    ∃ snap, snap ⊆ ls_results st ∧ launched snap id task;
  inv_results id res : ls_results st !! id = Some res →
    res_TaskID res = id ∧ ∃ snap, snap ⊆ ls_results st ∧ explains snap id res;
}.

(** *** Monotonicity *)

Lemma snap_eq (snap snap' : results_map) id :
  snap ⊆ snap' → is_Some (snap !! id) → snap' !! id = snap !! id.
Proof. intros Hsub [r Hr]. rewrite Hr. by eapply lookup_weaken. Qed.
Lemma hard_block_snap snap snap' id :
  snap ⊆ snap' → is_Some (snap !! id) → hard_block snap' id ↔ hard_block snap id.
Proof. intros Hsub Hid. unfold hard_block. by rewrite (snap_eq snap snap'). Qed.
Lemma may_block_mono snap snap' id : snap ⊆ snap' → may_block snap id → may_block snap' id.
Proof.
  intros Hsub (res & Hr & Hcase). exists res. split; [by eapply lookup_weaken|].
  destruct Hcase as [[? [?|(s & ord & ? & ?)]]|?]; [by auto| |by auto].
  left. split; [done|]. right. exists s, ord. split; [by etrans|done].
Qed.
Lemma hard_may_block snap id : hard_block snap id → may_block snap id.
Proof. intros (res & ? & [[]|]); exists res; auto. Qed.

(** *** The tasks of a validated workflow *)

Hypothesis Hwf : well_formed tasks.

Lemma task_of_in t : t ∈ tasks → task_of (task_ID t) = t.
Proof using Hwf.
  intros Ht. unfold Executor.task_of, tasksByID.
  rewrite (index_tasks_in id tasks t) by (done || apply Hwf). done.
Qed.
Lemma task_of_unknown id : id ∉ task_ids tasks → task_of id = TaskNode_zero.
Proof using Hwf.
  intros Ht. unfold Executor.task_of, tasksByID.
  by rewrite index_tasks_notin by (done || apply Hwf).
Qed.
Lemma children_count t id : t ∈ tasks →
  count_occ_of (task_ID t) (children id) = count_occ_of id (task_DependsOn t).
Proof using Hwf.
  intros Ht. unfold Executor.children, dependents, build_dependents.
  destruct (build_dependents_fold tasks ∅ id (wellf_nodup _ Hwf)) as [H1 _].
  specialize (H1 t Ht). unfold succs in H1 at 1. rewrite H1. unfold succs.
  by rewrite lookup_empty.
Qed.
Lemma children_task c id : c ∈ children id → ∃ t, t ∈ tasks ∧ task_ID t = c.
Proof using Hwf.
  intros Hc. destruct (decide (c ∈ task_ids tasks)) as [Hin|Hni].
  { apply list_elem_of_fmap in Hin as (t & -> & ?). by exists t. }
  exfalso. apply (count_occ_0 c (children id)); [|done].
  unfold Executor.children, dependents, build_dependents.
  destruct (build_dependents_fold tasks ∅ id (wellf_nodup _ Hwf)) as [_ H2].
  specialize (H2 c Hni). unfold succs in H2 at 1. rewrite H2. unfold succs.
  by rewrite lookup_empty.
Qed.
Lemma elem_of_children c id : c ∈ children id ↔ id ∈ task_DependsOn (task_of c).
Proof using Hwf.
  split.
  - intros Hc. destruct (children_task _ _ Hc) as (t & Ht & <-). rewrite task_of_in by done.
    destruct (decide (id ∈ task_DependsOn t)) as [|Hn]; [done|].
    apply count_occ_0 in Hn. rewrite <-children_count in Hn by done.
    by apply count_occ_0 in Hn.
  - intros Hin. destruct (decide (c ∈ task_ids tasks)) as [Hc|Hc].
    + apply list_elem_of_fmap in Hc as (t & -> & Ht). rewrite task_of_in in Hin by done.
      destruct (decide (task_ID t ∈ children id)) as [|Hn]; [done|].
      apply count_occ_0 in Hn. rewrite children_count in Hn by done.
      by apply count_occ_0 in Hn.
    + rewrite task_of_unknown in Hin by done. by apply elem_of_nil in Hin.
Qed.

(** *** Preservation *)

(** The state [st1] in which task [id] got its result, before its children are
    released. *)
Record finished (st : loop_state) (id : string) (res : TaskResult) (st1 : loop_state) :
    Prop := {
  fin_perm : id :: ls_ready st1 ++ (ls_running st1).*1 ≡ₚ
               ls_ready st ++ (ls_running st).*1;
  fin_running : ls_running st1 ⊆ ls_running st;
  fin_results : ls_results st1 = <[id := res]> (ls_results st);
  fin_remaining : ls_remainingDeps st1 = ls_remainingDeps st;
  fin_active : ls_active st1 = zlen (ls_running st1);
  fin_bound : ls_active st1 ≤ ls_active st;
  fin_completed : ls_completed st1 = ls_completed st + 1;
  fin_status : ls_status st1 = ls_status st ∧ ls_error st1 = ls_error st;
}.

Lemma finished_fresh st id res st1 :
  inv st → finished st id res st1 → ls_results st !! id = None.
Proof.
  intros Hi Hf. apply (core_fresh _ _ _ _ (inv_core _ Hi)).
  rewrite <-(fin_perm _ _ _ _ Hf). by left.
Qed.

Lemma inv_finish st st1 id res relblock blocking :
  inv st → finished st id res st1 →
  let st' := foldl (release relblock) st1 (children id) in
  (∀ c, ls_blockedByFailure st' !! c =
     if decide (blocking = true ∧ c ∈ children id) then Some true
     else ls_blockedByFailure st !! c) →
  res_TaskID res = id → (∃ snap, snap ⊆ ls_results st ∧ explains snap id res) →
  (blocking = true → may_block (<[id := res]> (ls_results st)) id) →
  (hard_block (<[id := res]> (ls_results st)) id → blocking = true) →
  inv st'.
Proof using Hwf.
  intros Hi Hf st' Hblk HID (snap0 & Hsnap & Hex) Hmay Hhard.
  pose proof (finished_fresh _ _ _ _ Hi Hf) as Hid.
  destruct Hi as [Hcore Hcompl Hact Hbnd Hstat Hb Hbw Hrun Hres].
  destruct Hf as [Hperm Hrsub Hresults Hrem0 Hact1 Hbnd1 Hcompl1 Hstat1].
  assert (Hcore' : core tasks (ls_results st) (rem st)
    (id :: ls_ready st1 ++ (ls_running st1).*1)) by (by eapply core_perm).
  assert (Hrem1 : rem st1 = rem st) by (unfold rem; by rewrite Hrem0).
  destruct (release_all relblock (children id) st1)
    as (Hframe & Hrem & (new & Hready & Hnd & Hnew) & _).
  { rewrite Hrem1. eapply (core_kids_le tasks children); eauto using children_count, children_task. }
  fold st' in Hframe, Hrem, Hready.
  destruct Hframe as (Fres & Frun & Fact & Fcompl & _ & Fstat & Ferr).
  assert (Hsub : ls_results st ⊆ ls_results st').
  { rewrite Fres, Hresults. by apply insert_subseteq. }
  split.
  - rewrite Fres, Hresults, Frun, Hready.
    eapply (core_perm _ _ _ ((ls_ready st1 ++ (ls_running st1).*1) ++ new)).
    { rewrite <-!app_assoc. apply Permutation_app_head, Permutation_app_comm. }
    eapply core_finish; try done; eauto using children_count, children_task.
    + apply Hwf.
    + by rewrite <-Hrem1.
    + by rewrite <-Hrem1.
  - rewrite Fcompl, Hcompl1, Hcompl, Fres, Hresults, map_size_insert_None by done. lia.
  - congruence.
  - lia.
  - destruct Hstat, Hstat1. split; congruence.
  - intros c d Hd Hblock. rewrite Hblk. rewrite Fres, Hresults in Hblock.
    destruct (decide (blocking = true ∧ c ∈ children id)) as [|Hn]; [done|].
    assert (d ≠ id).
    { intros ->. apply Hn. split; [by apply Hhard|]. by apply elem_of_children. }
    apply (Hb c d Hd). destruct Hblock as (r & Hr & ?). exists r. split; [|done].
    by rewrite lookup_insert_ne in Hr.
  - intros c. rewrite Hblk.
    destruct (decide (blocking = true ∧ c ∈ children id)) as [[Hbl Hc]|_].
    + intros _. exists id. split; [by apply elem_of_children|].
      rewrite Fres, Hresults. by apply Hmay.
    + intros (d & Hd & Hm)%Hbw. exists d. split; [done|]. by eapply may_block_mono.
  - intros i task Hin. rewrite Frun in Hin. apply Hrsub, Hrun in Hin as (snap & ? & ?).
    exists snap. split; [by etrans|done].
  - intros i r. rewrite Fres, Hresults. intros Hr.
    destruct (decide (i = id)) as [->|Hne].
    + rewrite lookup_insert_eq in Hr. injection Hr as <-. split; [done|].
      exists snap0. split; [|done]. etrans; [done|]. by apply insert_subseteq.
    + rewrite lookup_insert_ne in Hr by done. apply Hres in Hr as (? & snap & ? & ?).
      split; [done|]. exists snap. split; [|done]. etrans; [done|]. by apply insert_subseteq.
Qed.

Lemma remaining_in t : t ∈ tasks →
  index_tasks (λ t, zlen (task_DependsOn t)) tasks !! task_ID t =
    Some (zlen (task_DependsOn t)).
Proof using Hwf.
  intros Ht. apply (index_tasks_in (λ t, zlen (task_DependsOn t))); [apply Hwf|done].
Qed.
Lemma remaining_known id x :
  index_tasks (λ t, zlen (task_DependsOn t)) tasks !! id = Some x → id ∈ task_ids tasks.
Proof using Hwf.
  intros Hx. destruct (decide (id ∈ task_ids tasks)) as [|Hn]; [done|].
  by rewrite index_tasks_notin in Hx by (done || apply Hwf).
Qed.

Lemma inv_init : inv (init workflow ords).
Proof using Hwf.
  set (rd := index_tasks (λ t, zlen (task_DependsOn t)) tasks).
  assert (Hin : ∀ c, c ∈ (filter (λ kv, kv.2 = 0) (iter (ords 0%nat) rd)).*1 ↔ rd !! c = Some 0).
  { intros c. rewrite list_elem_of_fmap. split.
    - intros ([k v] & -> & [Hv Hk]%list_elem_of_filter). simpl in *. subst v.
      by apply elem_of_iter in Hk.
    - intros Hc. exists (c, 0). split; [done|]. apply list_elem_of_filter.
      split; [done|]. by apply elem_of_iter. }
  split; simpl.
  - fold rd. rewrite app_nil_r. split.
    + intros t Ht. unfold rem; simpl. rewrite remaining_in by done.
      by rewrite pending_empty.
    + eapply sublist_NoDup; [apply (NoDup_iter_keys (ords 0%nat) rd)|].
      apply fmap_sublist, sublist_filter.
    + intros id _. apply lookup_empty.
    + intros id [Hid|[r Hr]]; [|by rewrite lookup_empty in Hr].
      apply Hin in Hid. by eapply remaining_known.
    + intros t Ht. rewrite Hin, remaining_in, lookup_empty, pending_empty by done. split.
      * intros H0. left. f_equal. unfold zlen. lia.
      * intros [[= H0]|[r Hr]]; [unfold zlen in H0; lia|done].
  - by rewrite map_size_empty.
  - done.
  - unfold maxConcurrency. destruct (Z.leb_spec (wf_MaxConcurrency workflow) 0); lia.
  - done.
  - intros c d _ (r & Hr & _). by rewrite lookup_empty in Hr.
  - intros c Hc. by rewrite lookup_empty in Hc.
  - intros id task Hin'. by apply elem_of_nil in Hin'.
  - intros id r Hr. by rewrite lookup_empty in Hr.
Qed.

Lemma inv_failFast st b : inv st → inv (st <| ls_failFastTriggered := b |>).
Proof. by intros []. Qed.

(** What the head of the ready list knows about its dependencies. *)
Lemma ready_deps_done st id ready :
  inv st → ls_ready st = id :: ready → deps_done (ls_results st) id.
Proof using Hwf.
  intros Hi Hr d Hd. pose proof (inv_core _ Hi) as Hc. rewrite Hr in Hc.
  assert (Hk : id ∈ task_ids tasks).
  { eapply core_known; [done|]. left. by left. }
  apply list_elem_of_fmap in Hk as (t & -> & Ht). rewrite task_of_in in Hd by done.
  revert d Hd. apply pending_0. eapply core_released; [done..|]. left. by left.
Qed.
Lemma ready_unblocked st id :
  inv st → default false (ls_blockedByFailure st !! id) = false →
  ∀ d, d ∈ task_DependsOn (task_of id) → ¬ hard_block (ls_results st) d.
Proof.
  intros Hi Hb d Hd Hh. by rewrite (inv_blocked _ Hi id d Hd Hh) in Hb.
Qed.

(** Taking the head of the ready list and giving it a result at once. *)
Lemma finished_record st id ready res :
  inv st → ls_ready st = id :: ready →
  finished st id res (record id res (st <| ls_ready := ready |>)).
Proof.
  intros Hi Hr. split; simpl; try done.
  - by rewrite Hr.
  - apply Hi.
Qed.
(** ... the frame of the release loop that follows. *)
Lemma release_blocked relblock st1 id st :
  ls_blockedByFailure st1 = ls_blockedByFailure st →
  (∀ c, Z.of_nat (count_occ_of c (children id)) ≤ rem st1 c ∨ c ∉ children id) →
  ∀ c, ls_blockedByFailure (foldl (release relblock) st1 (children id)) !! c =
     if decide (relblock = true ∧ c ∈ children id) then Some true
     else ls_blockedByFailure st !! c.
Proof.
  intros Hb Hle c. destruct (release_all relblock (children id) st1 Hle) as (_ & _ & _ & Hbl).
  by rewrite Hbl, Hb.
Qed.
Lemma finished_le st id res st1 :
  inv st → finished st id res st1 →
  ∀ c, Z.of_nat (count_occ_of c (children id)) ≤ rem st1 c ∨ c ∉ children id.
Proof using Hwf.
  intros Hi Hf. unfold rem. rewrite (fin_remaining _ _ _ _ Hf). fold (rem st).
  eapply (core_kids_le tasks children); eauto using children_count, children_task, finished_fresh.
  eapply core_perm; [symmetry; apply (fin_perm _ _ _ _ Hf)|apply Hi].
Qed.
Lemma inv_record st id ready res relblock :
  inv st → ls_ready st = id :: ready →
  res_TaskID res = id → explains (ls_results st) id res →
  (relblock = true → may_block (<[id := res]> (ls_results st)) id) →
  (hard_block (<[id := res]> (ls_results st)) id → relblock = true) →
  inv (foldl (release relblock) (record id res (st <| ls_ready := ready |>)) (children id)).
Proof using Hwf.
  intros Hi Hr HID Hex Hmay Hhard.
  pose proof (finished_record st id ready res Hi Hr) as Hf.
  eapply inv_finish; eauto. apply release_blocked; [done|]. by eapply finished_le.
Qed.

Lemma immediate_hard st st' id status attempts error deps :
  hard_block (<[id := immediate clk id status attempts error deps st]> (ls_results st')) id →
  (status = TaskStatusFailed ∧ task_AllowFailure (task_of id) = false) ∨
  (status = TaskStatusSkipped ∧ error = upstream_failure).
Proof. intros (res & Hr & Hcase). rewrite lookup_insert_eq in Hr. by injection Hr as <-. Qed.

(** A skip for the condition never reads like one for an upstream failure. *)
Lemma condition_reason id snap :
  id ∈ task_ids tasks → (evaluateCondition (task_of id) snap).1 = false →
  (evaluateCondition (task_of id) snap).2 ≠ upstream_failure.
Proof using Hwf.
  intros (t & -> & Ht)%list_elem_of_fmap Hc. rewrite task_of_in in * by done.
  pose proof (wellf_conditions _ Hwf) as Hcond. rewrite Forall_forall in Hcond.
  rewrite (evaluateCondition_reason t snap _ (Hcond t Ht) Hc). discriminate.
Qed.

Lemma ready_known st id ready :
  inv st → ls_ready st = id :: ready → id ∈ task_ids tasks.
Proof.
  intros Hi Hr. eapply core_known; [apply (inv_core _ Hi)|]. rewrite Hr. left. by left.
Qed.

Lemma inv_fill_step st st' :
  inv st → can_fill workflow st = true →
  fill_step workflow clk ords tfuel st = Some st' → inv st'.
Proof using Hwf.
  intros Hi Hcan. unfold fill_step.
  destruct (ls_ready st) as [|id ready] eqn:Hr; [by intros [= <-]|].
  pose proof (ready_deps_done _ _ _ Hi Hr) as Hdeps.
  pose proof (ready_known _ _ _ Hi Hr) as Hk. simpl.
  destruct (default false (ls_blockedByFailure st !! id)) eqn:Hb.
  { intros [= <-]. destruct (ls_blockedByFailure st !! id) as [b|] eqn:Hb'; simpl in Hb; [|done].
    subst b. destruct (inv_blocked_why _ Hi id Hb') as (d & Hd & Hm).
    apply inv_record; try done.
    - by eapply explains_blocked.
    - intros _. eexists. split; [apply lookup_insert_eq|]. by right. }
  pose proof (ready_unblocked _ _ Hi Hb) as Hunb.
  destruct (evaluateCondition (task_of id) (ls_results st)) as [shouldRun reason] eqn:Hev.
  destruct shouldRun; simpl; cycle 1.
  { intros [= <-]. apply inv_record; try done.
    - by apply explains_condition; rewrite ?Hev.
    - intros [[? _]|[_ Hrs]]%immediate_hard; [done_status|].
      exfalso. apply (condition_reason id (ls_results st)); rewrite ?Hev; done. }
  assert (Hadm : admitted (ls_results st) id) by (split; rewrite ?Hev; done).
  destruct (resolveInputTemplates tfuel _ _ (ls_results st)) as [[input|err]|] eqn:Hres;
    [| |done].
  { intros [= <-]. destruct Hi as [H1 H2 H3 H4 H5 H6 H7 H8 H9]. split; simpl; try done.
    - eapply core_perm; [|exact H1]. rewrite Hr, fmap_app. simpl.
      rewrite (app_assoc ready). by rewrite <-Permutation_cons_append.
    - rewrite H3. unfold zlen. rewrite length_app. simpl. lia.
    - unfold can_fill in Hcan. apply andb_true_iff in Hcan as [Hlt _].
      apply Z.ltb_lt in Hlt. lia.
    - intros i t [Hin|Hin]%elem_of_app; [by apply H8|].
      apply list_elem_of_singleton in Hin as [= -> ->]. exists (ls_results st).
      split; [done|]. by do 2 eexists. }
  intros [= <-]. destruct (_ && _); [apply (inv_failFast _ true)|]; apply inv_record; try done.
  all: try by eapply explains_template.
  all: intros _; eexists; (split; [apply lookup_insert_eq|]); left; (split; [done|]); right;
    exists (ls_results st); eexists; (split; [|done]); apply insert_subseteq;
    by eapply (finished_fresh st id TaskResult_zero), finished_record.
Qed.

Lemma take_running_spec id l task l' :
  take_running id l = Some (task, l') → (id, task) ∈ l ∧ l ≡ₚ (id, task) :: l'.
Proof.
  revert task l'; induction l as [|[i t] l IH]; intros task l'; simpl; [done|].
  case_bool_decide as Hi; [intros [= -> ->]; subst; split; [by left|done]|].
  destruct (take_running id l) as [[t' l'']|]; [|done]. simpl. intros [= -> <-].
  destruct (IH task l'' eq_refl) as [Hin Hp]. split; [by right|].
  rewrite Hp. apply Permutation_swap.
Qed.
Lemma take_running_total id l : id ∈ l.*1 → is_Some (take_running id l).
Proof.
  induction l as [|[i t] l IH]; simpl; [by intros ?%elem_of_nil|].
  intros [<-|Hin]%elem_of_cons; [rewrite bool_decide_true by done; by eexists|].
  case_bool_decide; [by eexists|]. destruct (IH Hin) as [[? ?] ->]. by eexists.
Qed.

Lemma inv_on_result st id tr task running res waits :
  inv st → take_running id (ls_running st) = Some (task, running) →
  runTask registry tr task = Some (res, waits) →
  inv (on_result workflow id res running st).
Proof using Hwf.
  clear ords. intros Hi Htake Hrun. destruct (take_running_spec _ _ _ _ Htake) as [Hin Hp].
  destruct (inv_running _ Hi _ _ Hin) as (snap & Hsnap & ord & input & Hadm & Hin' & ->).
  destruct (runTask_result _ _ _ _ _ Hrun) as [HID Hstatus]. simpl in HID.
  assert (Hk : id ∈ task_ids tasks).
  { eapply core_known; [apply (inv_core _ Hi)|]. left. apply elem_of_app. right.
    by apply (list_elem_of_fmap_2 fst) in Hin. }
  assert (HID' : task_ID (task_of id) = id).
  { apply list_elem_of_fmap in Hk as (t & -> & Ht). by rewrite task_of_in. }
  set (st0 := st <| ls_active := ls_active st - 1 |> <| ls_completed := ls_completed st + 1 |>
               <| ls_running := running |> <| ls_results := <[id := res]> (ls_results st) |>).
  set (hard := bool_decide (res_Status res = TaskStatusFailed) &&
               negb (task_AllowFailure (task_of id))).
  assert (Hhard : hard = true ↔
    (res_Status res = TaskStatusFailed ∧ task_AllowFailure (task_of id) = false)).
  { unfold hard. by rewrite andb_true_iff, bool_decide_eq_true, negb_true_iff. }
  set (st1 := if hard then
    let st := foldl block st0 (children id) in
    if wf_FailFast workflow then st <| ls_failFastTriggered := true |> else st else st0).
  assert (Hst1 : finished st id res st1 ∧ ls_blockedByFailure st1 =
    if hard then ls_blockedByFailure (foldl block st0 (children id))
    else ls_blockedByFailure st).
  { assert (Hf : finished st id res st0).
    { split; simpl; try done.
      - rewrite Hp. simpl. by rewrite Permutation_middle.
      - rewrite Hp. by right.
      - rewrite (inv_active _ Hi). unfold zlen. rewrite Hp. simpl. lia.
      - lia. }
    unfold st1. destruct hard; [|done].
    destruct (block_all (children id) st0) as ((F1 & F2 & F3 & F4 & F5 & F6 & F7) & Hr & Hrd & _).
    split; [|by destruct (wf_FailFast workflow)].
    destruct Hf as [G1 G2 G3 G4 G5 G6 G7 G8].
    destruct (wf_FailFast workflow); split; simpl;
      rewrite ?Hrd, ?F1, ?F2, ?F3, ?F4, ?F6, ?F7, ?Hr; done. }
  destruct Hst1 as [Hf Hblk].
  eapply (inv_finish st st1 id res false hard); try done.
  - pose proof (finished_le _ _ _ _ Hi Hf) as Hle. intros c.
    destruct (release_all false (children id) st1 Hle) as (_ & _ & _ & Hb).
    rewrite Hb, decide_False by naive_solver. rewrite Hblk.
    destruct (block_all (children id) st0) as (_ & _ & _ & Hb').
    destruct hard; [rewrite Hb'|]; repeat case_decide; naive_solver.
  - congruence.
  - exists snap. split; [done|]. by eapply explains_run.
  - intros [? ?]%Hhard. exists res. rewrite lookup_insert_eq. auto.
  - intros (r & Hr & Hcase). rewrite lookup_insert_eq in Hr. injection Hr as <-.
    apply Hhard. destruct Hcase as [?|[Hs _]]; [done|]. exfalso. destruct Hstatus; done_status.
Qed.

Lemma inv_step st st' : inv st → step workflow registry clk ords tfuel st st' → inv st'.
Proof using Hwf. intros Hi. destruct 1; eauto using inv_fill_step, inv_on_result. Qed.
Lemma inv_reachable st : reachable workflow registry clk ords tfuel st → inv st.
Proof using Hwf.
  intros Hr. unfold reachable in Hr. generalize inv_init. revert Hr.
  generalize (init workflow ords). induction 1; eauto using inv_step.
Qed.
End invariant.
