(* ===== verification/ExecutorLoop.v ===== *)
(** * The execution loop: what it promises

    Consequences of the invariant of [ExecutorInv] for the states the loop
    reaches, stated on the results and the goroutines in flight: concurrency
    bound, admission, containment of failures, their root causes, conditions.
    Then progress (the loop never waits for nothing), termination (at most two
    steps per task) and the agreement of [main_loop] with the step relation. *)

From S2P Require Import Prelude GoLib Domain Graph Template Actions RunTask Interfaces Executor.
From S2P Require Import ExecutorInv.
Local Open Scope Z_scope.

Section loop.
Context `{!Quote}.
Context (workflow : Workflow) (registry : Registry).
Context (clk : clock) (ords : nat → iter_order) (tfuel : nat).
Hypothesis Hwf : well_formed (wf_Tasks workflow).
Abbreviation tasks := (wf_Tasks workflow).
Abbreviation task_of := (task_of workflow).
Abbreviation results_map := (gmap string TaskResult).
Abbreviation inv := (inv workflow registry tfuel).
Abbreviation step := (step workflow registry clk ords tfuel).
Abbreviation explains := (explains workflow registry tfuel).

(** ** Snapshots *)

Lemma condition_holds_mono snap snap' c :
  snap ⊆ snap' → condition_holds snap c → condition_holds snap' c.
Proof.
  intros Hsub. destruct 1; [by apply holds_always|eapply holds_success|eapply holds_failed|
    eapply holds_output]; eauto; by eapply lookup_weaken.
Qed.
Lemma admitted_unblocked snap snap' id :
  snap ⊆ snap' → admitted workflow snap id → ∀ d, d ∈ task_DependsOn (task_of id) →
  is_Some (snap' !! d) ∧ ¬ hard_block workflow snap' d.
Proof.
  intros Hsub [Hd Hu _] d Hin. specialize (Hd d Hin). split.
  - destruct Hd as [r Hr]. exists r. by eapply lookup_weaken.
  - intros Hh. apply (Hu d Hin). by apply (hard_block_snap workflow snap snap').
Qed.
Lemma admitted_condition snap snap' id :
  snap ⊆ snap' → admitted workflow snap id →
  condition_holds snap' (TrimSpace (task_Condition (task_of id))).
Proof.
  intros Hsub [_ _ Hc]. apply (condition_holds_mono snap); [done|].
  by eapply evaluateCondition_eq.
Qed.
Lemma explains_deps snap id res :
  explains snap id res → deps_done workflow snap id.
Proof. destruct 1; try done; eapply adm_deps; eassumption. Qed.

(** A result comes from a task that was admitted, or is a skip. *)
Lemma explains_status snap id res :
  explains snap id res →
  (res_Status res = TaskStatusSkipped) ∨
  (res_Status res = TaskStatusSuccess ∨ res_Status res = TaskStatusFailed) ∧
  admitted workflow snap id.
Proof.
  destruct 1 as [d ? ? ? [? _] ?|? ? ? Hs|ord Ha ? Hs|ord input tr waits Ha ? Hr];
    [by left|by left|by auto|].
  right. split; [|done]. by eapply runTask_result.
Qed.
(** An upstream failure never lets a task do anything but be skipped. *)
Lemma explains_hard snap id res d :
  id ∈ task_ids tasks → explains snap id res →
  d ∈ task_DependsOn (task_of id) → hard_block workflow snap d → contained res.
Proof.
  intros Hid Hex Hd Hh. destruct Hex as [d' ? ? ? ? ?|? Hn|ord [_ Hn _]|ord i tr w [_ Hn _]];
    [done|exfalso; by eapply Hn..].
Qed.
Lemma explains_contained snap id res :
  id ∈ task_ids tasks → explains snap id res → contained res →
  ∃ d, d ∈ task_DependsOn (task_of id) ∧ may_block workflow tfuel snap d.
Proof using Hwf.
  intros Hid Hex [Hs He].
  destruct Hex as [d ? Hd Hm _ _|? ? Hc _ Hr _|ord _ _ Hf _|ord i tr w _ _ Hr]; [by exists d|..].
  - exfalso. rewrite He in Hr. symmetry in Hr. by apply (condition_reason workflow Hwf id snap).
  - done_status.
  - apply runTask_result in Hr as [_ [?|?]]; done_status.
Qed.
Lemma inv_known st id res :
  inv st → ls_results st !! id = Some res → id ∈ task_ids tasks.
Proof.
  intros Hi Hr. eapply core_known; [apply (inv_core _ _ _ _ Hi)|]. right. by eexists.
Qed.
Lemma inv_deps_done st id res :
  inv st → ls_results st !! id = Some res → deps_done workflow (ls_results st) id.
Proof.
  intros Hi Hr d Hd. destruct (inv_results _ _ _ _ Hi _ _ Hr) as (_ & snap & Hs & Hex).
  destruct (explains_deps _ _ _ Hex d Hd) as [r ?]. exists r. by eapply lookup_weaken.
Qed.

(** ** Containment *)

Lemma dep_edge_task u v : dep_edge tasks u v ↔ u ∈ task_DependsOn (task_of v).
Proof using Hwf.
  split.
  - intros (t & Ht & <- & Hu). by rewrite task_of_in.
  - intros Hu. destruct (decide (v ∈ task_ids tasks)) as [Hv|Hv].
    + apply list_elem_of_fmap in Hv as (t & -> & Ht). rewrite task_of_in in Hu by done.
      by exists t.
    + rewrite task_of_unknown in Hu by done. by apply elem_of_nil in Hu.
Qed.
Lemma dep_edge_Acc v : Acc (dep_edge tasks) v.
Proof using Hwf.
  apply (acyclic_Acc _ (mjoin (task_DependsOn <$> tasks))); [apply Hwf|].
  intros x y (t & Ht & _ & Hx). apply list_elem_of_join. exists (task_DependsOn t).
  split; [done|]. by apply list_elem_of_fmap_2.
Qed.

(** One failure contains everything downstream of it that got a result. *)
Lemma inv_hard_step st d v res :
  inv st → hard_block workflow (ls_results st) d → dep_edge tasks d v →
  ls_results st !! v = Some res → contained res.
Proof using Hwf.
  intros Hi Hd Hdv%dep_edge_task Hr.
  destruct (inv_results _ _ _ _ Hi _ _ Hr) as (_ & snap & Hs & Hex).
  eapply explains_hard; [by eapply inv_known|done..|].
  apply (hard_block_snap workflow snap (ls_results st)); try done.
  by apply (explains_deps _ _ _ Hex).
Qed.
Lemma inv_containment st u v res :
  inv st → hard_block workflow (ls_results st) u → tc (dep_edge tasks) u v →
  ls_results st !! v = Some res → contained res.
Proof using Hwf.
  intros Hi Hu Huv. revert res. pattern v.
  refine (tc_ind_r _ u _ _ v Huv); clear v Huv; [intros v Huv res Hr; by eapply inv_hard_step|].
  intros w v Huw Hwv IH res Hr.
  destruct (inv_deps_done _ _ _ Hi Hr w) as [rw Hw]; [by apply dep_edge_task|].
  eapply (inv_hard_step st w); try done. exists rw. auto.
Qed.
(** Whatever was skipped for an upstream failure has a failure upstream. *)
Lemma inv_root_cause st v res :
  inv st → ls_results st !! v = Some res → contained res →
  ∃ u r, tc (dep_edge tasks) u v ∧ ls_results st !! u = Some r ∧
    res_Status r = TaskStatusFailed ∧
    (task_AllowFailure (task_of u) = false ∨
     template_failed workflow tfuel (ls_results st) u r).
Proof using Hwf.
  intros Hi. revert res. induction (dep_edge_Acc v) as [v _ IH]. intros res Hr Hcont.
  destruct (inv_results _ _ _ _ Hi _ _ Hr) as (_ & snap & Hs & Hex).
  destruct (explains_contained _ _ _ (inv_known _ _ _ Hi Hr) Hex Hcont) as (d & Hd & Hm).
  apply dep_edge_task in Hd.
  destruct (may_block_mono _ _ _ _ _ Hs Hm) as (rd & Hrd & [[Hf Hwhy]|Hc]).
  - exists d, rd. split; [by apply tc_once|]. auto.
  - destruct (IH d Hd rd Hrd Hc) as (u & r & Hu & ?). exists u, r.
    split; [|done]. eapply tc_r; [exact Hu|exact Hd].
Qed.

(** ** Progress *)

Lemma inv_unfinished st :
  inv st → ls_completed st < total workflow →
  ∃ t, t ∈ tasks ∧ ls_results st !! task_ID t = None.
Proof using Hwf.
  intros Hi Hlt. destruct (decide (Exists (λ t, ls_results st !! task_ID t = None) tasks))
    as [He|Hn]; [by apply Exists_exists in He|].
  exfalso. rewrite (inv_completed _ _ _ _ Hi) in Hlt. unfold total, zlen in Hlt.
  assert (Hsub : list_to_set (task_ids tasks) ⊆ dom (ls_results st)).
  { intros id Hid. apply elem_of_list_to_set, list_elem_of_fmap in Hid as (t & -> & Ht).
    apply elem_of_dom. destruct (ls_results st !! task_ID t) eqn:E; [by eexists|].
    exfalso. apply Hn, Exists_exists. by exists t. }
  apply subseteq_size in Hsub. rewrite size_list_to_set, size_dom in Hsub by apply Hwf.
  unfold task_ids in Hsub. rewrite length_fmap in Hsub. lia.
Qed.
(** While tasks are missing, a task is ready and may start, or one runs. *)
Lemma inv_progress st :
  inv st → ls_completed st < total workflow →
  can_fill workflow st = true ∨ (0 < ls_active st ∧ ls_running st ≠ []).
Proof using Hwf.
  intros Hi Hlt.
  pose proof (core_progress _ _ _ _ (wellf_acyclic _ Hwf) (wellf_deps _ Hwf)
    (inv_core _ _ _ _ Hi) (inv_unfinished _ Hi Hlt)) as Hne.
  pose proof (inv_active _ _ _ _ Hi) as Hact.
  destruct (ls_running st) as [|x l] eqn:Hrun.
  - left. unfold can_fill. apply andb_true_iff. split.
    + apply Z.ltb_lt. rewrite Hact. unfold maxConcurrency, zlen. simpl.
      destruct (Z.leb_spec (wf_MaxConcurrency workflow) 0); lia.
    + apply negb_true_iff, bool_decide_eq_false. simpl in Hne. by rewrite app_nil_r in Hne.
  - right. split; [|done]. rewrite Hact. unfold zlen. simpl. lia.
Qed.

(** ** Termination *)

(** Finished tasks and tasks in flight: [fill_step] makes it grow. *)
Definition started (st : loop_state) : nat :=
  (size (ls_results st) + length (ls_running st))%nat.
Definition progress_measure (st : loop_state) : nat :=
  (size (ls_results st) + started st)%nat.

Lemma inv_count st :
  inv st → (size (ls_results st) + length (ls_ready st) + length (ls_running st) ≤
            length tasks)%nat.
Proof.
  intros Hi. pose proof (inv_core _ _ _ _ Hi) as Hc.
  assert (Hnd : NoDup ((map_to_list (ls_results st)).*1 ++ ls_ready st ++ (ls_running st).*1)).
  { apply NoDup_app. split_and!; [apply NoDup_fst_map_to_list| |by eapply core_nodup].
    intros id ([i r] & -> & Hr%elem_of_map_to_list)%list_elem_of_fmap Hin.
    apply (core_fresh _ _ _ _ Hc) in Hin. simpl in Hin. congruence. }
  assert (Hsub : (map_to_list (ls_results st)).*1 ++ ls_ready st ++ (ls_running st).*1 ⊆
                 task_ids tasks).
  { intros id [Hin|Hin]%elem_of_app; eapply core_known; try done; [right|by left].
    apply list_elem_of_fmap in Hin as ([i r] & -> & Hr%elem_of_map_to_list).
    by eexists. }
  apply NoDup_submseteq, submseteq_length in Hsub; [|done].
  rewrite !length_app, !length_fmap, length_map_to_list in Hsub.
  unfold task_ids in Hsub. rewrite length_fmap in Hsub. lia.
Qed.

Lemma foldl_release_frame b cs st : same_frame st (foldl (release b) st cs).
Proof.
  revert st; induction cs as [|c cs IH]; intros st; simpl; [done|].
  destruct (release_one b st c) as [H1 _]. specialize (IH (release b st c)).
  clear -H1 IH. unfold same_frame in *. naive_solver congruence.
Qed.
Lemma foldl_block_frame cs st : same_frame st (foldl block st cs).
Proof. apply block_all. Qed.

Lemma can_fill_ready st : can_fill workflow st = true → ∃ id ready, ls_ready st = id :: ready.
Proof.
  unfold can_fill. intros [_ Hn%negb_true_iff]%andb_true_iff.
  apply bool_decide_eq_false in Hn. destruct (ls_ready st); [done|eauto].
Qed.

(** A step of the inner loop starts one more task; it finishes it or not. *)
Lemma fill_step_started st st' :
  inv st → can_fill workflow st = true → fill_step workflow clk ords tfuel st = Some st' →
  started st' = S (started st) ∧ (size (ls_results st) ≤ size (ls_results st'))%nat.
Proof.
  intros Hi (id & ready & Hr)%can_fill_ready.
  assert (Hid : ls_results st !! id = None).
  { eapply core_fresh; [apply (inv_core _ _ _ _ Hi)|]. rewrite Hr. by left. }
  assert (Hrec : ∀ b res st', st' = foldl (release b)
      (record id res (st <| ls_ready := ready |>)) (Executor.children workflow id) →
    started st' = S (started st) ∧ (size (ls_results st) ≤ size (ls_results st'))%nat).
  { intros b res s ->. destruct (foldl_release_frame b (Executor.children workflow id)
      (record id res (st <| ls_ready := ready |>))) as (F1 & F2 & _).
    unfold started. rewrite F1, F2. simpl. rewrite map_size_insert_None by done. lia. }
  unfold fill_step. rewrite Hr. simpl.
  destruct (default false _); [intros [= <-]; by eapply Hrec|].
  destruct (evaluateCondition _ _) as [[] reason]; simpl;
    [|intros [= <-]; by eapply Hrec].
  destruct (resolveInputTemplates _ _ _ _) as [[input|e]|]; [| |done].
  - intros [= <-]. unfold started. simpl. rewrite length_app. simpl. lia.
  - intros [= <-]. destruct (_ && _); [|by eapply Hrec].
    exact (Hrec true _ _ eq_refl).
Qed.
Lemma on_result_started st id tr task running res waits :
  inv st → take_running id (ls_running st) = Some (task, running) →
  runTask registry tr task = Some (res, waits) →
  let st' := on_result workflow id res running st in
  started st' = started st ∧ size (ls_results st') = S (size (ls_results st)).
Proof.
  intros Hi Htake _. destruct (take_running_spec _ _ _ _ Htake) as [Hin Hp].
  assert (Hid : ls_results st !! id = None).
  { eapply core_fresh; [apply (inv_core _ _ _ _ Hi)|]. apply elem_of_app. right.
    by apply (list_elem_of_fmap_2 fst) in Hin. }
  unfold started, on_result. rewrite Hp.
  match goal with |- context [foldl (release false) ?s ?cs] =>
    destruct (foldl_release_frame false cs s) as (F1 & F2 & _); rewrite F1, F2 end.
  destruct (_ && _); [destruct (wf_FailFast workflow)|]; simpl;
    match goal with |- context [foldl block ?s ?cs] =>
      destruct (foldl_block_frame cs s) as (-> & -> & _) | _ => idtac end; simpl;
    rewrite map_size_insert_None by done; lia.
Qed.
Lemma step_measure st st' :
  inv st → step st st' → (S (progress_measure st) ≤ progress_measure st')%nat.
Proof.
  intros Hi. unfold progress_measure. destruct 1 as [st' Hlt Hc Hf|id tr task r res w Hlt Hc Ha Ht Hr].
  - apply fill_step_started in Hf; [lia|done..].
  - destruct (on_result_started _ _ _ _ _ _ _ Hi Ht Hr). lia.
Qed.
Lemma nsteps_bound n st st' :
  inv st → nsteps step n st st' → (n + progress_measure st ≤ 2 * length tasks)%nat.
Proof using Hwf.
  intros Hi Hn. assert (Hm : inv st' ∧ (n + progress_measure st ≤ progress_measure st')%nat).
  { induction Hn as [st|n st st1 st' Hs _ IH]; [by split; [|lia]|].
    destruct IH as [? IH]; [by eapply inv_step|]. split; [done|].
    pose proof (step_measure _ _ Hi Hs). lia. }
  destruct Hm as [Hi' Hm]. apply inv_count in Hi'. unfold progress_measure, started in *. lia.
Qed.

(** ** The executable loop against the step relation *)

Abbreviation reachable := (reachable workflow registry clk ords tfuel).

Lemma reachable_step st st' : reachable st → step st st' → reachable st'.
Proof. apply rtc_r. Qed.
Lemma reachable_inv st : reachable st → inv st.
Proof using Hwf. by apply inv_reachable. Qed.

Lemma can_fill_unfinished st :
  inv st → can_fill workflow st = true → ls_completed st < total workflow.
Proof.
  intros Hi (id & ready & Hr)%can_fill_ready. pose proof (inv_count _ Hi) as Hc.
  rewrite Hr in Hc. rewrite (inv_completed _ _ _ _ Hi). unfold total, zlen. simpl in Hc. lia.
Qed.
Lemma fill_sound fuel st st' :
  reachable st → fill workflow clk ords tfuel fuel st = Some st' →
  reachable st' ∧ can_fill workflow st' = false ∧
  (size (ls_results st) ≤ size (ls_results st'))%nat.
Proof using Hwf.
  revert st; induction fuel as [|fuel IH]; intros st Hst; simpl;
    destruct (can_fill workflow st) eqn:Hc; try done; try by intros [= <-].
  destruct (fill_step _ _ _ _ _) as [st1|] eqn:Hf; [|done]. simpl.
  pose proof (reachable_inv _ Hst) as Hi. intros Hrest.
  destruct (fill_step_started _ _ Hi Hc Hf) as [_ Hle].
  destruct (IH st1) as (? & ? & ?); try done; [|split_and!; [done..|lia]].
  eapply reachable_step; [done|]. apply step_fill; try done. by apply can_fill_unfinished.
Qed.

(** The expansions of the tasks that get ready return with the fuel given. *)
Definition expansions_return : Prop := ∀ st id,
  reachable st → id ∈ ls_ready st →
  is_Some (resolveInputTemplates tfuel (ords (ls_tick st)) (task_Input (task_of id))
             (ls_results st)).

Lemma fill_step_returns st :
  expansions_return → reachable st → is_Some (fill_step workflow clk ords tfuel st).
Proof.
  intros He Hst. unfold fill_step.
  destruct (ls_ready st) as [|id ready] eqn:Hr; [by eexists|]. simpl.
  destruct (default false _); [by eexists|].
  destruct (evaluateCondition _ _) as [[] ?]; simpl; [|by eexists].
  destruct (He st id Hst) as [[input|e] ->]; [rewrite Hr; by left|by eexists..].
Qed.
(** [len(workflow.Tasks)] iterations of the inner loop are enough. *)
Lemma fill_returns fuel st :
  expansions_return → reachable st → (length tasks ≤ started st + fuel)%nat →
  is_Some (fill workflow clk ords tfuel fuel st).
Proof using Hwf.
  intros He. revert st; induction fuel as [|fuel IH]; intros st Hst Hle; simpl;
    destruct (can_fill workflow st) eqn:Hc; try by eexists.
  - exfalso. apply reachable_inv in Hst. pose proof (inv_count _ Hst) as Hcount.
    apply can_fill_ready in Hc as (id & ready & Hr). rewrite Hr in Hcount.
    unfold started in Hle. simpl in Hcount. lia.
  - destruct (fill_step_returns st He Hst) as [st1 Hf]. rewrite Hf. simpl. apply IH.
    + eapply reachable_step; [done|]. apply step_fill; try done.
      apply can_fill_unfinished; [by apply reachable_inv|done].
    + apply fill_step_started in Hf as [Hs _]; [lia|by apply reachable_inv|done].
Qed.

(** The loop ends with every task finished, or where the context ended. *)
Definition loop_ends (events : list event) (st : loop_state) : Prop :=
  (reachable st ∧ ls_completed st = total workflow) ∨
  (∃ err st0, EvDone err ∈ events ∧ reachable st0 ∧ ls_completed st0 < total workflow ∧
     can_fill workflow st0 = false ∧ ls_active st0 ≠ 0 ∧ st = on_done err st0).

Lemma inv_completed_le st : inv st → ls_completed st ≤ total workflow.
Proof.
  intros Hi. pose proof (inv_count _ Hi). rewrite (inv_completed _ _ _ _ Hi).
  unfold total, zlen. lia.
Qed.
Lemma main_loop_sound fuel events st st' :
  reachable st → main_loop workflow registry clk ords tfuel fuel events st = Some st' →
  loop_ends events st'.
Proof using Hwf.
  revert events st; induction fuel as [|fuel IH]; intros events st Hst; simpl;
    destruct (Z.ltb_spec (ls_completed st) (total workflow)) as [Hlt|Hge]; try done.
  1, 3: intros [= <-]; left; split; [done|];
    pose proof (inv_completed_le _ (reachable_inv _ Hst)); lia.
  destruct (fill _ _ _ _ _ st) as [st1|] eqn:Hf; [|done]. simpl.
  apply fill_sound in Hf as (Hst1 & Hcan & _); [|done].
  pose proof (reachable_inv _ Hst1) as Hi1. pose proof (inv_completed_le _ Hi1) as Hle.
  destruct (Z.eqb_spec (ls_active st1) 0) as [Ha|Ha].
  - case_bool_decide as Hready; [|by apply IH]. intros [= <-]. left. split; [done|].
    destruct (decide (ls_completed st1 < total workflow)) as [Hlt1|]; [|lia].
    destruct (inv_progress _ Hi1 Hlt1) as [?|[? _]]; [congruence|lia].
  - destruct (decide (ls_completed st1 < total workflow)) as [Hlt1|Hn]; cycle 1.
    { exfalso. pose proof (inv_count _ Hi1) as Hc. pose proof (inv_completed _ _ _ _ Hi1).
      pose proof (inv_active _ _ _ _ Hi1). unfold total, zlen in *. lia. }
    destruct events as [|[err|id tr] events]; [done| |].
    + intros [= <-]. right. exists err, st1. by split; [left|].
    + destruct (take_running _ _) as [[task running]|] eqn:Ht; [|done]. simpl.
      destruct (runTask _ _ _) as [[res w]|] eqn:Hr; [|done]. simpl. intros Hm.
      apply IH in Hm; [|eapply reachable_step; [done|]; by eapply step_result].
      destruct Hm as [?|(e & st2 & ? & ?)]; [by left|]. right. exists e, st2.
      split; [by right|done].
Qed.

(** Any way the goroutines may be scheduled: which one reports next in a
    state where the loop waits, and with what trace. *)
Definition schedule (pick : loop_state → string * task_trace) : Prop := ∀ st,
  reachable st → ls_running st ≠ [] →
  ∃ task running, take_running (pick st).1 (ls_running st) = Some (task, running) ∧
    is_Some (runTask registry (pick st).2 task).

(** The events that the [select]s of the loop see under a schedule. *)
Fixpoint events_of (pick : loop_state → string * task_trace) (fuel : nat)
    (st : loop_state) : list event :=
  match fuel with
  | O => []
  | S fuel =>
      match fill workflow clk ords tfuel (length tasks) st with
      | None => []
      | Some st1 =>
          let '(id, tr) := pick st1 in
          match take_running id (ls_running st1) with
          | None => []
          | Some (task, running) =>
              match runTask registry tr task with
              | None => []
              | Some (res, _) =>
                  EvResult id tr ::
                    events_of pick fuel (on_result workflow id res running st1)
              end
          end
      end
  end.

Lemma main_loop_returns pick fuel st :
  expansions_return → schedule pick → reachable st →
  (length tasks < size (ls_results st) + fuel)%nat →
  ∃ st', main_loop workflow registry clk ords tfuel fuel (events_of pick fuel st) st =
           Some st' ∧
    reachable st' ∧ ls_completed st' = total workflow.
Proof using Hwf.
  intros He Hpick. revert st; induction fuel as [|fuel IH]; intros st Hst Hle;
    pose proof (reachable_inv _ Hst) as Hi; pose proof (inv_count _ Hi) as Hcount; [lia|].
  cbn [main_loop events_of].
  destruct (Z.ltb_spec (ls_completed st) (total workflow)) as [Hlt|Hge]; cycle 1.
  { exists st. split_and!; try done. pose proof (inv_completed_le _ Hi). lia. }
  destruct (fill_returns (length tasks) st He Hst) as [st1 Hf]; [lia|]. rewrite Hf. simpl.
  apply fill_sound in Hf as (Hst1 & Hcan & Hmono); [|done].
  pose proof (reachable_inv _ Hst1) as Hi1. pose proof (inv_completed_le _ Hi1) as Hle1.
  pose proof (inv_active _ _ _ _ Hi1) as Hact. unfold zlen in Hact.
  destruct (Z.eqb_spec (ls_active st1) 0) as [Ha|Ha].
  - case_bool_decide as Hready.
    + exists st1. split_and!; try done.
      destruct (decide (ls_completed st1 < total workflow)) as [Hlt1|]; [|lia].
      destruct (inv_progress _ Hi1 Hlt1) as [?|[? _]]; [congruence|lia].
    + exfalso. unfold can_fill in Hcan. rewrite Ha in Hcan.
      rewrite bool_decide_false in Hcan by done. unfold maxConcurrency in Hcan.
      destruct (Z.leb_spec (wf_MaxConcurrency workflow) 0); simpl in Hcan; [done|].
      rewrite andb_true_r in Hcan. apply Z.ltb_ge in Hcan. lia.
  - destruct (Hpick st1 Hst1) as (task & running & Ht & [[res w] Hr]).
    { intros Hn. rewrite Hn in Hact. done. }
    destruct (pick st1) as [id tr]; simpl in *. rewrite Ht, Hr. simpl.
    destruct (on_result_started _ _ _ _ _ _ _ Hi1 Ht Hr) as [_ Hs].
    assert (Hlt1 : ls_completed st1 < total workflow).
    { pose proof (inv_count _ Hi1). rewrite (inv_completed _ _ _ _ Hi1).
      unfold total, zlen. lia. }
    rewrite Ht. simpl. rewrite Hr. simpl.
    apply IH; [|rewrite Hs; lia].
    eapply reachable_step; [done|]. by eapply step_result.
Qed.

(** ** Fail-fast *)

(** The failure that triggers fail-fast. *)
Definition critical_failure (results : results_map) : Prop :=
  ∃ id r, results !! id = Some r ∧ res_Status r = TaskStatusFailed ∧
    task_AllowFailure (task_of id) = false.
Lemma critical_failure_mono snap snap' :
  snap ⊆ snap' → critical_failure snap → critical_failure snap'.
Proof.
  intros Hsub (id & r & Hr & ?). exists id, r. split; [|done]. by eapply lookup_weaken.
Qed.

Lemma fill_step_failFast st st' :
  inv st → fill_step workflow clk ords tfuel st = Some st' →
  ls_results st ⊆ ls_results st' ∧
  (ls_failFastTriggered st' = ls_failFastTriggered st ∨
   wf_FailFast workflow = true ∧ critical_failure (ls_results st')).
Proof.
  intros Hi. unfold fill_step. destruct (ls_ready st) as [|id ready] eqn:Hr.
  { intros [= <-]. by auto. }
  assert (Hid : ls_results st !! id = None).
  { eapply core_fresh; [apply (inv_core _ _ _ _ Hi)|]. rewrite Hr. by left. }
  assert (Hrec : ∀ b res, let st' := foldl (release b)
      (record id res (st <| ls_ready := ready |>)) (Executor.children workflow id) in
    ls_results st' = <[id := res]> (ls_results st) ∧ ls_results st ⊆ ls_results st' ∧
    ls_failFastTriggered st' = ls_failFastTriggered st).
  { intros b res. destruct (foldl_release_frame b (Executor.children workflow id)
      (record id res (st <| ls_ready := ready |>))) as (F1 & _ & _ & _ & F5 & _).
    cbv zeta. rewrite F1, F5. split_and!; try done. simpl. by apply insert_subseteq. }
  assert (Hskip : ∀ b res s, foldl (release b) (record id res (st <| ls_ready := ready |>))
      (Executor.children workflow id) = s → ls_results st ⊆ ls_results s ∧
    (ls_failFastTriggered s = ls_failFastTriggered st ∨
     wf_FailFast workflow = true ∧ critical_failure (ls_results s))).
  { intros b res s <-. destruct (Hrec b res) as (_ & ? & ?). by split; [|left]. }
  simpl. destruct (default false _); [intros [= Hs]; by eapply Hskip|].
  destruct (evaluateCondition _ _) as [[] reason]; simpl;
    [|intros [= Hs]; by eapply Hskip].
  destruct (resolveInputTemplates _ _ _ _) as [[input|e]|]; [by intros [= <-]; auto| |done].
  intros [= <-]. edestruct (Hrec true) as (F1 & F2 & F3).
  destruct (wf_FailFast workflow && negb (task_AllowFailure (task_of id))) eqn:Hff;
    [|by eapply Hskip].
  apply andb_true_iff in Hff as [Hff Hal%negb_true_iff]. simpl. split; [exact F2|]. right.
  split; [done|]. eexists id, _. split; [simpl; rewrite F1; apply lookup_insert_eq|by split].
Qed.
Lemma on_result_failFast st id res running :
  ls_results st !! id = None →
  let st' := on_result workflow id res running st in
  ls_results st ⊆ ls_results st' ∧
  (ls_failFastTriggered st' = ls_failFastTriggered st ∨
   wf_FailFast workflow = true ∧ critical_failure (ls_results st')).
Proof.
  intros Hid. unfold on_result. cbv zeta.
  match goal with |- context [foldl (release false) ?s ?cs] =>
    destruct (foldl_release_frame false cs s) as (F1 & _ & _ & _ & F5 & _);
    rewrite F1, F5; clear F1 F5 end.
  destruct (_ && _) eqn:Hhard; simpl; [|by split; [apply insert_subseteq|left]].
  apply andb_true_iff in Hhard as [Hf%bool_decide_eq_true Hal%negb_true_iff].
  destruct (wf_FailFast workflow); simpl;
    match goal with |- context [foldl block ?s ?cs] =>
      destruct (foldl_block_frame cs s) as (F1 & _ & _ & _ & F5 & _);
      rewrite F1, ?F5 end; simpl;
    (split; [by apply insert_subseteq|]); [right|by left].
  split; [done|]. exists id, res. by rewrite lookup_insert_eq.
Qed.
Lemma reachable_failFast st :
  reachable st → ls_failFastTriggered st = true →
  wf_FailFast workflow = true ∧ critical_failure (ls_results st).
Proof using Hwf.
  intros Hr. pattern st. refine (rtc_ind_r _ _ _ _ st Hr); clear st Hr; [done|].
  intros st st' Hst Hs IH Hff. apply reachable_inv in Hst.
  assert (Hcase : ls_results st ⊆ ls_results st' ∧
    (ls_failFastTriggered st' = ls_failFastTriggered st ∨
     wf_FailFast workflow = true ∧ critical_failure (ls_results st'))).
  { destruct Hs as [st' _ _ Hf|id tr task running res w _ _ _ Ht _].
    - by eapply fill_step_failFast.
    - apply on_result_failFast. apply take_running_spec in Ht as [Hin _].
      eapply core_fresh; [apply (inv_core _ _ _ _ Hst)|]. apply elem_of_app. right.
      by apply (list_elem_of_fmap_2 fst) in Hin. }
  destruct Hcase as [Hsub [Heq|?]]; [|done]. destruct IH as [? ?]; [congruence|].
  split; [done|]. by eapply critical_failure_mono.
Qed.
End loop.
