(* ===== verification/ExecutorProps.v ===== *)
(** * The execution loop: its properties

    What [ExecutorInv] and [ExecutorLoop] establish, stated for the states that
    the loop of a validated workflow reaches, each with a concrete run that
    meets the hypotheses.  [drive] replays a list of steps, so that the runs are
    evaluated. *)

From S2P Require Import Prelude GoLib Domain Graph Template Actions RunTask Interfaces Executor.
From S2P Require Import ExecutorInv ExecutorLoop.
Local Open Scope Z_scope.

(** ** Concrete runs *)

Section drive.
Context `{!Quote}.
Context (workflow : Workflow) (registry : Registry).
Context (clk : clock) (ords : nat → iter_order) (tfuel : nat).

(** One move: an iteration of the inner loop, or a result received. *)
Definition move (m : option (string * task_trace)) (st : loop_state) : option loop_state :=
  if ls_completed st <? total workflow then
    match m with
    | None => if can_fill workflow st then fill_step workflow clk ords tfuel st else None
    | Some (id, tr) =>
        if can_fill workflow st || (ls_active st =? 0) then None else
        '(task, running) ← take_running id (ls_running st);
        '(res, _) ← runTask registry tr task;
        Some (on_result workflow id res running st)
    end
  else None.
Fixpoint drive (l : list (option (string * task_trace))) (st : loop_state) :
    option loop_state :=
  match l with
  | [] => Some st
  | m :: l => st' ← move m st; drive l st'
  end.

Lemma move_step m st st' :
  move m st = Some st' → step workflow registry clk ords tfuel st st'.
Proof.
  unfold move. destruct (Z.ltb_spec (ls_completed st) (total workflow)); [|done].
  destruct m as [[id tr]|].
  - destruct (can_fill workflow st) eqn:Hc; [done|]. simpl.
    destruct (Z.eqb_spec (ls_active st) 0); [done|].
    destruct (take_running _ _) as [[task running]|] eqn:Ht; [|done]. simpl.
    destruct (runTask _ _ _) as [[res w]|] eqn:Hr; [|done]. simpl. intros [= <-].
    by eapply step_result.
  - destruct (can_fill workflow st) eqn:Hc; [|done]. intros Hf. by apply step_fill.
Qed.
Lemma drive_steps l st st' :
  drive l st = Some st' → nsteps (step workflow registry clk ords tfuel) (length l) st st'.
Proof.
  revert st; induction l as [|m l IH]; intros st; simpl; [intros [= <-]; constructor|].
  destruct (move m st) as [st1|] eqn:Hm; [|done]. simpl. intros Hd.
  econstructor; [by eapply move_step|by apply IH].
Qed.
Lemma drive_reachable l st :
  drive l (init workflow ords) = Some st → reachable workflow registry clk ords tfuel st.
Proof. intros Hd%drive_steps. apply rtc_nsteps. by eexists. Qed.
End drive.

(** A workflow to try things on: [b] fails once [a] succeeded, [c] and [d] are
    downstream of [b], [e] reads the output of [a], [f] waits for [b] to fail. *)
Module Sample.
#[export] Instance quote_id : Quote := λ s, s.
Definition node (id action : string) (deps : list string) (cond : string)
    (input : gmap string string) : TaskNode :=
  mkTaskNode id id action input deps cond 0 0 (mkRetryPolicy 1 0) false
    (mkCompensationSpec "print" ∅ 0).
Definition workflow : Workflow := mkWorkflow "w" "" "" "" 2 false true 0
  [node "a" "print" [] "" (<["message" := "hello"]> ∅);
   node "b" "randomFail" ["a"] "" (<["failPercent" := "100"]> ∅);
   node "c" "print" ["b"] "" ∅;
   node "d" "print" ["c"] "" ∅;
   node "e" "print" ["a"] "on_success:a" (<["message" := "${a.output}!"]> ∅);
   node "f" "print" ["b"] "on_failed:b" ∅].
Definition registry : Registry := RegisterBuiltins NewRegistry.
Definition clk : clock := Z.of_nat.
Definition ords : nat → iter_order := λ _, canonical_order.
(** A trace of one attempt that nothing disturbs. *)
Definition trace : task_trace :=
  mkTaskTrace 10 [mkAttempt (mkExecEnv None 0 0) None] 20.
Abbreviation drive := (drive workflow registry clk ords 10).
Definition state (l : list (option (string * task_trace))) : loop_state :=
  default (init workflow ords) (drive l (init workflow ords)).

(** [a] is in flight; [b] and [e] are; everything is finished. *)
Definition moves1 : list (option (string * task_trace)) := [None].
Definition moves2 := moves1 ++ [Some ("a", trace); None; None].
Definition moves3 := moves2 ++ [Some ("b", trace); None; None; None; Some ("e", trace)].

Lemma sample_well_formed : well_formed (wf_Tasks workflow).
Proof.
  apply (proj1 (ValidateWorkflow_ok canonical_order workflow)). vm_compute. reflexivity.
Qed.
Lemma reached2 : reachable workflow registry clk ords 10 (state moves2).
Proof. apply (drive_reachable _ _ _ _ _ moves2). vm_compute. reflexivity. Qed.
Lemma reached3 : reachable workflow registry clk ords 10 (state moves3).
Proof. apply (drive_reachable _ _ _ _ _ moves3). vm_compute. reflexivity. Qed.
End Sample.
#[local] Existing Instance Sample.quote_id.

(** ** Properties of the reachable states *)

(** C1. Bounded concurrency and no double execution: in every reachable state at
    most [maxConcurrency] goroutines are in flight, [active] counts them, no task
    has two of them, none of their tasks has a result yet, and [completed] counts
    the results. *)
Theorem executor_concurrency `{!Quote} workflow registry clk ords tfuel st :
  well_formed (wf_Tasks workflow) → reachable workflow registry clk ords tfuel st →
  (0 ≤ ls_active st ≤ maxConcurrency workflow) ∧
  ls_active st = zlen (ls_running st) ∧
  NoDup (ls_running st).*1 ∧
  (∀ id, id ∈ (ls_running st).*1 → id ∈ task_ids (wf_Tasks workflow) ∧
     ls_results st !! id = None) ∧
  ls_completed st = Z.of_nat (size (ls_results st)) ∧
  ls_completed st ≤ total workflow.
Proof.
  intros Hwf Hr. pose proof (inv_reachable _ _ _ _ _ Hwf _ Hr) as Hi.
  pose proof (inv_core _ _ _ _ Hi) as Hc. split_and!; try apply Hi.
  - rewrite (inv_active _ _ _ _ Hi). apply zlen_nonneg.
  - apply core_nodup in Hc. by apply NoDup_app in Hc as (_ & _ & ?).
  - intros id Hid. split; [eapply core_known; [done|left]|eapply core_fresh; [done|]];
      apply elem_of_app; by right.
  - by eapply inv_completed_le.
Qed.
Lemma executor_concurrency_witness :
  let st := Sample.state Sample.moves2 in
  (ls_running st).*1 = ["b"; "e"] ∧ 0 ≤ ls_active st ≤ 2.
Proof.
  split; [vm_compute; reflexivity|].
  apply (executor_concurrency _ _ _ _ _ _ Sample.sample_well_formed Sample.reached2).
Defined.

Lemma denotes_mono `{!Quote} snap snap' token s :
  snap ⊆ snap' → denotes snap token (Ok s) → denotes snap' token (Ok s).
Proof.
  intros Hsub. inversion 1; subst;
    [eapply denotes_output|eapply denotes_status|eapply denotes_error]; try done;
    by eapply lookup_weaken.
Qed.
Lemma expands_mono `{!Quote} snap snap' raw output s :
  snap ⊆ snap' → expands snap raw output (Ok s) → expands snap' raw output (Ok s).
Proof.
  intros Hsub. remember (Ok s) as r eqn:Er.
  induction 1 as [| | |output a tok b rep r Ho Ht _ IH]; simplify_eq; [by constructor|].
  eapply expands_step; [done| |by apply IH]. by eapply denotes_mono.
Qed.

(** A task with its input resolved against [results]. *)
Definition resolved_task `{!Quote} (results : gmap string TaskResult) (t task : TaskNode) : Prop :=
  task <| task_Input := task_Input t |> = t ∧
  dom (task_Input task) = dom (task_Input t) ∧
  ∀ k raw, task_Input t !! k = Some raw →
    ∃ s, task_Input task !! k = Some s ∧ expands results raw raw (Ok s).
Lemma resolved_intro `{!Quote} tfuel ord snap snap' t input :
  snap ⊆ snap' → resolveInputTemplates tfuel ord (task_Input t) snap = Some (Ok input) →
  resolved_task snap' t (t <| task_Input := input |>).
Proof.
  intros Hsub [Hdom Hval]%resolveInputTemplates_ok. split; [by destruct t|]. split; [done|].
  intros k raw (s & Hs & Hk)%Hval. exists s. split; [done|].
  eapply expands_mono; [done|]. by eapply resolve_loop_sound.
Qed.

(** C2. Admission: a task is in flight only once all its dependencies are
    finished, none of them in a failure that counts or in a skip for one, its
    condition holds of the results, and what runs is the task of the workflow
    with each input value replaced by its expansion over the results. *)
Theorem executor_admission `{!Quote} workflow registry clk ords tfuel st id task :
  well_formed (wf_Tasks workflow) → reachable workflow registry clk ords tfuel st →
  (id, task) ∈ ls_running st →
  let t := task_of workflow id in
  t ∈ wf_Tasks workflow ∧ task_ID t = id ∧
  (∀ d, d ∈ task_DependsOn t → ∃ r, ls_results st !! d = Some r ∧ ¬ contained r ∧
     (res_Status r = TaskStatusFailed → task_AllowFailure (task_of workflow d) = true)) ∧
  condition_holds (ls_results st) (TrimSpace (task_Condition t)) ∧
  resolved_task (ls_results st) t task.
Proof.
  intros Hwf Hr Hin t. pose proof (inv_reachable _ _ _ _ _ Hwf _ Hr) as Hi.
  destruct (inv_running _ _ _ _ Hi _ _ Hin) as (snap & Hsnap & ord & input & Hadm & Hres & ->).
  assert (Hk : id ∈ task_ids (wf_Tasks workflow)).
  { eapply core_known; [apply (inv_core _ _ _ _ Hi)|]. left. apply elem_of_app. right.
    by apply (list_elem_of_fmap_2 fst) in Hin. }
  apply list_elem_of_fmap in Hk as (t' & -> & Ht').
  assert (Heq : t = t') by by apply task_of_in.
  split; [by rewrite Heq|]. split; [by rewrite Heq|]. clear Heq. split; [|split].
  - intros d Hd. destruct (admitted_unblocked _ _ _ _ Hsnap Hadm d Hd) as [[r Hr'] Hn].
    exists r. split; [done|]. split.
    + intros Hc. apply Hn. exists r. auto.
    + intros Hf. apply not_false_iff_true. intros Ha. apply Hn. exists r. auto.
  - by eapply admitted_condition.
  - by eapply resolved_intro.
Qed.
Lemma executor_admission_witness :
  let st := Sample.state Sample.moves2 in
  let e := Sample.node "e" "print" ["a"] "on_success:a" (<["message" := "hello!"]> ∅) in
  ("e", e) ∈ ls_running st ∧ condition_holds (ls_results st) "on_success:a" ∧
  resolved_task (ls_results st) (task_of Sample.workflow "e") e.
Proof.
  assert (He : ("e", Sample.node "e" "print" ["a"] "on_success:a"
    (<["message" := "hello!"]> ∅)) ∈ ls_running (Sample.state Sample.moves2)).
  { apply (bool_decide_eq_true_1 _). vm_compute. reflexivity. }
  split; [exact He|].
  apply (executor_admission _ _ _ _ _ _ _ _ Sample.sample_well_formed Sample.reached2 He).
Defined.

(** C3. Failure containment: once a task failed without [allowFailure], or was
    skipped for an upstream failure, no task downstream of it - through any
    number of dependencies - ever runs; each one that gets a result is skipped
    "due to upstream failure". *)
Theorem executor_containment `{!Quote} workflow registry clk ords tfuel st u v :
  well_formed (wf_Tasks workflow) → reachable workflow registry clk ords tfuel st →
  tc (dep_edge (wf_Tasks workflow)) u v → hard_block workflow (ls_results st) u →
  (v ∉ (ls_running st).*1) ∧ ∀ r, ls_results st !! v = Some r → contained r.
Proof.
  intros Hwf Hr Huv Hu. pose proof (inv_reachable _ _ _ _ _ Hwf _ Hr) as Hi.
  split; [|intros r; by eapply inv_containment].
  intros ([i task] & -> & Hin)%list_elem_of_fmap. simpl in *.
  destruct (inv_running _ _ _ _ Hi _ _ Hin) as (snap & Hsnap & ord & input & Hadm & _).
  assert (Hdir : ∃ d, d ∈ task_DependsOn (task_of workflow i) ∧
    (d = u ∨ tc (dep_edge (wf_Tasks workflow)) u d)).
  { clear -Huv Hwf. revert Huv. refine (tc_ind_r (λ i, _) u _ _ i).
    - intros d Hd. exists u. split; [by apply (dep_edge_task workflow Hwf)|by left].
    - intros d d' Hud Hdd' _. exists d. split; [by apply (dep_edge_task workflow Hwf)|by right]. }
  destruct Hdir as (d & Hd & Hud).
  destruct (admitted_unblocked _ _ _ _ Hsnap Hadm d Hd) as [[rd Hrd] Hn]. apply Hn.
  destruct Hud as [->|Hud]; [done|]. exists rd. split; [done|]. right.
  by eapply (inv_containment _ registry tfuel Hwf st u d).
Qed.
Lemma executor_containment_witness :
  let st := Sample.state Sample.moves3 in
  (res_Status <$> ls_results st !! "d") = Some TaskStatusSkipped ∧
  ("d" ∉ (ls_running st).*1) ∧ ∀ r, ls_results st !! "d" = Some r → contained r.
Proof.
  intros st. split; [vm_compute; reflexivity|].
  apply (executor_containment _ _ _ _ _ st "b" "d" Sample.sample_well_formed Sample.reached3).
  - apply (tc_l _ _ "c").
    + exists (Sample.node "c" "print" ["b"] "" ∅). split; [set_solver|]. split; [done|set_solver].
    + apply tc_once. exists (Sample.node "d" "print" ["c"] "" ∅).
      split; [set_solver|]. split; [done|set_solver].
  - eexists. split; [vm_compute; reflexivity|]. left. by split.
Defined.

(** C4. Root cause: a task skipped for an upstream failure has, upstream of it, a
    task that really failed - and failed either without [allowFailure] or
    because its own input could not be resolved. *)
Theorem executor_root_cause `{!Quote} workflow registry clk ords tfuel st v r :
  well_formed (wf_Tasks workflow) → reachable workflow registry clk ords tfuel st →
  ls_results st !! v = Some r → contained r →
  ∃ u ru, tc (dep_edge (wf_Tasks workflow)) u v ∧ ls_results st !! u = Some ru ∧
    res_Status ru = TaskStatusFailed ∧
    (task_AllowFailure (task_of workflow u) = false ∨
     template_failed workflow tfuel (ls_results st) u ru).
Proof.
  intros Hwf Hr. eapply inv_root_cause; [done|]. by eapply inv_reachable.
Qed.
Lemma executor_root_cause_witness :
  let st := Sample.state Sample.moves3 in
  ∃ u ru, tc (dep_edge (wf_Tasks Sample.workflow)) u "f" ∧ ls_results st !! u = Some ru ∧
    res_Status ru = TaskStatusFailed ∧
    (task_AllowFailure (task_of Sample.workflow u) = false ∨
     template_failed Sample.workflow 10 (ls_results st) u ru).
Proof.
  intros st.
  destruct (ls_results st !! "f") as [r|] eqn:Er; [|by vm_compute in Er].
  apply (executor_root_cause _ _ _ _ _ st "f" r Sample.sample_well_formed Sample.reached3 Er).
  vm_compute in Er. injection Er as <-. by vm_compute.
Defined.

(** C5. What a result means.  SUCCESS: the task was admitted and its action, called on the
    expanded input, returned the output.  FAILED: the same with an action that failed (or is
    not there), or a value of the input did not expand (one attempt, the expansion error).
    SKIPPED: a dependency failed or was itself skipped for an upstream failure, or the
    condition did not hold of the results that were there, all dependencies among them.
    There is no other status. *)
Theorem executor_results `{!Quote} workflow registry clk ords tfuel st id r :
  well_formed (wf_Tasks workflow) → reachable workflow registry clk ords tfuel st →
  ls_results st !! id = Some r →
  let t := task_of workflow id in
  let condition := TrimSpace (task_Condition t) in
  let ran P := ∃ task tr waits, resolved_task (ls_results st) t task ∧
    runTask registry tr task = Some (r, waits) ∧ P registry task r ∧
    condition_holds (ls_results st) condition in
  res_TaskID r = id ∧ (∀ d, d ∈ task_DependsOn t → is_Some (ls_results st !! d)) ∧
  (ran task_succeeded ∨ ran task_failed ∨
   (res_Status r = TaskStatusFailed ∧ res_Attempts r = 1 ∧
      ∃ seen k raw, seen ⊆ ls_results st ∧ task_Input t !! k = Some raw ∧
        expands seen raw raw (Err (res_Error r))) ∨
   (res_Status r = TaskStatusSkipped ∧ res_Attempts r = 0 ∧
      ((contained r ∧ ∃ d rd, d ∈ task_DependsOn t ∧ ls_results st !! d = Some rd ∧
          (res_Status rd = TaskStatusFailed ∨ contained rd)) ∨
       (res_Error r = "condition not met: " +:+ condition ∧
        ∃ seen, seen ⊆ ls_results st ∧ (∀ d, d ∈ task_DependsOn t → is_Some (seen !! d)) ∧
          ¬ condition_holds seen condition)))).
Proof.
  intros Hwf Hr Hid t condition ran. pose proof (inv_reachable _ _ _ _ _ Hwf _ Hr) as Hi.
  destruct (inv_results _ _ _ _ Hi _ _ Hid) as (HID & snap & Hsnap & Hex).
  pose proof (inv_known _ _ _ _ _ _ Hi Hid) as Hk.
  split; [done|]. split.
  { by apply (inv_deps_done workflow registry tfuel st id r). }
  destruct Hex as [d _ Hd Hm [Hs He] Ha|Hdeps _ Hc Hs He Ha|ord Hadm Hres Hs Ha
                  |ord input tr w Hadm Hres Hrun].
  - right. right. right. split; [done|]. split; [done|]. left. split; [done|].
    destruct Hm as (rd & Hrd & Hwhy). exists d, rd. split; [done|].
    split; [by eapply lookup_weaken|]. destruct Hwhy as [[? _]|?]; auto.
  - right. right. right. split; [done|]. split; [done|]. right. rewrite He.
    apply list_elem_of_fmap in Hk as (t' & -> & Ht'). split.
    + apply evaluateCondition_reason with (.∈ task_ids (wf_Tasks workflow)); [|done].
      unfold t. rewrite task_of_in by done. pose proof (wellf_conditions _ Hwf) as Hcond.
      rewrite Forall_forall in Hcond. by apply Hcond.
    + exists snap. split; [done|]. split; [done|]. intros Hh.
      apply evaluateCondition_correct in Hh. fold t in Hc. congruence.
  - right. right. left. split; [done|]. split; [done|].
    apply resolveInputTemplates_err in Hres as (k & raw & Hk' & He). by exists snap, k, raw.
  - assert (Hran : ∀ P : Registry → TaskNode → TaskResult → Prop,
      P registry (t <| task_Input := input |>) r → ran P).
    { intros P HP. exists (t <| task_Input := input |>), tr, w.
      split; [by eapply resolved_intro|]. split; [done|]. split; [done|].
      by eapply admitted_condition. }
    apply runTask_outcome in Hrun as [Hs|Hf]; [left|right; left]; by apply Hran.
Qed.
(** [a] fails but may; [g] waits for its failure and runs, [s] for its success. *)
Module Branches.
Definition workflow : Workflow := mkWorkflow "w" "" "" "" 2 false false 0
  [(Sample.node "a" "randomFail" [] "" (<["failPercent" := "100"]> ∅)) <| task_AllowFailure := true |>;
   Sample.node "g" "print" ["a"] "on_failed:a" (<["message" := "${a.status}"]> ∅);
   Sample.node "s" "print" ["a"] "on_success:a" ∅].
Definition moves : list (option (string * task_trace)) :=
  [None; Some ("a", Sample.trace); None; None; Some ("g", Sample.trace)].
Definition state : loop_state :=
  default (init workflow Sample.ords)
    (drive workflow Sample.registry Sample.clk Sample.ords 10 moves (init workflow Sample.ords)).
Lemma branches_wf : well_formed (wf_Tasks workflow).
Proof. apply (proj1 (ValidateWorkflow_ok canonical_order workflow)). vm_compute. reflexivity. Qed.
Lemma reached : reachable workflow Sample.registry Sample.clk Sample.ords 10 state.
Proof. apply (drive_reachable _ _ _ _ _ moves). vm_compute. reflexivity. Qed.
End Branches.
Lemma executor_results_witness :
  let results := ls_results Branches.state in
  (res_Output <$> results !! "g") = Some "FAILED" ∧
  (∃ task, resolved_task results (task_of Branches.workflow "g") task ∧
     ∃ r, results !! "g" = Some r ∧ task_succeeded Sample.registry task r) ∧
  (res_Status <$> results !! "s") = Some TaskStatusSkipped ∧
  ∃ seen, seen ⊆ results ∧ ¬ condition_holds seen "on_success:a".
Proof.
  intros results. split; [vm_compute; reflexivity|]. split; [|split; [vm_compute; reflexivity|]].
  - destruct (results !! "g") as [r|] eqn:Er; [|by vm_compute in Er].
    assert (Hs : res_Status r = TaskStatusSuccess)
      by (vm_compute in Er; injection Er as <-; reflexivity).
    destruct (executor_results _ _ _ _ _ _ "g" r Branches.branches_wf Branches.reached Er)
      as (_ & _ & [(task & tr & w & Ht & _ & Hok & _)|[(task & tr & w & _ & _ & [Hf _] & _)
                  |[[Hf _]|[Hf _]]]]).
    + exists task. split; [exact Ht|]. exists r. split; [reflexivity|exact Hok].
    + exfalso. rewrite Hs in Hf. discriminate Hf.
    + exfalso. rewrite Hs in Hf. discriminate Hf.
    + exfalso. rewrite Hs in Hf. discriminate Hf.
  - destruct (results !! "s") as [r|] eqn:Er; [|by vm_compute in Er].
    assert (Hs : res_Status r = TaskStatusSkipped ∧ res_Error r = "condition not met: on_success:a")
      by (vm_compute in Er; injection Er as <-; split; reflexivity).
    destruct (executor_results _ _ _ _ _ _ "s" r Branches.branches_wf Branches.reached Er)
      as (_ & _ & [(task & tr & w & _ & _ & [Hf _] & _)|[(task & tr & w & _ & _ & [Hf _] & _)
                  |[[Hf _]|(_ & _ & [[[_ Hc] _]|(_ & seen & Hsub & _ & Hn)])]]]).
    + exfalso. rewrite (proj1 Hs) in Hf. discriminate Hf.
    + exfalso. rewrite (proj1 Hs) in Hf. discriminate Hf.
    + exfalso. rewrite (proj1 Hs) in Hf. discriminate Hf.
    + exfalso. rewrite (proj2 Hs) in Hc. discriminate Hc.
    + exists seen. split; [exact Hsub|exact Hn].
Defined.

(** A failure branch is dead: a task whose condition is [on_failed:d] for a
    direct dependency [d] that does not allow failure never runs.  If [d] fails
    the task is blocked as if it had no condition, and otherwise its condition
    does not hold. *)
Theorem on_failed_dependency_dead `{!Quote} workflow registry clk ords tfuel st id d :
  well_formed (wf_Tasks workflow) → reachable workflow registry clk ords tfuel st →
  d ∈ task_DependsOn (task_of workflow id) →
  task_AllowFailure (task_of workflow d) = false →
  TrimSpace (task_Condition (task_of workflow id)) = "on_failed:" +:+ d → TrimSpace d = d →
  (id ∉ (ls_running st).*1) ∧
  ∀ r, ls_results st !! id = Some r → res_Status r ≠ TaskStatusSuccess ∧
    (res_Status r = TaskStatusFailed → False).
Proof.
  intros Hwf Hr Hd Hal Hcond Htrim. pose proof (inv_reachable _ _ _ _ _ Hwf _ Hr) as Hi.
  assert (Hdead : ∀ snap, snap ⊆ ls_results st → ¬ admitted workflow snap id).
  { intros snap Hsnap Hadm. pose proof (admitted_condition _ _ _ _ Hsnap Hadm) as Hc.
    destruct (admitted_unblocked _ _ _ _ Hsnap Hadm d Hd) as [_ Hn]. apply Hn.
    rewrite Hcond in Hc.
    destruct Hc as [[?|?]|r' res Heq|r' res Heq Hl Hs|i n res Heq]; try discriminate.
    apply (inj (String.app _)) in Heq as <-. rewrite Htrim in Hl. exists res. auto. }
  split.
  - intros ([i task] & -> & Hin)%list_elem_of_fmap.
    destruct (inv_running _ _ _ _ Hi _ _ Hin) as (snap & Hsnap & ord & input & Hadm & _).
    by apply (Hdead snap).
  - intros r (_ & snap & Hsnap & Hex)%(inv_results _ _ _ _ Hi).
    destruct (explains_status _ _ _ _ _ _ Hex) as [Hs|[_ Hadm]].
    + rewrite Hs. split; done_status.
    + exfalso. by apply (Hdead snap).
Qed.
Lemma on_failed_dependency_dead_witness :
  let st := Sample.state Sample.moves3 in
  (∃ rb, ls_results st !! "b" = Some rb ∧ res_Status rb = TaskStatusFailed) ∧
  ∀ r, ls_results st !! "f" = Some r → res_Status r ≠ TaskStatusSuccess ∧
    (res_Status r = TaskStatusFailed → False).
Proof.
  intros st. split; [eexists; split; [vm_compute; reflexivity|done]|].
  apply (on_failed_dependency_dead Sample.workflow _ _ _ _ st "f" "b"
    Sample.sample_well_formed Sample.reached3); [|by vm_compute..].
  apply (bool_decide_eq_true_1 _). vm_compute. reflexivity.
Defined.

(** ** Progress and termination *)

(** C7. No deadlock: if the expansions of the inputs return (an output that holds its own
    template makes one that does not), the loop can move while tasks are missing in a
    reachable state.  Either the inner loop has a task to take, and the iteration returns,
    or goroutines are in flight and whichever reports first, once its attempts are made,
    moves the loop on: the [break] for "nothing active and nothing ready" never drops a
    task. *)
Theorem executor_progress `{!Quote} workflow registry clk ords tfuel st :
  well_formed (wf_Tasks workflow) →
  expansions_return workflow registry clk ords tfuel →
  reachable workflow registry clk ords tfuel st → ls_completed st < total workflow →
  (can_fill workflow st = true ∧ ∃ st', step workflow registry clk ords tfuel st st') ∨
  (can_fill workflow st = false ∧ 0 < ls_active st ∧
   ∀ id tr, id ∈ (ls_running st).*1 →
     (∀ task, (id, task) ∈ ls_running st →
        max_attempts task ≤ Z.of_nat (length (tt_attempts tr))) →
     ∃ st', step workflow registry clk ords tfuel st st').
Proof.
  intros Hwf He Hr Hlt. pose proof (inv_reachable _ _ _ _ _ Hwf _ Hr) as Hi.
  destruct (can_fill workflow st) eqn:Hc; [left|right]; (split; [done|]).
  - destruct (fill_step_returns _ _ _ _ _ st He Hr) as [st' Hf]. exists st'. by apply step_fill.
  - destruct (inv_progress _ _ _ Hwf _ Hi Hlt) as [?|[Ha _]]; [congruence|].
    split; [done|]. intros id tr Hid Htr.
    destruct (take_running_total _ _ Hid) as [[task running] Ht].
    destruct (take_running_spec _ _ _ _ Ht) as [Hin _].
    destruct (runTask_returns registry tr task (Htr _ Hin)) as [[res w] Hrun].
    exists (on_result workflow id res running st). eapply step_result; try done. lia.
Qed.

(** Inputs without a template expand at once. *)
Lemma template_free_expansions `{!Quote} workflow registry clk ords tfuel :
  Forall (λ t, map_Forall (λ _ v, Index v "${" = None) (task_Input t)) (wf_Tasks workflow) →
  expansions_return workflow registry clk ords (S tfuel).
Proof.
  intros Hfree st id _ _. apply resolve_entries_returns.
  intros k v Hkv%elem_of_iter. exists (Ok v). apply resolve_loop_done.
  unfold task_of, tasksByID in Hkv.
  destruct (index_tasks _ _ !! id) as [t|] eqn:Ht; simpl in Hkv; [|by rewrite lookup_empty in Hkv].
  assert (Hin : t ∈ wf_Tasks workflow).
  { assert (Hfold : ∀ l m, foldl (index_task (λ t, t)) m l !! id = Some t →
      t ∈ l ∨ m !! id = Some t).
    { induction l as [|t' l IH]; intros m Hm; [by right|]. simpl in Hm.
      apply IH in Hm as [?|Hm]; [by left; right|]. unfold index_task in Hm.
      rewrite lookup_insert in Hm. case_decide; [|by right].
      left. injection Hm as <-. by left. }
    apply Hfold in Ht as [?|Ht]; [done|]. by rewrite lookup_empty in Ht. }
  rewrite Forall_forall in Hfree. by apply (Hfree t Hin k v).
Qed.
(** A schedule: the goroutine started first reports first. *)
Definition first_pick (st : loop_state) : string * task_trace :=
  match ls_running st with
  | [] => ("", mkTaskTrace 0 [] 0)
  | (id, task) :: _ =>
      (id, mkTaskTrace 0 (replicate (Z.to_nat (max_attempts task))
                            (mkAttempt (mkExecEnv None 0 0) None)) 0)
  end.
Lemma first_schedule `{!Quote} workflow registry clk ords tfuel :
  schedule workflow registry clk ords tfuel first_pick.
Proof.
  intros st _ Hne. unfold first_pick. destruct (ls_running st) as [|[id task] l] eqn:E; [done|].
  simpl. rewrite bool_decide_true by done. exists task, l. split; [done|].
  apply runTask_returns. simpl. rewrite length_replicate.
  pose proof (max_attempts_pos task). lia.
Qed.
Module Plain.
Definition workflow : Workflow := mkWorkflow "plain" "" "" "" 0 false false 0
  [Sample.node "a" "print" [] "" (<["message" := "hello"]> ∅);
   Sample.node "b" "missing" ["a"] "" ∅;
   Sample.node "c" "print" ["a"; "b"] "" ∅].
Lemma plain_well_formed : well_formed (wf_Tasks workflow).
Proof.
  apply (proj1 (ValidateWorkflow_ok canonical_order workflow)). vm_compute. reflexivity.
Qed.
Lemma expansions : expansions_return workflow Sample.registry Sample.clk Sample.ords 1.
Proof.
  apply template_free_expansions. repeat constructor; simpl; try apply map_Forall_empty.
  apply map_Forall_insert_2; [by vm_compute|apply map_Forall_empty].
Qed.
End Plain.
Lemma executor_progress_witness :
  let st := init Plain.workflow Sample.ords in
  can_fill Plain.workflow st = true ∧
  ∃ st', step Plain.workflow Sample.registry Sample.clk Sample.ords 1 st st'.
Proof.
  intros st.
  destruct (executor_progress Plain.workflow _ _ _ _ st Plain.plain_well_formed Plain.expansions)
    as [?|[Hc _]].
  - apply rtc_refl.
  - by vm_compute.
  - done.
  - by vm_compute in Hc.
Defined.

(** Termination: whatever the schedule and the outcomes of the tasks, the
    loop takes at most two steps per task of the workflow - one to start it and
    one to finish it. *)
Theorem executor_terminates `{!Quote} workflow registry clk ords tfuel n st :
  well_formed (wf_Tasks workflow) →
  nsteps (step workflow registry clk ords tfuel) n (init workflow ords) st →
  (n ≤ 2 * length (wf_Tasks workflow))%nat.
Proof.
  intros Hwf Hn. apply (nsteps_bound _ _ _ _ _ Hwf) in Hn; [lia|]. by apply inv_init.
Qed.
Lemma executor_terminates_witness :
  (length Sample.moves3 ≤ 2 * length (wf_Tasks Sample.workflow))%nat ∧
  length Sample.moves3 = 9%nat.
Proof.
  split; [|done]. apply (executor_terminates Sample.workflow Sample.registry Sample.clk Sample.ords
    10 _ (Sample.state Sample.moves3) Sample.sample_well_formed).
  apply drive_steps. vm_compute. reflexivity.
Defined.

(** C6. Completion: whatever the schedule of the goroutines and the outcomes of
    their actions, if the expansions return, the loop runs to a state where every
    task of the workflow has a result, with [len(workflow.Tasks) + 1] iterations
    of the outer loop and [len(workflow.Tasks)] of the inner one. *)
Theorem main_loop_completes `{!Quote} workflow registry clk ords tfuel pick :
  well_formed (wf_Tasks workflow) →
  expansions_return workflow registry clk ords tfuel →
  schedule workflow registry clk ords tfuel pick →
  let fuel := S (length (wf_Tasks workflow)) in
  ∃ st, main_loop workflow registry clk ords tfuel fuel
          (events_of workflow registry clk ords tfuel pick fuel (init workflow ords))
          (init workflow ords) = Some st ∧
    ls_status st = RunStatusRunning ∧
    ∀ t, t ∈ wf_Tasks workflow → is_Some (ls_results st !! task_ID t).
Proof.
  intros Hwf He Hp fuel.
  destruct (main_loop_returns _ _ _ _ _ Hwf pick (S (length (wf_Tasks workflow)))
    (init workflow ords) He Hp) as (st & Hm & Hr & Hc); [apply rtc_refl|simpl; lia|].
  pose proof (inv_reachable _ _ _ _ _ Hwf _ Hr) as Hi.
  exists st. split; [done|]. split; [apply Hi|]. intros t Ht.
  destruct (ls_results st !! task_ID t) eqn:E; [by eexists|]. exfalso.
  pose proof (inv_completed _ _ _ _ Hi) as Hsize.
  assert (Hsub : dom (ls_results st) ⊆ list_to_set (task_ids (wf_Tasks workflow)) ∖ {[task_ID t]}).
  { intros id [r Hr']%elem_of_dom. apply elem_of_difference. split.
    - apply elem_of_list_to_set. by eapply (inv_known workflow registry tfuel st).
    - intros ->%elem_of_singleton. congruence. }
  apply subseteq_size in Hsub. rewrite size_dom, size_difference in Hsub; cycle 1.
  { intros id ->%elem_of_singleton. apply elem_of_list_to_set. by apply list_elem_of_fmap_2. }
  rewrite size_list_to_set, size_singleton in Hsub by apply Hwf.
  unfold task_ids in Hsub. rewrite length_fmap in Hsub. unfold total, zlen in Hc.
  destruct (wf_Tasks workflow); [by apply elem_of_nil in Ht|]. simpl in *. lia.
Qed.
Lemma main_loop_completes_witness :
  ∃ st, main_loop Plain.workflow Sample.registry Sample.clk Sample.ords 1 4
          (events_of Plain.workflow Sample.registry Sample.clk Sample.ords 1 first_pick 4
             (init Plain.workflow Sample.ords)) (init Plain.workflow Sample.ords) = Some st ∧
    ls_status st = RunStatusRunning ∧
    ∀ t, t ∈ wf_Tasks Plain.workflow → is_Some (ls_results st !! task_ID t).
Proof.
  apply (main_loop_completes Plain.workflow Sample.registry Sample.clk Sample.ords 1 first_pick
    Plain.plain_well_formed Plain.expansions). apply first_schedule.
Defined.
