(* ===== verification/Run.v ===== *)
(** * internal/engine/executor.go: a whole run

    [runWithID] around the loop of [Executor]: validation, the first save of the
    run, the loop, the final status, compensation, the last save and the
    metrics.  The clock readings outside the loop come from [now]: 0 names the
    run, 1 is [StartedAt], 2 [markUnfinishedTasksAsSkipped], 3 [FinishedAt].
    The store is any implementation of [WorkflowStore]. *)

From S2P Require Import Prelude GoLib Domain Graph Template Actions RunTask Interfaces Telemetry.
From S2P Require Import Executor ExecutorInv ExecutorLoop.
Local Open Scope Z_scope.

(** ** The final status *)

Definition deriveCompensationStatus (results : list TaskResult) : CompensationStatus :=
  if Nat.eqb (length results) 0 then CompensationStatusSkipped else
  if existsb (λ r, bool_decide (res_Status r = TaskStatusFailed)) results
  then CompensationStatusFailed else CompensationStatusSuccess.

Definition deriveFinalStatus (ord : iter_order) (results : gmap string TaskResult) : RunStatus :=
  if Nat.eqb (size results) 0 then RunStatusFailed else
  if existsb (λ r, bool_decide (res_Status r = TaskStatusFailed)) (iter_values ord results)
  then RunStatusFailed else RunStatusSuccess.

(** The error of the first failed task the range meets. *)
Fixpoint first_error (l : list TaskResult) : string :=
  match l with
  | [] => ""
  | r :: l =>
      if bool_decide (res_Status r = TaskStatusFailed) then
        if bool_decide (res_Error r = "") then "task failed without explicit error"
        else res_Error r
      else first_error l
  end.
Definition firstTaskError (ord : iter_order) (results : gmap string TaskResult) : string :=
  first_error (iter_values ord results).

Definition skip_unfinished (reason : string) (now : time)
    (results : gmap string TaskResult) (t : TaskNode) : gmap string TaskResult :=
  match results !! task_ID t with
  | Some _ => results
  | None =>
      <[task_ID t := mkTaskResult (task_ID t) TaskStatusSkipped now now 0 0 "" reason
                       (task_DependsOn t)]> results
  end.
Definition markUnfinishedTasksAsSkipped (tasks : list TaskNode)
    (results : gmap string TaskResult) (reason : string) (now : time) :
    gmap string TaskResult :=
  let reason := if bool_decide (reason = "") then "not executed" else reason in
  foldl (skip_unfinished reason now) results tasks.

(** ** Compensation *)

(** What a compensation sees: its clock readings and the world of its action. *)
Record comp_trace := mkCompTrace {
  ct_start : time;
  ct_env : exec_env;
  ct_finish : time;
}.

Section compensation.
Context `{!Quote}.
Context (registry : Registry) (tfuel : nat).

Definition runCompensationTask (ord : iter_order) (tr : comp_trace) (task : TaskNode)
    (allResults : gmap string TaskResult) : option TaskResult :=
  let res := TaskResult_zero <| res_TaskID := task_ID task +:+ ".compensation" |>
    <| res_Status := TaskStatusRunning |> <| res_StartedAt := ct_start tr |>
    <| res_Attempts := 1 |> <| res_UpstreamRef := task_DependsOn task |> in
  let finish (res : TaskResult) : TaskResult :=
    res <| res_FinishedAt := ct_finish tr |>
        <| res_Duration := time_Sub (ct_finish tr) (ct_start tr) |> in
  match Get (comp_Action (task_Compensation task)) registry with
  | None =>
      Some (finish (res <| res_Status := TaskStatusFailed |>
        <| res_Error := "compensation action not found: " +:+
                          comp_Action (task_Compensation task) |>))
  | Some action =>
      match resolveInputTemplates tfuel ord (comp_Input (task_Compensation task))
              allResults with
      | None => None
      | Some (Err err) =>
          Some (finish (res <| res_Status := TaskStatusFailed |> <| res_Error := err |>))
      | Some (Ok input) =>
          match action (ct_env tr) input with
          | ExecErr err =>
              Some (finish (res <| res_Status := TaskStatusFailed |>
                                <| res_Error := err_msg err |>))
          | ExecOk output =>
              Some (finish (res <| res_Status := TaskStatusSuccess |>
                                <| res_Output := output |>))
          end
      end
  end.

(** The [continue]s of the first loop of [runCompensation]. *)
Definition add_eligible (tasksByID : gmap string TaskNode) (eligible : list TaskNode)
    (kv : string * TaskResult) : list TaskNode :=
  if bool_decide (res_Status kv.2 ≠ TaskStatusSuccess) then eligible else
  match tasksByID !! kv.1 with
  | None => eligible
  | Some task =>
      if bool_decide (TrimSpace (comp_Action (task_Compensation task)) = "")
      then eligible else eligible ++ [task]
  end.
(** The comparison of its [sort.Slice]: the task that finished last goes
    first, ties by descending ID. *)
Definition compensation_less (results : gmap string TaskResult) (a b : TaskNode) : bool :=
  let ri := default TaskResult_zero (results !! task_ID a) in
  let rj := default TaskResult_zero (results !! task_ID b) in
  if time_Equal (res_FinishedAt ri) (res_FinishedAt rj)
  then str_ltb (task_ID b) (task_ID a)
  else After (res_FinishedAt ri) (res_FinishedAt rj).
Definition compensation_plan (ord : iter_order) (workflow : Workflow)
    (results : gmap string TaskResult) : list TaskNode :=
  let tasksByID := index_tasks id (wf_Tasks workflow) in
  sort_slice (compensation_less results)
    (foldl (add_eligible tasksByID) [] (iter ord results)).
(** The second loop; [trs] is what each compensation in turn sees. *)
Fixpoint run_all (ords : nat → iter_order) (trs : nat → comp_trace)
    (allResults : gmap string TaskResult) (eligible : list TaskNode) (k : nat) :
    option (list TaskResult) :=
  match eligible with
  | [] => Some []
  | task :: eligible =>
      result ← runCompensationTask (ords k) (trs k) task allResults;
      results ← run_all ords trs allResults eligible (S k);
      Some (result :: results)
  end.
Definition runCompensation (ord : iter_order) (ords : nat → iter_order)
    (trs : nat → comp_trace) (workflow : Workflow) (run : Run) : option (list TaskResult) :=
  run_all ords trs (run_Results run) (compensation_plan ord workflow (run_Results run)) 0.
End compensation.

(** ** runWithID *)

(** What the environment brings to a run besides the store. *)
Record run_env := mkRunEnv {
  re_now : clock;                    (** clock readings outside the loop *)
  re_clk : clock;                    (** clock readings of the loop *)
  re_validate_ord : iter_order;      (** map orders: [hasCycle], *)
  re_ords : nat → iter_order;        (** the loop, *)
  re_final_ord : nat → iter_order;   (** the four ranges over [run.Results] after it, *)
  re_comp_ords : nat → iter_order;   (** and the compensations *)
  re_events : list event;            (** what the [select] sees *)
  re_comp_trs : nat → comp_trace;    (** what the compensations see *)
  re_fuel : nat;                     (** iterations of the outer loop *)
  re_tfuel : nat;                    (** and of each template expansion *)
}.

Definition NewRunID (now : time) (workflowID : string) : string :=
  workflowID +:+ "-" +:+ pretty (UnixNano now).

Section run.
Context `{!Quote} {S : Type} `{!WorkflowStore S}.
Context (registry : Registry) (env : run_env).

(** [if e.store != nil { _ = e.store.SaveRun(ctx, run) }] *)
Definition save_run (run : Run) (store : option S) : result unit * option S :=
  match store with
  | None => (Ok tt, None)
  | Some s => let '(r, s') := SaveRun run s in (r, Some s')
  end.

Definition start_run (workflow : Workflow) (forcedRunID requestID : string) : Run :=
  let runID := if bool_decide (TrimSpace forcedRunID = "")
               then NewRunID (re_now env 0%nat) (wf_ID workflow) else forcedRunID in
  Run_zero <| run_ID := runID |> <| run_WorkflowID := wf_ID workflow |>
    <| run_RequestID := requestID |> <| run_Status := RunStatusRunning |>
    <| run_CompensationStatus := CompensationStatusNotRequired |>
    <| run_StartedAt := re_now env 1%nat |>.

(** From the label [FINISH] to the compensation. *)
Definition finish (workflow : Workflow) (run : Run) (st : loop_state) : option Run :=
  let run := run <| run_Status := ls_status st |> <| run_Error := ls_error st |>
    <| run_Results := markUnfinishedTasksAsSkipped (wf_Tasks workflow) (ls_results st)
                        (ls_error st) (re_now env 2%nat) |> in
  let run := run <| run_FinishedAt := re_now env 3%nat |>
    <| run_Duration := time_Sub (re_now env 3%nat) (run_StartedAt run) |> in
  let run :=
    if bool_decide (run_Status run = RunStatusRunning) then
      let run := run <| run_Status := deriveFinalStatus (re_final_ord env 0%nat) (run_Results run) |> in
      if bool_decide (run_Status run = RunStatusFailed) then
        run <| run_Error := firstTaskError (re_final_ord env 1%nat) (run_Results run) |>
      else run
    else run in
  if (bool_decide (run_Status run = RunStatusFailed)
      || bool_decide (run_Status run = RunStatusCancelled)) && wf_CompensateOnFailure workflow
  then
    results ← runCompensation registry (re_tfuel env) (re_final_ord env 2%nat) (re_comp_ords env)
                (re_comp_trs env) workflow run;
    Some (run <| run_CompensationResults := results |>
              <| run_CompensationStatus := deriveCompensationStatus results |>)
  else if bool_decide (run_Status run = RunStatusSuccess) then
    Some (run <| run_CompensationStatus := CompensationStatusNotRequired |>)
  else Some (run <| run_CompensationStatus := CompensationStatusSkipped |>).

Definition record_metrics (run : Run) (metrics : option Collector) : option Collector :=
  RecordRun (re_final_ord env 3%nat) run <$> metrics.

(** The run and error returned, with the store and the metrics afterwards;
    [None] when the run does not end under [env]. *)
Definition runWithID (workflow : Workflow) (forcedRunID requestID : string)
    (store : option S) (metrics : option Collector) :
    option ((Run * option string) * option S * option Collector) :=
  match ValidateWorkflow (re_validate_ord env) workflow with
  | None => None
  | Some (Err err) => Some ((Run_zero, Some err), store, metrics)
  | Some (Ok _) =>
      let run := start_run workflow forcedRunID requestID in
      let store := (save_run run store).2 in
      st ← main_loop workflow registry (re_clk env) (re_ords env) (re_tfuel env)
             (re_fuel env) (re_events env) (init workflow (re_ords env));
      run ← finish workflow run st;
      match save_run run store with
      | (Err err, store) => Some ((run, Some err), store, metrics)
      | (Ok _, store) => Some ((run, None), store, record_metrics run metrics)
      end
  end.
Definition RunWithID := runWithID.
End run.

(** ** Facts *)

Lemma existsb_failed l :
  existsb (λ r, bool_decide (res_Status r = TaskStatusFailed)) l = true ↔
  ∃ r, r ∈ l ∧ res_Status r = TaskStatusFailed.
Proof.
  rewrite existsb_exists. setoid_rewrite bool_decide_eq_true.
  by setoid_rewrite <-list_elem_of_In.
Qed.

(** The final status does not depend on the iteration order. *)
Lemma deriveFinalStatus_spec ord (results : gmap string TaskResult) :
  results ≠ ∅ →
  (deriveFinalStatus ord results = RunStatusFailed ∧
   ∃ id r, results !! id = Some r ∧ res_Status r = TaskStatusFailed) ∨
  (deriveFinalStatus ord results = RunStatusSuccess ∧
   ∀ id r, results !! id = Some r → res_Status r ≠ TaskStatusFailed).
Proof.
  intros Hne. unfold deriveFinalStatus.
  rewrite (proj2 (Nat.eqb_neq (size results) 0)) by (by rewrite map_size_empty_iff).
  destruct (existsb _ _) eqn:E; [left|right]; (split; [done|]).
  - apply existsb_failed in E as (r & (id & Hid)%elem_of_iter_values & Hf). eauto.
  - intros id r Hr Hf. rewrite <-not_true_iff_false, existsb_failed in E. apply E.
    exists r. split; [|done]. apply elem_of_iter_values. eauto.
Qed.
Lemma first_error_spec l :
  (∃ r, r ∈ l ∧ res_Status r = TaskStatusFailed) →
  ∃ r, r ∈ l ∧ res_Status r = TaskStatusFailed ∧
    first_error l = if decide (res_Error r = "") then "task failed without explicit error"
                    else res_Error r.
Proof.
  induction l as [|r l IH]; [by intros (r & ?%elem_of_nil & _)|].
  intros (r' & Hr' & Hf). simpl. case_bool_decide as Hr.
  - exists r. split; [by left|]. split; [done|]. by repeat case_decide; repeat case_bool_decide.
  - apply elem_of_cons in Hr' as [->|Hr']; [done|].
    destruct IH as (r0 & ? & ? & ?); [by eauto|]. exists r0. split; [by right|done].
Qed.

Lemma mark_lookup tasks results reason now id :
  let results' := foldl (skip_unfinished reason now) results tasks in
  (∀ r, results !! id = Some r → results' !! id = Some r) ∧
  (results !! id = None → id ∉ task_ids tasks → results' !! id = None) ∧
  (results !! id = None → id ∈ task_ids tasks →
     ∃ r, results' !! id = Some r ∧ res_TaskID r = id ∧
       res_Status r = TaskStatusSkipped ∧ res_Error r = reason ∧ res_Attempts r = 0).
Proof.
  revert results; induction tasks as [|t tasks IH]; intros results; simpl.
  { split_and!; try done. by intros _ ?%elem_of_nil. }
  destruct (IH (skip_unfinished reason now results t)) as (H1 & H2 & H3). clear IH.
  assert (Hstep : ∀ i, i ≠ task_ID t →
    skip_unfinished reason now results t !! i = results !! i).
  { intros i Hi. unfold skip_unfinished. destruct (results !! task_ID t); [done|].
    by rewrite lookup_insert_ne. }
  split_and!.
  - intros r Hr. apply H1. unfold skip_unfinished. destruct (results !! task_ID t) eqn:E; [done|].
    rewrite lookup_insert_ne; [done|]. congruence.
  - intros Hn [Hne Hni]%not_elem_of_cons. apply H2; [|done]. by rewrite Hstep.
  - intros Hn [->|Hin]%elem_of_cons.
    + eexists. split; [apply H1; unfold skip_unfinished; rewrite Hn;
        apply lookup_insert_eq|done].
    + destruct (decide (id = task_ID t)) as [->|Hne].
      * eexists. split; [apply H1; unfold skip_unfinished; rewrite Hn;
          apply lookup_insert_eq|done].
      * apply H3; [by rewrite Hstep|done].
Qed.

(** ** The compensation plan *)

Section plan.
Context (results : gmap string TaskResult).
Abbreviation less := (compensation_less results).

(** [a] may be compensated before [b]. *)
Lemma compensation_le_spec a b :
  sorted_le less a b ↔
  let fa := res_FinishedAt (default TaskResult_zero (results !! task_ID a)) in
  let fb := res_FinishedAt (default TaskResult_zero (results !! task_ID b)) in
  fb < fa ∨ (fa = fb ∧ str_ltb (task_ID a) (task_ID b) = false).
Proof.
  unfold sorted_le, compensation_less, time_Equal, After. cbv zeta.
  generalize (res_FinishedAt (default TaskResult_zero (results !! task_ID a))) as fa.
  generalize (res_FinishedAt (default TaskResult_zero (results !! task_ID b))) as fb.
  intros fb fa.
  destruct (Z.eqb_spec fb fa) as [->|Hne]; [intuition (lia || done)|].
  destruct (Z.ltb_spec fa fb); intuition (lia || done).
Qed.
Lemma compensation_less_asym a b : less a b = true → less b a = false.
Proof.
  unfold compensation_less, time_Equal, After.
  generalize (res_FinishedAt (default TaskResult_zero (results !! task_ID a))) as fa.
  generalize (res_FinishedAt (default TaskResult_zero (results !! task_ID b))) as fb.
  intros fb fa.
  destruct (Z.eqb_spec fa fb) as [->|Hne].
  - rewrite Z.eqb_refl. apply str_ltb_asym.
  - rewrite (proj2 (Z.eqb_neq fb fa)) by done. rewrite Z.ltb_lt, Z.ltb_ge. lia.
Qed.
Lemma compensation_le_trans a b c :
  sorted_le less a b → sorted_le less b c → sorted_le less a c.
Proof.
  rewrite !compensation_le_spec. cbv zeta. intros [?|[? H1]] [?|[? H2]]; [left; lia..|].
  right. split; [lia|]. by eapply str_le_trans.
Qed.
Lemma compensation_le_antisym a b :
  sorted_le less a b → sorted_le less b a → task_ID a = task_ID b.
Proof.
  rewrite !compensation_le_spec. cbv zeta. intros [?|[? H1]] [?|[? H2]]; [lia..|].
  by apply str_le_antisym.
Qed.

(** What makes a task eligible. *)
Definition eligible (t : TaskNode) : Prop :=
  (∃ r, results !! task_ID t = Some r ∧ res_Status r = TaskStatusSuccess) ∧
  TrimSpace (comp_Action (task_Compensation t)) ≠ "".

Lemma add_eligible_fold (m : gmap string TaskNode) kvs acc :
  (∀ id t, m !! id = Some t → task_ID t = id) →
  NoDup kvs.*1 →
  (∀ t, t ∈ acc → task_ID t ∉ kvs.*1) → NoDup (task_ids acc) →
  let l := foldl (add_eligible m) acc kvs in
  NoDup (task_ids l) ∧
  ∀ t, t ∈ l ↔ t ∈ acc ∨ (m !! task_ID t = Some t ∧
    (∃ r, (task_ID t, r) ∈ kvs ∧ res_Status r = TaskStatusSuccess) ∧
    TrimSpace (comp_Action (task_Compensation t)) ≠ "").
Proof.
  intros Hm. revert acc; induction kvs as [|[id r] kvs IH]; intros acc Hnd Hfresh Hacc; simpl.
  { split; [done|]. intros t. setoid_rewrite elem_of_nil. naive_solver. }
  apply NoDup_cons in Hnd as [Hid Hnd]. simpl in Hfresh.
  assert (Hkeep : ∀ acc', (∀ t, t ∈ acc' ↔ t ∈ acc ∨ (m !! task_ID t = Some t ∧ task_ID t = id ∧
      res_Status r = TaskStatusSuccess ∧ TrimSpace (comp_Action (task_Compensation t)) ≠ "")) →
    NoDup (task_ids acc') →
    let l := foldl (add_eligible m) acc' kvs in
    NoDup (task_ids l) ∧ ∀ t, t ∈ l ↔ t ∈ acc ∨ (m !! task_ID t = Some t ∧
      (∃ r', (task_ID t, r') ∈ (id, r) :: kvs ∧ res_Status r' = TaskStatusSuccess) ∧
      TrimSpace (comp_Action (task_Compensation t)) ≠ "")).
  { intros acc' Hacc' Hnd'. destruct (IH acc') as [H1 H2]; [done| |done|].
    - intros t [Ht|(_ & -> & _)]%Hacc'; [|done]. apply Hfresh in Ht. set_solver.
    - split; [done|]. intros t. rewrite H2, Hacc'. setoid_rewrite elem_of_cons. naive_solver. }
  enough (Hadd : (∀ t, t ∈ add_eligible m acc (id, r) ↔ t ∈ acc ∨ (m !! task_ID t = Some t ∧
      task_ID t = id ∧ res_Status r = TaskStatusSuccess ∧
      TrimSpace (comp_Action (task_Compensation t)) ≠ "")) ∧
    NoDup (task_ids (add_eligible m acc (id, r)))) by (apply Hkeep; apply Hadd).
  unfold add_eligible. simpl.
  case_bool_decide as Hs; [split; [naive_solver|done]|].
  destruct (m !! id) as [t|] eqn:Hl; [|split; [naive_solver congruence|done]].
  pose proof (Hm _ _ Hl) as Ht.
  case_bool_decide as Ha; [split; [naive_solver congruence|done]|]. split.
  - intros t'. rewrite elem_of_app, list_elem_of_singleton. naive_solver congruence.
  - unfold task_ids. rewrite fmap_app. simpl. apply NoDup_app. split_and!; [done| |].
    + intros i (t' & -> & Ht')%list_elem_of_fmap Heq.
      apply list_elem_of_singleton in Heq. apply (Hfresh _ Ht'). rewrite Heq, Ht. by left.
    + apply NoDup_singleton.
Qed.
End plan.

Lemma tasksByID_lookup tasks id t :
  NoDup (task_ids tasks) →
  index_tasks (λ t, t) tasks !! id = Some t ↔ t ∈ tasks ∧ task_ID t = id.
Proof.
  intros Hnd. split.
  - intros Hl. destruct (decide (id ∈ task_ids tasks)) as [Hin|Hni].
    + apply list_elem_of_fmap in Hin as (t' & -> & Ht').
      rewrite (index_tasks_in (λ t, t)) in Hl by done. by injection Hl as <-.
    + by rewrite index_tasks_notin in Hl.
  - intros [Ht <-]. by apply (index_tasks_in (λ t, t)).
Qed.

Lemma compensation_plan_spec ord workflow (results : gmap string TaskResult) :
  NoDup (task_ids (wf_Tasks workflow)) →
  let plan := compensation_plan ord workflow results in
  NoDup (task_ids plan) ∧
  (∀ t, t ∈ plan ↔ t ∈ wf_Tasks workflow ∧ eligible results t) ∧
  StronglySorted (sorted_le (compensation_less results)) plan.
Proof.
  intros Hnd plan. unfold plan, compensation_plan.
  destruct (add_eligible_fold (index_tasks id (wf_Tasks workflow)) (iter ord results) [])
    as [H1 H2].
  - intros i t Hl. by apply (tasksByID_lookup _ _ _ Hnd) in Hl as [_ ?].
  - apply NoDup_iter_keys.
  - by intros t ?%elem_of_nil.
  - constructor.
  - split; [|split].
    + unfold task_ids. by rewrite sort_slice_perm.
    + intros t. rewrite elem_of_sort_slice, H2. setoid_rewrite elem_of_iter.
      rewrite (tasksByID_lookup _ _ _ Hnd). unfold eligible. rewrite elem_of_nil. naive_solver.
    + apply sort_slice_sorted; [apply compensation_less_asym|apply compensation_le_trans].
Qed.
(** The plan does not depend on the iteration order. *)
Lemma compensation_plan_order ord ord' workflow (results : gmap string TaskResult) :
  NoDup (task_ids (wf_Tasks workflow)) →
  compensation_plan ord workflow results = compensation_plan ord' workflow results.
Proof.
  intros Hnd.
  destruct (compensation_plan_spec ord workflow results Hnd) as (Hn1 & Hin1 & Hs1).
  destruct (compensation_plan_spec ord' workflow results Hnd) as (Hn2 & Hin2 & Hs2).
  apply (StronglySorted_unique_strong (sorted_le (compensation_less results))); [|done..|].
  - intros x y [Hx _]%Hin1 [Hy _]%Hin2 H1 H2.
    pose proof (compensation_le_antisym results x y H1 H2) as Hid.
    apply (tasksByID_lookup _ (task_ID y) x) in Hnd as Hl.
    pose proof (proj2 Hl (conj Hx Hid)) as Hlx.
    pose proof (proj2 (tasksByID_lookup _ (task_ID y) y Hnd) (conj Hy eq_refl)). congruence.
  - apply NoDup_Permutation.
    + by eapply NoDup_fmap_1.
    + by eapply NoDup_fmap_1.
    + intros t. by rewrite Hin1, Hin2.
Qed.

Section run_all_facts.
Context `{!Quote}.
Context (registry : Registry) (tfuel : nat).

Lemma runCompensationTask_result ord tr task all r :
  runCompensationTask registry tfuel ord tr task all = Some r →
  res_TaskID r = task_ID task +:+ ".compensation" ∧ res_Attempts r = 1 ∧
  (res_Status r = TaskStatusSuccess ∨ res_Status r = TaskStatusFailed).
Proof.
  unfold runCompensationTask. destruct (Get _ _) as [action|]; [|intros [= <-]; by auto].
  destruct (resolveInputTemplates _ _ _ _) as [[input|e]|]; [|intros [= <-]; by auto|done].
  destruct (action _ input); intros [= <-]; by auto.
Qed.
(** One compensation result per task of the plan, in the order of the plan. *)
Lemma run_all_results ords trs all plan k rs :
  run_all registry tfuel ords trs all plan k = Some rs →
  res_TaskID <$> rs = (λ t, task_ID t +:+ ".compensation") <$> plan ∧
  Forall (λ r, res_Status r = TaskStatusSuccess ∨ res_Status r = TaskStatusFailed) rs.
Proof.
  revert k rs; induction plan as [|t plan IH]; intros k rs; simpl; [by intros [= <-]|].
  destruct (runCompensationTask _ _ _ _ _ _) as [r|] eqn:Hr; [|done]. simpl.
  destruct (run_all _ _ _ _ _ plan _) as [rs'|] eqn:Hrs; [|done]. simpl. intros [= <-].
  apply runCompensationTask_result in Hr as (HID & _ & Hst).
  destruct (IH _ _ Hrs) as [IH1 IH2]. simpl. split; [by f_equal|by constructor].
Qed.
End run_all_facts.
