(* ===== verification/RunProps.v ===== *)
(** * internal/engine/executor.go: the properties of a run

    What [RunWithID] returns and stores for a validated workflow, in every
    environment in which it returns: its results, its status and error, its
    compensations. *)

From S2P Require Import Prelude GoLib Domain Graph Template Actions RunTask Interfaces Telemetry.
From S2P Require Import Store Executor ExecutorInv ExecutorLoop ExecutorProps Run.
Local Open Scope Z_scope.

(** ** From the end of the loop to the run *)

Section finish.
Context `{!Quote}.
Context (registry : Registry) (env : run_env).

(** The results that the run ends with. *)
Definition final_results (workflow : Workflow) (st : loop_state) : gmap string TaskResult :=
  markUnfinishedTasksAsSkipped (wf_Tasks workflow) (ls_results st) (ls_error st)
    (re_now env 2%nat).
(** Its status and error. *)
Definition final_status (st : loop_state) (results : gmap string TaskResult) : RunStatus :=
  if decide (ls_status st = RunStatusRunning)
  then deriveFinalStatus (re_final_ord env 0%nat) results else ls_status st.
Definition final_error (st : loop_state) (results : gmap string TaskResult) : string :=
  if decide (ls_status st = RunStatusRunning ∧ final_status st results = RunStatusFailed)
  then firstTaskError (re_final_ord env 1%nat) results else ls_error st.
(** Whether the run is compensated. *)
Definition compensates (workflow : Workflow) (status : RunStatus) : bool :=
  (bool_decide (status = RunStatusFailed) || bool_decide (status = RunStatusCancelled))
    && wf_CompensateOnFailure workflow.

Lemma final_done st results :
  ls_status st ≠ RunStatusRunning →
  final_status st results = ls_status st ∧ final_error st results = ls_error st.
Proof.
  intros Hs. unfold final_error. rewrite (decide_False (P := _ ∧ _)) by tauto.
  split; [|done]. unfold final_status. by rewrite decide_False.
Qed.

Lemma finish_spec workflow run st run' :
  finish registry env workflow run st = Some run' →
  let results := final_results workflow st in
  let status := final_status st results in
  run_ID run' = run_ID run ∧ run_WorkflowID run' = run_WorkflowID run ∧
  run_RequestID run' = run_RequestID run ∧ run_Results run' = results ∧
  run_Status run' = status ∧ run_Error run' = final_error st results ∧
  (if compensates workflow status then
     run_all registry (re_tfuel env) (re_comp_ords env) (re_comp_trs env) results
       (compensation_plan (re_final_ord env 2%nat) workflow results) 0 =
       Some (run_CompensationResults run') ∧
     run_CompensationStatus run' = deriveCompensationStatus (run_CompensationResults run')
   else run_CompensationResults run' = run_CompensationResults run ∧
     run_CompensationStatus run' =
       if decide (status = RunStatusSuccess) then CompensationStatusNotRequired
       else CompensationStatusSkipped).
Proof.
  unfold finish, compensates, final_error. cbv zeta. simpl. fold (final_results workflow st).
  generalize (final_results workflow st) as results. intros results.
  set (d := if bool_decide (ls_status st = RunStatusRunning) then _ else _).
  assert (Hd : run_ID d = run_ID run ∧ run_WorkflowID d = run_WorkflowID run ∧
    run_RequestID d = run_RequestID run ∧ run_Results d = results ∧
    run_Status d = final_status st results ∧ run_Error d = final_error st results ∧
    run_CompensationResults d = run_CompensationResults run).
  { unfold d, final_error, final_status.
    destruct (decide (ls_status st = RunStatusRunning)) as [Hs|Hs].
    - rewrite bool_decide_true by done. case_bool_decide as Hf; simpl in *.
      + by rewrite decide_True.
      + by rewrite decide_False by naive_solver.
    - rewrite bool_decide_false by done. simpl. by rewrite decide_False by naive_solver. }
  clearbody d. destruct Hd as (H1 & H2 & H3 & H4 & H5 & H6 & H7).
  fold (final_error st results). rewrite H5.
  destruct (_ && wf_CompensateOnFailure workflow) eqn:Hc.
  - unfold runCompensation. rewrite H4.
    destruct (run_all _ _ _ _ _ _ _) as [rs|]; [|done]. simpl. by intros [= <-].
  - destruct (decide (final_status st results = RunStatusSuccess)) as [Hs|Hs];
      [rewrite bool_decide_true by done|rewrite bool_decide_false by done];
      intros Heq; apply (inj Some) in Heq as <-; by repeat split.
Qed.
End finish.

Lemma final_results_lookup env workflow st id :
  let results := final_results env workflow st in
  (∀ r, ls_results st !! id = Some r → results !! id = Some r) ∧
  (ls_results st !! id = None → id ∉ task_ids (wf_Tasks workflow) → results !! id = None) ∧
  (ls_results st !! id = None → id ∈ task_ids (wf_Tasks workflow) →
     ∃ r, results !! id = Some r ∧ res_TaskID r = id ∧ res_Status r = TaskStatusSkipped ∧
       res_Error r = (if decide (ls_error st = "") then "not executed" else ls_error st) ∧
       res_Attempts r = 0).
Proof.
  unfold final_results, markUnfinishedTasksAsSkipped.
  replace (if bool_decide (ls_error st = "") then "not executed" else ls_error st)
    with (if decide (ls_error st = "") then "not executed" else ls_error st)
    by (case_decide; case_bool_decide; done).
  apply mark_lookup.
Qed.

Section run.
Context `{!Quote} {S : Type} `{!WorkflowStore S}.
Context (registry : Registry) (env : run_env) (workflow : Workflow).
Hypothesis Hwf : well_formed (wf_Tasks workflow).
Abbreviation tasks := (wf_Tasks workflow).
Abbreviation reachable :=
  (reachable workflow registry (re_clk env) (re_ords env) (re_tfuel env)).
Abbreviation loop_ends :=
  (loop_ends workflow registry (re_clk env) (re_ords env) (re_tfuel env) (re_events env)).

(** The state the loop ends in, and the reachable state whose results and
    goroutines it holds. *)
Lemma loop_ends_state st :
  loop_ends st →
  ∃ st0, reachable st0 ∧ inv workflow registry (re_tfuel env) st0 ∧
    ls_results st = ls_results st0 ∧ ls_running st = ls_running st0 ∧
    ((st = st0 ∧ ls_completed st0 = total workflow) ∨
     (∃ err, EvDone err ∈ re_events env ∧ st = on_done err st0)).
Proof using Hwf.
  intros [[Hr Hc]|(err & st0 & Hev & Hr & _ & _ & _ & ->)].
  - exists st. split; [done|]. split; [by eapply inv_reachable|]. auto.
  - exists st0. split; [done|]. split; [by eapply inv_reachable|].
    unfold on_done. destruct (ls_failFastTriggered st0) eqn:E; simpl; eauto 10.
Qed.

Lemma runWithID_returned forced requestID store metrics run err store' metrics' :
  wf_ID workflow ≠ "" →
  runWithID registry env workflow forced requestID store metrics =
    Some ((run, err), store', metrics') →
  let run0 := start_run env workflow forced requestID in
  ∃ st r, loop_ends st ∧ finish registry env workflow run0 st = Some run ∧
    save_run run (save_run run0 store).2 = (r, store') ∧
    err = (match r with Ok _ => None | Err e => Some e end) ∧
    metrics' = (match r with Ok _ => record_metrics env run metrics | Err _ => metrics end).
Proof using Hwf.
  intros HID. unfold runWithID.
  rewrite (proj2 (ValidateWorkflow_ok (re_validate_ord env) workflow)) by done.
  destruct (main_loop _ _ _ _ _ _ _ _) as [st|] eqn:Hm; [|done]. simpl.
  destruct (finish _ _ _ _ st) as [run1|] eqn:Hf; [|done]. simpl.
  destruct (save_run run1 _) as [r s1] eqn:Hs. intros Hret.
  exists st, r. split; [eapply main_loop_sound; [done| |exact Hm]; apply rtc_refl|].
  destruct r; by simplify_eq.
Qed.

(** Every task of the workflow, and nothing else, ends with a result. *)
Lemma final_results_dom st st0 id :
  inv workflow registry (re_tfuel env) st0 → ls_results st = ls_results st0 →
  is_Some (final_results env workflow st !! id) ↔ id ∈ task_ids tasks.
Proof using Hwf.
  intros Hi Heq. destruct (final_results_lookup env workflow st id) as (H1 & H2 & H3).
  destruct (ls_results st !! id) as [r|] eqn:E.
  - rewrite (H1 r eq_refl). split; [|by eexists]. intros _. rewrite Heq in E.
    by apply (inv_known workflow registry (re_tfuel env) st0 id r).
  - destruct (decide (id ∈ task_ids tasks)) as [Hin|Hni].
    + destruct (H3 eq_refl Hin) as (r & -> & _). split; [done|]. by eexists.
    + rewrite (H2 eq_refl Hni). split; [by intros [? ?]|done].
Qed.
Lemma final_results_status st st0 id r :
  inv workflow registry (re_tfuel env) st0 → ls_results st = ls_results st0 →
  final_results env workflow st !! id = Some r →
  res_TaskID r = id ∧ (res_Status r = TaskStatusSuccess ∨ res_Status r = TaskStatusFailed ∨
                       res_Status r = TaskStatusSkipped).
Proof using Hwf.
  intros Hi Heq Hr. destruct (final_results_lookup env workflow st id) as (H1 & H2 & H3).
  destruct (ls_results st !! id) as [r'|] eqn:E.
  - rewrite (H1 r' eq_refl) in Hr. injection Hr as ->. rewrite Heq in E.
    destruct (inv_results _ _ _ _ Hi _ _ E) as (? & snap & _ & Hex). split; [done|].
    destruct (explains_status _ _ _ _ _ _ Hex) as [?|[[?|?] _]]; auto.
  - assert (Hin : id ∈ task_ids tasks).
    { apply (final_results_dom st st0 id Hi Heq). by eexists. }
    destruct (H3 eq_refl Hin) as (r' & Hr' & HID & Hs & _).
    rewrite Hr in Hr'. injection Hr' as <-. auto.
Qed.
Lemma final_results_ne st st0 :
  inv workflow registry (re_tfuel env) st0 → ls_results st = ls_results st0 →
  final_results env workflow st ≠ ∅.
Proof using Hwf.
  intros Hi Heq Hemp. pose proof (wellf_nonempty _ Hwf) as Hne.
  assert (∃ t, t ∈ tasks) as [t Ht].
  { clear -Hne. destruct (wf_Tasks workflow) as [|t ?]; [done|]. exists t. by left. }
  assert (Hin : task_ID t ∈ task_ids tasks) by by apply list_elem_of_fmap_2.
  apply (final_results_dom st st0 _ Hi Heq) in Hin as [r Hr].
  by rewrite Hemp, lookup_empty in Hr.
Qed.
End run.

(** ** Properties of a run *)

(** Why a run has the status it has. *)
Definition status_explained (env : run_env) (run : Run) : Prop :=
  (run_Status run = RunStatusSuccess ∧ run_Error run = "" ∧
     ∀ id r, run_Results run !! id = Some r → res_Status r ≠ TaskStatusFailed) ∨
  (run_Status run = RunStatusFailed ∧
     ∃ id r, run_Results run !! id = Some r ∧ res_Status r = TaskStatusFailed ∧
       (run_Error run = "fail-fast: stopped after critical task failure" ∨
        run_Error run = if decide (res_Error r = "")
                        then "task failed without explicit error" else res_Error r)) ∨
  (run_Status run = RunStatusCancelled ∧ EvDone (run_Error run) ∈ re_events env).

Lemma finish_status `{!Quote} registry env workflow run0 st run :
  well_formed (wf_Tasks workflow) →
  loop_ends workflow registry (re_clk env) (re_ords env) (re_tfuel env) (re_events env) st →
  finish registry env workflow run0 st = Some run → status_explained env run.
Proof.
  intros Hwf Hends Hfin.
  destruct (loop_ends_state registry env workflow Hwf st Hends)
    as (st0 & Hr & Hi & Hres & _ & Hcase).
  destruct (finish_spec registry env workflow _ st run Hfin)
    as (_ & _ & _ & F4 & F5 & F6 & _).
  unfold status_explained. rewrite F4, F5, F6.
  pose proof (final_results_ne registry env workflow Hwf st st0 Hi Hres) as Hne.
  destruct Hcase as [[-> _]|(e & Hev & ->)].
  - destruct (inv_status _ _ _ _ Hi) as [Hst Herr].
    unfold final_error, final_status. rewrite decide_True by done.
    destruct (deriveFinalStatus_spec (re_final_ord env 0%nat) _ Hne) as [[-> Hf]|[-> Hn]].
    + right. left. split; [done|]. rewrite decide_True by done. unfold firstTaskError.
      destruct (first_error_spec (iter_values (re_final_ord env 1%nat) (final_results env workflow st0)))
        as (x & (id & Hx)%elem_of_iter_values & Hxf & ->).
      { destruct Hf as (id & x & Hx & Hxf). exists x. split; [|done].
        apply elem_of_iter_values. by eexists. }
      exists id, x. auto.
    + left. split; [done|]. rewrite decide_False by (intros [_ ?]; done_status). by split.
  - right. destruct (final_done env (on_done e st0) (final_results env workflow (on_done e st0)))
      as [-> ->]; [unfold on_done; destruct (ls_failFastTriggered st0); simpl; done_status|].
    revert Hres. unfold on_done. destruct (ls_failFastTriggered st0) eqn:Eff; simpl; intros Hres.
    + left. split; [done|].
      destruct (reachable_failFast _ _ _ _ _ Hwf _ Hr Eff) as (_ & id & x & Hx & Hxf & _).
      exists id, x. split; [|by auto].
      eapply (proj1 (final_results_lookup env workflow _ id)). done.
    + right. split; [done|]. done.
Qed.

(** C8. The outcome of a run.  For a validated workflow, whenever [RunWithID]
    returns, the run has exactly one result for each task of the workflow, each
    SUCCESS, FAILED or SKIPPED and filed under its task; the run is SUCCESS only
    if no task failed, FAILED only if one did - and then its error is the
    fail-fast message or the error of a failed task - and CANCELLED only if the
    context ended, whose error it carries. *)
Theorem run_outcome `{!Quote} {S} `{!WorkflowStore S} registry env workflow forced requestID
    store metrics run err (store' : option S) metrics' :
  wf_ID workflow ≠ "" → well_formed (wf_Tasks workflow) →
  runWithID registry env workflow forced requestID store metrics =
    Some ((run, err), store', metrics') →
  run_WorkflowID run = wf_ID workflow ∧ run_RequestID run = requestID ∧
  (TrimSpace forced ≠ "" → run_ID run = forced) ∧
  (∀ id, is_Some (run_Results run !! id) ↔ id ∈ task_ids (wf_Tasks workflow)) ∧
  (∀ id r, run_Results run !! id = Some r → res_TaskID r = id ∧
     (res_Status r = TaskStatusSuccess ∨ res_Status r = TaskStatusFailed ∨
      res_Status r = TaskStatusSkipped)) ∧
  status_explained env run.
Proof.
  intros HID Hwf Hret.
  destruct (runWithID_returned registry env workflow Hwf _ _ _ _ _ _ _ _ HID Hret)
    as (st & r & Hends & Hfin & _).
  destruct (loop_ends_state registry env workflow Hwf st Hends) as (st0 & _ & Hi & Hres & _).
  destruct (finish_spec registry env workflow _ st run Hfin) as (F1 & F2 & F3 & F4 & _).
  split; [done|]. split; [done|]. split.
  { intros Hf. rewrite F1. unfold start_run. simpl. by rewrite bool_decide_false. }
  split; [intros id; rewrite F4; by eapply final_results_dom|].
  split; [intros id x; rewrite F4; by eapply final_results_status|].
  by eapply finish_status.
Qed.

#[local] Existing Instance Sample.quote_id.
Module RunSample.
Definition env (events : list event) : run_env :=
  mkRunEnv (λ k, unix_epoch + Z.of_nat k) Sample.clk canonical_order Sample.ords Sample.ords
    Sample.ords events (λ k, mkCompTrace 100 (mkExecEnv None 0 0) 200) 10 10.
Definition events : list event :=
  [EvResult "a" Sample.trace; EvResult "b" Sample.trace; EvResult "e" Sample.trace].
Definition go (events : list event) :=
  runWithID Sample.registry (env events) Sample.workflow "" "req-1" (Some NewMemoryStore)
    (Some NewCollector).
Definition run (events : list event) : Run :=
  match go events with Some ((run, _), _, _) => run | None => Run_zero end.
Definition store (events : list event) : option MemoryStore :=
  match go events with Some (_, s, _) => s | None => None end.
Definition metrics (events : list event) : option Collector :=
  match go events with Some (_, _, m) => m | None => None end.
Lemma run_returned : runWithID Sample.registry (env events) Sample.workflow "" "req-1"
  (Some NewMemoryStore) (Some NewCollector) =
  Some ((run events, None), store events, metrics events).
Proof.
  fold (go events).
  assert (Hgo : ∀ g, g = go events → (g ≫= λ r, r.1.1.2) = None → g ≠ None →
    go events = Some ((run events, None), store events, metrics events)).
  { intros g Hg. unfold run, store, metrics. rewrite <-Hg. clear Hg.
    destruct g as [[[[r [e|]] s] m]|]; simpl; [discriminate|reflexivity|congruence]. }
  apply (Hgo _ eq_refl); vm_compute; [reflexivity|discriminate].
Qed.
End RunSample.

Lemma run_outcome_witness :
  let run := RunSample.run RunSample.events in
  run_Status run = RunStatusFailed ∧
  (∀ id, is_Some (run_Results run !! id) ↔ id ∈ task_ids (wf_Tasks Sample.workflow)).
Proof.
  intros run. split; [vm_compute; reflexivity|].
  apply (run_outcome Sample.registry (RunSample.env RunSample.events) Sample.workflow "" "req-1"
    (Some NewMemoryStore) (Some NewCollector) run None (RunSample.store RunSample.events)
    (RunSample.metrics RunSample.events)).
  - done.
  - apply Sample.sample_well_formed.
  - exact RunSample.run_returned.
Defined.

(** When a task is compensated before another: it finished later, or they finished together
    and its ID is not the smaller one. *)
Definition compensated_before (results : gmap string TaskResult) (a b : TaskNode) : Prop :=
  ∃ ra rb, results !! task_ID a = Some ra ∧ results !! task_ID b = Some rb ∧
    (res_FinishedAt rb < res_FinishedAt ra ∨
     (res_FinishedAt ra = res_FinishedAt rb ∧ str_ltb (task_ID a) (task_ID b) = false)).
Lemma plan_order results plan :
  (∀ t, t ∈ plan → eligible results t) →
  StronglySorted (sorted_le (compensation_less results)) plan →
  StronglySorted (compensated_before results) plan.
Proof.
  intros Hel. induction 1 as [|a plan _ IH Ha]; constructor.
  { apply IH. intros t Ht. apply Hel. by right. }
  apply Forall_forall. intros b Hb. rewrite Forall_forall in Ha. specialize (Ha b Hb).
  destruct (Hel a) as [(ra & Hra & _) _]; [by left|].
  destruct (Hel b) as [(rb & Hrb & _) _]; [by right|].
  apply compensation_le_spec in Ha. cbv zeta in Ha. rewrite Hra, Hrb in Ha. simpl in Ha.
  by exists ra, rb.
Qed.

(** C9. Compensation.  A failed or cancelled run of a workflow that asks for it
    compensates exactly the tasks that succeeded and name a compensation action,
    each once, one after the other, the task that finished last first (ties by
    descending ID), independently of the map order; the compensation status says
    whether one of them failed.  No other run compensates anything. *)
Theorem run_compensation `{!Quote} {S} `{!WorkflowStore S} registry env workflow forced requestID
    store metrics run err (store' : option S) metrics' :
  wf_ID workflow ≠ "" → well_formed (wf_Tasks workflow) →
  runWithID registry env workflow forced requestID store metrics =
    Some ((run, err), store', metrics') →
  let comps := run_CompensationResults run in
  if (bool_decide (run_Status run = RunStatusFailed)
      || bool_decide (run_Status run = RunStatusCancelled)) && wf_CompensateOnFailure workflow
  then
    ∃ plan,
      res_TaskID <$> comps = (λ t, task_ID t +:+ ".compensation") <$> plan ∧
      NoDup (task_ids plan) ∧
      (∀ t, t ∈ plan ↔ t ∈ wf_Tasks workflow ∧ eligible (run_Results run) t) ∧
      StronglySorted (compensated_before (run_Results run)) plan ∧
      (∀ ord, plan = compensation_plan ord workflow (run_Results run)) ∧
      run_CompensationStatus run =
        if decide (comps = []) then CompensationStatusSkipped
        else if decide (Exists (λ r, res_Status r = TaskStatusFailed) comps)
        then CompensationStatusFailed else CompensationStatusSuccess
  else comps = [] ∧
    run_CompensationStatus run =
      if decide (run_Status run = RunStatusSuccess) then CompensationStatusNotRequired
      else CompensationStatusSkipped.
Proof.
  intros HID Hwf Hret comps.
  destruct (runWithID_returned registry env workflow Hwf _ _ _ _ _ _ _ _ HID Hret)
    as (st & r & _ & Hfin & _).
  destruct (finish_spec registry env workflow _ st run Hfin) as (_ & _ & _ & F4 & F5 & _ & F7).
  rewrite F4, F5. unfold compensates in F7. destruct (_ && wf_CompensateOnFailure workflow).
  - destruct F7 as [Hall Hst]. pose proof (wellf_nodup _ Hwf) as Hnd.
    exists (compensation_plan (re_final_ord env 2%nat) workflow (final_results env workflow st)).
    destruct (run_all_results _ _ _ _ _ _ _ _ Hall) as [Hids _].
    destruct (compensation_plan_spec (re_final_ord env 2%nat) workflow (final_results env workflow st) Hnd)
      as (P1 & P2 & P3).
    split_and!; try done; [apply plan_order; [intros t; by apply P2|done]
                          |intros ord; by apply compensation_plan_order|].
    rewrite Hst. fold comps. unfold deriveCompensationStatus.
    destruct comps as [|c cs] eqn:Ec; [done|]. rewrite <-Ec. rewrite decide_False by (by rewrite Ec).
    rewrite (proj2 (Nat.eqb_neq (length comps) 0)) by (by rewrite Ec).
    destruct (existsb _ comps) eqn:Ex.
    + apply existsb_failed in Ex as (x & Hx & Hf). rewrite decide_True; [done|].
      apply Exists_exists. eauto.
    + rewrite decide_False; [done|]. intros (x & Hx & Hf)%Exists_exists.
      rewrite <-not_true_iff_false, existsb_failed in Ex. apply Ex. eauto.
  - exact F7.
Qed.
(** [p] finishes at 40, [q] and [x] at 30, [f] fails. *)
Module CompSample.
Definition workflow : Workflow := mkWorkflow "w" "" "" "" 4 false true 0
  [Sample.node "p" "print" [] "" ∅; Sample.node "q" "print" [] "" ∅;
   Sample.node "x" "print" [] "" ∅; Sample.node "f" "randomFail" [] "" (<["failPercent" := "100"]> ∅)].
Definition until (n : time) : task_trace := mkTaskTrace 10 [mkAttempt (mkExecEnv None 0 0) None] n.
Definition env : run_env := RunSample.env
  [EvResult "q" (until 30); EvResult "p" (until 40); EvResult "x" (until 30); EvResult "f" (until 50)].
Definition go := runWithID Sample.registry env workflow "" "" (None : option MemoryStore) None.
Definition run : Run := match go with Some ((run, _), _, _) => run | None => Run_zero end.
Lemma returned : runWithID Sample.registry env workflow "" "" (None : option MemoryStore) None =
  Some ((run, None), None, None).
Proof.
  fold go.
  assert (Hgo : ∀ g, g = go →
    (match g with Some ((_, None), None, None) => true | _ => false end) = true →
    go = Some ((run, None), None, None)).
  { intros g Hg. unfold run. rewrite <-Hg. clear Hg. by destruct g as [[[[r []] []] []]|]. }
  apply (Hgo _ eq_refl). vm_compute. reflexivity.
Qed.
Lemma wellf : well_formed (wf_Tasks workflow).
Proof. apply (proj1 (ValidateWorkflow_ok canonical_order workflow)). vm_compute. reflexivity. Qed.
End CompSample.
Lemma run_compensation_witness :
  (res_TaskID <$> run_CompensationResults CompSample.run) =
    ["p.compensation"; "x.compensation"; "q.compensation"] ∧
  ∃ plan, StronglySorted (compensated_before (run_Results CompSample.run)) plan ∧
    (λ t, task_ID t +:+ ".compensation") <$> plan =
      ["p.compensation"; "x.compensation"; "q.compensation"].
Proof.
  split; [vm_compute; reflexivity|].
  assert (Hne : wf_ID CompSample.workflow ≠ "") by done.
  pose proof (run_compensation Sample.registry CompSample.env CompSample.workflow "" ""
    (None : option MemoryStore) None CompSample.run None None None Hne CompSample.wellf
    CompSample.returned) as Hc. cbv zeta in Hc.
  match type of Hc with if ?b then _ else _ =>
    assert (Hb : b = true) by (vm_compute; reflexivity); rewrite Hb in Hc end.
  destruct Hc as (plan & Hids & _ & _ & Hs & _). exists plan. split; [exact Hs|].
  rewrite <-Hids. vm_compute. reflexivity.
Defined.

(** A run that is cut short drops what is in flight: when the context ends
    first, every task that was running gets a SKIPPED result with zero attempts -
    whether or not its action went on to take effect - and is never compensated. *)
Theorem run_interrupted `{!Quote} registry env workflow run st0 e run' id :
  well_formed (wf_Tasks workflow) →
  reachable workflow registry (re_clk env) (re_ords env) (re_tfuel env) st0 →
  id ∈ (ls_running st0).*1 →
  finish registry env workflow run (on_done e st0) = Some run' →
  (∃ r, run_Results run' !! id = Some r ∧ res_Status r = TaskStatusSkipped ∧
     res_Attempts r = 0) ∧
  ∀ ord, id ∉ task_ids (compensation_plan ord workflow (run_Results run')).
Proof.
  intros Hwf Hr Hid Hfin. pose proof (inv_reachable _ _ _ _ _ Hwf _ Hr) as Hi.
  destruct (finish_spec registry env workflow _ _ run' Hfin) as (_ & _ & _ & F4 & _).
  rewrite F4. pose proof (inv_core _ _ _ _ Hi) as Hc.
  assert (Hst : id ∈ ls_ready st0 ++ (ls_running st0).*1) by (apply elem_of_app; by right).
  destruct (final_results_lookup env workflow (on_done e st0) id) as (_ & _ & H3).
  destruct H3 as (r & Hres & _ & Hs & _ & Ha).
  { replace (ls_results (on_done e st0)) with (ls_results st0)
      by (unfold on_done; by destruct (ls_failFastTriggered st0)).
    by apply (core_fresh _ _ _ _ Hc). }
  { apply (core_known _ _ _ _ Hc). by left. }
  split; [by exists r|]. intros ord (t & -> & Ht)%list_elem_of_fmap.
  apply (compensation_plan_spec ord workflow _ (wellf_nodup _ Hwf)) in Ht as [_ [(r' & Hr' & Hs') _]].
  rewrite Hres in Hr'. injection Hr' as <-. done_status.
Qed.
Lemma run_interrupted_witness :
  ∃ run', finish Sample.registry (RunSample.env []) Sample.workflow Run_zero
            (on_done "context canceled" (Sample.state Sample.moves2)) = Some run' ∧
    run_Status run' = RunStatusCancelled ∧
    ∃ r, run_Results run' !! "e" = Some r ∧ res_Status r = TaskStatusSkipped ∧ res_Attempts r = 0.
Proof.
  destruct (finish Sample.registry (RunSample.env []) Sample.workflow Run_zero
    (on_done "context canceled" (Sample.state Sample.moves2))) as [run'|] eqn:Hf;
    [|vm_compute in Hf; discriminate Hf].
  exists run'. split; [done|]. split; [vm_compute in Hf; by injection Hf as <-|].
  apply (run_interrupted Sample.registry (RunSample.env []) Sample.workflow Run_zero
    (Sample.state Sample.moves2) "context canceled" run' "e").
  - apply Sample.sample_well_formed.
  - apply Sample.reached2.
  - vm_compute. right. left.
  - exact Hf.
Defined.

(** The saves at the start and at the end of a run; the error of the last one, if it
    fails, is what [runWithID] returns. *)
Lemma runWithID_last_save `{!Quote} {S} `{!WorkflowStore S} registry env
    workflow forced requestID (s : S) metrics run err store' metrics' :
  wf_ID workflow ≠ "" → well_formed (wf_Tasks workflow) →
  runWithID registry env workflow forced requestID (Some s) metrics =
    Some ((run, err), store', metrics') →
  status_explained env run ∧
  ∃ first s' r, store' = Some s' ∧ run_ID run = run_ID first ∧
    SaveRun run (SaveRun first s).2 = (r, s') ∧
    err = match r with Ok _ => None | Err e => Some e end.
Proof.
  intros HID Hwf Hret.
  destruct (runWithID_returned registry env workflow Hwf _ _ _ _ _ _ _ _ HID Hret)
    as (st & r & Hends & Hfin & Hsave & Herr & _).
  split; [by eapply finish_status|].
  destruct (finish_spec registry env workflow _ st run Hfin) as (F1 & _).
  unfold save_run in Hsave. exists (start_run env workflow forced requestID).
  destruct (SaveRun (start_run env workflow forced requestID) s) as [r1 s1] eqn:H1.
  simpl in Hsave |- *. destruct (SaveRun run s1) as [r2 s2] eqn:H2.
  exists s2, r2. by simplify_eq.
Qed.
Lemma runWithID_saves `{!Quote} {S} `{!WorkflowStore S} registry env
    workflow forced requestID (s : S) metrics run store' metrics' :
  wf_ID workflow ≠ "" → well_formed (wf_Tasks workflow) →
  runWithID registry env workflow forced requestID (Some s) metrics =
    Some ((run, None), store', metrics') →
  status_explained env run ∧
  ∃ first s', store' = Some s' ∧ run_ID run = run_ID first ∧
    SaveRun run (SaveRun first s).2 = (Ok tt, s').
Proof.
  intros HID Hwf Hret.
  destruct (runWithID_last_save _ _ _ _ _ _ _ _ _ _ _ HID Hwf Hret)
    as (Hst & first & s' & r & -> & HID' & H2 & Herr).
  split; [done|]. exists first, s'. by destruct r as [[]|].
Qed.
Lemma runWithID_saved `{!Quote} {S} `{!WorkflowStore S} `{!WorkflowStoreLaws S} registry env
    workflow forced requestID (s : S) metrics run store' metrics' :
  wf_ID workflow ≠ "" → well_formed (wf_Tasks workflow) →
  runWithID registry env workflow forced requestID (Some s) metrics =
    Some ((run, None), store', metrics') →
  status_explained env run ∧
  ∃ s', store' = Some s' ∧ GetRun (run_ID run) s' = Ok run ∧
    ∀ id, id ≠ run_ID run → GetRun id s' = GetRun id s.
Proof.
  intros HID Hwf Hret.
  destruct (runWithID_saves _ _ _ _ _ _ _ _ _ _ HID Hwf Hret) as (Hst & first & s' & -> & HID' & H2).
  destruct (SaveRun first s) as [r1 s1] eqn:H1. simpl in H2.
  split; [done|]. exists s'. split; [done|]. split.
  - rewrite (GetRun_SaveRun _ _ _ (run_ID run) H2). by rewrite decide_True.
  - intros id Hne. rewrite (GetRun_SaveRun_other _ _ _ _ _ H2 Hne).
    by rewrite (GetRun_SaveRun_other _ _ _ _ _ H1) by congruence.
Qed.
(** Where saving does not fail, neither does the run of a valid workflow. *)
Lemma runWithID_no_error `{!Quote} {S} `{!WorkflowStore S} registry env workflow forced requestID
    (s : S) metrics run err store' metrics' :
  (∀ run (s : S), (SaveRun run s).1 = Ok tt) →
  wf_ID workflow ≠ "" → well_formed (wf_Tasks workflow) →
  runWithID registry env workflow forced requestID (Some s) metrics =
    Some ((run, err), store', metrics') → err = None.
Proof.
  intros Hsaves HID Hwf Hret.
  destruct (runWithID_last_save _ _ _ _ _ _ _ _ _ _ _ HID Hwf Hret)
    as (_ & first & s' & r & _ & _ & H2 & ->).
  pose proof (Hsaves run (SaveRun first s).2) as Hok. rewrite H2 in Hok. simpl in Hok. by rewrite Hok.
Qed.
(** What is saved: a run that [RunWithID] returns without an error is in the
    store, as returned, under its ID, and no other stored run has changed; this
    for every store that keeps the promises of the interface. *)
Theorem run_saved `{!Quote} {S} `{!WorkflowStore S} `{!WorkflowStoreLaws S} registry env workflow forced requestID
    (s : S) metrics run store' metrics' :
  wf_ID workflow ≠ "" → well_formed (wf_Tasks workflow) →
  runWithID registry env workflow forced requestID (Some s) metrics =
    Some ((run, None), store', metrics') →
  ∃ s', store' = Some s' ∧ GetRun (run_ID run) s' = Ok run ∧
    ∀ id, id ≠ run_ID run → GetRun id s' = GetRun id s.
Proof. intros HID Hwf Hret. by eapply runWithID_saved. Qed.
Lemma run_saved_witness :
  let run := RunSample.run RunSample.events in
  ∃ s', RunSample.store RunSample.events = Some s' ∧ GetRun "w-0" s' = Ok run.
Proof.
  intros run.
  destruct (run_saved Sample.registry (RunSample.env RunSample.events) Sample.workflow "" "req-1"
    NewMemoryStore (Some NewCollector) run (RunSample.store RunSample.events)
    (RunSample.metrics RunSample.events)) as (s' & Hs & Hg & _).
  - done.
  - apply Sample.sample_well_formed.
  - exact RunSample.run_returned.
  - exists s'. split; [exact Hs|exact Hg].
Defined.
