(* ===== verification/Worker.v ===== *)
(** * internal/worker/service.go: the queue worker

    [processOne] leases a job, runs its workflow and settles the job.  It is
    written against the [RunQueue] and [WorkflowStore] interfaces.  While the
    executor runs, the heartbeat goroutine extends the lease, and other workers
    and the API use the queue: [during] is whatever they do to it.  The watcher
    that polls for a cancelled job only ends the context of the run, which the
    executor sees as an [EvDone] event.  When the two goroutines act is in
    [WorkerTimers]. *)

From S2P Require Import Prelude GoLib Domain Graph Template Actions RunTask Interfaces Store Queue.
From S2P Require Import QueueProps Telemetry Executor ExecutorInv ExecutorLoop ExecutorProps Run.
From S2P Require Import RunProps.
Local Open Scope Z_scope.

(** ** The service *)

Record Service := mkService {
  svc_workerID : string;
  svc_pollInterval : duration;
  svc_leaseDuration : duration;
  svc_draining : bool;
}.
#[export] Instance Service_settable : Settable Service := λ s,
  mkService (svc_workerID s) (svc_pollInterval s) (svc_leaseDuration s) (svc_draining s).

Definition NewService (now : time) (workerID : string) : Service :=
  let workerID := if bool_decide (workerID = "") then "worker-" +:+ pretty (UnixNano now)
                  else workerID in
  mkService workerID (500 * Millisecond) (30 * Second) false.
Definition SetPolling (pollInterval leaseDuration : duration) (s : Service) : Service :=
  let s := if 0 <? pollInterval then s <| svc_pollInterval := pollInterval |> else s in
  if 0 <? leaseDuration then s <| svc_leaseDuration := leaseDuration |> else s.
Definition Drain (s : Service) : Service := s <| svc_draining := true |>.
Definition IsDraining (s : Service) : bool := svc_draining s.

(** [interval := leaseDuration / 2; if interval <= 0 { interval = 2s }] *)
Definition heartbeat_interval (s : Service) : duration :=
  let interval := Z.quot (svc_leaseDuration s) 2 in
  if interval <=? 0 then 2 * Second else interval.

(** [time.Duration(1<<(attempts-1)) * time.Second], at most 30 s; [None] is the
    panic of a negative shift count. *)
Definition retry_backoff (attempts : Z) : option duration :=
  if attempts - 1 <? 0 then None else
  let backoff := wrap64 (shl64 (attempts - 1) * Second) in
  Some (if 30 * Second <? backoff then 30 * Second else backoff).

Section worker.
Context {Q : Type} `{!RunQueue Q}.
Abbreviation metrics_t := (option Collector).

(** [if s.metrics != nil { s.metrics.<f>() }] *)
Definition note (f : Collector → Collector) (m : metrics_t) : metrics_t := f <$> m.

Definition failure_message (run : Run) (execErr : option string) : string :=
  match execErr with
  | Some e => e
  | None => if bool_decide (run_Error run ≠ "") then run_Error run else "run failed"
  end.

(** From [cancelWatch()] on: what becomes of the job, given what the executor
    returned.  The errors of the queue operations are dropped, as in the code;
    the answer carries the error that [processOne] returns. *)
Definition settle (clk : clock) (job : RunQueueJob) (run : Run) (execErr : option string)
    (q : Q) (m : metrics_t) : option (option string * Q * metrics_t) :=
  let ok := bool_decide (execErr = None) in
  if ok && negb (bool_decide (run_Status run = RunStatusFailed))
     && negb (bool_decide (run_Status run = RunStatusCancelled)) then
    let q := (CompleteRunJob clk (job_ID job) q).2 in
    Some (None, q, note RecordWorkerSuccess m)
  else if ok && bool_decide (run_Status run = RunStatusCancelled) then
    let message := if bool_decide (run_Error run = "") then "run cancelled" else run_Error run in
    let q := (CancelRunJob clk (job_ID job) message q).2 in
    Some (Some message, q, note RecordWorkerFailure m)
  else
    let attempts := job_Attempts job in
    if attempts <? job_MaxAttempts job then
      backoff ← retry_backoff attempts;
      let message := failure_message run execErr in
      let q := (RetryRunJob clk (job_ID job) backoff message q).2 in
      Some (Some message, q, note RecordWorkerFailure (note RecordWorkerRetry m))
    else
      let message := failure_message run execErr in
      let q := (DeadLetterRunJob clk (job_ID job) message q).2 in
      Some (Some message, q, note RecordWorkerFailure (note RecordWorkerDeadLetter m)).

Context {S : Type} `{!WorkflowStore S} `{!Quote}.

(** [None]: the run does not end, or a panic. *)
Definition processOne (svc : Service) (ord : iter_order) (lease_clk fail_clk settle_clk : clock)
    (registry : Registry) (env : run_env) (during : Q → Q)
    (q : Q) (store : S) (m : metrics_t) :
    option (option string * Q * option S * metrics_t) :=
  match LeaseNextRunJob ord lease_clk (svc_workerID svc) (svc_leaseDuration svc) q with
  | (Err err, q) => Some (Some err, q, Some store, m)
  | (Ok job, q) =>
      let m := note RecordWorkerLease m in
      match GetWorkflow (job_WorkflowID job) store with
      | Err err =>
          let q := (FailRunJob fail_clk (job_ID job) err q).2 in
          Some (Some err, q, Some store, m)
      | Ok workflow =>
          '((run, execErr), store, m) ←
            RunWithID registry env workflow (job_RunID job) (job_RequestID job) (Some store) m;
          '(err, q, m) ← settle settle_clk job run execErr (during q) m;
          Some (err, q, store, m)
      end
  end.
End worker.

(** ** Backoff *)

Lemma retry_backoff_spec attempts :
  1 ≤ attempts → retry_backoff attempts =
    Some (Z.min (30 * Second) (wrap64 (shl64 (attempts - 1) * Second))).
Proof.
  intros Ha. unfold retry_backoff. rewrite (proj2 (Z.ltb_ge (attempts - 1) 0)) by lia.
  f_equal. destruct (Z.ltb_spec (30 * Second) (wrap64 (shl64 (attempts - 1) * Second))); lia.
Qed.

Lemma retry_backoff_doubles attempts :
  1 ≤ attempts ≤ 34 →
  retry_backoff attempts = Some (Z.min 30 (2 ^ (attempts - 1)) * Second) ∧
  ∀ d, retry_backoff attempts = Some d → Second ≤ d.
Proof.
  intros Ha.
  assert (Hp : 0 < 2 ^ (attempts - 1) ≤ 2 ^ 33).
  { split; [apply Z.pow_pos_nonneg; lia|apply Z.pow_le_mono_r; lia]. }
  assert (Hr : retry_backoff attempts = Some (Z.min 30 (2 ^ (attempts - 1)) * Second)).
  { rewrite retry_backoff_spec by lia. unfold shl64.
    rewrite (proj2 (Z.leb_gt 64 (attempts - 1))) by lia.
    rewrite (wrap64_id (2 ^ (attempts - 1))) by (unfold int64_min, int64_max; lia).
    rewrite wrap64_id by (unfold int64_min, int64_max, Second; lia). f_equal. unfold Second. lia. }
  split; [done|]. intros d. rewrite Hr. intros [= <-]. unfold Second. lia.
Qed.
Lemma retry_backoff_overflows attempts :
  (attempts = 35 → ∃ d, retry_backoff attempts = Some d ∧ d < 0) ∧
  (56 ≤ attempts → retry_backoff attempts = Some 0).
Proof.
  split.
  - intros ->. eexists. split; [by vm_compute|]. lia.
  - intros Ha. rewrite retry_backoff_spec by lia.
    assert (H0 : wrap64 (shl64 (attempts - 1) * Second) = 0); [|by rewrite H0].
    unfold shl64. destruct (Z.leb_spec 64 (attempts - 1)); [done|].
    assert (Hin : ∃ k : nat, attempts = 56 + Z.of_nat k ∧ (k < 9)%nat).
    { exists (Z.to_nat (attempts - 56)). lia. }
    destruct Hin as (k & -> & Hk). do 9 (destruct k as [|k]; [by vm_compute|]). lia.
Qed.
(** Retry backoff: up to the 34th attempt a failed job waits 1 s doubled for
    each attempt before, at most 30 s.  From the 35th on the product of the shift and
    the second no longer fits 64 bits, and the "at most 30 s" test does not see it: at
    35 attempts the delay is negative and from 56 on it is zero - the job is available
    again at once, however often it failed. *)
Theorem retry_backoff_bounds attempts :
  1 ≤ attempts →
  (attempts ≤ 34 → retry_backoff attempts = Some (Z.min 30 (2 ^ (attempts - 1)) * Second)) ∧
  (attempts = 35 → ∃ d, retry_backoff attempts = Some d ∧ d < 0) ∧
  (56 ≤ attempts → retry_backoff attempts = Some 0).
Proof.
  intros Ha. split; [intros Hle; by apply retry_backoff_doubles|]. apply retry_backoff_overflows.
Qed.
Lemma retry_backoff_bounds_witness :
  retry_backoff 4 = Some (8 * Second) ∧ retry_backoff 60 = Some 0.
Proof.
  split; [apply (retry_backoff_bounds 4)|apply (retry_backoff_bounds 60)]; lia.
Defined.

(** ** Settling a job *)

(** What a worker decides about a job. *)
Inductive verdict := Completed | Cancelled | Retried | Dead.
Definition verdict_of (job : RunQueueJob) (run : Run) (execErr : option string) : verdict :=
  if decide (execErr = None ∧ run_Status run ≠ RunStatusFailed ∧
             run_Status run ≠ RunStatusCancelled) then Completed
  else if decide (execErr = None ∧ run_Status run = RunStatusCancelled) then Cancelled
  else if decide (job_Attempts job < job_MaxAttempts job) then Retried else Dead.
Definition verdict_status (v : verdict) : RunJobStatus :=
  match v with
  | Completed => RunJobStatusSucceeded
  | Cancelled => RunJobStatusCancelled
  | Retried => RunJobStatusQueued
  | Dead => RunJobStatusDead
  end.

Section settle.
Context {Q : Type} `{!RunQueue Q}.

(** [settle] by verdict. *)
Lemma settle_verdict clk job run execErr (q : Q) m :
  1 ≤ job_Attempts job →
  ∃ err m', settle clk job run execErr q m =
    Some (err,
      match verdict_of job run execErr with
      | Completed => (CompleteRunJob clk (job_ID job) q).2
      | Cancelled => (CancelRunJob clk (job_ID job) (default "" err) q).2
      | Retried => (RetryRunJob clk (job_ID job)
                      (default 0 (retry_backoff (job_Attempts job))) (default "" err) q).2
      | Dead => (DeadLetterRunJob clk (job_ID job) (default "" err) q).2
      end, m') ∧ (err = None ↔ verdict_of job run execErr = Completed).
Proof.
  intros Ha. unfold settle, verdict_of. rewrite (retry_backoff_spec _ Ha).
  set (A := execErr = None ∧ _). set (B := execErr = None ∧ _).
  assert (HA : bool_decide (execErr = None) && negb (bool_decide (run_Status run = RunStatusFailed))
    && negb (bool_decide (run_Status run = RunStatusCancelled)) = bool_decide A).
  { apply eq_true_iff_eq. rewrite !andb_true_iff, !negb_true_iff, !bool_decide_eq_true,
      !bool_decide_eq_false. unfold A. tauto. }
  assert (HB : bool_decide (execErr = None) && bool_decide (run_Status run = RunStatusCancelled) =
    bool_decide B).
  { apply eq_true_iff_eq. rewrite andb_true_iff, !bool_decide_eq_true. done. }
  cbv zeta. rewrite HA, HB. clear HA HB.
  destruct (decide A); [rewrite bool_decide_true by done|rewrite (bool_decide_false A) by done].
  { do 2 eexists. by split. }
  destruct (decide B); [rewrite bool_decide_true by done|rewrite (bool_decide_false B) by done].
  { eexists (Some _), _. split; [reflexivity|naive_solver]. }
  destruct (Z.ltb_spec (job_Attempts job) (job_MaxAttempts job));
    [rewrite decide_True by done|rewrite decide_False by lia]; simpl;
    eexists (Some _), _; (split; [reflexivity|naive_solver]).
Qed.

Context `{!RunQueueLaws Q}.

Lemma ends_lease_leased op id status (q : Q) cur :
  ends_lease op id status → GetRunJob id q = Ok cur → job_Status cur = RunJobStatusLeased →
  (∃ job', GetRunJob id (op q).2 = Ok job' ∧ job_Status job' = status) ∧
  ∀ id', id' ≠ id → GetRunJob id' (op q).2 = GetRunJob id' q.
Proof.
  intros Hop Hg Hs. destruct (op q) as [r q'] eqn:Ho. apply Hop in Ho. rewrite Hg in Ho.
  rewrite bool_decide_true in Ho by done. destruct Ho as (_ & (job' & ? & ? & _) & ?). simpl. eauto.
Qed.
Lemma ends_lease_other op id status (q : Q) cur :
  ends_lease op id status → GetRunJob id q = Ok cur → job_Status cur ≠ RunJobStatusLeased →
  (op q).2 = q.
Proof.
  intros Hop Hg Hs. destruct (op q) as [r q'] eqn:Ho. apply Hop in Ho. rewrite Hg in Ho.
  rewrite bool_decide_false in Ho by done. by destruct Ho.
Qed.
End settle.

(** What settling does to a leased job. *)
Lemma settle_effect {Q} `{!RunQueue Q} `{!RunQueueLaws Q} clk job run execErr (q : Q) m cur :
  1 ≤ job_Attempts job →
  GetRunJob (job_ID job) q = Ok cur → job_Status cur = RunJobStatusLeased →
  let v := verdict_of job run execErr in
  ∃ err q' m', settle clk job run execErr q m = Some (err, q', m') ∧
    (err = None ↔ v = Completed) ∧
    (∃ job', GetRunJob (job_ID job) q' = Ok job' ∧ job_Status job' = verdict_status v) ∧
    ∀ id, id ≠ job_ID job → GetRunJob id q' = GetRunJob id q.
Proof.
  intros Ha Hg Hs v. destruct (settle_verdict clk job run execErr q m Ha) as (err & m' & He & Herr).
  do 3 eexists. split; [exact He|]. split; [exact Herr|]. fold v.
  destruct v; simpl.
  - by apply (ends_lease_leased (CompleteRunJob clk (job_ID job)) _ _ q cur (CompleteRunJob_law _ _)).
  - eapply CancelRunJob_law; [apply surjective_pairing|done|]. by rewrite Hs.
  - by apply (ends_lease_leased (RetryRunJob clk (job_ID job) _ _) _ _ q cur (RetryRunJob_law _ _ _ _)).
  - by apply (ends_lease_leased (DeadLetterRunJob clk (job_ID job) _) _ _ q cur
                (DeadLetterRunJob_law _ _ _)).
Qed.
(** C29. Settling a leased job, on every queue that keeps the promises of the
    interface: the job succeeds if the run did, is cancelled if the run was, and
    otherwise goes back to the queue while it has attempts left and to the dead
    letters when it has not; no other job is touched, and [processOne] reports an
    error exactly when the job did not succeed. *)
Theorem settle_leased {Q} `{!RunQueue Q} `{!RunQueueLaws Q} clk job run execErr (q : Q) m cur :
  1 ≤ job_Attempts job →
  GetRunJob (job_ID job) q = Ok cur → job_Status cur = RunJobStatusLeased →
  let v := verdict_of job run execErr in
  ∃ err q' m', settle clk job run execErr q m = Some (err, q', m') ∧
    (err = None ↔ v = Completed) ∧
    (∃ job', GetRunJob (job_ID job) q' = Ok job' ∧ job_Status job' = verdict_status v) ∧
    ∀ id, id ≠ job_ID job → GetRunJob id q' = GetRunJob id q.
Proof. by apply settle_effect. Qed.
Lemma settle_leased_witness :
  let job := QueueSample.get "j1" QueueSample.queue in
  let failed := Run_zero <| run_Status := RunStatusFailed |> in
  ∃ err q' m', settle (QueueSample.at_ 120) job failed None QueueSample.queue None =
      Some (err, q', m') ∧
    (err = None ↔ Retried = Completed) ∧
    (∃ job', GetRunJob "j1" q' = Ok job' ∧ job_Status job' = RunJobStatusQueued) ∧
    ∀ id, id ≠ "j1" → GetRunJob id q' = GetRunJob id QueueSample.queue.
Proof.
  intros job failed.
  apply (settle_leased (QueueSample.at_ 120) job failed None QueueSample.queue None job).
  - vm_compute. discriminate.
  - vm_compute. reflexivity.
  - vm_compute. reflexivity.
Defined.

(** A cancellation from outside is final: if the job was cancelled while it
    ran, then whatever the outcome of the run - even success - the job is still
    cancelled when the worker is done with it. *)
Theorem settle_cancelled {Q} `{!RunQueue Q} `{!RunQueueLaws Q} clk job run execErr (q : Q) m cur :
  1 ≤ job_Attempts job →
  GetRunJob (job_ID job) q = Ok cur → job_Status cur = RunJobStatusCancelled →
  ∃ err q' m', settle clk job run execErr q m = Some (err, q', m') ∧
    ∃ job', GetRunJob (job_ID job) q' = Ok job' ∧ job_Status job' = RunJobStatusCancelled.
Proof.
  intros Ha Hg Hs. destruct (settle_verdict clk job run execErr q m Ha) as (err & m' & He & _).
  do 3 eexists. split; [exact He|].
  assert (Hnl : job_Status cur ≠ RunJobStatusLeased) by (rewrite Hs; done_status).
  destruct (verdict_of job run execErr); simpl.
  - rewrite (ends_lease_other (CompleteRunJob clk (job_ID job)) _ _ q cur (CompleteRunJob_law _ _))
      by done. eauto.
  - eapply CancelRunJob_law; [apply surjective_pairing|done|]. by rewrite Hs.
  - rewrite (ends_lease_other (RetryRunJob clk (job_ID job) _ _) _ _ q cur (RetryRunJob_law _ _ _ _))
      by done. eauto.
  - rewrite (ends_lease_other (DeadLetterRunJob clk (job_ID job) _) _ _ q cur
      (DeadLetterRunJob_law _ _ _)) by done. eauto.
Qed.
Lemma settle_cancelled_witness :
  let job := QueueSample.get "j1" QueueSample.queue in
  let q := apply_op (OpCancel (QueueSample.at_ 115) "j1" "stop") QueueSample.queue in
  let ok := Run_zero <| run_Status := RunStatusSuccess |> in
  ∃ err q' m', settle (QueueSample.at_ 120) job ok None q None = Some (err, q', m') ∧
    ∃ job', GetRunJob "j1" q' = Ok job' ∧ job_Status job' = RunJobStatusCancelled.
Proof.
  intros job q ok.
  apply (settle_cancelled (QueueSample.at_ 120) job ok None q None (QueueSample.get "j1" q)).
  - vm_compute. discriminate.
  - vm_compute. reflexivity.
  - vm_compute. reflexivity.
Defined.

(** ** A job from lease to settlement *)

(** The heartbeat goroutine: some number of lease extensions, at some times. *)
Definition heartbeats {Q} `{!RunQueue Q} (svc : Service) (id : string) (clks : list clock) (q : Q) :
    Q :=
  foldl (λ q clk, (ExtendRunJobLease clk id (svc_workerID svc) (svc_leaseDuration svc) q).2) q clks.

Section process.
Context {Q : Type} `{!RunQueue Q} `{!RunQueueLaws Q}.

Lemma heartbeats_keep svc id clks (q : Q) job :
  GetRunJob id q = Ok job →
  ∃ job', GetRunJob id (heartbeats svc id clks q) = Ok job' ∧
    job_Status job' = job_Status job ∧ job_Attempts job' = job_Attempts job.
Proof using RunQueueLaws0.
  revert q job; induction clks as [|clk clks IH]; intros q job Hg; simpl; [by eauto|].
  destruct (ExtendRunJobLease clk id _ _ q) as [r q'] eqn:He. simpl.
  destruct (ExtendRunJobLease_law _ _ _ _ _ _ _ _ He Hg) as (job1 & Hg1 & Hs1 & Ha1).
  destruct (IH q' job1 Hg1) as (job2 & ? & ? & ?). exists job2. split; [done|]. split; congruence.
Qed.

Lemma settle_None clk job run execErr (q : Q) m q' m' :
  settle clk job run execErr q m = Some (None, q', m') →
  execErr = None ∧ run_Status run ≠ RunStatusFailed ∧ run_Status run ≠ RunStatusCancelled ∧
  q' = (CompleteRunJob clk (job_ID job) q).2.
Proof.
  unfold settle. destruct (decide (execErr = None)) as [->|He];
    [rewrite (bool_decide_true (None = None)) by done
    |rewrite (bool_decide_false (execErr = None)) by done]; simpl.
  - destruct (bool_decide (run_Status run = RunStatusFailed)) eqn:Ef; simpl;
      [destruct (bool_decide (run_Status run = RunStatusCancelled)); simpl; [done|]
      |destruct (bool_decide (run_Status run = RunStatusCancelled)) eqn:Ec; simpl; [done|]].
    + destruct (_ <? _); [|done]. by destruct (retry_backoff _).
    + apply bool_decide_eq_false in Ef, Ec. by intros [= <- _].
  - destruct (_ <? _); [|done]. by destruct (retry_backoff _).
Qed.
End process.

(** A job done is a run done: when [processOne] reports no error for a job that
    is still leased when its run ends, the job is SUCCEEDED in the queue, and the
    store holds the run, SUCCESS, with no failed task - whatever heartbeats and
    other clients did to the queue meanwhile. *)
Theorem processOne_success {Q} `{!RunQueue Q} `{!RunQueueLaws Q} {S} `{!WorkflowStore S}
    `{!WorkflowStoreLaws S} `{!Quote} svc ord lease_clk fail_clk settle_clk registry env during
    (q q1 : Q) (store : S) m job workflow cur q' store' m' :
  LeaseNextRunJob ord lease_clk (svc_workerID svc) (svc_leaseDuration svc) q = (Ok job, q1) →
  GetWorkflow (job_WorkflowID job) store = Ok workflow →
  GetRunJob (job_ID job) (during q1) = Ok cur → job_Status cur = RunJobStatusLeased →
  processOne svc ord lease_clk fail_clk settle_clk registry env during q store m =
    Some (None, q', store', m') →
  (∃ job', GetRunJob (job_ID job) q' = Ok job' ∧ job_Status job' = RunJobStatusSucceeded) ∧
  ∃ run s', store' = Some s' ∧ GetRun (run_ID run) s' = Ok run ∧
    run_Status run = RunStatusSuccess ∧
    ∀ id r, run_Results run !! id = Some r → res_Status r ≠ TaskStatusFailed.
Proof.
  intros Hl Hw Hg Hs. unfold processOne. rewrite Hl, Hw.
  destruct (RunWithID _ _ _ _ _ _ _) as [[[[run execErr] s1] m1]|] eqn:Hrun; [|done]. simpl.
  destruct (settle _ _ _ _ _ _) as [[[err q2] m2]|] eqn:Hset; [|done]. simpl.
  intros [= -> <- <- _]. apply settle_None in Hset as (-> & Hf & Hc & ->).
  split.
  { by apply (ends_lease_leased (CompleteRunJob settle_clk (job_ID job)) _ _ _ cur
      (CompleteRunJob_law _ _)). }
  unfold RunWithID in Hrun.
  destruct (ValidateWorkflow_total (re_validate_ord env) workflow) as [[[]|e] Hv].
  - apply ValidateWorkflow_ok in Hv as [HID Hwf].
    apply runWithID_saved in Hrun as [Hst (s' & Hs' & Hgr & _)]; [|done..].
    exists run, s'. destruct Hst as [(Hst & _ & Hres)|[(Hst & _)|(Hst & _)]]; [done|done_status..].
  - unfold runWithID in Hrun. by rewrite Hv in Hrun.
Qed.

(** A job whose workflow the store does not have fails: its lease ends with the
    store's error, the run is not started and neither the store nor any other
    job changes. *)
Theorem processOne_unknown_workflow {Q} `{!RunQueue Q} `{!RunQueueLaws Q} {S} `{!WorkflowStore S}
    `{!Quote} svc ord lease_clk fail_clk settle_clk registry env during
    (q q1 : Q) (store : S) m job err :
  LeaseNextRunJob ord lease_clk (svc_workerID svc) (svc_leaseDuration svc) q = (Ok job, q1) →
  GetWorkflow (job_WorkflowID job) store = Err err →
  ∃ q' m', processOne svc ord lease_clk fail_clk settle_clk registry env during q store m =
      Some (Some err, q', Some store, m') ∧
    (∃ job', GetRunJob (job_ID job) q' = Ok job' ∧ job_Status job' = RunJobStatusFailed) ∧
    ∀ id, id ≠ job_ID job → GetRunJob id q' = GetRunJob id q1.
Proof.
  intros Hl Hw. unfold processOne. rewrite Hl, Hw. do 2 eexists. split; [done|].
  destruct (LeaseNextRunJob_Ok _ _ _ _ _ _ _ Hl) as (Hg & Hs & _).
  by apply (ends_lease_leased (FailRunJob fail_clk (job_ID job) err) _ _ q1 job
    (FailRunJob_law _ _ _)).
Qed.

(** A queue with one job and a store with its workflow. *)
Module WorkerSample.
#[local] Existing Instance Sample.quote_id.
Definition svc : Service := NewService 0 "w1".
Definition queue : MemoryRunQueue := apply_ops
  [OpEnqueue (QueueSample.at_ 10) ((QueueSample.job "j") <| job_WorkflowID := "plain" |>)]
  NewMemoryRunQueue.
Definition store : MemoryStore :=
  (Memory.SaveWorkflow (Plain.workflow <| wf_Tasks := take 1 (wf_Tasks Plain.workflow) |>)
     NewMemoryStore).2.
Definition env : run_env := RunSample.env [EvResult "a" Sample.trace].
Definition job : RunQueueJob :=
  match LeaseNextRunJob canonical_order (QueueSample.at_ 100) "w1" (30 * Second) queue with
  | (Ok job, _) => job
  | _ => QueueSample.job ""
  end.
Definition leased : MemoryRunQueue :=
  (LeaseNextRunJob canonical_order (QueueSample.at_ 100) "w1" (30 * Second) queue).2.
Definition during : MemoryRunQueue → MemoryRunQueue :=
  heartbeats svc "j" [QueueSample.at_ 200; QueueSample.at_ 300].
Definition result_ :=
  processOne svc canonical_order (QueueSample.at_ 100) (QueueSample.at_ 101)
    (QueueSample.at_ 400) Sample.registry env during queue store None.
Definition final_queue : MemoryRunQueue :=
  match result_ with Some (_, q, _, _) => q | None => queue end.
Definition final_store : option MemoryStore :=
  match result_ with Some (_, _, s, _) => s | None => None end.
Definition workflow : Workflow := Plain.workflow <| wf_Tasks := take 1 (wf_Tasks Plain.workflow) |>.
Definition current : RunQueueJob := QueueSample.get "j" (during leased).
Lemma worker_returned : processOne svc canonical_order (QueueSample.at_ 100) (QueueSample.at_ 101)
  (QueueSample.at_ 400) Sample.registry env during queue store None =
  Some (None, final_queue, final_store, None).
Proof.
  fold result_.
  assert (Hgo : ∀ g, g = result_ → (λ r, (r.1.1.1, r.2)) <$> g = Some (None, None) →
    result_ = Some (None, final_queue, final_store, None)).
  { intros g Hg. unfold final_queue, final_store. rewrite <-Hg. clear Hg.
    destruct g as [[[[e q] s] m]|]; simpl; [intros [= -> ->]; reflexivity|discriminate]. }
  apply (Hgo _ eq_refl). vm_compute. reflexivity.
Qed.
End WorkerSample.
#[local] Existing Instance Sample.quote_id.
Lemma processOne_success_witness :
  (∃ job', GetRunJob "j" WorkerSample.final_queue = Ok job' ∧
     job_Status job' = RunJobStatusSucceeded) ∧
  ∃ run s', WorkerSample.final_store = Some s' ∧ GetRun (run_ID run) s' = Ok run ∧
    run_Status run = RunStatusSuccess ∧
    ∀ id r, run_Results run !! id = Some r → res_Status r ≠ TaskStatusFailed.
Proof.
  apply (processOne_success WorkerSample.svc canonical_order (QueueSample.at_ 100)
    (QueueSample.at_ 101) (QueueSample.at_ 400) Sample.registry WorkerSample.env
    WorkerSample.during WorkerSample.queue WorkerSample.leased WorkerSample.store None
    WorkerSample.job WorkerSample.workflow WorkerSample.current
    WorkerSample.final_queue WorkerSample.final_store None).
  - vm_compute. reflexivity.
  - vm_compute. reflexivity.
  - vm_compute. reflexivity.
  - vm_compute. reflexivity.
  - exact WorkerSample.worker_returned.
Defined.

Lemma processOne_unknown_workflow_witness :
  ∃ q' m', processOne WorkerSample.svc canonical_order (QueueSample.at_ 100)
      (QueueSample.at_ 101) (QueueSample.at_ 400) Sample.registry WorkerSample.env
      WorkerSample.during WorkerSample.queue NewMemoryStore None =
      Some (Some "workflow not found", q', Some NewMemoryStore, m') ∧
    (∃ job', GetRunJob (job_ID WorkerSample.job) q' = Ok job' ∧
       job_Status job' = RunJobStatusFailed) ∧
    ∀ id, id ≠ job_ID WorkerSample.job → GetRunJob id q' = GetRunJob id WorkerSample.leased.
Proof.
  apply (processOne_unknown_workflow WorkerSample.svc canonical_order (QueueSample.at_ 100)
    (QueueSample.at_ 101) (QueueSample.at_ 400) Sample.registry WorkerSample.env
    WorkerSample.during WorkerSample.queue WorkerSample.leased NewMemoryStore None
    WorkerSample.job "workflow not found").
  - vm_compute. reflexivity.
  - vm_compute. reflexivity.
Defined.
