(* ===== verification/Tracing.v ===== *)
(** * internal/telemetry/tracing.go and its spans

    The spans of the engine and of the worker.  OpenTelemetry is a parameter: spans of an
    unknown type with the three operations the program calls, and what the documentation
    of the SDK says of the attributes of a span. *)

From S2P Require Import Prelude GoLib Domain Graph Interfaces Store Queue QueueProps Telemetry Executor.
From S2P Require Import ExecutorProps Run RunProps Worker.
Local Open Scope Z_scope.

(** [attribute.KeyValue], of a string. *)
Definition KeyValue : Type := string * string.
(** [attr k span] is the value of attribute [k] of a span, if it has one. *)
Class Tracer (Span : Type) := {
  context : Type;
  tracer_Start : context → string → context * Span;
  SetAttributes : list KeyValue → Span → Span;
  End : Span → Span;
  attr : string → Span → option string;
}.
(** A new span has no attributes; the last value that was set counts; an ended span keeps
    what it has. *)
Class TracerLaws (Span : Type) `{!Tracer Span} := {
  attr_Start ctx name k : attr k (tracer_Start ctx name).2 = None;
  attr_SetAttributes kvs span k : attr k (SetAttributes kvs span) =
    foldl (λ v kv, if decide (kv.1 = k) then Some kv.2 else v) (attr k span) kvs;
  attr_End k span : attr k (End span) = attr k span;
}.

Section spans.
Context {Span : Type} `{!Tracer Span}.

Definition StartSpan (ctx : context) (name : string) (attrs : list KeyValue) : context * Span :=
  let '(ctx, span) := tracer_Start ctx name in
  if Nat.ltb 0 (length attrs) then (ctx, SetAttributes attrs span) else (ctx, span).

(** The span of [runWithID], at its start and as the deferred [span.End] leaves it: the
    status is set when the run returns without an error. *)
Definition run_span (ctx : context) (env : run_env) (workflow : Workflow) (forcedRunID requestID : string) :
    context * Span :=
  StartSpan ctx "workflow.run"
    [("workflow.id", wf_ID workflow);
     ("run.id", run_ID (start_run env workflow forcedRunID requestID));
     ("request.id", requestID)].
Definition end_run_span (run : Run) (err : option string) (span : Span) : Span :=
  End (match err with
       | None => SetAttributes [("run.status", run_Status run)] span
       | Some _ => span
       end).

(** The span of [processOne], and its status as the branches after the run set it. *)
Definition job_span (ctx : context) (workerID : string) (job : RunQueueJob) : context * Span :=
  StartSpan ctx "worker.process_job"
    [("worker.id", workerID); ("job.id", job_ID job); ("run.id", job_RunID job);
     ("workflow.id", job_WorkflowID job)].
Definition settle_span (job : RunQueueJob) (run : Run) (execErr : option string) (span : Span) : Span :=
  let ok := bool_decide (execErr = None) in
  if ok && negb (bool_decide (run_Status run = RunStatusFailed))
     && negb (bool_decide (run_Status run = RunStatusCancelled)) then
    SetAttributes [("job.status", RunJobStatusSucceeded)] span
  else if ok && bool_decide (run_Status run = RunStatusCancelled) then
    SetAttributes [("job.status", RunJobStatusCancelled)] span
  else if job_Attempts job <? job_MaxAttempts job then
    SetAttributes [("job.status", RunJobStatusQueued)] span
  else SetAttributes [("job.status", RunJobStatusDead)] span.

Lemma settle_span_verdict job run execErr span : settle_span job run execErr span =
  SetAttributes [("job.status", verdict_status (verdict_of job run execErr))] span.
Proof.
  unfold settle_span, verdict_of. cbv zeta.
  repeat case_bool_decide; repeat case_decide; simpl; try tauto;
    destruct (Z.ltb_spec (job_Attempts job) (job_MaxAttempts job)); try done; lia.
Qed.

(** The trace of a job tells the truth: when the worker is done with a job that was
    leased until then, the status in its span is the status the job has in the queue - on
    every queue that keeps its promises - and the span names the job, its run and its
    workflow. *)
Theorem job_span_status `{!TracerLaws Span} {Q} `{!RunQueue Q} `{!RunQueueLaws Q} ctx workerID clk
    job run execErr (q : Q) m cur :
  1 ≤ job_Attempts job →
  GetRunJob (job_ID job) q = Ok cur → job_Status cur = RunJobStatusLeased →
  let span := End (settle_span job run execErr (job_span ctx workerID job).2) in
  ∃ err q' m' job', settle clk job run execErr q m = Some (err, q', m') ∧
    GetRunJob (job_ID job) q' = Ok job' ∧ attr "job.status" span = Some (job_Status job') ∧
    attr "job.id" span = Some (job_ID job) ∧ attr "run.id" span = Some (job_RunID job) ∧
    attr "workflow.id" span = Some (job_WorkflowID job) ∧ attr "worker.id" span = Some workerID.
Proof.
  intros Ha Hg Hs span.
  destruct (settle_effect clk job run execErr q m cur Ha Hg Hs)
    as (err & q' & m' & He & _ & (job' & Hj' & Hst) & _).
  exists err, q', m', job'. split; [done|]. split; [done|]. rewrite Hst.
  unfold span, job_span, StartSpan. rewrite settle_span_verdict.
  destruct (tracer_Start ctx "worker.process_job") as [ctx' s]. simpl.
  rewrite !attr_End, !attr_SetAttributes. simpl. done.
Qed.
(** The span of a run names the run that is returned, and its status - if it is returned
    without an error. *)
Theorem run_span_status `{!TracerLaws Span} `{!Quote} {S} `{!WorkflowStore S} registry env ctx workflow
    forced requestID (s : S) m run store' m' :
  wf_ID workflow ≠ "" → well_formed (wf_Tasks workflow) →
  runWithID registry env workflow forced requestID (Some s) m = Some ((run, None), store', m') →
  let span err := end_run_span run err (run_span ctx env workflow forced requestID).2 in
  attr "run.id" (span None) = Some (run_ID run) ∧ attr "run.status" (span None) = Some (run_Status run) ∧
  ∀ e, attr "run.status" (span (Some e)) = None.
Proof.
  intros HID Hwf Hret span.
  destruct (runWithID_returned registry env workflow Hwf _ _ _ _ _ _ _ _ HID Hret)
    as (st & r & _ & Hfin & _).
  destruct (finish_spec registry env workflow _ st run Hfin) as (F1 & _).
  unfold span, end_run_span, run_span, StartSpan.
  pose proof (attr_Start ctx "workflow.run" "run.status") as Hnew.
  destruct (tracer_Start ctx "workflow.run") as [ctx' sp]. simpl in *. split_and!.
  - rewrite !attr_End, !attr_SetAttributes. simpl. f_equal. symmetry. exact F1.
  - rewrite !attr_End, !attr_SetAttributes. done.
  - intros e. rewrite attr_End, attr_SetAttributes. simpl. exact Hnew.
Qed.
End spans.

(** A tracer that keeps the attributes in a map. *)
Module TraceSample.
#[export] Instance tracer : Tracer (gmap string string) := {|
  context := unit;
  tracer_Start := λ ctx _, (ctx, ∅);
  SetAttributes := λ kvs span, foldl (λ m kv, <[kv.1 := kv.2]> m) span kvs;
  End := λ span, span;
  attr := λ k span, span !! k;
|}.
#[export] Instance tracer_laws : TracerLaws (gmap string string).
Proof.
  split; [intros; apply lookup_empty| |done].
  intros kvs span k. simpl. revert span. induction kvs as [|[k' v] kvs IH]; intros span; [done|].
  simpl. rewrite IH, lookup_insert. done.
Qed.
Definition ctx : context := tt.
End TraceSample.
#[local] Existing Instance TraceSample.tracer.
#[local] Existing Instance TraceSample.tracer_laws.
Lemma job_span_status_witness :
  let job := QueueSample.get "j1" QueueSample.queue in
  let failed := Run_zero <| run_Status := RunStatusFailed |> in
  ∃ err q' m' job', settle (QueueSample.at_ 120) job failed None QueueSample.queue None = Some (err, q', m') ∧
    GetRunJob "j1" q' = Ok job' ∧
    attr "job.status" (End (settle_span job failed None (job_span TraceSample.ctx "w1" job).2)) =
      Some (job_Status job').
Proof.
  intros job failed.
  destruct (job_span_status TraceSample.ctx "w1" (QueueSample.at_ 120) job failed None QueueSample.queue
    None job)
    as (err & q' & m' & job' & H1 & H2 & H3 & _).
  - vm_compute. discriminate.
  - vm_compute. reflexivity.
  - vm_compute. reflexivity.
  - exists err, q', m', job'. split; [exact H1|]. split; [exact H2|exact H3].
Defined.
