(* ===== verification/WorkerLoop.v ===== *)
(** * internal/worker/service.go: the polling loop

    [Start] calls [processOne] over and over: at once after a job that succeeded, after
    the next tick of the poll interval otherwise.  A [turn] is one round of the loop,
    with what the environment brings to it. *)

From S2P Require Import Prelude GoLib Domain Graph Template Actions RunTask Interfaces Store Queue.
From S2P Require Import QueueProps Telemetry Executor ExecutorInv ExecutorLoop ExecutorProps Run.
From S2P Require Import RunProps Worker.
Local Open Scope Z_scope.

(** What one round sees: whether the service is draining, the orders and clocks of the
    queue operations, the course of the run, what others do to the queue before and
    during it, and whether the [select] finds the context done. *)
Record turn (Q : Type) := mkTurn {
  tn_draining : bool;
  tn_ord : iter_order;
  tn_lease_clk : clock;
  tn_fail_clk : clock;
  tn_settle_clk : clock;
  tn_env : run_env;
  tn_before : Q → Q;
  tn_during : Q → Q;
  tn_done : bool;
}.
Arguments mkTurn {Q}.
Arguments tn_draining {Q}.
Arguments tn_ord {Q}.
Arguments tn_lease_clk {Q}.
Arguments tn_fail_clk {Q}.
Arguments tn_settle_clk {Q}.
Arguments tn_env {Q}.
Arguments tn_before {Q}.
Arguments tn_during {Q}.
Arguments tn_done {Q}.

Section loop.
Context {Q : Type} `{!RunQueue Q} {S : Type} `{!WorkflowStore S} `{!Quote}.
Context (svc : Service) (registry : Registry).

(** Whether [Start] has returned after these rounds, and the state then; [None]: a run
    does not end, or a panic. *)
Fixpoint Start (turns : list (turn Q)) (q : Q) (store : S) (m : option Collector) :
    option (bool * Q * S * option Collector) :=
  match turns with
  | [] => Some (false, q, store, m)
  | t :: turns =>
      if IsDraining svc || tn_draining t then Some (true, q, store, m) else
      '(err, q, store', m) ← processOne svc (tn_ord t) (tn_lease_clk t) (tn_fail_clk t)
        (tn_settle_clk t) registry (tn_env t) (tn_during t) (tn_before t q) store m;
      let store := default store store' in
      match err with
      | None => Start turns q store m
      | Some _ => if tn_done t then Some (true, q, store, m) else Start turns q store m
      end
  end.
End loop.

(** ** The work that is left *)

(** What the bound looks at in a job: status, attempts and their limit. *)
Definition brief : Type := string * Z * Z.
Definition brief_of (job : RunQueueJob) : brief :=
  (job_Status job, job_Attempts job, job_MaxAttempts job).
Definition briefs (q : MemoryRunQueue) : gmap string brief := brief_of <$> q_jobs q.
Definition active (s : RunJobStatus) : bool :=
  bool_decide (s ∈ [RunJobStatusQueued; RunJobStatusLeased]).
(** The leases a job may still need: its remaining attempts, at least one. *)
Definition work_of (b : brief) : Z :=
  let '(s, attempts, max) := b in if active s then Z.max 1 (max - attempts) else 0.
Definition work_in (m : gmap string brief) : Z := map_fold (λ _ b n, work_of b + n) 0 m.
Definition work (q : MemoryRunQueue) : Z := work_in (briefs q).
(** The numbers of the jobs that may be leased fit 64 bits, one more attempt included. *)
Definition counts_ok (m : gmap string brief) : Prop :=
  map_Forall (λ _ '(s, attempts, max), active s = true → 0 ≤ attempts < int64_max ∧ max ≤ int64_max) m.

Lemma work_of_nonneg b : 0 ≤ work_of b.
Proof. destruct b as [[s a] mx]. simpl. destruct (active s); lia. Qed.
Lemma work_insert_new m id b : m !! id = None → work_in (<[id := b]> m) = work_of b + work_in m.
Proof.
  intros Hm. apply (map_fold_insert_L (λ _ b n, work_of b + n) 0 id b m); [intros; lia|done].
Qed.
Lemma work_insert m id b b' :
  m !! id = Some b → work_in (<[id := b']> m) = work_in m - work_of b + work_of b'.
Proof.
  intros Hm. assert (Hd : delete id m !! id = None) by apply lookup_delete_eq.
  rewrite <-(insert_delete_id m id b Hm) at 2. rewrite <-(insert_delete_eq m id b').
  rewrite !work_insert_new by done. lia.
Qed.
Lemma work_nonneg m : 0 ≤ work_in m.
Proof.
  induction m as [|id b m Hm IH] using map_ind; [done|].
  rewrite work_insert_new by done. pose proof (work_of_nonneg b). lia.
Qed.

(** ** One round with nobody else *)

Lemma briefs_lookup q id job : q_jobs q !! id = Some job → briefs q !! id = Some (brief_of job).
Proof. intros Hj. unfold briefs. by rewrite lookup_fmap, Hj. Qed.
(** The operations that end a lease, on a job that is leased. *)
Lemma leased_ops q id job (clk : clock) (d : duration) (e : string) :
  q_jobs q !! id = Some job → job_Status job = RunJobStatusLeased →
  let becomes s q' := briefs q' = <[id := (s, job_Attempts job, job_MaxAttempts job)]> (briefs q) in
  becomes RunJobStatusSucceeded (MemQ.CompleteRunJob clk id q).2 ∧
  becomes RunJobStatusCancelled (MemQ.CancelRunJob clk id e q).2 ∧
  becomes RunJobStatusQueued (MemQ.RetryRunJob clk id d e q).2 ∧
  becomes RunJobStatusFailed (MemQ.FailRunJob clk id e q).2 ∧
  becomes RunJobStatusDead (MemQ.DeadLetterRunJob clk id e q).2.
Proof.
  intros Hj Hs becomes.
  unfold becomes, MemQ.CompleteRunJob, MemQ.CancelRunJob, MemQ.RetryRunJob, MemQ.FailRunJob,
    MemQ.DeadLetterRunJob, briefs. rewrite Hj.
  rewrite (bool_decide_false (job_Status job ≠ RunJobStatusLeased)) by tauto.
  rewrite (bool_decide_false (job_Status job = RunJobStatusSucceeded)) by (rewrite Hs; done_status).
  rewrite (bool_decide_false (job_Status job = RunJobStatusCancelled)) by (rewrite Hs; done_status).
  split_and!; simpl; by rewrite fmap_insert.
Qed.
Lemma extend_briefs clk id w d q : briefs (MemQ.ExtendRunJobLease clk id w d q).2 = briefs q.
Proof.
  unfold MemQ.ExtendRunJobLease. destruct (q_jobs q !! id) as [job|] eqn:Hj; [|done].
  repeat case_bool_decide; try done. unfold briefs. simpl. rewrite fmap_insert.
  apply insert_id. by rewrite lookup_fmap, Hj.
Qed.
Lemma heartbeats_briefs svc id clks q : briefs (heartbeats svc id clks q) = briefs q.
Proof.
  unfold heartbeats. revert q; induction clks as [|clk clks IH]; intros q; [done|]. simpl.
  rewrite IH. apply extend_briefs.
Qed.
Lemma heartbeats_ops svc id clks q :
  heartbeats svc id clks q =
  apply_ops ((λ clk, OpExtend clk id (svc_workerID svc) (svc_leaseDuration svc)) <$> clks) q.
Proof. unfold heartbeats. revert q; induction clks as [|clk clks IH]; intros q; [done|]. apply IH. Qed.
Lemma lease_brief ord clk w d q job q' : jobs_keyed q →
  MemQ.LeaseNextRunJob ord clk w d q = (Ok job, q') →
  q_jobs q' !! job_ID job = Some job ∧ job_Status job = RunJobStatusLeased ∧
  ∃ s a, briefs q !! job_ID job = Some (s, a, job_MaxAttempts job) ∧ active s = true ∧
    job_Attempts job = wrap64 (a + 1) ∧
    briefs q' = <[job_ID job := brief_of job]> (briefs q).
Proof.
  intros Hkey Hl.
  apply LeaseNextRunJob_spec in Hl as [(id & j & Hj & He & _ & [= ->] & ->)|(_ & [=] & _)].
  pose proof (Hkey _ _ Hj : job_ID j = id) as <-. simpl. split; [by rewrite lookup_insert_eq|].
  split; [done|]. exists (job_Status j), (job_Attempts j). split; [by apply briefs_lookup in Hj|].
  split.
  - unfold active. apply bool_decide_eq_true. destruct He as [[-> _]|[-> _]]; set_solver.
  - split; [done|]. unfold briefs, move_job. simpl. by rewrite fmap_insert.
Qed.

(** A job that was leased and settled: less work is left. *)
Lemma settled_work s0 a mx s : active s0 = true →
  (active s = true → a + 1 < mx) → work_of (s, a + 1, mx) < work_of (s0, a, mx).
Proof. intros H0 Hs. simpl. rewrite H0. destruct (active s); [specialize (Hs eq_refl)|]; lia. Qed.
Lemma briefs_settle q q' id s0 a mx s :
  counts_ok (briefs q) → briefs q !! id = Some (s0, a, mx) → active s0 = true →
  briefs q' = <[id := (s, a + 1, mx)]> (briefs q) → (active s = true → a + 1 < mx) →
  counts_ok (briefs q') ∧ work q' < work q.
Proof.
  intros Hc Hb H0 Hq' Hs. unfold work. rewrite Hq'. split.
  - apply map_Forall_insert_2; [|done]. intros Ha. specialize (Hc _ _ Hb H0). specialize (Hs Ha). lia.
  - rewrite (work_insert _ _ _ _ Hb). pose proof (settled_work s0 a mx s H0 Hs). lia.
Qed.

Section lone.
Context {S : Type} `{!WorkflowStore S} `{!Quote} (svc : Service) (registry : Registry).
Lemma turn_work ord lease_clk fail_clk settle_clk env during q (store : S) m err q' store' m' :
  queue_inv q → counts_ok (briefs q) → (∀ q, ∃ id clks, during q = heartbeats svc id clks q) →
  processOne svc ord lease_clk fail_clk settle_clk registry env during q store m =
    Some (err, q', store', m') →
  MemQ.LeaseNextRunJob ord lease_clk (svc_workerID svc) (svc_leaseDuration svc) q =
    (Err "no run job available", q) ∨
  (queue_inv q' ∧ counts_ok (briefs q') ∧ work q' < work q).
Proof.
  intros Hi Hc Hduring Hp. unfold processOne in Hp. simpl in Hp.
  destruct (MemQ.LeaseNextRunJob _ _ _ _ _) as [[job|e] q1] eqn:Hl.
  2:{ left. apply LeaseNextRunJob_spec in Hl as [(? & ? & _ & _ & _ & [=] & _)|(_ & [= ->] & ->)]. done. }
  right. pose proof (queue_inv_op (OpLease ord lease_clk (svc_workerID svc) (svc_leaseDuration svc)) q I Hi)
    as Hi1. simpl in Hi1. rewrite Hl in Hi1. simpl in Hi1.
  destruct (lease_brief _ _ _ _ _ _ _ (qi_keyed _ Hi) Hl) as (Hj & Hs & s0 & a & Hb & H0 & Ha & Hq1).
  pose proof (Hc _ _ Hb H0) as Hrange. simpl in Hrange.
  rewrite wrap64_id in Ha by (unfold int64_min, int64_max in *; lia).
  (* Whatever operation ends the lease, only the status differs from the leased job. *)
  assert (Hend : ∀ q2 q3 s, briefs q2 = briefs q1 →
    briefs q3 = <[job_ID job := (s, job_Attempts job, job_MaxAttempts job)]> (briefs q2) →
    (active s = true → a + 1 < job_MaxAttempts job) → counts_ok (briefs q3) ∧ work q3 < work q).
  { intros q2 q3 s E2 E3 Hs3. eapply (briefs_settle q q3); [exact Hc|exact Hb|exact H0| |exact Hs3].
    by rewrite E3, E2, Hq1, insert_insert_eq, Ha. }
  destruct (GetWorkflow _ store) as [workflow|e].
  - destruct (RunWithID _ _ _ _ _ _ _) as [[[[run execErr] st2] m2]|]; simpl in Hp; [|done].
    destruct (Hduring q1) as (hid & clks & Hd). rewrite Hd in Hp.
    set (q2 := heartbeats svc hid clks q1) in *.
    assert (Hb2 : briefs q2 = briefs q1) by apply heartbeats_briefs.
    assert (Hi2 : queue_inv q2).
    { unfold q2. rewrite heartbeats_ops. apply queue_inv_ops; [|done]. by apply Forall_fmap, Forall_true. }
    destruct (q_jobs q2 !! job_ID job) as [job2|] eqn:Hj2.
    2:{ apply briefs_lookup in Hj. rewrite <-Hb2 in Hj. unfold briefs in Hj.
        rewrite lookup_fmap, Hj2 in Hj. done. }
    assert (brief_of job2 = brief_of job) as [= Hs2 Ha2 Hm2].
    { apply briefs_lookup in Hj, Hj2. rewrite Hb2 in Hj2. congruence. }
    rewrite Hs in Hs2.
    destruct (settle_verdict settle_clk job run execErr q2 m2) as (err' & m3 & Hset & _); [lia|].
    rewrite Hset in Hp. simpl in Hp. injection Hp as _ <- _ _.
    destruct (leased_ops q2 (job_ID job) job2 settle_clk
      (default 0 (retry_backoff (job_Attempts job))) (default "" err') Hj2 Hs2)
      as (H1 & H2 & H3 & _ & H5). rewrite Ha2, Hm2 in H1, H2, H3, H5.
    destruct (verdict_of job run execErr) eqn:Hv; split.
    + exact (queue_inv_op (OpComplete settle_clk (job_ID job)) q2 I Hi2).
    + by apply (Hend q2 _ RunJobStatusSucceeded Hb2 H1).
    + exact (queue_inv_op (OpCancel settle_clk (job_ID job) _) q2 I Hi2).
    + by apply (Hend q2 _ RunJobStatusCancelled Hb2 H2).
    + exact (queue_inv_op (OpRetry settle_clk (job_ID job) _ _) q2 I Hi2).
    + apply (Hend q2 _ RunJobStatusQueued Hb2 H3). intros _. unfold verdict_of in Hv.
      repeat case_decide; try done. lia.
    + exact (queue_inv_op (OpDeadLetter settle_clk (job_ID job) _) q2 I Hi2).
    + by apply (Hend q2 _ RunJobStatusDead Hb2 H5).
  - injection Hp as _ <- _ _. split.
    + exact (queue_inv_op (OpFail fail_clk (job_ID job) e) q1 I Hi1).
    + destruct (leased_ops q1 (job_ID job) job fail_clk 0 e Hj Hs) as (_ & _ & _ & Hf & _).
      apply (Hend q1 _ RunJobStatusFailed eq_refl Hf). done.
Qed.

(** C30. A worker alone runs its queue dry.  With nobody else using the queue but its own
    heartbeats, whatever the workflows do as long as their runs end, the loop finds no
    job it may lease after at most as many jobs as there are attempts left to those
    queued or leased (at least one each): every job it takes is finished, cancelled,
    dead-lettered or one attempt closer to it. *)
Theorem worker_runs_dry ops (turns : list (turn MemoryRunQueue)) (store : S) m returned q' store' m' :
  Forall op_ok ops → let q := apply_ops ops NewMemoryRunQueue in
  counts_ok (briefs q) → IsDraining svc = false →
  Forall (λ t, tn_draining t = false ∧ tn_done t = false ∧ (∀ q, tn_before t q = q) ∧
    ∀ q, ∃ id clks, tn_during t q = heartbeats svc id clks q) turns →
  work q < zlen turns →
  Start svc registry turns q store m = Some (returned, q', store', m') →
  ∃ i t q1 store1 m1, turns !! i = Some t ∧ Z.of_nat i ≤ work q ∧
    Start svc registry (take i turns) q store m = Some (false, q1, store1, m1) ∧
    MemQ.LeaseNextRunJob (tn_ord t) (tn_lease_clk t) (svc_workerID svc) (svc_leaseDuration svc) q1 =
      (Err "no run job available", q1).
Proof.
  intros Hok q Hc Hdr Hturns. pose proof (queue_inv_ops _ _ Hok queue_inv_new) as Hi. fold q in Hi.
  clearbody q. clear Hok. revert q store m Hi Hc.
  induction Hturns as [|t turns (Ht1 & Ht2 & Ht3 & Ht4) _ IH]; intros q store m Hi Hc Hw Hs.
  { pose proof (work_nonneg (briefs q)). unfold work, zlen in *. simpl in Hw. lia. }
  simpl in Hs. rewrite Hdr, Ht1, Ht3 in Hs. simpl in Hs.
  destruct (processOne _ _ _ _ _ _ _ _ _ _ _) as [[[[err q1] store1] m1]|] eqn:Hp; simpl in Hs; [|done].
  destruct (turn_work _ _ _ _ _ _ _ _ _ _ _ _ _ Hi Hc Ht4 Hp) as [Hidle|(Hi1 & Hc1 & Hw1)].
  { exists 0%nat, t, q, store, m. repeat split; [|exact Hidle].
    apply (work_nonneg (briefs q)). }
  assert (Hnext : Start svc registry turns q1 (default store store1) m1 = Some (returned, q', store', m')).
  { destruct err; [rewrite Ht2 in Hs|]; exact Hs. }
  destruct (IH q1 (default store store1) m1 Hi1 Hc1) as (i & t' & q2 & s2 & m2 & Hi' & Hle & Hst & Hl).
  - unfold zlen in *. simpl in Hw. lia.
  - exact Hnext.
  - exists (Datatypes.S i), t', q2, s2, m2. split; [exact Hi'|]. split; [lia|]. split; [|exact Hl].
    simpl. rewrite Hdr, Ht1, Ht3. simpl. rewrite Hp. simpl. destruct err; [rewrite Ht2|]; exact Hst.
Qed.
End lone.

#[local] Existing Instance Sample.quote_id.
(** Two jobs whose runs fail: each is tried once and waits, then there is nothing to do. *)
Module LoopSample.
Definition ops : list queue_op :=
  [OpEnqueue (QueueSample.at_ 10) (QueueSample.job "j1");
   OpEnqueue (QueueSample.at_ 20) (QueueSample.job "j2")].
Definition q : MemoryRunQueue := apply_ops ops NewMemoryRunQueue.
Definition svc : Service := NewService 0 "w1".
Definition round : turn MemoryRunQueue :=
  mkTurn false canonical_order (QueueSample.at_ 100) (QueueSample.at_ 101) (QueueSample.at_ 400)
    (RunSample.env RunSample.events) (λ q, q) (heartbeats svc "j1" [QueueSample.at_ 200]) false.
Definition store : MemoryStore := (SaveWorkflow Sample.workflow NewMemoryStore).2.
Lemma loop_ops_ok : Forall op_ok ops.
Proof. repeat constructor; by vm_compute. Qed.
End LoopSample.
Lemma worker_runs_dry_witness :
  ∃ i q1 store1 m1, (Z.of_nat i ≤ 6) ∧
    Start LoopSample.svc Sample.registry (take i (replicate 7 LoopSample.round)) LoopSample.q
      LoopSample.store None = Some (false, q1, store1, m1) ∧
    MemQ.LeaseNextRunJob canonical_order (QueueSample.at_ 100) "w1" (30 * Second) q1 =
      (Err "no run job available", q1).
Proof.
  destruct (Start LoopSample.svc Sample.registry (replicate 7 LoopSample.round) LoopSample.q
    LoopSample.store None) as [[[[r q'] s'] m']|] eqn:Hs; [|vm_compute in Hs; discriminate Hs].
  destruct (worker_runs_dry LoopSample.svc Sample.registry LoopSample.ops
    (replicate 7 LoopSample.round) LoopSample.store None r q' s' m')
    as (i & t & q1 & s1 & m1 & Ht & Hi & Hst & Hl).
  - apply LoopSample.loop_ops_ok.
  - apply (bool_decide_unpack _). vm_compute. exact I.
  - reflexivity.
  - apply Forall_replicate. split; [reflexivity|]. split; [reflexivity|]. split; [reflexivity|].
    intros q. exists "j1", [QueueSample.at_ 200]. reflexivity.
  - vm_compute. reflexivity.
  - exact Hs.
  - apply lookup_replicate in Ht as [-> _]. exists i, q1, s1, m1.
    split; [|split; [exact Hst|exact Hl]]. vm_compute in Hi. exact Hi.
Defined.
