(* ===== verification/WorkerTimers.v ===== *)
(** * internal/worker/service.go: the goroutines of a job

    While the executor runs the workflow of a leased job, [processOne] has two goroutines
    at work: the heartbeat extends the lease at every half of it, the watcher looks every
    100 ms whether the job was cancelled and then ends the context of the run.  [Worker]
    has their effects as arguments ([during], the context in [run_env]); here they are
    the loops of [Ticker], and the theorems say what their timing achieves. *)

From S2P Require Import Prelude GoLib Domain Interfaces Queue QueueProps Worker Ticker.
Local Open Scope Z_scope.

(** ** The heartbeat *)

(** The goroutine starts at [t0]; [heartbeatCancel] is called at [done]. *)
Definition heartbeat_loop (svc : Service) (t0 : time) (done : option time) (rounds : list round) :
    list call * bool :=
  tick_loop t0 (heartbeat_interval svc) done rounds t0 t0.

(** *** Beats in time

    From [last], when the lease was last extended, on: the next beat comes before the
    lease of length [d] runs out, and so on until [c]. *)
Fixpoint covered (d c last : Z) (beats : list time) : Prop :=
  match beats with
  | [] => c ≤ last + d
  | b :: beats => last ≤ b ≤ last + d ∧ covered d c b beats
  end.
(** A beat happens during its call. *)
Definition within (k : call) (b : time) : Prop := k.1 ≤ b ≤ k.2.

Lemma covered_late d c last beats : covered d c last beats → c < last →
  filter (λ b, b ≤ c) beats = [].
Proof.
  revert last; induction beats as [|b beats IH]; intros last; [done|]. simpl. intros [Hb Hc] Hlt.
  rewrite filter_cons_False by lia. apply (IH b); [done|lia].
Qed.
Lemma covered_end d c last beats : covered d c last beats → filter (λ b, b ≤ c) beats = [] →
  c ≤ last + d.
Proof.
  destruct beats as [|b beats]; [done|]. intros [Hb _] Hf. destruct (decide (b ≤ c)); [|lia].
  rewrite filter_cons_True in Hf by done. done.
Qed.

Section covered.
Context (t0 i slack d c : Z) (Hi : 0 < i) (Hslack : slack < i) (Hd : i + slack ≤ d).
Definition prompt (rd : round) : Prop := sane rd ∧ rd_lag rd + rd_body rd ≤ slack.
Lemma prompt_quick rounds : Forall prompt rounds → Forall (quick i) rounds.
Proof using Hslack. intros Hp. eapply Forall_impl; [exact Hp|]. intros rd [Hs Hle]. split; [done|lia]. Qed.
(** Prompt beats at every [i] are in time. *)
Lemma prompt_covered rounds calls r t last beats :
  Forall prompt rounds → t < next_tick t0 i r → next_tick t0 i r + slack ≤ last + d →
  last ≤ next_tick t0 i r →
  tick_loop t0 i (Some c) rounds r t = (calls, true) → Forall2 within calls beats →
  covered d c last beats.
Proof using Hi Hslack Hd.
  intros Hp. revert calls r t last beats.
  induction Hp as [|rd rounds [[Hl Hb] Hle] Hp IH]; intros calls r t last beats Ht Hnext Hlast;
    simpl; [done|].
  destruct (takes_tick (Some c) rd t _) eqn:Htake.
  - rewrite Z.max_r by lia. destruct (tick_loop _ _ _ _ _ _) as [calls' returned'] eqn:Hloop.
    intros [= <- ->] (b & beats' & [Hb1 Hb2] & Hall & ->)%Forall2_cons_inv_l. simpl in Hb1, Hb2.
    assert (Hnn : next_tick t0 i (next_tick t0 i r) = next_tick t0 i r + i)
      by (by apply next_tick_next).
    split; [lia|]. eapply IH; [| | |exact Hloop|exact Hall]; lia.
  - intros [= <-] ->%Forall2_nil_inv_l. simpl.
    apply leaves_tick_done in Htake. lia.
Qed.
End covered.

(** *** The lease is kept *)

(** What happens to the queue, and when: an operation at a time. *)
Definition timed_op : Type := time * queue_op.
Section kept.
Context (id w : string) (d : duration).

(** A beat of the heartbeat of job [id], and an operation of anybody else: workers may
    try to lease at any time and jobs of another status may be purged, but nobody else
    ends or extends this lease. *)
Definition is_beat (ev : timed_op) : Prop :=
  ∃ clk, ev.2 = OpExtend clk id w d ∧ clk 0%nat = ev.1.
Definition is_other (ev : timed_op) : Prop :=
  match ev.2 with
  | OpEnqueue _ _ => True
  | OpLease _ clk _ _ => clk 0%nat = ev.1
  | OpPurge _ _ status _ _ => status ≠ "" ∧ status ≠ RunJobStatusLeased
  | op => op_job op ≠ Some id
  end.
(** The events, with the times of the beats among them. *)
Inductive timeline : list timed_op → list time → Prop :=
| timeline_nil : timeline [] []
| timeline_beat ev evs beats : is_beat ev → timeline evs beats → timeline (ev :: evs) (ev.1 :: beats)
| timeline_other ev evs beats : is_other ev → timeline evs beats → timeline (ev :: evs) beats.
Lemma timeline_beats evs beats b : timeline evs beats → b ∈ beats → ∃ ev, ev ∈ evs ∧ ev.1 = b.
Proof.
  induction 1 as [|ev evs beats _ _ IH|ev evs beats _ _ IH]; [by rewrite elem_of_nil| |].
  - intros [->|Hb]%elem_of_cons; [exists ev; by split; [left|]|].
    destruct (IH Hb) as (e & ? & ?). exists e. split; [by right|done].
  - intros Hb. destruct (IH Hb) as (e & ? & ?). exists e. split; [by right|done].
Qed.

(** The job is leased by [w] until [until], for the [n]-th time. *)
Definition held (n : Z) (until : time) (q : MemoryRunQueue) : Prop :=
  ∃ job, q_jobs q !! id = Some job ∧ job_Status job = RunJobStatusLeased ∧ job_LeaseOwner job = w ∧
    job_Attempts job = n ∧ job_LeaseUntil job = until.

Lemma held_beat n until ev q : is_beat ev → held n until q →
  held n (ev.1 + d) (apply_op ev.2 q).
Proof.
  intros (clk & -> & <-) (job & Hj & Hs & Hw & Hn & Hu). simpl. unfold MemQ.ExtendRunJobLease.
  rewrite Hj, bool_decide_false by tauto. rewrite bool_decide_false by tauto. simpl.
  eexists. split; [apply lookup_insert_eq|]. done.
Qed.
Lemma held_other n until ev q : jobs_keyed q → is_other ev → ev.1 ≤ until → held n until q →
  held n until (apply_op ev.2 q).
Proof.
  intros Hk Ho Hle (job & Hj & Hs & Hw & Hn & Hu). exists job. split; [|done].
  destruct ev as [x op]. unfold is_other in Ho. simpl in *.
  destruct op as [| ord clk w' d'| | | | | | | |ord clk status d' l];
    try (apply apply_op_other; [done|done|]; simpl in *; done).
  - apply apply_op_other; [done..|]. intros [[He _]|(_ & _ & Hlt)].
    + rewrite Hs in He. by vm_compute in He.
    + lia.
  - simpl. apply purge_spares; [done|tauto|]. rewrite Hs. intros <-. tauto.
Qed.

Lemma timeline_held n c evs done_ beats q last : queue_inv q → Forall op_ok evs.*2 →
  timeline evs done_ → done_ = filter (λ b, b ≤ c) beats →
  StronglySorted (λ a b, a.1 ≤ b.1) evs → Forall (λ ev, ev.1 ≤ c) evs →
  covered d c last beats → held n (last + d) q →
  ∃ until, c ≤ until ∧ held n until (apply_ops evs.*2 q).
Proof.
  intros Hi Hok Ht. revert q last beats Hi Hok.
  induction Ht as [|ev evs bs Hev _ IH|ev evs bs Hev Ht IH];
    intros q last beats Hi Hok Hbs Hsort Hle Hcov Hheld.
  - exists (last + d). split; [|done]. by eapply covered_end.
  - apply StronglySorted_inv in Hsort as [Hsort _]. apply Forall_cons in Hle as [Hx Hle].
    apply Forall_cons in Hok as [Hop Hok].
    destruct beats as [|b beats]; [done|]. destruct Hcov as [Hb Hcov].
    destruct (decide (b ≤ c)) as [Hbc|Hbc].
    + rewrite filter_cons_True in Hbs by done. injection Hbs as Hxb Hbs. subst b.
      apply (IH _ ev.1 beats); try done; [by apply queue_inv_op|by eapply held_beat].
    + rewrite filter_cons_False, (covered_late d c b) in Hbs by (done || lia). done.
  - apply StronglySorted_inv in Hsort as [Hsort Hfirst]. apply Forall_cons in Hle as [Hx Hle].
    apply Forall_cons in Hok as [Hop Hok].
    apply (IH _ last beats); try done; [by apply queue_inv_op|].
    apply held_other; [apply Hi|done| |done].
    destruct beats as [|b beats]; simpl in Hcov; [lia|]. destruct Hcov as [Hb Hcov].
    destruct (decide (b ≤ c)) as [Hbc|Hbc]; [|lia].
    rewrite filter_cons_True in Hbs by done.
    destruct (timeline_beats _ _ b Ht) as (e & He & <-); [rewrite Hbs; by left|].
    rewrite Forall_forall in Hfirst. specialize (Hfirst e He). lia.
Qed.
End kept.

(** C21. A heartbeat keeps its lease.  A worker leases a job, on a reachable queue, and
    starts the heartbeat; if the time that takes, and how late a beat may come after its
    tick, together are at most half of the lease, then however long the run is, whatever
    is enqueued or done to other jobs meanwhile, whichever jobs of another status are purged,
    and however often and whenever other workers look for a job, this one is still leased by the worker when its run ends,
    and by nobody else in between: its attempts were not counted up. *)
Theorem heartbeat_keeps_lease svc ops ord clk job q' t0 slack c rounds calls beats evs :
  Forall op_ok (ops ++ evs.*2) → 2 ≤ svc_leaseDuration svc →
  MemQ.LeaseNextRunJob ord clk (svc_workerID svc) (svc_leaseDuration svc)
    (apply_ops ops NewMemoryRunQueue) = (Ok job, q') →
  clk 0%nat ≤ t0 → slack < heartbeat_interval svc →
  t0 - clk 0%nat + slack ≤ svc_leaseDuration svc / 2 →
  Forall (prompt slack) rounds → heartbeat_loop svc t0 (Some c) rounds = (calls, true) →
  Forall2 within calls beats →
  timeline (job_ID job) (svc_workerID svc) (svc_leaseDuration svc) evs (filter (λ b, b ≤ c) beats) →
  StronglySorted (λ a b, a.1 ≤ b.1) evs → Forall (λ ev, ev.1 ≤ c) evs →
  ∃ until, c ≤ until ∧
    held (job_ID job) (svc_workerID svc) (job_Attempts job) until (apply_ops evs.*2 q').
Proof.
  intros [Hok1 Hok2]%Forall_app Hl Hlease Ht0 Hslack Hstart Hp Hloop Hbeats Ht Hsort Hle.
  set (d := svc_leaseDuration svc) in *. set (i := heartbeat_interval svc) in *.
  assert (Hi : 0 < i ∧ i = d / 2).
  { unfold i, heartbeat_interval. fold d. rewrite Z.quot_div_nonneg by lia.
    pose proof (Z.div_le_lower_bound d 2 1). destruct (Z.leb_spec (d / 2) 0); lia. }
  pose proof (Z.mul_div_le d 2 ltac:(lia)) as H2.
  pose proof (queue_inv_ops _ _ Hok1 queue_inv_new) as Hinv.
  assert (Hinv' : queue_inv q').
  { pose proof (queue_inv_op (OpLease ord clk (svc_workerID svc) d) _ I Hinv) as H. simpl in H.
    by rewrite Hlease in H. }
  assert (Hnext : next_tick t0 i t0 = t0 + i).
  { unfold next_tick. rewrite (ticks_at t0 i ltac:(lia) 0) by lia. lia. }
  apply (timeline_held (job_ID job) (svc_workerID svc) d (job_Attempts job) c evs
    (filter (λ b, b ≤ c) beats) beats q' (clk 0%nat)); try done.
  - apply (prompt_covered t0 i slack d c ltac:(lia) ltac:(lia) ltac:(lia) rounds calls t0 t0);
      try done; rewrite Hnext; lia.
  - apply LeaseNextRunJob_spec in Hlease as [(id & j & Hj & _ & _ & [= ->] & ->)|(_ & [=] & _)].
    eexists. split; [apply lookup_insert_eq|]. done.
Qed.
(** A lease of 50 ns, kept alive from 110 to 200 while another worker keeps asking. *)
Module BeatSample.
Definition svc : Service := SetPolling 0 50 (NewService 0 "w2").
Definition ops : list queue_op := take 3 QueueSample.ops.
Definition leased : MemoryRunQueue :=
  (MemQ.LeaseNextRunJob canonical_order (QueueSample.at_ 110) "w2" 50
     (apply_ops ops NewMemoryRunQueue)).2.
Definition rounds : list round := replicate 4 (mkRound 1 2 true).
Definition lease (t : time) : timed_op := (t, OpLease canonical_order (QueueSample.at_ t) "w3" 50).
Definition beat (t : time) : timed_op := (t, OpExtend (QueueSample.at_ t) "j2" "w2" 50).
Definition evs : list timed_op :=
  [lease 120; beat 139; (150, OpPurge canonical_order (QueueSample.at_ 150) "SUCCEEDED" 0 0);
   lease 161; beat 164; beat 189; lease 195].
End BeatSample.
Lemma heartbeat_keeps_lease_witness : ∃ until, 200 ≤ until ∧
  held "j2" "w2" 1 until (apply_ops BeatSample.evs.*2 BeatSample.leased).
Proof.
  apply (heartbeat_keeps_lease BeatSample.svc BeatSample.ops canonical_order (QueueSample.at_ 110)
    (QueueSample.get "j2" BeatSample.leased) BeatSample.leased 112 3 200 BeatSample.rounds
    [(138, 140); (163, 165); (188, 190)] [139; 164; 189] BeatSample.evs).
  - repeat constructor; by vm_compute.
  - vm_compute. discriminate.
  - vm_compute. reflexivity.
  - vm_compute. discriminate.
  - vm_compute. reflexivity.
  - vm_compute. discriminate.
  - apply Forall_replicate. unfold prompt, sane. simpl. lia.
  - vm_compute. reflexivity.
  - unfold within. repeat constructor; simpl; lia.
  - change (filter (λ b, b ≤ 200) [139; 164; 189]) with [139; 164; 189].
    apply timeline_other; [reflexivity|].
    apply (timeline_beat _ _ _ (BeatSample.beat 139)); [by eexists|].
    apply timeline_other; [by vm_compute|]. apply timeline_other; [reflexivity|].
    apply (timeline_beat _ _ _ (BeatSample.beat 164)); [by eexists|].
    apply (timeline_beat _ _ _ (BeatSample.beat 189)); [by eexists|].
    apply timeline_other; [reflexivity|]. apply timeline_nil.
  - repeat constructor; simpl; lia.
  - repeat constructor; simpl; lia.
Defined.

(** ** The watcher *)

Definition watch_interval : duration := 100 * Millisecond.
(** The goroutine starts at [t0]; [cancelWatch] is called at [done]. *)
Definition watch_loop (t0 : time) (done : option time) (rounds : list round) : list call * bool :=
  tick_loop t0 watch_interval done rounds t0 t0.
(** What a call looks for; an error is passed over. *)
Definition sees_cancel {Q} `{!RunQueue Q} (id : string) (q : Q) : bool :=
  match GetRunJob id q with
  | Err _ => false
  | Ok current => bool_decide (job_Status current = RunJobStatusCancelled)
  end.
(** When [runCancel] is called, given the queue that each call finds; the loop returns
    then. *)
Fixpoint watch {Q} `{!RunQueue Q} (id : string) (looks : list (time * Q)) : option time :=
  match looks with
  | [] => None
  | (t, q) :: looks => if sees_cancel id q then Some t else watch id looks
  end.

Lemma watch_spec {Q} `{!RunQueue Q} id (looks : list (time * Q)) :
  match watch id looks with
  | Some t => ∃ i q, looks !! i = Some (t, q) ∧ sees_cancel id q = true ∧
      ∀ j t' q', (j < i)%nat → looks !! j = Some (t', q') → sees_cancel id q' = false
  | None => ∀ j t' q', looks !! j = Some (t', q') → sees_cancel id q' = false
  end.
Proof.
  induction looks as [|[t q] looks IH]; [done|]. simpl. destruct (sees_cancel id q) eqn:Hs.
  - exists 0%nat, q. split; [done|]. split; [done|]. lia.
  - destruct (watch id looks) as [t'|].
    + destruct IH as (i & q' & Hi & Hq' & Hb). exists (S i), q'. split; [done|]. split; [done|].
      intros [|j] t1 q1 Hj; simpl; [by intros [= <- <-]|]. apply Hb. lia.
    + intros [|j] t1 q1; simpl; [by intros [= <- <-]|]. apply IH.
Qed.

(** A cancelled job stops its run.  If a job is cancelled at [x], while its workflow
    runs, and stays so, the watcher ends the context of the run, not before [x] and no later
    than 100 ms and the lag of a look after it, unless the run is over within 100 ms anyhow. *)
Theorem watcher_stops_run {Q} `{!RunQueue Q} id (queue_at : time → Q) t0 c x slack rounds calls looks :
  t0 ≤ x → slack < watch_interval → Forall (prompt slack) rounds →
  watch_loop t0 (Some c) rounds = (calls, true) → Forall2 within calls looks →
  (∀ t, sees_cancel id (queue_at t) = true ↔ x ≤ t) →
  match watch id ((λ t, (t, queue_at t)) <$> looks) with
  | Some t => x ≤ t ≤ x + watch_interval + slack
  | None => c ≤ x + watch_interval
  end.
Proof.
  intros Hx Hslack Hp Hloop Hlooks Hc.
  assert (Hi : 0 < watch_interval) by (by vm_compute). set (i := watch_interval) in *.
  pose proof (prompt_quick i slack Hslack rounds Hp) as Hq.
  pose proof (next_tick_after t0 i Hi t0) as Hn.
  assert (Hticks : ticks t0 i t0 = 0) by (apply ticks_at; lia).
  (* a look comes at its tick or soon after *)
  assert (Htick : ∀ k t, looks !! k = Some t →
    t0 + (1 + Z.of_nat k) * i ≤ t ≤ t0 + (1 + Z.of_nat k) * i + slack).
  { intros k t Hk. destruct (Forall2_lookup_r _ _ _ _ _ Hlooks Hk) as ([b e] & Hcall & [Hb He]).
    destruct (tick_loop_quick t0 i Hi _ _ _ _ _ _ Hq Hn Hloop k b e Hcall) as (rd & Hrd & -> & -> & _).
    rewrite Hticks in *. rewrite Forall_lookup in Hp. destruct (Hp _ _ Hrd) as [[??]?].
    simpl in *. lia. }
  assert (Hsee : ∀ t, sees_cancel id (queue_at t) = false ↔ t < x).
  { intros t. rewrite <-not_true_iff_false, Hc. lia. }
  (* all looks up to the [n]-th are before [x], so is its tick *)
  assert (Hbefore : ∀ n, (n ≤ length looks)%nat → (∀ k t, (k < n)%nat → looks !! k = Some t → t < x) →
    t0 + Z.of_nat n * i ≤ x).
  { intros [|n] Hlen Hall; [lia|]. destruct (lookup_lt_is_Some_2 looks n ltac:(lia)) as [t Ht].
    pose proof (Hall n t ltac:(lia) Ht). pose proof (Htick n t Ht). lia. }
  pose proof (watch_spec id ((λ t, (t, queue_at t)) <$> looks)) as Hw.
  destruct (watch id _) as [t|].
  - destruct Hw as (k & q & Hk & Hs & Hfirst). rewrite list_lookup_fmap in Hk.
    apply fmap_Some in Hk as (t' & Hk & [= -> ->]). apply Hc in Hs. split; [done|].
    pose proof (Htick k t' Hk).
    assert (t0 + Z.of_nat k * i ≤ x); [|lia]. apply Hbefore; [apply lookup_lt_Some in Hk; lia|].
    intros j u Hj Hu. apply Hsee, (Hfirst j u); [done|]. by rewrite list_lookup_fmap, Hu.
  - pose proof (tick_loop_returned t0 i Hi _ _ _ _ _ Hq Hn Hloop) as Hend.
    rewrite Hticks, (Forall2_length _ _ _ Hlooks) in Hend.
    assert (t0 + Z.of_nat (length looks) * i ≤ x); [|lia]. apply Hbefore; [done|].
    intros j u _ Hu. apply Hsee, (Hw j u). by rewrite list_lookup_fmap, Hu.
Qed.
(** The job of the sample is cancelled 250 ms after its run began. *)
Module WatchSample.
Definition cancelled : MemoryRunQueue :=
  (MemQ.CancelRunJob (QueueSample.at_ 300) "j" "stop" WorkerSample.leased).2.
Definition queue_at (t : time) : MemoryRunQueue :=
  if 250 * Millisecond <=? t then cancelled else WorkerSample.leased.
Definition rounds : list round := replicate 5 (mkRound 0 Millisecond true).
Definition look (k : Z) : time := k * watch_interval + Millisecond.
End WatchSample.
Lemma watcher_stops_run_witness :
  match watch "j" ((λ t, (t, WatchSample.queue_at t)) <$> (WatchSample.look <$> [1; 2; 3; 4])) with
  | Some t => 250 * Millisecond ≤ t ≤ 250 * Millisecond + watch_interval + Millisecond
  | None => 450 * Millisecond ≤ 250 * Millisecond + watch_interval
  end.
Proof.
  apply (watcher_stops_run "j" WatchSample.queue_at 0 (450 * Millisecond) (250 * Millisecond) Millisecond
    WatchSample.rounds
    ((λ k, (k * watch_interval, k * watch_interval + Millisecond)) <$> [1; 2; 3; 4])).
  - vm_compute. discriminate.
  - vm_compute. reflexivity.
  - apply Forall_replicate. unfold prompt, sane. vm_compute. split; [split|]; discriminate.
  - vm_compute. reflexivity.
  - repeat constructor; vm_compute; discriminate.
  - intros t. unfold WatchSample.queue_at. destruct (Z.leb_spec (250 * Millisecond) t).
    + split; [done|]. intros _. vm_compute. reflexivity.
    + split; [|lia]. vm_compute. discriminate.
Defined.
