(* ===== verification/Scheduler.v ===== *)
(** * internal/scheduler/service.go: the schedule service

    Registration, pausing, persistence and the leader lock of the scheduler.
    Every operation that holds the lock of the service is one step; [Start] and
    [executeOnce], which release it on the way, are several.  The cron library
    is a parameter, [CronEngine]; the JSON codec too.  The files the service
    works on are part of its state, and each operation takes the faults that the
    operating system lets it meet. *)

From S2P Require Import Prelude GoLib Domain Actions Interfaces Store Queue Telemetry Run.
Local Open Scope Z_scope.

(** ** The cron library

    What [cron.AddFunc] is handed is the job that its closure runs.  [Entries]
    is what the engine will fire. *)

Class CronEngine (E : Type) := {
  cron_New : E;
  AddFunc : string → ScheduleConfig → E → result Z * E;
  Remove : Z → E → E;
  Entries : E → gmap Z ScheduleConfig;
}.
(** An entry that is added gets an ID that is not in use; a specification that
    does not parse adds none. *)
Class CronEngineLaws (E : Type) `{!CronEngine E} := {
  Entries_New : Entries cron_New = ∅;
  AddFunc_Ok spec job e i e' : AddFunc spec job e = (Ok i, e') →
    Entries e !! i = None ∧ Entries e' = <[i := job]> (Entries e);
  AddFunc_Err spec job e err e' : AddFunc spec job e = (Err err, e') → Entries e' = Entries e;
  Entries_Remove i e : Entries (Remove i e) = delete i (Entries e);
}.

(** ** State *)

(** [persistedSchedules] *)
Record persistedSchedules := mkPersistedSchedules {
  ps_Jobs : list ScheduleConfig;
  ps_Paused : list string;
}.

(** The fields of the Go struct; [intervalStop] holds, instead of a cancel
    function, the goroutine that it stops.  Then what the process holds besides:
    the interval goroutines that are not stopped, the jobs that a closure or
    goroutine was ever made for, the calls of [executeOnce] that [RunOnStartup]
    asked for, the jobs that [Start] has still to start, the calls of
    [executeOnce] in progress, and the files. *)
Record Service (E : Type) := mkService {
  s_jobs : gmap string ScheduleConfig;
  s_paused : gmap string bool;
  s_running : gmap string bool;
  s_cronEntryIDs : gmap string Z;
  s_intervalStop : gmap string nat;
  s_cronEngine : E;
  s_started : bool;
  s_leaderLockPath : string;
  s_leaderLockHeld : bool;
  s_scheduleStore : string;
  go_intervals : gmap nat ScheduleConfig;
  go_next : nat;
  go_made : list ScheduleConfig;
  go_startups : list ScheduleConfig;
  go_starting : list ScheduleConfig;
  go_executing : list ScheduleConfig;
  os_files : gmap string string;
}.
Arguments mkService {E}.
Arguments s_jobs {E}.
Arguments s_paused {E}.
Arguments s_running {E}.
Arguments s_cronEntryIDs {E}.
Arguments s_intervalStop {E}.
Arguments s_cronEngine {E}.
Arguments s_started {E}.
Arguments s_leaderLockPath {E}.
Arguments s_leaderLockHeld {E}.
Arguments s_scheduleStore {E}.
Arguments go_intervals {E}.
Arguments go_next {E}.
Arguments go_made {E}.
Arguments go_startups {E}.
Arguments go_starting {E}.
Arguments go_executing {E}.
Arguments os_files {E}.
#[export] Instance Service_settable {E} : Settable (Service E) := λ s,
  mkService (s_jobs s) (s_paused s) (s_running s) (s_cronEntryIDs s) (s_intervalStop s)
    (s_cronEngine s) (s_started s) (s_leaderLockPath s) (s_leaderLockHeld s) (s_scheduleStore s)
    (go_intervals s) (go_next s) (go_made s) (go_startups s) (go_starting s) (go_executing s)
    (os_files s).

(** What goes wrong in the operating system during an operation; a failed write
    leaves something in the file. *)
Record faults := mkFaults {
  f_mkdir : option string;
  f_open : option string;
  f_read : option string;
  f_write : option (string * string);
  f_remove : option string;
}.
Definition no_faults : faults := mkFaults None None None None None.

Section scheduler.
Context {E : Type} `{!CronEngine E}.
Context (MarshalIndent : persistedSchedules → result string).
Context (Unmarshal : string → result persistedSchedules).
Abbreviation Svc := (Service E).

(** The service before any operation, over the files of the machine. *)
Definition NewService (files : gmap string string) : Svc :=
  mkService ∅ ∅ ∅ ∅ ∅ cron_New false "" false "" ∅ 0 [] [] [] [] files.

(** ** Persistence *)

Definition persisted_of (ords : nat → iter_order) (s : Svc) : persistedSchedules :=
  mkPersistedSchedules
    (sort_slice (λ a b, str_ltb (sched_WorkflowID a) (sched_WorkflowID b))
       (iter_values (ords 0%nat) (s_jobs s)))
    (sort_slice str_ltb (filter (λ kv, kv.2 = true) (iter (ords 1%nat) (s_paused s))).*1).
Definition persistLocked (flt : faults) (ords : nat → iter_order) (s : Svc) : result unit * Svc :=
  if bool_decide (s_scheduleStore s = "") then (Ok tt, s) else
  match f_mkdir flt with
  | Some err => (Err err, s)
  | None =>
      match MarshalIndent (persisted_of ords s) with
      | Err err => (Err err, s)
      | Ok bytes =>
          match f_write flt with
          | Some (err, left_) =>
              (Err err, s <| os_files := <[s_scheduleStore s := left_]> (os_files s) |>)
          | None => (Ok tt, s <| os_files := <[s_scheduleStore s := bytes]> (os_files s) |>)
          end
      end
  end.

Definition loadLocked (flt : faults) (s : Svc) : result unit * Svc :=
  if bool_decide (s_scheduleStore s = "") then (Ok tt, s) else
  match f_read flt with
  | Some err => (Err err, s)
  | None =>
      match os_files s !! s_scheduleStore s with
      | None => (Ok tt, s)
      | Some bytes =>
          match Unmarshal bytes with
          | Err err => (Err err, s)
          | Ok persisted =>
              (Ok tt,
               s <| s_jobs := foldl (λ m cfg, <[sched_WorkflowID cfg := cfg]> m) ∅
                                (ps_Jobs persisted) |>
                 <| s_paused := foldl (λ m id, <[id := true]> m) ∅ (ps_Paused persisted) |>)
          end
      end
  end.

(** ** Timers *)

(** [if existingID, ok := s.cronEntryIDs[id]; ok { Remove; delete }] *)
Definition remove_cron (workflowID : string) (s : Svc) : Svc :=
  match s_cronEntryIDs s !! workflowID with
  | None => s
  | Some existingID =>
      s <| s_cronEngine := Remove existingID (s_cronEngine s) |>
        <| s_cronEntryIDs := delete workflowID (s_cronEntryIDs s) |>
  end.
(** [if stop, ok := s.intervalStop[id]; ok { stop(); delete }] *)
Definition stop_interval (workflowID : string) (s : Svc) : Svc :=
  match s_intervalStop s !! workflowID with
  | None => s
  | Some k =>
      s <| go_intervals := delete k (go_intervals s) |>
        <| s_intervalStop := delete workflowID (s_intervalStop s) |>
  end.
Definition unscheduleLocked (workflowID : string) (s : Svc) : Svc :=
  stop_interval workflowID (remove_cron workflowID s).

(** What [RunOnStartup] adds. *)
Definition run_on_startup (job : ScheduleConfig) (s : Svc) : Svc :=
  if sched_RunOnStartup job then s <| go_startups := job :: go_startups s |> else s.
Definition startJobLocked (job : ScheduleConfig) (s : Svc) : result unit * Svc :=
  let s := stop_interval (sched_WorkflowID job) (remove_cron (sched_WorkflowID job) s) in
  if bool_decide (sched_Cron job ≠ "") then
    match AddFunc (sched_Cron job) job (s_cronEngine s) with
    | (Err err, engine) => (Err err, s <| s_cronEngine := engine |>)
    | (Ok entryID, engine) =>
        (Ok tt,
         run_on_startup job
           (s <| s_cronEngine := engine |>
              <| s_cronEntryIDs := <[sched_WorkflowID job := entryID]> (s_cronEntryIDs s) |>
              <| go_made := job :: go_made s |>))
    end
  else
    (Ok tt,
     run_on_startup job
       (s <| s_intervalStop := <[sched_WorkflowID job := go_next s]> (s_intervalStop s) |>
          <| go_intervals := <[go_next s := job]> (go_intervals s) |>
          <| go_next := S (go_next s) |>
          <| go_made := job :: go_made s |>)).

(** ** Operations *)

Definition Pause (flt : faults) (ords : nat → iter_order) (workflowID : string) (s : Svc) :
    result unit * Svc :=
  match s_jobs s !! workflowID with
  | None => (Err "schedule not found", s)
  | Some _ =>
      (Ok tt,
       (persistLocked flt ords (s <| s_paused := <[workflowID := true]> (s_paused s) |>)).2)
  end.
Definition Resume (flt : faults) (ords : nat → iter_order) (workflowID : string) (s : Svc) :
    result unit * Svc :=
  match s_jobs s !! workflowID with
  | None => (Err "schedule not found", s)
  | Some _ =>
      (Ok tt, (persistLocked flt ords (s <| s_paused := delete workflowID (s_paused s) |>)).2)
  end.
Definition IsPaused (workflowID : string) (s : Svc) : bool :=
  default false (s_paused s !! workflowID).
Definition SetLeaderLockPath (path : string) (s : Svc) : Svc := s <| s_leaderLockPath := path |>.
Definition SetScheduleStorePath (flt : faults) (path : string) (s : Svc) : Svc :=
  (loadLocked flt (s <| s_scheduleStore := TrimSpace path |>)).2.

Definition Register (flt : faults) (ords : nat → iter_order) (config : ScheduleConfig)
    (s : Svc) : result unit * Svc :=
  if bool_decide (sched_WorkflowID config = "") then (Err "workflowID is required", s) else
  if (sched_Interval config <=? 0) && bool_decide (sched_Cron config = "") then
    (Err "either interval or cron must be provided", s) else
  if (0 <? sched_Interval config) && bool_decide (sched_Cron config ≠ "") then
    (Err "interval and cron cannot both be set", s) else
  let s := unscheduleLocked (sched_WorkflowID config) s in
  let s := s <| s_jobs := <[sched_WorkflowID config := config]> (s_jobs s) |> in
  let s := (persistLocked flt ords s).2 in
  if negb (s_started s) then (Ok tt, s) else startJobLocked config s.
Definition List (ord : iter_order) (s : Svc) : list ScheduleConfig := iter_values ord (s_jobs s).
Definition Unregister (flt : faults) (ords : nat → iter_order) (workflowID : string) (s : Svc) :
    Svc :=
  let s := s <| s_jobs := delete workflowID (s_jobs s) |>
             <| s_paused := delete workflowID (s_paused s) |> in
  (persistLocked flt ords (unscheduleLocked workflowID s)).2.

(** ** Leadership and start *)

Definition tryAcquireLeaderLockLocked (flt : faults) (s : Svc) : bool * Svc :=
  if bool_decide (s_leaderLockPath s = "") then (true, s <| s_leaderLockHeld := true |>) else
  match f_mkdir flt, f_open flt, os_files s !! s_leaderLockPath s with
  | None, None, None =>
      (true, s <| os_files := <[s_leaderLockPath s := ""]> (os_files s) |>
               <| s_leaderLockHeld := true |>)
  | _, _, _ => (false, s)
  end.
Definition releaseLeaderLock (flt : faults) (s : Svc) : Svc :=
  if negb (s_leaderLockHeld s) || bool_decide (s_leaderLockPath s = "") then s else
  let s := match f_remove flt with
           | Some _ => s
           | None => s <| os_files := delete (s_leaderLockPath s) (os_files s) |>
           end in
  s <| s_leaderLockHeld := false |>.

(** [Start] up to the release of the lock; the jobs it read are started after. *)
Definition start_begin (flt : faults) (ord : iter_order) (s : Svc) : Svc :=
  if s_started s then s else
  let s := (loadLocked flt s).2 in
  match tryAcquireLeaderLockLocked flt s with
  | (false, s) => s <| s_started := true |>
  | (true, s) => s <| s_started := true |> <| go_starting := iter_values ord (s_jobs s) |>
  end.
(** One round of its loop. *)
Definition start_next (s : Svc) : Svc :=
  match go_starting s with
  | [] => s
  | job :: jobs => (startJobLocked job (s <| go_starting := jobs |>)).2
  end.
(** [Start] with nothing in between. *)
Definition Start (flt : faults) (ord : iter_order) (s : Svc) : Svc :=
  let s := start_begin flt ord s in
  Nat.iter (length (go_starting s)) start_next s.
(** The end of the context: the interval goroutines return; the leader stops the
    cron engine and gives the lock back. *)
Definition ctx_done (flt : faults) (s : Svc) : Svc :=
  releaseLeaderLock flt (s <| go_intervals := ∅ |>).

(** ** executeOnce *)

(** Up to [s.running[job.WorkflowID] = true]; the answer tells whether the call
    goes on. *)
Definition execute_begin (job : ScheduleConfig) (s : Svc) : bool * Svc :=
  if IsPaused (sched_WorkflowID job) s then (false, s) else
  if default false (s_running s !! sched_WorkflowID job) && negb (sched_AllowOverlap job)
  then (false, s) else
  (true, s <| s_running := <[sched_WorkflowID job := true]> (s_running s) |>
           <| go_executing := job :: go_executing s |>).
(** The deferred function. *)
Definition execute_end (k : nat) (job : ScheduleConfig) (s : Svc) : Svc :=
  s <| s_running := <[sched_WorkflowID job := false]> (s_running s) |>
    <| go_executing := delete k (go_executing s) |>.
End scheduler.

(** In between: the job is enqueued when there is a queue, and run in place when
    there is none.  [None]: the run does not end. *)
Definition execute_body {Q} `{!RunQueue Q} {S} `{!WorkflowStore S} `{!Quote}
    (registry : Registry) (env : run_env) (clk enqueue_clk : clock) (job : ScheduleConfig)
    (queue : option Q) (store : S) (m : option Collector) :
    option (result unit * option Q * option S * option Collector) :=
  match GetWorkflow (sched_WorkflowID job) store with
  | Err err => Some (Err err, queue, Some store, m)
  | Ok workflow =>
      match queue with
      | Some q =>
          let runID := NewRunID (clk 0%nat) (wf_ID workflow) in
          let queueJob := mkRunQueueJob ("job-" +:+ runID) (wf_ID workflow) runID ""
            RunJobStatusQueued 0 5 "" "" time_zero (clk 1%nat) 0 "" "" time_zero
            (clk 2%nat) (clk 3%nat) in
          let '(r, q) := EnqueueRunJob enqueue_clk queueJob q in
          Some (r, Some q, Some store, m)
      | None =>
          '((_, err), store, m) ← runWithID registry env workflow "" "" (Some store) m;
          Some (match err with None => Ok tt | Some e => Err e end, None, store, m)
      end
  end.

(** ** The service as a transition system

    Its operations in any order, with any faults, the phases of [Start] and of
    the calls of [executeOnce] interleaved with them.  A call may begin for any
    job a closure or goroutine was made for: one that was stopped may have been
    about to fire. *)
Section steps.
Context {E : Type} `{!CronEngine E}.
Context (MarshalIndent : persistedSchedules → result string).
Context (Unmarshal : string → result persistedSchedules).
Abbreviation Svc := (Service E).

Inductive sched_step (s : Svc) : Svc → Prop :=
| step_pause flt ords id : sched_step s (Pause MarshalIndent flt ords id s).2
| step_resume flt ords id : sched_step s (Resume MarshalIndent flt ords id s).2
| step_lock_path path : sched_step s (SetLeaderLockPath path s)
| step_store_path flt path : sched_step s (SetScheduleStorePath Unmarshal flt path s)
| step_register flt ords config : sched_step s (Register MarshalIndent flt ords config s).2
| step_unregister flt ords id : sched_step s (Unregister MarshalIndent flt ords id s)
| step_start flt ord : sched_step s (start_begin Unmarshal flt ord s)
| step_start_next : sched_step s (start_next s)
| step_ctx_done flt : sched_step s (ctx_done flt s)
| step_files files : sched_step s (s <| os_files := files |>)
| step_execute job : job ∈ go_made s → sched_step s (execute_begin job s).2
| step_execute_end k job : go_executing s !! k = Some job → sched_step s (execute_end k job s).

Definition sched_reachable (s : Svc) : Prop := ∃ files, rtc sched_step (NewService files) s.
End steps.
