(* ===== verification/SchedulerProps.v ===== *)
(** * internal/scheduler/service.go: the properties of the schedule service

    No overlap of executions, at most one timer for a workflow, persistence
    across a restart, and what the leader lock does not prevent. *)

From S2P Require Import Prelude GoLib Domain Actions Interfaces Store Queue Telemetry Run.
From S2P Require Import Scheduler.
Local Open Scope Z_scope.

(** ** What the operations leave alone *)

Section frame.
Context {E : Type} `{!CronEngine E}.
Context (MarshalIndent : persistedSchedules → result string).
Context (Unmarshal : string → result persistedSchedules).
Implicit Types s : Service E.

Lemma persistLocked_files flt ords s :
  ∃ files, (persistLocked MarshalIndent flt ords s).2 = s <| os_files := files |>.
Proof.
  assert (Hs : s = s <| os_files := os_files s |>) by by destruct s.
  unfold persistLocked. case_bool_decide; [eauto|]. destruct (f_mkdir flt); [eauto|].
  destruct (MarshalIndent _); [|eauto]. destruct (f_write flt) as [[]|]; simpl; eauto.
Qed.
Lemma loadLocked_jobs flt s :
  ∃ jobs paused, (loadLocked Unmarshal flt s).2 = s <| s_jobs := jobs |> <| s_paused := paused |>.
Proof.
  assert (Hs : s = s <| s_jobs := s_jobs s |> <| s_paused := s_paused s |>) by by destruct s.
  unfold loadLocked. case_bool_decide; [eauto|]. destruct (f_read flt); [eauto|].
  destruct (os_files s !! _); [|eauto]. destruct (Unmarshal _); simpl; eauto.
Qed.
Lemma tryAcquire_frame flt s b s' :
  tryAcquireLeaderLockLocked flt s = (b, s') →
  s_leaderLockHeld s' = (b || s_leaderLockHeld s) ∧
  ∃ files, s' = s <| os_files := files |> <| s_leaderLockHeld := s_leaderLockHeld s' |>.
Proof.
  assert (Hs : s = s <| os_files := os_files s |> <| s_leaderLockHeld := s_leaderLockHeld s |>)
    by by destruct s.
  unfold tryAcquireLeaderLockLocked. case_bool_decide.
  { intros [= <- <-]. split; [done|]. exists (os_files s). by destruct s. }
  destruct (f_mkdir flt), (f_open flt), (os_files s !! s_leaderLockPath s); intros [= <- <-];
    (split; [done|]); try (exists (os_files s); exact Hs). eexists. by destruct s.
Qed.

Lemma unschedule_fields id s :
  ∃ engine ids stops intervals, unscheduleLocked id s =
    s <| s_cronEngine := engine |> <| s_cronEntryIDs := ids |>
      <| s_intervalStop := stops |> <| go_intervals := intervals |>.
Proof.
  unfold unscheduleLocked. set (s1 := remove_cron id s).
  assert (H1 : s1 = s <| s_cronEngine := s_cronEngine s1 |>
                      <| s_cronEntryIDs := s_cronEntryIDs s1 |>).
  { unfold s1, remove_cron. destruct (s_cronEntryIDs s !! id); by destruct s. }
  exists (s_cronEngine s1), (s_cronEntryIDs s1), (s_intervalStop (stop_interval id s1)),
    (go_intervals (stop_interval id s1)).
  clearbody s1. unfold stop_interval. destruct (s_intervalStop s1 !! id);
    rewrite H1; by destruct s.
Qed.

(** A configuration that [Register] takes. *)
Record valid_config (config : ScheduleConfig) : Prop := {
  valid_id : sched_WorkflowID config ≠ "";
  valid_trigger : 0 < sched_Interval config ∧ sched_Cron config = "" ∨
                  sched_Interval config ≤ 0 ∧ sched_Cron config ≠ "";
}.
#[export] Instance valid_config_dec config : Decision (valid_config config).
Proof.
  refine (cast_if_and (decide (sched_WorkflowID config ≠ ""))
    (decide (0 < sched_Interval config ∧ sched_Cron config = "" ∨
             sched_Interval config ≤ 0 ∧ sched_Cron config ≠ ""))); abstract (by split || by intros []).
Defined.
(** What [Register] writes before it starts the timer. *)
Definition registered flt ords config s : Service E :=
  let s := unscheduleLocked (sched_WorkflowID config) s in
  (persistLocked MarshalIndent flt ords
     (s <| s_jobs := <[sched_WorkflowID config := config]> (s_jobs s) |>)).2.
Lemma registered_fields flt ords config s :
  ∃ engine ids stops intervals files, registered flt ords config s =
    s <| s_cronEngine := engine |> <| s_cronEntryIDs := ids |>
      <| s_intervalStop := stops |> <| go_intervals := intervals |>
      <| s_jobs := <[sched_WorkflowID config := config]> (s_jobs s) |> <| os_files := files |>.
Proof.
  unfold registered. cbv zeta.
  match goal with |- context [persistLocked _ _ _ ?s1] =>
    destruct (persistLocked_files flt ords s1) as [files ->] end.
  destruct (unschedule_fields (sched_WorkflowID config) s) as (e & c & i & g & ->).
  by exists e, c, i, g, files.
Qed.
Lemma Register_valid flt ords config s :
  valid_config config →
  Register MarshalIndent flt ords config s =
    if s_started s then startJobLocked config (registered flt ords config s)
    else (Ok tt, registered flt ords config s).
Proof.
  intros [Hid Hv]. unfold Register. rewrite bool_decide_false by done.
  rewrite (proj2 (andb_false_iff (sched_Interval config <=? 0) _)) by
    (rewrite Z.leb_gt, bool_decide_eq_false; tauto).
  rewrite (proj2 (andb_false_iff (0 <? sched_Interval config) _)) by
    (rewrite Z.ltb_ge, bool_decide_eq_false; tauto).
  cbv zeta. fold (registered flt ords config s).
  destruct (registered_fields flt ords config s) as (? & ? & ? & ? & ? & Hr).
  assert (Hs : s_started (registered flt ords config s) = s_started s) by by rewrite Hr.
  rewrite Hs. by destruct (s_started s).
Qed.
Lemma Register_invalid flt ords config s :
  ¬ valid_config config →
  ∃ e, Register MarshalIndent flt ords config s = (Err e, s).
Proof.
  intros Hv. unfold Register. case_bool_decide as H1; [by eexists|].
  destruct ((_ <=? _) && _) eqn:E1; [by eexists|].
  destruct ((_ <? _) && _) eqn:E2; [by eexists|]. exfalso. apply Hv. split; [done|].
  apply andb_false_iff in E1, E2. rewrite Z.leb_gt, bool_decide_eq_false in E1.
  rewrite Z.ltb_ge, bool_decide_eq_false in E2.
  destruct (decide (sched_Cron config = "")); [left|right]; (split; [|done]); tauto || lia.
Qed.

(** ** Timers *)

(** What can fire: an interval goroutine or an entry of the cron engine. *)
Inductive timer s : nat + Z → ScheduleConfig → Prop :=
| timer_interval k job : go_intervals s !! k = Some job → timer s (inl k) job
| timer_cron i job : Entries (s_cronEngine s) !! i = Some job → timer s (inr i) job.

Record timers_ok s : Prop := {
  ok_interval k job : go_intervals s !! k = Some job →
    s_intervalStop s !! sched_WorkflowID job = Some k;
  ok_cron i job : Entries (s_cronEngine s) !! i = Some job →
    s_cronEntryIDs s !! sched_WorkflowID job = Some i;
  ok_one id : is_Some (s_intervalStop s !! id) → s_cronEntryIDs s !! id = None;
  ok_next id k : s_intervalStop s !! id = Some k → (k < go_next s)%nat;
}.

(** The invariant reads only these fields. *)
Definition same_timers s s' : Prop :=
  go_intervals s' = go_intervals s ∧ s_intervalStop s' = s_intervalStop s ∧
  s_cronEngine s' = s_cronEngine s ∧ s_cronEntryIDs s' = s_cronEntryIDs s ∧
  go_next s' = go_next s.
Lemma timers_ok_same s s' : same_timers s s' → timers_ok s → timers_ok s'.
Proof.
  intros (H1 & H2 & H3 & H4 & H5) [Hi Hc Ho Hn].
  split; rewrite ?H1, ?H2, ?H3, ?H4, ?H5; [exact Hi|exact Hc|exact Ho|exact Hn].
Qed.
Lemma timer_same s s' t job : same_timers s s' → timer s' t job → timer s t job.
Proof.
  intros (H1 & _ & H3 & _) [k j Hk|i j Hi]; constructor; by rewrite <-?H1, <-?H3.
Qed.
Lemma same_timers_persist flt ords s : same_timers s (persistLocked MarshalIndent flt ords s).2.
Proof. destruct (persistLocked_files flt ords s) as [files ->]. by repeat split. Qed.
Lemma same_timers_load flt s : same_timers s (loadLocked Unmarshal flt s).2.
Proof. destruct (loadLocked_jobs flt s) as (jobs & paused & ->). by repeat split. Qed.

Context `{!CronEngineLaws E}.

Lemma remove_cron_ok id s :
  timers_ok s → timers_ok (remove_cron id s) ∧ s_cronEntryIDs (remove_cron id s) !! id = None ∧
  s_intervalStop (remove_cron id s) = s_intervalStop s.
Proof using CronEngineLaws0.
  intros [Hi Hc Ho Hn]. unfold remove_cron. destruct (s_cronEntryIDs s !! id) as [i|] eqn:Ei; [|done].
  split; [|split; [apply lookup_delete_eq|done]]. split; simpl; [exact Hi| | |exact Hn].
  - intros j job. rewrite Entries_Remove. intros [Hne Hj]%lookup_delete_Some.
    apply Hc in Hj. apply lookup_delete_Some. split; [congruence|done].
  - intros id' Hid'. apply lookup_delete_None. right. by apply Ho.
Qed.
Lemma stop_interval_ok id s :
  timers_ok s → timers_ok (stop_interval id s) ∧ s_intervalStop (stop_interval id s) !! id = None ∧
  s_cronEntryIDs (stop_interval id s) = s_cronEntryIDs s.
Proof using CronEngineLaws0.
  intros [Hi Hc Ho Hn]. unfold stop_interval. destruct (s_intervalStop s !! id) as [k|] eqn:Ek; [|done].
  split; [|split; [apply lookup_delete_eq|done]]. split; simpl; [|exact Hc| |].
  - intros j job [Hne Hj]%lookup_delete_Some. apply Hi in Hj.
    apply lookup_delete_Some. split; [congruence|done].
  - intros id' [k' Hk']. apply lookup_delete_Some in Hk' as [_ Hk']. apply Ho. by eexists.
  - intros id' k' [_ Hk']%lookup_delete_Some. by eapply Hn.
Qed.
Lemma unscheduleLocked_ok id s :
  timers_ok s → timers_ok (unscheduleLocked id s) ∧
  s_cronEntryIDs (unscheduleLocked id s) !! id = None ∧
  s_intervalStop (unscheduleLocked id s) !! id = None.
Proof using CronEngineLaws0.
  intros Hs. destruct (remove_cron_ok id s Hs) as (H1 & H2 & _).
  destruct (stop_interval_ok id _ H1) as (H3 & H4 & H5). split; [done|]. split; [|done].
  unfold unscheduleLocked. by rewrite H5.
Qed.
(** Nothing fires for a workflow without a cron entry or an interval. *)
Lemma timers_ok_none id s t job :
  timers_ok s → s_cronEntryIDs s !! id = None → s_intervalStop s !! id = None →
  timer s t job → sched_WorkflowID job ≠ id.
Proof.
  clear CronEngineLaws0.
  intros [Hi Hc _ _] H1 H2 [k j Hk|i j Hk] Heq;
    [apply Hi in Hk|apply Hc in Hk]; rewrite Heq in Hk; congruence.
Qed.
Lemma same_timers_startup job s : same_timers s (run_on_startup job s).
Proof. unfold run_on_startup. by destruct (sched_RunOnStartup job). Qed.

Lemma startJobLocked_ok job s : timers_ok s → timers_ok (startJobLocked job s).2.
Proof using CronEngineLaws0.
  intros Hs. unfold startJobLocked. cbv zeta. set (id := sched_WorkflowID job).
  destruct (unscheduleLocked_ok id s Hs) as (H1 & H2 & H3). unfold unscheduleLocked in *.
  set (s1 := stop_interval id (remove_cron id s)) in *. clearbody s1.
  destruct H1 as [Hi Hc Ho Hn].
  destruct (bool_decide _).
  - destruct (AddFunc _ _ _) as [[i|e] engine] eqn:Ha; simpl.
    + apply AddFunc_Ok in Ha as [Hfresh Hent].
      eapply timers_ok_same; [apply same_timers_startup|]. split; simpl; [exact Hi| | |exact Hn].
      * intros j job'. rewrite Hent.
        intros [[<- <-]|[Hne Hj]]%lookup_insert_Some; [apply lookup_insert_eq|].
        apply Hc in Hj. apply lookup_insert_Some. right. split; [|done].
        intros Heq. fold id in Heq. rewrite <-Heq in Hj. congruence.
      * intros id' Hid'. rewrite lookup_insert_ne; [by apply Ho|].
        intros Heq. fold id in Heq. rewrite <-Heq in Hid'. rewrite H3 in Hid'. by destruct Hid'.
    + apply AddFunc_Err in Ha. split; simpl; [exact Hi|by rewrite Ha|exact Ho|exact Hn].
  - simpl. eapply timers_ok_same; [apply same_timers_startup|]. split; simpl; [|exact Hc| |].
    + intros k job' [[<- <-]|[Hne Hj]]%lookup_insert_Some; [apply lookup_insert_eq|].
      apply Hi in Hj. apply lookup_insert_Some. right. split; [|done].
      intros Heq. fold id in Heq. rewrite <-Heq in Hj. congruence.
    + intros id' [k Hk]. fold id in Hk |- *.
      apply lookup_insert_Some in Hk as [[<- _]|[_ Hk]]; [done|]. apply Ho. by eexists.
    + intros id' k [[_ <-]|[_ Hk]]%lookup_insert_Some; [lia|]. apply Hn in Hk. lia.
Qed.
End frame.

(** ** Every step keeps the timers in order *)
Section invariants.
Context {E : Type} `{!CronEngine E} `{!CronEngineLaws E}.
Context (MarshalIndent : persistedSchedules → result string).
Context (Unmarshal : string → result persistedSchedules).
Implicit Types s : Service E.

Lemma Register_cases flt ords config s :
  let s1 := registered MarshalIndent flt ords config s in
  (Register MarshalIndent flt ords config s).2 = s ∨
  (Register MarshalIndent flt ords config s).2 = s1 ∨
  (Register MarshalIndent flt ords config s).2 = (startJobLocked config s1).2.
Proof using Type.
  intros s1. destruct (decide (valid_config config)) as [Hv|Hv].
  - rewrite Register_valid by done. right. destruct (s_started s); [by right|by left].
  - left. by destruct (Register_invalid MarshalIndent flt ords config s Hv) as [e ->].
Qed.

Lemma sched_step_timers s s' :
  sched_step MarshalIndent Unmarshal s s' → timers_ok s → timers_ok s'.
Proof using CronEngineLaws0.
  intros Hstep Hs. destruct Hstep as [flt ords id|flt ords id|path|flt path|flt ords config
    |flt ords id|flt ord| |flt|files|job Hjob|k job Hk].
  - unfold Pause. destruct (s_jobs s !! id); [|done]. cbn [snd].
    eapply timers_ok_same; [apply same_timers_persist|]. eapply timers_ok_same; [|done].
    by repeat split.
  - unfold Resume. destruct (s_jobs s !! id); [|done]. cbn [snd].
    eapply timers_ok_same; [apply same_timers_persist|]. eapply timers_ok_same; [|done].
    by repeat split.
  - eapply timers_ok_same; [|done]. by repeat split.
  - unfold SetScheduleStorePath. eapply timers_ok_same; [apply same_timers_load|].
    eapply timers_ok_same; [|done]. by repeat split.
  - assert (timers_ok (registered MarshalIndent flt ords config s)).
    { eapply timers_ok_same; [apply same_timers_persist|]. eapply timers_ok_same;
        [|by apply (unscheduleLocked_ok (sched_WorkflowID config) s)]. by repeat split. }
    destruct (Register_cases flt ords config s) as [->|[->| ->]]; [done..|].
    by apply startJobLocked_ok.
  - unfold Unregister. cbv zeta. eapply timers_ok_same; [apply same_timers_persist|].
    apply unscheduleLocked_ok. eapply timers_ok_same; [|done]. by repeat split.
  - unfold start_begin. destruct (s_started s); [done|].
    assert (H1 : timers_ok (loadLocked Unmarshal flt s).2).
    { eapply timers_ok_same; [apply same_timers_load|done]. }
    destruct (tryAcquireLeaderLockLocked flt _) as [b s1] eqn:Ht.
    apply tryAcquire_frame in Ht as (_ & files & ->).
    destruct b; (eapply timers_ok_same; [|exact H1]; by repeat split).
  - unfold start_next. destruct (go_starting s); [done|]. apply startJobLocked_ok.
    eapply timers_ok_same; [|done]. by repeat split.
  - unfold ctx_done, releaseLeaderLock. destruct Hs as [Hi Hc Ho Hn].
    assert (H1 : timers_ok (s <| go_intervals := ∅ |>)) by (split; simpl; [by intros ??|done..]).
    destruct (_ || _); [done|]. destruct (f_remove flt);
      (eapply timers_ok_same; [|exact H1]; by repeat split).
  - eapply timers_ok_same; [|done]. by repeat split.
  - unfold execute_begin. destruct (IsPaused _ _); [done|]. destruct (_ && _); [done|].
    eapply timers_ok_same; [|done]. by repeat split.
  - eapply timers_ok_same; [|done]. by repeat split.
Qed.

Lemma reachable_timers s : sched_reachable MarshalIndent Unmarshal s → timers_ok s.
Proof using CronEngineLaws0.
  intros [files Hr].
  assert (H0 : timers_ok (NewService files)).
  { split; simpl; [done| | |done].
    - intros i job. by rewrite Entries_New.
    - intros id [? ?]. done. }
  revert H0 Hr. generalize (NewService files) as s0. intros s0 H0 Hr.
  induction Hr as [|s0 s1 s2 Hstep _ IH]; [done|]. apply IH. by eapply sched_step_timers.
Qed.
End invariants.

(** ** Executions of one workflow *)

(** The calls of [executeOnce] in progress for a workflow, and the workflows none
    of whose registrations ever allowed overlap. *)
Definition in_flight {E} (id : string) (s : Service E) : list ScheduleConfig :=
  filter (λ job, sched_WorkflowID job = id) (go_executing s).
Definition serial {E} (id : string) (s : Service E) : Prop :=
  ∀ job, job ∈ go_made s → sched_WorkflowID job = id → sched_AllowOverlap job = false.

Record overlap_inv {E} (s : Service E) : Prop := {
  oi_made job : job ∈ go_executing s → job ∈ go_made s;
  oi_one id : serial id s → (length (in_flight id s) ≤ 1)%nat;
  oi_running id : serial id s → in_flight id s ≠ [] → s_running s !! id = Some true;
}.

(** What the steps that neither begin nor end an execution do. *)
Record quiet {E} (s s' : Service E) : Prop := {
  quiet_executing : go_executing s' = go_executing s;
  quiet_running : s_running s' = s_running s;
  quiet_made job : job ∈ go_made s → job ∈ go_made s';
}.
#[export] Instance quiet_preorder {E} : PreOrder (quiet (E := E)).
Proof.
  split; [by split|]. intros s1 s2 s3 [] []. split; [congruence..|]. auto.
Qed.
Lemma overlap_inv_quiet {E} (s s' : Service E) : quiet s s' → overlap_inv s → overlap_inv s'.
Proof.
  intros [He Hr Hm] [H1 H2 H3].
  assert (Hs : ∀ id, serial id s' → serial id s) by (intros id Hs job Hj; by apply Hs, Hm).
  split; unfold in_flight; rewrite ?He, ?Hr; [by auto|..]; intros id Hid%Hs;
    [exact (H2 id Hid)|exact (H3 id Hid)].
Qed.

(** A step that touches none of these fields. *)
Ltac done_quiet := first [reflexivity | by split].

Section overlap.
Context {E : Type} `{!CronEngine E}.
Context (MarshalIndent : persistedSchedules → result string).
Context (Unmarshal : string → result persistedSchedules).
Implicit Types s : Service E.

Lemma quiet_persist flt ords s : quiet s (persistLocked MarshalIndent flt ords s).2.
Proof. destruct (persistLocked_files MarshalIndent flt ords s) as [files ->]. done_quiet. Qed.
Lemma quiet_load flt s : quiet s (loadLocked Unmarshal flt s).2.
Proof. destruct (loadLocked_jobs Unmarshal flt s) as (jobs & paused & ->). done_quiet. Qed.
Lemma quiet_unschedule id s : quiet s (unscheduleLocked id s).
Proof.
  unfold unscheduleLocked. transitivity (remove_cron id s).
  - unfold remove_cron. destruct (s_cronEntryIDs s !! id); done_quiet.
  - generalize (remove_cron id s) as s1. intros s1. unfold stop_interval.
    destruct (s_intervalStop s1 !! id); done_quiet.
Qed.
Lemma quiet_startup job s : quiet s (run_on_startup job s).
Proof. unfold run_on_startup. destruct (sched_RunOnStartup job); done_quiet. Qed.
Lemma quiet_start_job job s : quiet s (startJobLocked job s).2.
Proof.
  unfold startJobLocked. cbv zeta. transitivity (unscheduleLocked (sched_WorkflowID job) s).
  { apply quiet_unschedule. }
  unfold unscheduleLocked. generalize (stop_interval (sched_WorkflowID job)
    (remove_cron (sched_WorkflowID job) s)) as s1. intros s1.
  destruct (bool_decide _); [destruct (AddFunc _ _ _) as [[i|e] engine]|]; cbn [snd];
    [|by split|]; (etransitivity; [|apply quiet_startup]); split; simpl; [done|done| |done|done|];
    intros j Hj; by apply elem_of_cons; right.
Qed.

Lemma sched_step_quiet s s' :
  sched_step MarshalIndent Unmarshal s s' →
  quiet s s' ∨ (∃ job, job ∈ go_made s ∧ s' = (execute_begin job s).2) ∨
  (∃ k job, go_executing s !! k = Some job ∧ s' = execute_end k job s).
Proof.
  destruct 1 as [flt ords id|flt ords id|path|flt path|flt ords config
    |flt ords id|flt ord| |flt|files|job Hjob|k job Hk].
  - left. unfold Pause. destruct (s_jobs s !! id); [|done]. cbn [snd].
    etransitivity; [|apply quiet_persist]. done_quiet.
  - left. unfold Resume. destruct (s_jobs s !! id); [|done]. cbn [snd].
    etransitivity; [|apply quiet_persist]. done_quiet.
  - left. done_quiet.
  - left. unfold SetScheduleStorePath. etransitivity; [|apply quiet_load]. done_quiet.
  - left. assert (quiet s (registered MarshalIndent flt ords config s)).
    { destruct (registered_fields MarshalIndent flt ords config s) as (? & ? & ? & ? & ? & ->).
      done_quiet. }
    destruct (Register_cases MarshalIndent flt ords config s) as [->|[->| ->]]; [done_quiet|done|].
    etransitivity; [done|apply quiet_start_job].
  - left. unfold Unregister. cbv zeta. etransitivity; [|apply quiet_persist].
    etransitivity; [|apply quiet_unschedule]. done_quiet.
  - left. unfold start_begin. destruct (s_started s); [done_quiet|].
    etransitivity; [apply (quiet_load flt)|].
    destruct (tryAcquireLeaderLockLocked flt _) as [b s1] eqn:Ht.
    apply tryAcquire_frame in Ht as (_ & files & ->). destruct b; done_quiet.
  - left. unfold start_next. destruct (go_starting s); [done_quiet|].
    etransitivity; [|apply quiet_start_job]. done_quiet.
  - left. unfold ctx_done, releaseLeaderLock. destruct (_ || _); [done_quiet|].
    destruct (f_remove flt); done_quiet.
  - left. done_quiet.
  - right; left. eauto.
  - right; right. eauto.
Qed.

Lemma in_flight_end id k job s :
  go_executing s !! k = Some job →
  in_flight id s ≡ₚ
    (if decide (sched_WorkflowID job = id) then [job] else []) ++ in_flight id (execute_end k job s).
Proof.
  intros Hk. unfold in_flight. simpl. rewrite (delete_Permutation _ _ _ Hk) at 1.
  rewrite filter_cons. by case_decide.
Qed.

Lemma overlap_inv_begin job s :
  job ∈ go_made s → overlap_inv s → overlap_inv (execute_begin job s).2.
Proof.
  intros Hjob [H1 H2 H3]. unfold execute_begin. destruct (IsPaused _ _); [by split|].
  destruct (default false _ && _) eqn:Hc; [by split|]. split; simpl.
  - intros j [->|Hj]%elem_of_cons; auto.
  - intros id Hid. unfold in_flight. simpl. rewrite filter_cons. case_decide as Hw; [|by apply H2].
    change (filter _ (go_executing s)) with (in_flight id s).
    destruct (in_flight id s) as [|j l] eqn:Ej; [simpl; lia|]. exfalso.
    assert (Hr : s_running s !! id = Some true) by (apply H3; [done|by rewrite Ej]).
    rewrite Hw, Hr, (Hid job Hjob Hw) in Hc. done.
  - intros id Hid. unfold in_flight. simpl. rewrite filter_cons. case_decide as Hw.
    + intros _. rewrite Hw. apply lookup_insert_eq.
    + rewrite lookup_insert_ne by done. by apply H3.
Qed.
Lemma overlap_inv_end k job s :
  go_executing s !! k = Some job → overlap_inv s → overlap_inv (execute_end k job s).
Proof.
  intros Hk [H1 H2 H3]. pose proof (λ id, in_flight_end id k job s Hk) as Hp.
  split; simpl.
  - intros j Hj. apply H1. rewrite (delete_Permutation _ _ _ Hk). by right.
  - intros id Hid. specialize (H2 id Hid). rewrite (Hp id), length_app in H2. lia.
  - intros id Hid Hne. specialize (H2 id Hid). rewrite (Hp id), length_app in H2.
    case_decide as Hw; simpl in H2.
    + destruct (in_flight id (execute_end k job s)) eqn:Ee; [done|]. simpl in H2. lia.
    + rewrite lookup_insert_ne by done. apply H3; [done|]. intros Hn. specialize (Hp id).
      rewrite Hn in Hp. apply Permutation_nil in Hp. apply app_nil in Hp as [_ Hp]. done.
Qed.

Lemma reachable_overlap s : sched_reachable MarshalIndent Unmarshal s → overlap_inv s.
Proof.
  intros [files Hr].
  assert (H0 : overlap_inv (NewService (E := E) files)).
  { split; simpl; [by intros ? ?%elem_of_nil|lia|done]. }
  revert H0 Hr. generalize (NewService (E := E) files) as s0. intros s0 H0 Hr.
  induction Hr as [|s0 s1 s2 Hstep _ IH]; [done|]. apply IH.
  destruct (sched_step_quiet _ _ Hstep) as [Hq|[(job & Hj & ->)|(k & job & Hk & ->)]].
  - by eapply overlap_inv_quiet.
  - by apply overlap_inv_begin.
  - by apply overlap_inv_end.
Qed.
End overlap.

(** [Start] when another process has the lock, and an interval schedule. *)
Section follower.
Context {E : Type} `{!CronEngine E} (Unmarshal : string → result persistedSchedules).
Implicit Types s : Service E.
Lemma start_follower flt ord s :
  s_started s = false → s_leaderLockHeld s = false → s_leaderLockPath s ≠ "" →
  is_Some (os_files s !! s_leaderLockPath s) →
  let s1 := start_begin Unmarshal flt ord s in
  s_started s1 = true ∧ s_leaderLockHeld s1 = false.
Proof.
  intros Hst Hheld Hpath [c Hc]. unfold start_begin. rewrite Hst.
  destruct (loadLocked_jobs Unmarshal flt s) as (jobs & paused & ->).
  unfold tryAcquireLeaderLockLocked. simpl. rewrite bool_decide_false, Hc by done.
  by destruct (f_mkdir flt), (f_open flt).
Qed.
Lemma startJobLocked_interval job s :
  sched_Cron job = "" →
  let '(r, s') := startJobLocked job s in
  r = Ok tt ∧ s_leaderLockHeld s' = s_leaderLockHeld s ∧ ∃ k, timer s' (inl k) job.
Proof.
  intros Hcron. unfold startJobLocked. rewrite bool_decide_false by (rewrite Hcron; tauto).
  destruct (unschedule_fields (sched_WorkflowID job) s) as (? & ? & ? & ? & Hu).
  unfold unscheduleLocked in Hu. rewrite Hu. split; [done|].
  unfold run_on_startup. destruct (sched_RunOnStartup job);
    (split; [done|]; exists (go_next s); constructor; apply lookup_insert_eq).
Qed.
End follower.

(** ** Persistence *)

(** The operations that save the schedules, and when they take effect. *)
Inductive sched_op :=
| SPause (id : string) | SResume (id : string)
| SRegister (config : ScheduleConfig) | SUnregister (id : string).
Definition accepted {E} (op : sched_op) (s : Service E) : Prop :=
  match op with
  | SPause id | SResume id => is_Some (s_jobs s !! id)
  | SRegister config => valid_config config
  | SUnregister _ => True
  end.
(** What a restart reads. *)
Definition same_schedules {E} (s s' : Service E) : Prop :=
  s_jobs s' = s_jobs s ∧ ∀ id, IsPaused id s' = IsPaused id s.
Definition jobs_keyed {E} (s : Service E) : Prop :=
  map_Forall (λ id job, sched_WorkflowID job = id) (s_jobs s).

Lemma foldl_true_lookup (l : list string) (m : gmap string bool) id :
  foldl (λ m id, <[id := true]> m) m l !! id = if decide (id ∈ l) then Some true else m !! id.
Proof.
  revert m; induction l as [|x l IH]; intros m; [done|]. simpl. rewrite IH.
  destruct (decide (id ∈ l)); [by rewrite decide_True by by right|].
  destruct (decide (id = x)) as [->|Hne].
  - rewrite decide_True by by left. apply lookup_insert_eq.
  - rewrite decide_False by (by intros [?|?]%elem_of_cons). by apply lookup_insert_ne.
Qed.
Lemma foldl_keyed (l : list ScheduleConfig) (m : gmap string ScheduleConfig) :
  map_Forall (λ id job, sched_WorkflowID job = id) m →
  map_Forall (λ id job, sched_WorkflowID job = id)
    (foldl (λ m cfg, <[sched_WorkflowID cfg := cfg]> m) m l).
Proof.
  revert m; induction l as [|x l IH]; intros m Hm; [done|]. apply IH. by apply map_Forall_insert_2.
Qed.

Section persistence.
Context {E : Type} `{!CronEngine E}.
Context (MarshalIndent : persistedSchedules → result string).
Context (Unmarshal : string → result persistedSchedules).
Implicit Types s : Service E.

Definition apply_sched (ords : nat → iter_order) (op : sched_op) s : Service E :=
  match op with
  | SPause id => (Pause MarshalIndent no_faults ords id s).2
  | SResume id => (Resume MarshalIndent no_faults ords id s).2
  | SRegister config => (Register MarshalIndent no_faults ords config s).2
  | SUnregister id => Unregister MarshalIndent no_faults ords id s
  end.

Lemma startJobLocked_fields job s :
  let s' := (startJobLocked job s).2 in
  s_jobs s' = s_jobs s ∧ s_paused s' = s_paused s ∧ os_files s' = os_files s ∧
  s_scheduleStore s' = s_scheduleStore s.
Proof.
  unfold startJobLocked. cbv zeta.
  destruct (unschedule_fields (sched_WorkflowID job) s) as (? & ? & ? & ? & Hu).
  unfold unscheduleLocked in Hu. rewrite Hu. unfold run_on_startup.
  destruct (bool_decide _); [destruct (AddFunc _ _ _) as [[]]|];
    destruct (sched_RunOnStartup job); by repeat split.
Qed.
Lemma registered_keyed flt ords config s :
  jobs_keyed s → jobs_keyed (registered MarshalIndent flt ords config s).
Proof.
  intros Hs. destruct (registered_fields MarshalIndent flt ords config s)
    as (? & ? & ? & ? & ? & ->). by apply map_Forall_insert_2.
Qed.

Lemma sched_step_keyed s s' :
  sched_step MarshalIndent Unmarshal s s' → jobs_keyed s → jobs_keyed s'.
Proof.
  assert (Hload : ∀ flt s, jobs_keyed s → jobs_keyed (loadLocked Unmarshal flt s).2).
  { intros flt s1 Hs. unfold loadLocked. case_bool_decide; [done|]. destruct (f_read flt); [done|].
    destruct (os_files s1 !! _); [|done]. destruct (Unmarshal _) as [p|]; [|done].
    apply (foldl_keyed (ps_Jobs p)), map_Forall_empty. }
  assert (Hpersist : ∀ flt ords s, jobs_keyed s → jobs_keyed (persistLocked MarshalIndent flt ords s).2).
  { intros flt ords s1 Hs. by destruct (persistLocked_files MarshalIndent flt ords s1) as [? ->]. }
  assert (Hstart : ∀ job s, jobs_keyed s → jobs_keyed (startJobLocked job s).2).
  { intros job s1 Hs. unfold jobs_keyed. by rewrite (proj1 (startJobLocked_fields job s1)). }
  intros Hstep Hs. destruct Hstep as [flt ords id|flt ords id|path|flt path|flt ords config
    |flt ords id|flt ord| |flt|files|job Hjob|k job Hk]; try done.
  - unfold Pause. destruct (s_jobs s !! id); [|done]. by apply Hpersist.
  - unfold Resume. destruct (s_jobs s !! id); [|done]. by apply Hpersist.
  - by apply Hload.
  - pose proof (registered_keyed flt ords config s Hs).
    destruct (Register_cases MarshalIndent flt ords config s) as [->|[->| ->]]; [done..|].
    by apply Hstart.
  - apply Hpersist. match goal with |- jobs_keyed (unscheduleLocked _ ?s1) =>
      destruct (unschedule_fields id s1) as (? & ? & ? & ? & ->) end. by apply map_Forall_delete.
  - unfold start_begin. destruct (s_started s); [done|].
    destruct (tryAcquireLeaderLockLocked flt _) as [b s1] eqn:Ht.
    apply tryAcquire_frame in Ht as (_ & files & ->). destruct b; by apply (Hload flt s).
  - unfold start_next. destruct (go_starting s); [done|]. by apply Hstart.
  - unfold ctx_done, releaseLeaderLock. destruct (_ || _); [done|]. by destruct (f_remove flt).
  - unfold execute_begin. destruct (IsPaused _ _); [done|]. by destruct (_ && _).
Qed.
Lemma reachable_keyed s : sched_reachable MarshalIndent Unmarshal s → jobs_keyed s.
Proof.
  intros [files Hr]. assert (H0 : jobs_keyed (NewService (E := E) files)) by apply map_Forall_empty.
  revert H0 Hr. generalize (NewService (E := E) files) as s0. intros s0 H0 Hr.
  induction Hr as [|s0 s1 s2 Hstep _ IH]; [done|]. apply IH. by eapply sched_step_keyed.
Qed.

(** What was persisted is what a new service on the path loads. *)
Lemma load_persisted ords s s' path :
  jobs_keyed s → s_scheduleStore s ≠ "" → TrimSpace path = s_scheduleStore s →
  (∀ bytes, MarshalIndent (persisted_of ords s) = Ok bytes →
     Unmarshal bytes = Ok (persisted_of ords s)) →
  persistLocked MarshalIndent no_faults ords s = (Ok tt, s') →
  same_schedules s (SetScheduleStorePath Unmarshal no_faults path
                      (NewService (E := E) (os_files s'))).
Proof.
  intros Hk Hstore Hpath Hjson. unfold persistLocked. rewrite bool_decide_false by done. simpl.
  destruct (MarshalIndent _) as [bytes|] eqn:Hm; [|done]. intros [= <-].
  unfold SetScheduleStorePath, loadLocked. simpl. rewrite Hpath, bool_decide_false by done. simpl.
  rewrite lookup_insert_eq, (Hjson bytes eq_refl). split; simpl.
  - apply foldl_insert_perm; [|done]. unfold iter_values. by rewrite sort_slice_perm, iter_perm.
  - intros id. unfold IsPaused. simpl. rewrite foldl_true_lookup, lookup_empty.
    assert (Hin : id ∈ sort_slice str_ltb
      (filter (λ kv, kv.2 = true) (iter (ords 1%nat) (s_paused s))).*1 ↔ s_paused s !! id = Some true).
    { rewrite elem_of_sort_slice, list_elem_of_fmap. split.
      - intros ([k v] & -> & [Hv Hin]%list_elem_of_filter). simpl in Hv. subst v.
        by apply elem_of_iter in Hin.
      - intros Hid. exists (id, true). split; [done|]. apply list_elem_of_filter.
        split; [done|]. by apply elem_of_iter. }
    destruct (s_paused s !! id) as [[]|]; case_decide as Hd; try done; simpl;
      apply Hin in Hd || (exfalso; apply Hd, Hin); done.
Qed.

Lemma apply_sched_persists ords op s :
  accepted op s → jobs_keyed s →
  ∃ s1, jobs_keyed s1 ∧ s_scheduleStore s1 = s_scheduleStore s ∧
    let s' := apply_sched ords op s in let s2 := (persistLocked MarshalIndent no_faults ords s1).2 in
    os_files s' = os_files s2 ∧ s_jobs s' = s_jobs s1 ∧ s_paused s' = s_paused s1.
Proof.
  assert (Hp : ∀ s1, s_jobs (persistLocked MarshalIndent no_faults ords s1).2 = s_jobs s1 ∧
    s_paused (persistLocked MarshalIndent no_faults ords s1).2 = s_paused s1).
  { intros s1. by destruct (persistLocked_files MarshalIndent no_faults ords s1) as [? ->]. }
  destruct op as [id|id|config|id]; simpl; intros Ha Hk.
  - destruct Ha as [job Hj]. unfold Pause. rewrite Hj. eexists. split; [|split; [|split; [done|apply Hp]]]; done.
  - destruct Ha as [job Hj]. unfold Resume. rewrite Hj. eexists. split; [|split; [|split; [done|apply Hp]]]; done.
  - set (s1 := unscheduleLocked (sched_WorkflowID config) s).
    exists (s1 <| s_jobs := <[sched_WorkflowID config := config]> (s_jobs s1) |>).
    assert (Hs1 : s_jobs s1 = s_jobs s ∧ s_scheduleStore s1 = s_scheduleStore s).
    { unfold s1. by destruct (unschedule_fields (sched_WorkflowID config) s) as (? & ? & ? & ? & ->). }
    split; [apply map_Forall_insert_2; [done|by rewrite (proj1 Hs1)]|]. split; [apply Hs1|].
    rewrite Register_valid by done. unfold registered. fold s1.
    destruct (s_started s); [|split; [done|apply Hp]]. cbv zeta.
    destruct (startJobLocked_fields config (persistLocked MarshalIndent no_faults ords
      (s1 <| s_jobs := <[sched_WorkflowID config := config]> (s_jobs s1) |>)).2)
      as (-> & -> & -> & _). split; [done|apply Hp].
  - unfold Unregister. match goal with |- context [unscheduleLocked id ?s1] =>
      destruct (unschedule_fields id s1) as (? & ? & ? & ? & ->) end.
    eexists. split; [|split; [|split; [done|apply Hp]]]; [by apply map_Forall_delete|done].
Qed.
End persistence.

(** ** The properties *)

(** C27. No overlap: whatever is registered, paused, started and stopped meanwhile and
    however the timers fire, a workflow that no registration ever allowed to overlap
    has at most one execution in progress; and while it has one, every further call
    of [executeOnce] for it returns without effect. *)
Theorem scheduler_no_overlap {E} `{!CronEngine E} MarshalIndent Unmarshal (s : Service E) id :
  sched_reachable MarshalIndent Unmarshal s → serial id s →
  (length (in_flight id s) ≤ 1)%nat ∧
  (in_flight id s ≠ [] → ∀ job, job ∈ go_made s → sched_WorkflowID job = id →
     execute_begin job s = (false, s)).
Proof.
  intros [H1 H2 H3]%reachable_overlap Hs. split; [by apply H2|].
  intros Hne job Hj Hw. unfold execute_begin. destruct (IsPaused _ _); [done|].
  by rewrite Hw, (H3 id Hs Hne), (Hs job Hj Hw).
Qed.

(** C26. One timer for a workflow: in every reachable state at most one interval
    goroutine or cron entry is live for a workflow, and after [Unregister] none is. *)
Theorem scheduler_timers {E} `{!CronEngine E} `{!CronEngineLaws E} MarshalIndent Unmarshal
    (s : Service E) :
  sched_reachable MarshalIndent Unmarshal s →
  (∀ t1 t2 job1 job2, timer s t1 job1 → timer s t2 job2 →
     sched_WorkflowID job1 = sched_WorkflowID job2 → t1 = t2) ∧
  ∀ flt ords id t job, timer (Unregister MarshalIndent flt ords id s) t job →
    sched_WorkflowID job ≠ id.
Proof.
  intros Hs%reachable_timers. split.
  - destruct Hs as [Hi Hc Ho _]. intros t1 t2 j1 j2 [k1 ? H1|i1 ? H1] [k2 ? H2|i2 ? H2] Hw.
    + apply Hi in H1, H2. rewrite Hw in H1. congruence.
    + apply Hi in H1. apply Hc in H2. rewrite <-Hw, Ho in H2; [done|by eexists].
    + apply Hc in H1. apply Hi in H2. rewrite Hw, Ho in H1; [done|by eexists].
    + apply Hc in H1, H2. rewrite Hw in H1. congruence.
  - intros flt ords id t job Ht. unfold Unregister in Ht. cbv zeta in Ht.
    eapply timer_same in Ht; [|apply same_timers_persist].
    set (s1 := s <| s_jobs := _ |> <| s_paused := _ |>) in Ht.
    destruct (unscheduleLocked_ok id s1) as (Hok & H1 & H2).
    { eapply timers_ok_same; [|exact Hs]. by repeat split. }
    by eapply timers_ok_none.
Qed.

(** The leader lock does not keep a follower idle: a service that could not take
    the lock counts as started, so an interval schedule registered with it afterwards
    gets its goroutine and fires, although the lock is held by another process. *)
Theorem follower_fires {E} `{!CronEngine E} MarshalIndent Unmarshal flt flt' ord ords config
    (s : Service E) :
  s_started s = false → s_leaderLockHeld s = false → s_leaderLockPath s ≠ "" →
  is_Some (os_files s !! s_leaderLockPath s) →
  valid_config config → 0 < sched_Interval config →
  let s1 := start_begin Unmarshal flt ord s in
  let '(r, s2) := Register MarshalIndent flt' ords config s1 in
  r = Ok tt ∧ s_leaderLockHeld s2 = false ∧ ∃ k, timer s2 (inl k) config.
Proof.
  intros Hst Hheld Hpath Hlock Hv Hint s1.
  destruct (start_follower Unmarshal flt ord s Hst Hheld Hpath Hlock) as [H1 H2]. fold s1 in H1, H2.
  rewrite (Register_valid MarshalIndent flt' ords config s1 Hv), H1.
  destruct (registered_fields MarshalIndent flt' ords config s1) as (? & ? & ? & ? & ? & Hr).
  assert (H3 : s_leaderLockHeld (registered MarshalIndent flt' ords config s1) = false)
    by by rewrite Hr.
  destruct (valid_trigger config Hv) as [[_ Hcron]|]; [|lia].
  rewrite <-H3. by apply startJobLocked_interval.
Qed.

(** C38. Schedules survive a restart: after an accepted registration, unregistration,
    pause or resume whose file could be written, a new service on the same path has
    exactly the schedules of the old one, paused and not. *)
Theorem schedules_survive_restart {E} `{!CronEngine E} MarshalIndent Unmarshal ords op path
    (s : Service E) :
  sched_reachable MarshalIndent Unmarshal s → accepted op s →
  s_scheduleStore s ≠ "" → TrimSpace path = s_scheduleStore s →
  let s' := apply_sched MarshalIndent ords op s in
  (∃ bytes, MarshalIndent (persisted_of ords s') = Ok bytes ∧
     Unmarshal bytes = Ok (persisted_of ords s')) →
  same_schedules s' (SetScheduleStorePath Unmarshal no_faults path
                       (NewService (E := E) (os_files s'))).
Proof.
  intros Hr Ha Hstore Hpath s' (bytes & Hm & Hu).
  destruct (apply_sched_persists MarshalIndent ords op s Ha (reachable_keyed _ _ _ Hr))
    as (s1 & Hk & Hst & Hf & Hj & Hp). fold s' in Hf, Hj, Hp.
  assert (Heq : persisted_of ords s' = persisted_of ords s1).
  { unfold persisted_of. by rewrite Hj, Hp. }
  rewrite Heq in Hm, Hu.
  destruct (persistLocked MarshalIndent no_faults ords s1) as [r s2] eqn:Hps. simpl in Hf.
  assert (r = Ok tt) as ->.
  { unfold persistLocked in Hps. rewrite bool_decide_false, Hm in Hps by (by rewrite Hst).
    simpl in Hps. by injection Hps. }
  rewrite Hf. rewrite <-Hst in Hstore, Hpath.
  destruct (load_persisted MarshalIndent Unmarshal ords s1 s2 path) as [H1 H2]; try done.
  - intros bytes' Hb. congruence.
  - split; [by rewrite Hj|]. intros id. rewrite H2. unfold IsPaused. by rewrite Hp.
Qed.

(** ** A concrete service *)

(** A cron engine that numbers its entries and refuses the specification bad. *)
Record toy_cron := mkToyCron { toy_next : nat; toy_entries : gmap Z ScheduleConfig }.
#[export] Instance toy_cron_engine : CronEngine toy_cron := {|
  cron_New := mkToyCron 0 ∅;
  AddFunc spec job e :=
    if decide (spec = "bad" ∨ is_Some (toy_entries e !! Z.of_nat (toy_next e)))
    then (Err "failed to parse", e)
    else (Ok (Z.of_nat (toy_next e)),
          mkToyCron (S (toy_next e)) (<[Z.of_nat (toy_next e) := job]> (toy_entries e)));
  Remove i e := mkToyCron (toy_next e) (delete i (toy_entries e));
  Entries := toy_entries;
|}.
#[export] Instance toy_cron_laws : CronEngineLaws toy_cron.
Proof.
  split; simpl; [done| | |done].
  - intros spec job e i e'. case_decide as Hd; [done|]. intros [= <- <-]. split; [|done].
    apply eq_None_not_Some. tauto.
  - intros spec job e err e'. case_decide; [|done]. by intros [= _ <-].
Qed.

Module SchedSample.
Definition job : ScheduleConfig := mkScheduleConfig "w" (5 * Second) "" true false.
Definition nightly : ScheduleConfig := mkScheduleConfig "n" 0 "0 3 * * *" false true.
Definition persisted : persistedSchedules := mkPersistedSchedules [nightly; job] ["n"].
Definition marshal (p : persistedSchedules) : result string :=
  if decide (ps_Jobs p = ps_Jobs persisted ∧ ps_Paused p = ps_Paused persisted)
  then Ok "{...}" else Ok "{}".
Definition unmarshal (bytes : string) : result persistedSchedules :=
  if decide (bytes = "{...}") then Ok persisted else Err "unexpected end of JSON input".
Definition ords : nat → iter_order := λ _, canonical_order.
Abbreviation Svc := (Service toy_cron).
Definition fresh : Svc := NewService {["leader.lock" := ""]}.
Definition s1 : Svc := SetScheduleStorePath unmarshal no_faults " data/s.json" fresh.
Definition s2 : Svc := (Register marshal no_faults ords job s1).2.
Definition s3 : Svc := (Register marshal no_faults ords nightly s2).2.
Definition s4 : Svc := start_next (start_next (start_begin unmarshal no_faults canonical_order s3)).
Definition s5 : Svc := (execute_begin job s4).2.
Lemma reachable3 : sched_reachable marshal unmarshal s3.
Proof.
  exists {["leader.lock" := ""]}.
  apply (rtc_l _ _ s1); [apply step_store_path|].
  apply (rtc_l _ _ s2); [apply step_register|]. apply rtc_once. apply step_register.
Qed.
Lemma reachable4 : sched_reachable marshal unmarshal s4.
Proof.
  destruct reachable3 as [files Hr]. exists files. eapply rtc_trans; [exact Hr|].
  eapply rtc_l; [apply (step_start _ _ _ no_faults canonical_order)|].
  eapply rtc_l; [apply step_start_next|]. apply rtc_once. apply step_start_next.
Qed.
Lemma made4 : job ∈ go_made s4.
Proof. apply (list_elem_of_lookup_2 _ 1). vm_compute. reflexivity. Qed.
Lemma reachable5 : sched_reachable marshal unmarshal s5.
Proof.
  destruct reachable4 as [files Hr]. exists files. eapply rtc_r; [exact Hr|].
  apply step_execute, made4.
Qed.
End SchedSample.

Lemma scheduler_no_overlap_witness :
  length (in_flight "w" SchedSample.s5) = 1%nat ∧
  execute_begin SchedSample.job SchedSample.s5 = (false, SchedSample.s5).
Proof.
  split; [vm_compute; reflexivity|].
  apply (scheduler_no_overlap SchedSample.marshal SchedSample.unmarshal SchedSample.s5 "w").
  - exact SchedSample.reachable5.
  - intros j Hj Hw.
    assert (Hm : go_made SchedSample.s5 = [SchedSample.nightly; SchedSample.job])
      by (vm_compute; reflexivity).
    rewrite Hm in Hj. apply elem_of_cons in Hj as [->|Hj]; [discriminate Hw|].
    apply list_elem_of_singleton in Hj as ->. reflexivity.
  - vm_compute. discriminate.
  - apply (list_elem_of_lookup_2 _ 1). vm_compute. reflexivity.
  - reflexivity.
Defined.
Lemma scheduler_timers_witness :
  timer SchedSample.s4 (inl 0%nat) SchedSample.job ∧
  ¬ timer (Unregister SchedSample.marshal no_faults SchedSample.ords "w" SchedSample.s4)
      (inl 0%nat) SchedSample.job.
Proof.
  split; [apply timer_interval; vm_compute; reflexivity|]. intros Ht.
  apply (proj2 (scheduler_timers SchedSample.marshal SchedSample.unmarshal SchedSample.s4
    SchedSample.reachable4)) in Ht. apply Ht. reflexivity.
Defined.
Lemma follower_fires_witness :
  let s := SetLeaderLockPath "leader.lock" SchedSample.fresh in
  let s1 := start_begin SchedSample.unmarshal no_faults canonical_order s in
  let '(r, s2) := Register SchedSample.marshal no_faults SchedSample.ords SchedSample.job s1 in
  r = Ok tt ∧ s_leaderLockHeld s2 = false ∧ ∃ k, timer s2 (inl k) SchedSample.job.
Proof.
  intros s. apply (follower_fires SchedSample.marshal SchedSample.unmarshal no_faults no_faults
    canonical_order SchedSample.ords SchedSample.job s).
  - reflexivity.
  - reflexivity.
  - discriminate.
  - exists "". vm_compute. reflexivity.
  - split; [discriminate|]. left. split; [vm_compute; reflexivity|reflexivity].
  - vm_compute. reflexivity.
Defined.
Lemma schedules_survive_restart_witness :
  let s' := apply_sched SchedSample.marshal SchedSample.ords (SPause "n") SchedSample.s3 in
  IsPaused "n" s' = true ∧
  same_schedules s' (SetScheduleStorePath SchedSample.unmarshal no_faults "data/s.json "
                       (NewService (E := toy_cron) (os_files s'))).
Proof.
  intros s'. split; [vm_compute; reflexivity|].
  pose proof (schedules_survive_restart SchedSample.marshal SchedSample.unmarshal SchedSample.ords
    (SPause "n") "data/s.json " SchedSample.s3 SchedSample.reachable3) as H.
  cbv zeta in H. subst s'. apply H; clear H.
  - exists SchedSample.nightly. vm_compute. reflexivity.
  - vm_compute. discriminate.
  - vm_compute. reflexivity.
  - exists "{...}". split; vm_compute; reflexivity.
Defined.

(** A registration that is reported as failed is kept: when the cron specification
    does not parse, [Register] on a started service returns the error, but the
    configuration has replaced the previous one, without a timer. *)
Theorem rejected_cron_kept {E} `{!CronEngine E} MarshalIndent flt ords config (s : Service E) :
  s_started s = true → valid_config config → sched_Cron config ≠ "" →
  (∀ e, ∃ err e', AddFunc (sched_Cron config) config e = (Err err, e')) →
  ∃ err s', Register MarshalIndent flt ords config s = (Err err, s') ∧
    s_jobs s' !! sched_WorkflowID config = Some config.
Proof.
  intros Hst Hv Hcron Hbad. rewrite Register_valid, Hst by done. unfold startJobLocked. cbv zeta.
  rewrite bool_decide_true by done.
  destruct (unschedule_fields (sched_WorkflowID config) (registered MarshalIndent flt ords config s))
    as (? & ? & ? & ? & Hu). unfold unscheduleLocked in Hu. rewrite Hu. simpl.
  destruct (Hbad x) as (err & e' & Ha). rewrite Ha. eexists _, _. split; [done|]. simpl.
  destruct (registered_fields MarshalIndent flt ords config s) as (? & ? & ? & ? & ? & ->).
  apply lookup_insert_eq.
Qed.

(** [Start] reads the schedules under the lock but starts them after releasing it:
    a schedule that is unregistered in between is started all the same, and goes on
    firing although it is not registered any more. *)
Theorem start_race :
  ∃ s : Service toy_cron, sched_reachable SchedSample.marshal SchedSample.unmarshal s ∧
    s_jobs s !! "w" = None ∧ timer s (inl 0%nat) SchedSample.job.
Proof.
  set (s3 := start_begin SchedSample.unmarshal no_faults canonical_order SchedSample.s2).
  set (s4 := Unregister SchedSample.marshal no_faults SchedSample.ords "w" s3).
  exists (start_next s4). split; [|split].
  - exists {["leader.lock" := ""]}.
    apply (rtc_l _ _ SchedSample.s1); [apply step_store_path|].
    apply (rtc_l _ _ SchedSample.s2); [apply step_register|].
    apply (rtc_l _ _ s3); [apply step_start|]. apply (rtc_l _ _ s4); [apply step_unregister|].
    apply rtc_once. apply step_start_next.
  - vm_compute. reflexivity.
  - constructor. vm_compute. reflexivity.
Qed.
