(* ===== verification/SchedulerTimers.v ===== *)
(** * internal/scheduler/service.go: the goroutine of an interval job

    [Scheduler] lets the goroutine that [startJobLocked] makes call [executeOnce] at any
    time; here is when it does. *)

From S2P Require Import Prelude GoLib Domain Ticker.
Local Open Scope Z_scope.

Definition job_interval (job : ScheduleConfig) : duration :=
  if sched_Interval job <=? 0 then 10 * Second else sched_Interval job.
(** The calls of [executeOnce] of a goroutine that starts at [t0] and whose context ends
    at [done]; [first] is how [RunOnStartup]'s call goes. *)
Definition startIntervalJob (job : ScheduleConfig) (t0 : time) (done : option time) (first : round)
    (rounds : list round) : list call * bool :=
  let interval := job_interval job in
  if sched_RunOnStartup job then
    let begins := t0 + rd_lag first in
    let ends := begins + rd_body first in
    let '(calls, returned) := tick_loop t0 interval done rounds t0 ends in
    ((begins, ends) :: calls, returned)
  else tick_loop t0 interval done rounds t0 t0.

(** ** Counting calls *)

Lemma length_filter_bound {A} (P : A → Prop) `{!∀ x, Decision (P x)} (l : list A) n :
  (∀ i x, (n ≤ i)%nat → l !! i = Some x → ¬ P x) → (length (filter P l) ≤ n)%nat.
Proof.
  intros Hl. rewrite <-(take_drop n l), filter_app, length_app.
  replace (filter P (drop n l)) with ([] : list A).
  - simpl. pose proof (length_filter P (take n l)). rewrite length_take in *. lia.
  - assert (Hd : Forall (λ x, ¬ P x) (drop n l)).
    { apply Forall_lookup. intros i x Hi. rewrite lookup_drop in Hi. apply (Hl (n + i)%nat x); [lia|done]. }
    induction Hd as [|x k Hx _ IH]; [done|]. by rewrite filter_cons_False.
Qed.
(** The calls that begin up to [t]. *)
Definition begun (t : time) (calls : list call) : Z := zlen (filter (λ k : call, k.1 ≤ t) calls).
(** Calls that are at least [d] apart from [a] on. *)
Lemma begun_bound d a t calls : 0 < d → a ≤ t + d →
  (∀ i b e, calls !! i = Some (b, e) → a + Z.of_nat i * d ≤ b) →
  begun t calls ≤ (t - a) / d + 1.
Proof.
  intros Hd Ha Hc. pose proof (Z.div_le_lower_bound (t - a) d (-1) Hd ltac:(lia)). unfold begun, zlen.
  pose proof (Z.mul_succ_div_gt (t - a) d Hd).
  enough (length (filter (λ k : call, (k.1 ≤ t)%Z) calls) ≤ Z.to_nat ((t - a) / d + 1)%Z)%nat by lia.
  apply length_filter_bound. intros i [b e] Hi Hk. specialize (Hc i b e Hk). simpl. nia.
Qed.

Lemma job_interval_pos job : 0 < job_interval job.
Proof. unfold job_interval. destruct (Z.leb_spec (sched_Interval job) 0); unfold Second; lia. Qed.

Section interval.
Context (job : ScheduleConfig) (t0 : time).
Abbreviation i := (job_interval job).
(** The tick of the first call. *)
Definition first_tick : Z := if sched_RunOnStartup job then 0 else 1.

Lemma ticks_start : ticks t0 i t0 = 0.
Proof. apply ticks_at; pose proof (job_interval_pos job); lia. Qed.
Lemma next_start : next_tick t0 i t0 = t0 + i.
Proof. unfold next_tick. rewrite ticks_start. lia. Qed.

(** The calls are paced by the ticks and follow each other. *)
Lemma interval_paced done first rounds calls returned : Forall sane (first :: rounds) →
  startIntervalJob job t0 done first rounds = (calls, returned) →
  ∀ n b e, calls !! n = Some (b, e) →
    t0 + (Z.of_nat n + first_tick) * i ≤ b ≤ e ∧ ∀ b' e', calls !! S n = Some (b', e') → e ≤ b'.
Proof.
  intros [[Hl Hb] Hs]%Forall_cons. pose proof (job_interval_pos job) as Hi.
  unfold startIntervalJob, first_tick. cbv zeta. destruct (sched_RunOnStartup job).
  - destruct (tick_loop _ _ _ _ _ _) as [calls' returned'] eqn:Hloop. intros [= <- <-].
    pose proof (tick_loop_paced t0 i Hi _ _ _ _ _ _ Hs Hloop) as Hp. rewrite ticks_start in Hp.
    intros [|n] b e; simpl.
    + intros [= <- <-]. split; [lia|]. intros b' e' Hn. by apply (Hp 0%nat b' e' Hn).
    + intros Hn. destruct (Hp n b e Hn) as (H1 & H2 & H3 & H4). split; [lia|done].
  - intros Hloop n b e Hn.
    destruct (tick_loop_paced t0 i Hi _ _ _ _ _ _ Hs Hloop n b e Hn) as (H1 & H2 & H3 & H4).
    rewrite ticks_start in H3. split; [lia|done].
Qed.
(** Quick executions miss no tick. *)
Lemma interval_quick done first rounds calls returned : Forall (quick i) (first :: rounds) →
  startIntervalJob job t0 done first rounds = (calls, returned) →
  ∀ n b e, calls !! n = Some (b, e) →
    let tick := t0 + (Z.of_nat n + first_tick) * i in
    tick ≤ b < tick + i ∧ e < tick + i ∧
    match done with Some c => tick ≤ Z.max t0 c | None => True end.
Proof.
  intros [[[Hl Hb] Hlt] Hq]%Forall_cons. pose proof (job_interval_pos job) as Hi.
  pose proof next_start as Hnext.
  assert (Hloop_quick : ∀ calls returned t, t < t0 + i →
    tick_loop t0 i done rounds t0 t = (calls, returned) →
    ∀ n b e, calls !! n = Some (b, e) → let tick := t0 + (Z.of_nat n + 1) * i in
      tick ≤ b < tick + i ∧ e < tick + i ∧
      match done with Some c => tick ≤ Z.max t0 c | None => True end).
  { intros calls1 returned1 t Ht Hloop n b e Hn. rewrite <-Hnext in Ht.
    destruct (tick_loop_quick t0 i Hi _ _ _ _ _ _ Hq Ht Hloop n b e Hn)
      as (rd & Hrd & -> & -> & Hdone). rewrite ticks_start in *.
    rewrite Forall_lookup in Hq. destruct (Hq _ _ Hrd) as [[??]?].
    split; [lia|]. split; [lia|]. destruct done; [lia|done]. }
  unfold startIntervalJob, first_tick. cbv zeta. destruct (sched_RunOnStartup job).
  - destruct (tick_loop _ _ _ _ _ _) as [calls' returned'] eqn:Hloop. intros [= <- <-].
    intros [|n] b e; simpl lookup.
    + intros [= <- <-]. split; [lia|]. split; [lia|]. destruct done; [lia|done].
    + intros Hn. pose proof (Hloop_quick _ _ (t0 + rd_lag first + rd_body first) ltac:(lia) Hloop n b e Hn) as H. cbv zeta in H.
      replace (Z.of_nat (S n) + 0) with (Z.of_nat n + 1) by lia. exact H.
  - intros Hloop. apply (Hloop_quick _ _ t0 ltac:(lia) Hloop).
Qed.
Lemma interval_all done first rounds n : Forall (quick i) (first :: rounds) →
  Z.of_nat n < zlen rounds + 1 - first_tick →
  match done with Some c => t0 + (Z.of_nat n + first_tick) * i < c | None => True end →
  is_Some ((startIntervalJob job t0 done first rounds).1 !! n).
Proof.
  intros [[[Hl Hb] Hlt] Hq]%Forall_cons Hn Hdone. pose proof (job_interval_pos job) as Hi.
  pose proof next_start as Hnext. unfold zlen in Hn.
  unfold startIntervalJob, first_tick in *. cbv zeta. destruct (sched_RunOnStartup job).
  - destruct n as [|n]; [by destruct (tick_loop _ _ _ _ _ _)|].
    pose proof (tick_loop_all t0 i Hi done rounds t0 (t0 + rd_lag first + rd_body first) n Hq) as H.
    destruct (tick_loop _ _ _ _ _ _) as [calls returned]. simpl in *.
    apply H; [rewrite Hnext; lia|lia|]. rewrite ticks_start. destruct done; [|done]. lia.
  - apply tick_loop_all; [done|done|rewrite Hnext; lia|lia|]. rewrite ticks_start.
    destruct done; [|done]. lia.
Qed.
Lemma interval_returns done c first rounds : Forall (quick i) (first :: rounds) → done = Some c →
  c < t0 + zlen rounds * i → rounds ≠ [] → (startIntervalJob job t0 done first rounds).2 = true.
Proof.
  intros [[[Hl Hb] Hlt] Hq]%Forall_cons -> Hc Hne. pose proof (job_interval_pos job) as Hi.
  assert (Hret : ∀ t, t < t0 + i → (tick_loop t0 i (Some c) rounds t0 t).2 = true).
  { intros t Ht. apply tick_loop_returns; try done; [by rewrite next_start|].
    rewrite ticks_start. unfold zlen in Hc. lia. }
  unfold startIntervalJob. cbv zeta. destruct (sched_RunOnStartup job); [|apply Hret; lia].
  specialize (Hret (t0 + rd_lag first + rd_body first) ltac:(lia)).
  by destruct (tick_loop _ _ _ _ _ _).
Qed.
End interval.

(** Up to [t] there is one execution for every interval, and the one at the start. *)
Lemma interval_begun job t0 done first rounds t :
  Forall sane (first :: rounds) → t0 ≤ t →
  begun t (startIntervalJob job t0 done first rounds).1 ≤
    (t - t0) / job_interval job + 1 - first_tick job.
Proof.
  intros Hs Ht. pose proof (job_interval_pos job) as Hi. set (i := job_interval job) in *.
  destruct (startIntervalJob job t0 done first rounds) as [calls returned] eqn:Hj. simpl.
  replace ((t - t0) / i + 1 - first_tick job) with ((t - (t0 + first_tick job * i)) / i + 1).
  - apply begun_bound; [done|unfold first_tick; destruct (sched_RunOnStartup job); lia|].
    intros n b e Hn. apply (interval_paced job t0 _ _ _ _ _ Hs Hj) in Hn as [Hn _].
    fold i in Hn. lia.
  - replace (t - (t0 + first_tick job * i)) with (t - t0 + (- first_tick job) * i) by lia.
    rewrite Z.div_add by lia. lia.
Qed.

(** C28. How often an interval schedule fires.  Its goroutine executes the workflow once at
    the start, if that is asked for, and then at most once for every interval: one execution
    at a time, the [n]-th not before [n] intervals (10 s each if the schedule gives none),
    whatever they take and whenever the context ends - so that up to [t] there are at most
    (t - t0) / interval, and the one at the start.  If they take less than the interval,
    none is missed: the [n]-th falls within the [n]-th interval, every interval that begins
    before the context ends - every one, if it never does - has its execution, none is due
    after the end of the context, and the goroutine returns. *)
Theorem interval_job_fires job t0 done first rounds :
  Forall sane (first :: rounds) →
  let i := job_interval job in
  let calls := (startIntervalJob job t0 done first rounds).1 in
  let due n := t0 + (Z.of_nat n + first_tick job) * i in
  (i = if sched_Interval job <=? 0 then 10 * Second else sched_Interval job) ∧
  (∀ n b e, calls !! n = Some (b, e) →
     due n ≤ b ≤ e ∧ ∀ b' e', calls !! S n = Some (b', e') → e ≤ b') ∧
  (∀ t, t0 ≤ t → begun t calls ≤ (t - t0) / i + 1 - first_tick job) ∧
  (Forall (quick i) (first :: rounds) →
     (∀ n b e, calls !! n = Some (b, e) → due n ≤ b < due n + i ∧ e < due n + i ∧
        match done with Some c => due n ≤ Z.max t0 c | None => True end) ∧
     (∀ n, Z.of_nat n < zlen rounds + 1 - first_tick job →
        match done with Some c => due n < c | None => True end → is_Some (calls !! n)) ∧
     ∀ c, done = Some c → c < t0 + zlen rounds * i → rounds ≠ [] →
       (startIntervalJob job t0 done first rounds).2 = true).
Proof.
  intros Hs i calls due. pose proof (interval_begun job t0 done first rounds) as Hbegun.
  destruct (startIntervalJob job t0 done first rounds) as [calls' returned] eqn:Hj.
  pose proof (λ n, interval_all job t0 done first rounds n) as Hall. rewrite Hj in Hall.
  subst calls. simpl in *. split; [done|].
  split; [exact (interval_paced job t0 done _ _ _ _ Hs Hj)|]. split.
  { intros t Ht. by apply Hbegun. }
  intros Hq. split; [exact (interval_quick job t0 done _ _ _ _ Hq Hj)|].
  split; [intros n; by apply Hall|].
  intros c Hdone Hc Hne. pose proof (interval_returns job t0 done c first rounds Hq Hdone Hc Hne) as H.
  by rewrite Hj in H.
Qed.
(** Every 10 s and at the start, 3 s each, until 35 s. *)
Module IntervalSample.
Definition job : ScheduleConfig := mkScheduleConfig "w" (10 * Second) "" true false.
Definition quick_round : round := mkRound 0 (3 * Second) true.
Definition calls : list call := (λ k, (k * Second, (k + 3) * Second)) <$> [0; 10; 20; 30].
End IntervalSample.
Lemma interval_job_fires_witness :
  let go done k := startIntervalJob IntervalSample.job 0 done IntervalSample.quick_round
                     (replicate k IntervalSample.quick_round) in
  go (Some (35 * Second)) 4%nat = (IntervalSample.calls, true) ∧
  go None 3%nat = (IntervalSample.calls, false) ∧
  begun (20 * Second) IntervalSample.calls = 3 ∧ begun (20 * Second) IntervalSample.calls ≤ 3 ∧
  (∀ n b e, IntervalSample.calls !! n = Some (b, e) →
    0 + (Z.of_nat n + 0) * (10 * Second) ≤ b < 0 + (Z.of_nat n + 0) * (10 * Second) + 10 * Second) ∧
  (∀ k n, Z.of_nat n < Z.of_nat k + 1 → is_Some ((go None k).1 !! n)).
Proof.
  intros go.
  assert (Hs : ∀ k, Forall sane (IntervalSample.quick_round :: replicate k IntervalSample.quick_round)).
  { intros k. apply (Forall_replicate _ (S k)). unfold sane. vm_compute. split; discriminate. }
  assert (Hq : ∀ k, Forall (quick (10 * Second))
    (IntervalSample.quick_round :: replicate k IntervalSample.quick_round)).
  { intros k. apply (Forall_replicate _ (S k)). unfold quick, sane. vm_compute. repeat split; discriminate. }
  destruct (interval_job_fires IntervalSample.job 0 (Some (35 * Second)) IntervalSample.quick_round
    (replicate 4 IntervalSample.quick_round) (Hs 4%nat)) as (_ & _ & Hc & Hquick).
  split; [vm_compute; reflexivity|]. split; [vm_compute; reflexivity|].
  split; [vm_compute; reflexivity|]. split; [|split].
  - apply (Hc (20 * Second)). vm_compute. discriminate.
  - intros n b e Hn. destruct (Hquick (Hq 4%nat)) as [H _]. destruct (H n b e Hn) as [Hb _]. exact Hb.
  - intros k n Hn.
    destruct (interval_job_fires IntervalSample.job 0 None IntervalSample.quick_round
      (replicate k IntervalSample.quick_round) (Hs k)) as (_ & _ & _ & Hquick').
    destruct (Hquick' (Hq k)) as (_ & Hall & _). apply Hall; [|exact I].
    unfold zlen. rewrite length_replicate. change (first_tick IntervalSample.job) with 0. lia.
Defined.

(** A schedule that was stopped may execute once more: an execution that is going on when
    the context ends, at [c], and takes longer than the interval finds the next tick pending
    at its end, and the [select] may prefer it. *)
Theorem stopped_schedule_fires job t0 c body :
  sched_RunOnStartup job = true → job_interval job ≤ body → c ≤ t0 + body →
  startIntervalJob job t0 (Some c) (mkRound 0 body true) [mkRound 0 0 true] =
    ([(t0, t0 + body); (t0 + body, t0 + body)], false).
Proof.
  intros Hj Hb Hc. unfold startIntervalJob. cbv zeta. rewrite Hj. cbn [tick_loop rd_lag rd_body].
  rewrite next_start, !Z.add_0_r. unfold takes_tick. cbv zeta.
  rewrite !Z.max_l, Z.ltb_irrefl, Z.eqb_refl by lia. simpl. by rewrite ?Z.add_0_r.
Qed.
Lemma stopped_schedule_fires_witness :
  startIntervalJob IntervalSample.job 0 (Some (5 * Second)) (mkRound 0 (12 * Second) true)
    [mkRound 0 0 true] = ([(0, 12 * Second); (12 * Second, 12 * Second)], false).
Proof.
  apply (stopped_schedule_fires IntervalSample.job 0 (5 * Second) (12 * Second)); [reflexivity|..];
    vm_compute; discriminate.
Defined.
