(* ===== verification/Sqlite.v ===== *)
(** * internal/store/sqlite_store.go: the SQLite store and queue

    [SQLiteStore] implements both [WorkflowStore] and [RunQueue] over four SQL
    tables.  A table is a map from its primary key, or a list for the transitions;
    each SQL statement of the source is a function on the tables, and each method
    is the sequence of its statements.  A statement may fail, and between two
    statements of a method other goroutines and processes may run theirs: a
    [sql_env] says what they do.  The statements of a transaction are not
    interleaved with others, and have no effect unless it is committed.  Rows come
    out of a table in an unspecified order, and [ORDER BY] leaves ties in it. *)

From S2P Require Import Prelude GoLib GoText Domain Interfaces.
Local Open Scope Z_scope.

(** ** Tables *)

Record workflow_row := mkWorkflowRow { w_payload : string; w_updated_at : Z }.
Record run_row := mkRunRow {
  rr_workflow_id : string;
  rr_request_id : string;
  rr_started_at : Z;
  rr_payload : string;
  rr_updated_at : Z;
}.
(** The columns of run_queue but its key; times are nanoseconds since 1970. *)
Record job_row := mkJobRow {
  r_workflow_id : string;
  r_run_id : string;
  r_request_id : string;
  r_status : string;
  r_attempts : Z;
  r_max_attempts : Z;
  r_last_error : string;
  r_lease_owner : string;
  r_lease_until : Z;
  r_available_at : Z;
  r_replay_count : Z;
  r_replayed_by : string;
  r_replay_reason : string;
  r_replayed_at : Z;
  r_created_at : Z;
  r_updated_at : Z;
}.
#[export] Instance job_row_settable : Settable job_row := λ r,
  mkJobRow (r_workflow_id r) (r_run_id r) (r_request_id r) (r_status r) (r_attempts r)
    (r_max_attempts r) (r_last_error r) (r_lease_owner r) (r_lease_until r) (r_available_at r)
    (r_replay_count r) (r_replayed_by r) (r_replay_reason r) (r_replayed_at r) (r_created_at r)
    (r_updated_at r).
Record transition_row := mkTransitionRow {
  t_job_id : string;
  t_from_status : string;
  t_to_status : string;
  t_reason : string;
  t_actor : string;
  t_created_at : Z;
}.
Record SQLiteStore := mkSQLiteStore {
  tbl_workflows : gmap string workflow_row;
  tbl_runs : gmap string run_row;
  tbl_run_queue : gmap string job_row;
  tbl_transitions : list transition_row;
}.
#[export] Instance SQLiteStore_settable : Settable SQLiteStore := λ s,
  mkSQLiteStore (tbl_workflows s) (tbl_runs s) (tbl_run_queue s) (tbl_transitions s).
(** The tables that [migrate] creates. *)
Definition empty_db : SQLiteStore := mkSQLiteStore ∅ ∅ ∅ [].

(** ** Statements *)

(** For the statement number [k] of a method: the error the driver reports, what others did
    to the tables since the statement before, and, if it is a query, after how many rows
    [rows.Next()] answers false for an error, which only [rows.Err()] would tell. *)
Record sql_env := mkSqlEnv {
  se_err : nat → option string;
  se_other : nat → SQLiteStore → SQLiteStore;
  se_cut : nat → option nat;
}.
(** Nothing fails and nobody interferes. *)
Definition quiet_env : sql_env := mkSqlEnv (λ _, None) (λ _ s, s) (λ _, None).
(** The rows that a loop [for rows.Next() { ... }] sees; no method asks for [rows.Err()]. *)
Definition fetched {A} (env : sql_env) (k : nat) (rows : list A) : list A :=
  match se_cut env k with
  | None => rows
  | Some n => take n rows
  end.

(** An order in which rows are read. *)
Record scan_order : Type := ScanOrder {
  scan : ∀ {A}, list A → list A;
  scan_perm : ∀ A (l : list A), scan l ≡ₚ l;
}.
Definition rowid_order : scan_order := ScanOrder (λ A l, l) (λ A l, Permutation_refl l).

(** [time.Unix(0, n).UTC()] *)
Definition unix_nano (n : Z) : time := unix_epoch + n.
(** [LIMIT ? OFFSET ?] *)
Definition sql_limit {A} (limit offset : Z) (l : list A) : list A :=
  take (Z.to_nat limit) (drop (Z.to_nat offset) l).
(** [if limit <= 0 { limit = 50 }; if offset < 0 { offset = 0 }] *)
Definition page_limit (limit : Z) : Z := if limit <=? 0 then 50 else limit.
Definition page_offset (offset : Z) : Z := if offset <? 0 then 0 else offset.

(** [for rows.Next() { ...; if err := json.Unmarshal(...) { return nil, err } }] *)
Fixpoint decode_all {A} (Unmarshal : string → result A) (payloads : list string) :
    result (list A) :=
  match payloads with
  | [] => Ok []
  | p :: payloads =>
      match Unmarshal p with
      | Err e => Err e
      | Ok x => xs ← decode_all Unmarshal payloads; Ok (x :: xs)
      end
  end.

(** ** scanRunJob *)

Definition scanRunJob (keyed : string * job_row) : RunQueueJob :=
  let '(id, row) := keyed in
  mkRunQueueJob id (r_workflow_id row) (r_run_id row) (r_request_id row) (r_status row)
    (r_attempts row) (r_max_attempts row) (r_last_error row) (r_lease_owner row)
    (unix_nano (r_lease_until row)) (unix_nano (r_available_at row)) (r_replay_count row)
    (r_replayed_by row) (r_replay_reason row) (unix_nano (r_replayed_at row))
    (unix_nano (r_created_at row)) (unix_nano (r_updated_at row)).
Definition scanTransition (row : transition_row) : RunJobTransition :=
  mkRunJobTransition (t_job_id row) (t_from_status row) (t_to_status row) (t_reason row)
    (t_actor row) (unix_nano (t_created_at row)).

(** ** Workflows and runs *)
Section store.
Context (MarshalWorkflow : Workflow → result string) (UnmarshalWorkflow : string → result Workflow).
Context (MarshalRun : Run → result string) (UnmarshalRun : string → result Run).

Definition sql_SaveWorkflow (env : sql_env) (clk : clock) (workflow : Workflow) (db : SQLiteStore) :
    result unit * SQLiteStore :=
  match MarshalWorkflow workflow with
  | Err e => (Err e, db)
  | Ok payload =>
      let db := se_other env 0%nat db in
      match se_err env 0%nat with
      | Some e => (Err e, db)
      | None =>
          (Ok tt,
           db <| tbl_workflows := <[wf_ID workflow := mkWorkflowRow payload (UnixNano (clk 0%nat))]>
                                    (tbl_workflows db) |>)
      end
  end.
Definition sql_GetWorkflow (env : sql_env) (workflowID : string) (db : SQLiteStore) :
    result Workflow :=
  match se_err env 0%nat with
  | Some e => Err e
  | None =>
      match tbl_workflows db !! workflowID with
      | None => Err "workflow not found"
      | Some row => UnmarshalWorkflow (w_payload row)
      end
  end.
Definition sql_ListWorkflows (env : sql_env) (ord : iter_order) (db : SQLiteStore) :
    result (list Workflow) :=
  match se_err env 0%nat with
  | Some e => Err e
  | None =>
      items ← decode_all UnmarshalWorkflow
                (w_payload <$> fetched env 0 (iter_values ord (tbl_workflows db)));
      Ok (sort_slice (λ a b, str_ltb (wf_ID a) (wf_ID b)) items)
  end.

Definition sql_SaveRun (env : sql_env) (clk : clock) (run : Run) (db : SQLiteStore) :
    result unit * SQLiteStore :=
  match MarshalRun run with
  | Err e => (Err e, db)
  | Ok payload =>
      let startedAt := if IsZero (run_StartedAt run) then UnixNano (clk 0%nat)
                       else UnixNano (run_StartedAt run) in
      let db := se_other env 0%nat db in
      match se_err env 0%nat with
      | Some e => (Err e, db)
      | None =>
          (Ok tt,
           db <| tbl_runs := <[run_ID run := mkRunRow (run_WorkflowID run) (run_RequestID run)
                                 startedAt payload (UnixNano (clk 1%nat))]> (tbl_runs db) |>)
      end
  end.
Definition sql_GetRun (env : sql_env) (runID : string) (db : SQLiteStore) : result Run :=
  match se_err env 0%nat with
  | Some e => Err e
  | None =>
      match tbl_runs db !! runID with
      | None => Err "run not found"
      | Some row => UnmarshalRun (rr_payload row)
      end
  end.

(** The clauses of the [WHERE] that the listings build up. *)
Definition run_clauses (workflowID requestID : string) (startedAfter startedBefore : time)
    (row : run_row) : bool :=
  (bool_decide (workflowID = "") || bool_decide (rr_workflow_id row = workflowID)) &&
  (bool_decide (requestID = "") || bool_decide (rr_request_id row = requestID)) &&
  (IsZero startedAfter || (UnixNano startedAfter <=? rr_started_at row)) &&
  (IsZero startedBefore || (rr_started_at row <=? UnixNano startedBefore)).
(** [ORDER BY started_at] *)
Definition started_row_less (orderDesc : bool) (a b : run_row) : bool :=
  if orderDesc then rr_started_at b <? rr_started_at a else rr_started_at a <? rr_started_at b.
Definition select_runs (ord : iter_order) (p : run_row → bool) (orderDesc : bool)
    (db : SQLiteStore) : list run_row :=
  sort_slice (started_row_less orderDesc)
    (filter (λ row, p row = true) (iter_values ord (tbl_runs db))).

Definition sql_ListRuns (env : sql_env) (ord : iter_order) (workflowID : string)
    (db : SQLiteStore) : result (list Run) :=
  match se_err env 0%nat with
  | Some e => Err e
  | None => decode_all UnmarshalRun
      (rr_payload <$> fetched env 0 (select_runs ord
         (λ row, bool_decide (workflowID = "") || bool_decide (rr_workflow_id row = workflowID))
         false db))
  end.

(** The loop over the rows when a status is asked for: [status] is not a column,
    so the page is counted here. *)
Fixpoint scan_runs (status : RunStatus) (limit offset : Z) (payloads : list string)
    (seen : Z) (items : list Run) : result (list Run) :=
  match payloads with
  | [] => Ok items
  | p :: payloads =>
      match UnmarshalRun p with
      | Err e => Err e
      | Ok run =>
          if bool_decide (run_Status run ≠ status) then
            scan_runs status limit offset payloads seen items
          else if seen <? offset then scan_runs status limit offset payloads (seen + 1) items
          else if limit <=? zlen items then Ok items
          else scan_runs status limit offset payloads seen (items ++ [run])
      end
  end.
Definition sql_ListRunsFiltered (env : sql_env) (ord : iter_order) (workflowID : string)
    (status : RunStatus) (requestID : string) (startedAfter startedBefore : time)
    (orderDesc : bool) (limit offset : Z) (db : SQLiteStore) : result (list Run) :=
  let limit := page_limit limit in
  let offset := page_offset offset in
  match se_err env 0%nat with
  | Some e => Err e
  | None =>
      let payloads := rr_payload <$>
        select_runs ord (run_clauses workflowID requestID startedAfter startedBefore) orderDesc db in
      if bool_decide (status = "")
      then decode_all UnmarshalRun (fetched env 0 (sql_limit limit offset payloads))
      else scan_runs status limit offset (fetched env 0 payloads) 0 []
  end.
Definition sql_CountRunsFiltered (env : sql_env) (ord : iter_order) (workflowID : string)
    (status : RunStatus) (requestID : string) (startedAfter startedBefore : time)
    (db : SQLiteStore) : result Z :=
  match se_err env 0%nat with
  | Some e => Err e
  | None =>
      let rows := filter (λ row, run_clauses workflowID requestID startedAfter startedBefore row = true)
                    (iter_values ord (tbl_runs db)) in
      if bool_decide (status = "") then Ok (zlen rows) else
      runs ← decode_all UnmarshalRun (rr_payload <$> fetched env 0 rows);
      Ok (zlen (filter (λ r, run_Status r = status) runs))
  end.
End store.

(** ** The run queue *)

(** INSERT INTO run_queue_transitions; the foreign key asks for the job. *)
Definition sql_appendTransition (env : sql_env) (k : nat) (now : time) (jobID : string)
    (fromStatus toStatus : RunJobStatus) (reason actor : string) (db : SQLiteStore) :
    result unit * SQLiteStore :=
  let db := se_other env k db in
  match se_err env k with
  | Some e => (Err e, db)
  | None =>
      match tbl_run_queue db !! jobID with
      | None => (Err "FOREIGN KEY constraint failed", db)
      | Some _ =>
          (Ok tt, db <| tbl_transitions := tbl_transitions db ++
             [mkTransitionRow jobID fromStatus toStatus reason actor (UnixNano now)] |>)
      end
  end.
(** UPDATE run_queue SET ... WHERE id = ? AND ...; whether a row was affected. *)
Definition update_job (env : sql_env) (k : nat) (jobID : string) (guard : job_row → bool)
    (set_ : job_row → job_row) (db : SQLiteStore) : result bool * SQLiteStore :=
  let db := se_other env k db in
  match se_err env k with
  | Some e => (Err e, db)
  | None =>
      match tbl_run_queue db !! jobID with
      | Some row =>
          if guard row
          then (Ok true, db <| tbl_run_queue := <[jobID := set_ row]> (tbl_run_queue db) |>)
          else (Ok false, db)
      | None => (Ok false, db)
      end
  end.

Definition sql_GetRunJob (env : sql_env) (jobID : string) (db : SQLiteStore) : result RunQueueJob :=
  match se_err env 0%nat with
  | Some e => Err e
  | None =>
      match tbl_run_queue db !! jobID with
      | None => Err "run job not found"
      | Some row => Ok (scanRunJob (jobID, row))
      end
  end.

(** ORDER BY created_at *)
Definition created_row_less (a b : string * job_row) : bool :=
  r_created_at a.2 <? r_created_at b.2.
(** The rows that a WHERE selects, with their keys. *)
Definition rows_where (ord : iter_order) (p : job_row → bool) (db : SQLiteStore) :
    list (string * job_row) :=
  filter (λ kv, p kv.2 = true) (iter ord (tbl_run_queue db)).
Definition sql_GetRunJobByRequest (env : sql_env) (ord : iter_order) (workflowID requestID : string)
    (db : SQLiteStore) : result RunQueueJob :=
  match se_err env 0%nat with
  | Some e => Err e
  | None =>
      match sort_slice (λ a b, created_row_less b a)
              (rows_where ord (λ row, bool_decide (r_workflow_id row = workflowID)
                                      && bool_decide (r_request_id row = requestID)) db) with
      | [] => Err "run job not found"
      | row :: _ => Ok (scanRunJob row)
      end
  end.

Definition row_of_job (job : RunQueueJob) : job_row :=
  mkJobRow (job_WorkflowID job) (job_RunID job) (job_RequestID job) (job_Status job)
    (job_Attempts job) (job_MaxAttempts job) (job_LastError job) (job_LeaseOwner job)
    (UnixNano (job_LeaseUntil job)) (UnixNano (job_AvailableAt job)) (job_ReplayCount job)
    (job_ReplayedBy job) (job_ReplayReason job) (UnixNano (job_ReplayedAt job))
    (UnixNano (job_CreatedAt job)) (UnixNano (job_UpdatedAt job)).
Definition sql_EnqueueRunJob (env : sql_env) (clk : clock) (job : RunQueueJob) (db : SQLiteStore) :
    result unit * SQLiteStore :=
  let now := clk 0%nat in
  if bool_decide (job_ID job = "") then (Err "job id is required", db) else
  let job := if bool_decide (job_Status job = "")
             then job <| job_Status := RunJobStatusQueued |> else job in
  let job := if IsZero (job_CreatedAt job) then job <| job_CreatedAt := now |> else job in
  let job := if IsZero (job_UpdatedAt job) then job <| job_UpdatedAt := now |> else job in
  let job := if IsZero (job_AvailableAt job) then job <| job_AvailableAt := now |> else job in
  let job := if job_MaxAttempts job <=? 0 then job <| job_MaxAttempts := 5 |> else job in
  let db := se_other env 0%nat db in
  match se_err env 0%nat with
  | Some e => (Err e, db)
  | None =>
      let db := match tbl_run_queue db !! job_ID job with
                | Some _ => db
                | None =>
                    db <| tbl_run_queue := <[job_ID job := row_of_job job]> (tbl_run_queue db) |>
                end in
      sql_appendTransition env 1 (clk 1%nat) (job_ID job) "" (job_Status job) "enqueued" "system" db
  end.

(** The WHERE of the SELECT and of the UPDATE of [LeaseNextRunJob]. *)
Definition free_row (now : Z) (row : job_row) : bool :=
  bool_decide (r_status row = RunJobStatusQueued)
  || (bool_decide (r_status row = RunJobStatusLeased) && (r_lease_until row <? now)).
Definition leasable_row (now : Z) (row : job_row) : bool :=
  free_row now row && (r_available_at row <=? now).
(** Statements: 0 the begin of the transaction, 1 SELECT, 2 UPDATE, 3 COMMIT, 4 the
    transition.  [attempts+1] is computed at width 64; SQLite would store the sum as a
    floating-point number beyond 2^63-1, a value that the columns here do not have. *)
Definition sql_LeaseNextRunJob (env : sql_env) (ord : iter_order) (clk : clock)
    (workerID : string) (leaseDuration : duration) (db : SQLiteStore) :
    result RunQueueJob * SQLiteStore :=
  let db := se_other env 0%nat db in
  match se_err env 0%nat with Some e => (Err e, db) | None =>
  let now := UnixNano (clk 0%nat) in
  match se_err env 1%nat with
  | Some e => (Err (if Contains e "not found" then "no run job available" else e), db)
  | None =>
  match sort_slice created_row_less
          (rows_where ord (leasable_row now) db) with
  | [] => (Err "no run job available", db)
  | row :: _ =>
      let job := scanRunJob row in
      let leaseUntil := UnixNano (time_Add (clk 1%nat) leaseDuration) in
      let updatedAt := UnixNano (clk 2%nat) in
      let tx := mkSqlEnv (se_err env) (λ _ db, db) (se_cut env) in
      match update_job tx 2 (job_ID job) (free_row now)
              (λ r, r <| r_status := RunJobStatusLeased |> <| r_lease_owner := workerID |>
                      <| r_lease_until := leaseUntil |>
                      <| r_attempts := wrap64 (r_attempts r + 1) |>
                      <| r_updated_at := updatedAt |>) db with
      | (Err e, _) => (Err e, db)
      | (Ok false, _) => (Err "run job lease lost", db)
      | (Ok true, db') =>
          match se_err env 3%nat with
          | Some e => (Err e, db)
          | None =>
              let fromStatus := job_Status job in
              let job := job <| job_Status := RunJobStatusLeased |>
                <| job_LeaseOwner := workerID |>
                <| job_LeaseUntil := unix_nano leaseUntil |>
                <| job_Attempts := wrap64 (job_Attempts job + 1) |>
                <| job_UpdatedAt := unix_nano updatedAt |> in
              match sql_appendTransition env 4 (clk 3%nat) (job_ID job) fromStatus
                      RunJobStatusLeased "leased" workerID db' with
              | (Err e, db) => (Err e, db)
              | (Ok _, db) => (Ok job, db)
              end
          end
      end
  end end end.

Definition sql_ExtendRunJobLease (env : sql_env) (clk : clock) (jobID workerID : string)
    (leaseDuration : duration) (db : SQLiteStore) : result unit * SQLiteStore :=
  let leaseUntil := UnixNano (time_Add (clk 0%nat) leaseDuration) in
  let updatedAt := UnixNano (clk 1%nat) in
  match update_job env 0 jobID
          (λ r, bool_decide (r_status r = RunJobStatusLeased)
                && bool_decide (r_lease_owner r = workerID))
          (λ r, r <| r_lease_until := leaseUntil |> <| r_updated_at := updatedAt |>) db with
  | (Err e, db) => (Err e, db)
  | (Ok false, db) => (Err "run job lease extension failed", db)
  | (Ok true, db) => (Ok tt, db)
  end.

(** What the six methods below have in common: [GetRunJob], a guarded UPDATE, an
    error when it affected no row, and the transition from the status that was read
    at first. *)
Definition transition_job (env : sql_env) (jobID : string) (guard : job_row → bool)
    (set_ : job_row → job_row) (rejected : string) (toStatus : RunJobStatus)
    (reason actor : string) (now : time) (db : SQLiteStore) : result unit * SQLiteStore :=
  let db := se_other env 0%nat db in
  match sql_GetRunJob env jobID db with
  | Err e => (Err e, db)
  | Ok job =>
      match update_job env 1 jobID guard set_ db with
      | (Err e, db) => (Err e, db)
      | (Ok false, db) => (Err rejected, db)
      | (Ok true, db) => sql_appendTransition env 2 now jobID (job_Status job) toStatus reason actor db
      end
  end.
Definition row_leased (r : job_row) : bool := bool_decide (r_status r = RunJobStatusLeased).

Definition sql_CompleteRunJob (env : sql_env) (clk : clock) (jobID : string) (db : SQLiteStore) :
    result unit * SQLiteStore :=
  transition_job env jobID row_leased
    (λ r, r <| r_status := RunJobStatusSucceeded |> <| r_lease_owner := "" |>
            <| r_lease_until := 0 |> <| r_updated_at := UnixNano (clk 0%nat) |>)
    "run job complete transition rejected" RunJobStatusSucceeded "completed" "worker" (clk 1%nat) db.
Definition sql_CancelRunJob (env : sql_env) (clk : clock) (jobID reason : string)
    (db : SQLiteStore) : result unit * SQLiteStore :=
  transition_job env jobID
    (λ r, bool_decide (r_status r ∈ [RunJobStatusQueued; RunJobStatusFailed; RunJobStatusDead;
                                     RunJobStatusLeased]))
    (λ r, r <| r_status := RunJobStatusCancelled |> <| r_last_error := reason |>
            <| r_lease_owner := "" |> <| r_lease_until := 0 |>
            <| r_updated_at := UnixNano (clk 0%nat) |>)
    "run job cancel transition rejected" RunJobStatusCancelled reason "api" (clk 1%nat) db.
Definition sql_RetryRunJob (env : sql_env) (clk : clock) (jobID : string) (retryAfter : duration)
    (lastError : string) (db : SQLiteStore) : result unit * SQLiteStore :=
  transition_job env jobID row_leased
    (λ r, r <| r_status := RunJobStatusQueued |>
            <| r_available_at := UnixNano (time_Add (clk 0%nat) retryAfter) |>
            <| r_lease_owner := "" |> <| r_lease_until := 0 |> <| r_last_error := lastError |>
            <| r_updated_at := UnixNano (clk 1%nat) |>)
    "run job retry transition rejected" RunJobStatusQueued lastError "worker" (clk 2%nat) db.
Definition sql_FailRunJob (env : sql_env) (clk : clock) (jobID lastError : string)
    (db : SQLiteStore) : result unit * SQLiteStore :=
  transition_job env jobID row_leased
    (λ r, r <| r_status := RunJobStatusFailed |> <| r_lease_owner := "" |>
            <| r_lease_until := 0 |> <| r_last_error := lastError |>
            <| r_updated_at := UnixNano (clk 0%nat) |>)
    "run job fail transition rejected" RunJobStatusFailed lastError "worker" (clk 1%nat) db.
Definition sql_DeadLetterRunJob (env : sql_env) (clk : clock) (jobID lastError : string)
    (db : SQLiteStore) : result unit * SQLiteStore :=
  transition_job env jobID row_leased
    (λ r, r <| r_status := RunJobStatusDead |> <| r_lease_owner := "" |>
            <| r_lease_until := 0 |> <| r_last_error := lastError |>
            <| r_updated_at := UnixNano (clk 0%nat) |>)
    "run job dead-letter transition rejected" RunJobStatusDead lastError "worker" (clk 1%nat) db.
Definition sql_RequeueRunJob (env : sql_env) (clk : clock) (jobID : string)
    (availableAfter : duration) (replayedBy replayReason : string) (db : SQLiteStore) :
    result unit * SQLiteStore :=
  transition_job env jobID
    (λ r, bool_decide (r_status r ∈ [RunJobStatusDead; RunJobStatusFailed]))
    (λ r, r <| r_status := RunJobStatusQueued |>
            <| r_available_at := UnixNano (time_Add (clk 0%nat) availableAfter) |>
            <| r_lease_owner := "" |> <| r_lease_until := 0 |>
            <| r_replay_count := wrap64 (r_replay_count r + 1) |>
            <| r_replayed_by := replayedBy |> <| r_replay_reason := replayReason |>
            <| r_replayed_at := UnixNano (clk 1%nat) |>
            <| r_updated_at := UnixNano (clk 2%nat) |>)
    "run job requeue transition rejected" RunJobStatusQueued replayReason replayedBy (clk 3%nat) db.

(** ** Listing and counting jobs *)

Definition select_jobs (ord : iter_order) (p : job_row → bool) (db : SQLiteStore) :
    list (string * job_row) := sort_slice created_row_less (rows_where ord p db).
Definition sql_ListRunJobs (env : sql_env) (ord : iter_order) (status : string) (limit offset : Z)
    (db : SQLiteStore) : result (list RunQueueJob) :=
  match se_err env 0%nat with
  | Some e => Err e
  | None =>
      Ok (scanRunJob <$> fetched env 0 (sql_limit (page_limit limit) (page_offset offset)
           (select_jobs ord
              (λ r, bool_decide (status = "") || bool_decide (r_status r = status)) db)))
  end.
Definition job_clauses (status workflowID requestID : string) (updatedAfter updatedBefore : time)
    (row : job_row) : bool :=
  (bool_decide (status = "") || bool_decide (r_status row = status)) &&
  (bool_decide (workflowID = "") || bool_decide (r_workflow_id row = workflowID)) &&
  (bool_decide (requestID = "") || bool_decide (r_request_id row = requestID)) &&
  (IsZero updatedAfter || (UnixNano updatedAfter <=? r_updated_at row)) &&
  (IsZero updatedBefore || (r_updated_at row <=? UnixNano updatedBefore)).
Definition sql_ListRunJobsFiltered (env : sql_env) (ord : iter_order)
    (status workflowID requestID : string) (updatedAfter updatedBefore : time) (limit offset : Z)
    (db : SQLiteStore) : result (list RunQueueJob) :=
  match se_err env 0%nat with
  | Some e => Err e
  | None =>
      Ok (scanRunJob <$> fetched env 0 (sql_limit (page_limit limit) (page_offset offset)
           (select_jobs ord (job_clauses status workflowID requestID updatedAfter updatedBefore) db)))
  end.
Definition sql_CountRunJobsFiltered (env : sql_env) (ord : iter_order)
    (status workflowID requestID : string) (updatedAfter updatedBefore : time)
    (db : SQLiteStore) : result Z :=
  match se_err env 0%nat with
  | Some e => Err e
  | None =>
      Ok (zlen (rows_where ord
        (job_clauses status workflowID requestID updatedAfter updatedBefore) db))
  end.
Definition sql_ListRunJobsByRun (env : sql_env) (ord : iter_order) (runID : string)
    (limit offset : Z) (db : SQLiteStore) : result (list RunQueueJob) :=
  match se_err env 0%nat with
  | Some e => Err e
  | None =>
      Ok (scanRunJob <$> fetched env 0 (sql_limit (page_limit limit) (page_offset offset)
           (select_jobs ord (λ r, bool_decide (r_run_id r = runID)) db)))
  end.
(** SELECT status, COUNT of the rows, GROUP BY status *)
Definition count_row (counts : gmap string Z) (row : job_row) : gmap string Z :=
  <[r_status row := default 0 (counts !! r_status row) + 1]> counts.
Definition sql_CountRunJobsByStatus (env : sql_env) (ord : iter_order) (db : SQLiteStore) :
    result (gmap string Z) :=
  match se_err env 0%nat with
  | Some e => Err e
  | None =>
      let groups := foldl count_row ∅ (iter_values ord (tbl_run_queue db)) in
      Ok (list_to_map (fetched env 0 (iter ord groups)))
  end.

(** ** Purging *)

(** DELETE FROM run_queue WHERE id = ?, with ON DELETE CASCADE. *)
Definition delete_row (jobID : string) (db : SQLiteStore) : Z * SQLiteStore :=
  match tbl_run_queue db !! jobID with
  | None => (0, db)
  | Some _ =>
      (1, db <| tbl_run_queue := delete jobID (tbl_run_queue db) |>
             <| tbl_transitions := filter (λ t, t_job_id t ≠ jobID) (tbl_transitions db) |>)
  end.
Definition updated_row_less (a b : string * job_row) : bool :=
  r_updated_at a.2 <? r_updated_at b.2.
Definition sql_purge_select (ord : iter_order) (clk : clock) (status : string)
    (olderThan : duration) (limit : Z) (db : SQLiteStore) : list string :=
  let limit := if limit <=? 0 then 1000 else limit in
  let cutoff := UnixNano (time_Add (clk 0%nat) (- olderThan)) in
  fst <$> take (Z.to_nat limit)
    (sort_slice updated_row_less
       (rows_where ord (λ r, (bool_decide (status = "") || bool_decide (r_status r = status)) &&
                             (negb (0 <? olderThan) || (r_updated_at r <=? cutoff))) db)).
(** The loop of DELETEs of the transaction, [deleted] counting the affected rows. *)
Fixpoint delete_rows (err : nat → option string) (k : nat) (ids : list string) (deleted : Z)
    (db : SQLiteStore) : result Z * SQLiteStore :=
  match ids with
  | [] => (Ok deleted, db)
  | id :: ids =>
      match err k with
      | Some e => (Err e, db)
      | None => let '(affected, db) := delete_row id db in
                delete_rows err (S k) ids (deleted + affected) db
      end
  end.
(** Statements: 0 SELECT, 1 the begin of the transaction, 2 COMMIT, 3 and on the
    DELETEs. *)
Definition sql_PurgeRunJobs (env : sql_env) (ord : iter_order) (clk : clock) (status : string)
    (olderThan : duration) (limit : Z) (db : SQLiteStore) : result Z * SQLiteStore :=
  let db := se_other env 0%nat db in
  match se_err env 0%nat with Some e => (Err e, db) | None =>
  let ids := fetched env 0 (sql_purge_select ord clk status olderThan limit db) in
  if Nat.eqb (length ids) 0 then (Ok 0, db) else
  let db := se_other env 1%nat db in
  match se_err env 1%nat with Some e => (Err e, db) | None =>
  match delete_rows (se_err env) 3 ids 0 db with
  | (Err e, _) => (Err e, db)
  | (Ok deleted, db') =>
      match se_err env 2%nat with
      | Some e => (Err e, db)
      | None => (Ok deleted, db')
      end
  end end end.

(** ** Transitions *)

Definition transition_less (a b : transition_row) : bool := t_created_at a <? t_created_at b.
Definition select_transitions (ord : scan_order) (p : transition_row → bool) (db : SQLiteStore) :
    list transition_row :=
  sort_slice transition_less (filter (λ t, p t = true) (scan ord (tbl_transitions db))).
Definition sql_ListRunJobTransitions (env : sql_env) (ord : scan_order) (jobID : string)
    (limit offset : Z) (db : SQLiteStore) : result (list RunJobTransition) :=
  match se_err env 0%nat with
  | Some e => Err e
  | None =>
      Ok (scanTransition <$> fetched env 0 (sql_limit (page_limit limit) (page_offset offset)
           (select_transitions ord (λ t, bool_decide (t_job_id t = jobID)) db)))
  end.
Definition transition_clauses (jobID toStatus actor : string) (createdAfter createdBefore : time)
    (t : transition_row) : bool :=
  bool_decide (t_job_id t = jobID) &&
  (bool_decide (toStatus = "") || bool_decide (t_to_status t = toStatus)) &&
  (bool_decide (actor = "") || bool_decide (t_actor t = actor)) &&
  (IsZero createdAfter || (UnixNano createdAfter <=? t_created_at t)) &&
  (IsZero createdBefore || (t_created_at t <=? UnixNano createdBefore)).
Definition sql_ListRunJobTransitionsFiltered (env : sql_env) (ord : scan_order)
    (jobID toStatus actor : string) (createdAfter createdBefore : time) (limit offset : Z)
    (db : SQLiteStore) : result (list RunJobTransition) :=
  match se_err env 0%nat with
  | Some e => Err e
  | None =>
      Ok (scanTransition <$> fetched env 0 (sql_limit (page_limit limit) (page_offset offset)
           (select_transitions ord
              (transition_clauses jobID toStatus actor createdAfter createdBefore) db)))
  end.
Definition sql_CountRunJobTransitionsFiltered (env : sql_env) (jobID toStatus actor : string)
    (createdAfter createdBefore : time) (db : SQLiteStore) : result Z :=
  match se_err env 0%nat with
  | Some e => Err e
  | None =>
      Ok (zlen (filter
        (λ t, transition_clauses jobID toStatus actor createdAfter createdBefore t = true)
        (tbl_transitions db)))
  end.
