(* ===== verification/SqliteProps.v ===== *)
(** * The SQLite store keeps the promises of the interfaces

    With nobody interfering and no failing statement, [SQLiteStore] is a
    [WorkflowStore] and a [RunQueue] with their laws, and a run of the queue on it is
    simulated by one on the memory queue.  Whatever other processes do between its
    statements and whichever statements fail, the guards of the UPDATEs keep leases
    exclusive and finished jobs finished; the histories they do not keep. *)

From S2P Require Import Prelude GoLib Domain Interfaces Store Queue QueueProps.
From S2P Require Import Sqlite.
Local Open Scope Z_scope.

(** ** Methods with nobody interfering *)

(** A row changes and its change is recorded. *)
Definition move_row (id : string) (row : job_row) (tr : transition_row) (db : SQLiteStore) :
    SQLiteStore :=
  db <| tbl_run_queue := <[id := row]> (tbl_run_queue db) |>
     <| tbl_transitions := tbl_transitions db ++ [tr] |>.

Lemma transition_job_quiet id guard set_ rejected to reason actor now db :
  transition_job quiet_env id guard set_ rejected to reason actor now db =
  match tbl_run_queue db !! id with
  | None => (Err "run job not found", db)
  | Some row =>
      if guard row then
        (Ok tt, move_row id (set_ row)
                  (mkTransitionRow id (r_status row) to reason actor (UnixNano now)) db)
      else (Err rejected, db)
  end.
Proof.
  unfold transition_job, sql_GetRunJob, update_job, sql_appendTransition, quiet_env. simpl.
  destruct (tbl_run_queue db !! id) as [row|] eqn:Hr; simpl; [|done].
  destruct (guard row); simpl; [|done]. by rewrite lookup_insert_eq.
Qed.

Lemma sql_GetRunJob_quiet id db :
  sql_GetRunJob quiet_env id db =
  match tbl_run_queue db !! id with
  | None => Err "run job not found"
  | Some row => Ok (scanRunJob (id, row))
  end.
Proof. done. Qed.
Lemma move_row_get id row tr db :
  sql_GetRunJob quiet_env id (move_row id row tr db) = Ok (scanRunJob (id, row)).
Proof. rewrite sql_GetRunJob_quiet. simpl. by rewrite lookup_insert_eq. Qed.
Lemma move_row_get_other id id' row tr db :
  id' ≠ id → sql_GetRunJob quiet_env id' (move_row id row tr db) = sql_GetRunJob quiet_env id' db.
Proof. intros Hne. rewrite !sql_GetRunJob_quiet. simpl. by rewrite lookup_insert_ne. Qed.

(** The row as it is leased. *)
Definition leased_row (clk : clock) (w : string) (d : duration) (row : job_row) : job_row :=
  row <| r_status := RunJobStatusLeased |> <| r_lease_owner := w |>
      <| r_lease_until := UnixNano (time_Add (clk 1%nat) d) |>
      <| r_attempts := wrap64 (r_attempts row + 1) |> <| r_updated_at := UnixNano (clk 2%nat) |>.

Lemma created_row_less_asym a b : created_row_less a b = true → created_row_less b a = false.
Proof. unfold created_row_less. rewrite Z.ltb_lt, Z.ltb_ge. lia. Qed.
Lemma created_row_le_trans a b c :
  sorted_le created_row_less a b → sorted_le created_row_less b c → sorted_le created_row_less a c.
Proof. unfold sorted_le, created_row_less. rewrite !Z.ltb_ge. lia. Qed.
Lemma elem_of_rows_where ord p db id row :
  (id, row) ∈ rows_where ord p db ↔ tbl_run_queue db !! id = Some row ∧ p row = true.
Proof. unfold rows_where. rewrite list_elem_of_filter, elem_of_iter. simpl. tauto. Qed.

(** The row that [LeaseNextRunJob] selects. *)
Lemma lease_select ord now db :
  match sort_slice created_row_less (rows_where ord (leasable_row now) db) with
  | [] => ∀ id row, tbl_run_queue db !! id = Some row → leasable_row now row = false
  | (id, row) :: _ => tbl_run_queue db !! id = Some row ∧ leasable_row now row = true ∧
      ∀ id' row', tbl_run_queue db !! id' = Some row' → leasable_row now row' = true →
        r_created_at row ≤ r_created_at row'
  end.
Proof.
  destruct (sort_slice _ _) as [|[id row] l] eqn:Hs.
  - intros id row Hr. apply not_true_is_false. intros Hl.
    assert (Hin : (id, row) ∈ rows_where ord (leasable_row now) db) by by apply elem_of_rows_where.
    apply (elem_of_sort_slice created_row_less) in Hin. rewrite Hs in Hin.
    by apply elem_of_nil in Hin.
  - apply (sort_slice_head _ created_row_less_asym created_row_le_trans) in Hs as [Hin Hmin].
    apply elem_of_rows_where in Hin as [Hr Hl]. split; [done|]. split; [done|].
    intros id' row' Hr' Hl'.
    assert (Hin' : (id', row') ∈ rows_where ord (leasable_row now) db)
      by by apply elem_of_rows_where.
    apply Hmin in Hin'. by apply Z.ltb_ge in Hin'.
Qed.

Lemma leasable_free now row : leasable_row now row = true → free_row now row = true.
Proof. unfold leasable_row. by intros [? _]%andb_true_iff. Qed.

Lemma sql_LeaseNextRunJob_quiet ord clk w d db :
  sql_LeaseNextRunJob quiet_env ord clk w d db =
  match sort_slice created_row_less (rows_where ord (leasable_row (UnixNano (clk 0%nat))) db) with
  | [] => (Err "no run job available", db)
  | (id, row) :: _ =>
      (Ok (scanRunJob (id, leased_row clk w d row)),
       move_row id (leased_row clk w d row)
         (mkTransitionRow id (r_status row) RunJobStatusLeased "leased" w (UnixNano (clk 3%nat))) db)
  end.
Proof.
  unfold sql_LeaseNextRunJob. simpl. pose proof (lease_select ord (UnixNano (clk 0%nat)) db) as Hsel.
  destruct (sort_slice _ _) as [|[id row] l]; [done|]. destruct Hsel as (Hr & Hl & _).
  unfold update_job. simpl. rewrite Hr, (leasable_free _ _ Hl). simpl.
  unfold sql_appendTransition. simpl. by rewrite lookup_insert_eq.
Qed.

(** ** SQLite as a run queue *)

#[export] Instance SQLite_queue : RunQueue SQLiteStore := {|
  EnqueueRunJob := sql_EnqueueRunJob quiet_env;
  GetRunJob := sql_GetRunJob quiet_env;
  LeaseNextRunJob := sql_LeaseNextRunJob quiet_env;
  ExtendRunJobLease := sql_ExtendRunJobLease quiet_env;
  CompleteRunJob := sql_CompleteRunJob quiet_env;
  CancelRunJob := sql_CancelRunJob quiet_env;
  RetryRunJob := sql_RetryRunJob quiet_env;
  FailRunJob := sql_FailRunJob quiet_env;
  DeadLetterRunJob := sql_DeadLetterRunJob quiet_env;
  RequeueRunJob := sql_RequeueRunJob quiet_env;
|}.

#[export] Instance SQLite_queue_listing (sc : scan_order) : RunQueueListing SQLiteStore := {|
  GetRunJobByRequest := sql_GetRunJobByRequest quiet_env;
  ListRunJobsFiltered ord st w rq a b l o db :=
    Some (sql_ListRunJobsFiltered quiet_env ord st w rq a b l o db);
  CountRunJobsFiltered := sql_CountRunJobsFiltered quiet_env;
  ListRunJobsByRun ord id l o db := Some (sql_ListRunJobsByRun quiet_env ord id l o db);
  CountRunJobsByStatus := sql_CountRunJobsByStatus quiet_env;
  PurgeRunJobs := sql_PurgeRunJobs quiet_env;
  ListRunJobTransitionsFiltered id to actor a b l o db :=
    Some (sql_ListRunJobTransitionsFiltered quiet_env sc id to actor a b l o db);
  CountRunJobTransitionsFiltered := sql_CountRunJobTransitionsFiltered quiet_env;
|}.

Ltac solve_row_ends_lease op :=
  intros q r q'; simpl; unfold op; rewrite transition_job_quiet; unfold sql_GetRunJob at 1;
  simpl; destruct (tbl_run_queue q !! _) as [row|] eqn:Hr; [|intros [= <- <-]; by eauto];
  unfold row_leased; simpl; case_bool_decide; [|intros [= <- <-]; by eauto];
  intros [= <- <-]; split; [reflexivity|]; split;
  [eexists; split; [apply move_row_get|by repeat split]
  |intros id' Hne; by apply move_row_get_other].

#[export] Instance SQLite_queue_laws : RunQueueLaws SQLiteStore.
Proof.
  split.
  - intros ord clk w d q job q'. simpl. rewrite sql_LeaseNextRunJob_quiet.
    destruct (sort_slice _ _) as [|[id row] l]; [done|]. intros [= <- <-].
    split; [|done]. apply move_row_get.
  - intros clk id. solve_row_ends_lease sql_CompleteRunJob.
  - intros clk id d e. solve_row_ends_lease sql_RetryRunJob.
  - intros clk id e. solve_row_ends_lease sql_FailRunJob.
  - intros clk id e. solve_row_ends_lease sql_DeadLetterRunJob.
  - intros clk id e q r q' job. simpl. unfold sql_CancelRunJob. rewrite transition_job_quiet.
    rewrite sql_GetRunJob_quiet. destruct (tbl_run_queue q !! id) as [row|] eqn:Hr; [|done].
    intros Hc [= <-] Hcan. unfold cancellable in Hcan. apply bool_decide_eq_true in Hcan.
    simpl in Hcan. revert Hc. case_bool_decide as Hg; intros [= <- <-].
    + split; [eexists; split; [apply move_row_get|done]|].
      intros id' Hne. by apply move_row_get_other.
    + split; [|done]. eexists. rewrite sql_GetRunJob_quiet, Hr. split; [done|]. simpl. set_solver.
  - intros clk id w d q r q' job. simpl. unfold sql_ExtendRunJobLease, update_job.
    rewrite sql_GetRunJob_quiet. simpl.
    destruct (tbl_run_queue q !! id) as [row|] eqn:Hr; [|done]. intros He [= <-]. revert He.
    destruct (_ && _); intros [= <- <-]; rewrite sql_GetRunJob_quiet; simpl.
    + rewrite lookup_insert_eq. by eexists.
    + rewrite Hr. by eexists.
Qed.

(** ** SQLite as a workflow store *)

Section codec.
Context (MarshalWorkflow : Workflow → result string) (UnmarshalWorkflow : string → result Workflow).
Context (MarshalRun : Run → result string) (UnmarshalRun : string → result Run).
Context (clk : clock).
(** What [json.Marshal] writes, [json.Unmarshal] reads back. *)
Hypothesis decode_workflow : ∀ w s, MarshalWorkflow w = Ok s → UnmarshalWorkflow s = Ok w.
Hypothesis decode_run : ∀ r s, MarshalRun r = Ok s → UnmarshalRun s = Ok r.

Definition SQLite_store : WorkflowStore SQLiteStore := {|
  SaveWorkflow := sql_SaveWorkflow MarshalWorkflow quiet_env clk;
  GetWorkflow := sql_GetWorkflow UnmarshalWorkflow quiet_env;
  SaveRun := sql_SaveRun MarshalRun quiet_env clk;
  GetRun := sql_GetRun UnmarshalRun quiet_env;
|}.

Definition SQLite_store_listing : WorkflowStoreListing SQLiteStore := {|
  ListWorkflows := sql_ListWorkflows UnmarshalWorkflow quiet_env;
  ListRunsFiltered ord w st rq a b desc l o db :=
    Some (sql_ListRunsFiltered UnmarshalRun quiet_env ord w st rq a b desc l o db);
  CountRunsFiltered := sql_CountRunsFiltered UnmarshalRun quiet_env;
|}.

Lemma SQLite_store_laws : @WorkflowStoreLaws SQLiteStore SQLite_store.
Proof using decode_workflow decode_run.
  split; simpl.
  - intros run s s' id. unfold sql_SaveRun, sql_GetRun. simpl.
    destruct (MarshalRun run) as [p|e] eqn:Hm; [|done]. intros [= <-]. simpl.
    destruct (decide (id = run_ID run)) as [->|Hne].
    + rewrite lookup_insert_eq. by apply decode_run.
    + by rewrite lookup_insert_ne.
  - intros run s s' r id. unfold sql_SaveRun, sql_GetRun. simpl.
    destruct (MarshalRun run) as [p|e] eqn:Hm; intros [= <- <-] Hne; simpl; [|done].
    by rewrite lookup_insert_ne.
  - intros run s s' r id. unfold sql_SaveRun, sql_GetWorkflow. simpl.
    by destruct (MarshalRun run); intros [= <- <-].
  - intros w s s' id. unfold sql_SaveWorkflow, sql_GetWorkflow. simpl.
    destruct (MarshalWorkflow w) as [p|e] eqn:Hm; [|done]. intros [= <-]. simpl.
    destruct (decide (id = wf_ID w)) as [->|Hne].
    + rewrite lookup_insert_eq. by apply decode_workflow.
    + by rewrite lookup_insert_ne.
  - intros w s s' r id. unfold sql_SaveWorkflow, sql_GetWorkflow. simpl.
    destruct (MarshalWorkflow w) as [p|e] eqn:Hm; intros [= _ <-]; [simpl|by left].
    destruct (decide (id = wf_ID w)) as [->|Hne].
    + rewrite lookup_insert_eq. right. by apply decode_workflow.
    + rewrite lookup_insert_ne by done. by left.
  - intros w s s' r id. unfold sql_SaveWorkflow, sql_GetRun. simpl.
    by destruct (MarshalWorkflow w); intros [= <- <-].
Qed.
End codec.

(** ** Between the statements of others

    [named id]: somebody may settle, extend or cancel job [id]; [purged id]: somebody may
    delete it; [T]: the latest moment at which anybody leases. *)

(** One guarded UPDATE of a named job. *)
Inductive row_move (row row' : job_row) : Prop :=
| row_moved : lifecycle (r_status row) (r_status row') → row_move row row'
| row_touched : r_status row = RunJobStatusLeased → r_status row' = RunJobStatusLeased →
    r_lease_owner row' = r_lease_owner row → r_attempts row' = r_attempts row → row_move row row'.

Inductive db_step (T : Z) (named purged : string → Prop) (db : SQLiteStore) : SQLiteStore → Prop :=
| step_insert id row : tbl_run_queue db !! id = None → r_status row = RunJobStatusQueued →
    db_step T named purged db (db <| tbl_run_queue := <[id := row]> (tbl_run_queue db) |>)
| step_lease id row row' now : tbl_run_queue db !! id = Some row → now ≤ T →
    free_row now row = true → r_status row' = RunJobStatusLeased →
    db_step T named purged db (db <| tbl_run_queue := <[id := row']> (tbl_run_queue db) |>)
| step_named id row row' : tbl_run_queue db !! id = Some row → named id → row_move row row' →
    db_step T named purged db (db <| tbl_run_queue := <[id := row']> (tbl_run_queue db) |>)
| step_delete id : purged id → db_step T named purged db (delete_row id db).2
| step_append tr :
    db_step T named purged db (db <| tbl_transitions := tbl_transitions db ++ [tr] |>)
| step_meta workflows runs :
    db_step T named purged db (db <| tbl_workflows := workflows |> <| tbl_runs := runs |>).

(** Others only do such steps. *)
Definition rely (T : Z) (named purged : string → Prop) (env : sql_env) : Prop :=
  ∀ k db, rtc (db_step T named purged) db (se_other env k db).

(** The methods of the queue, under the names of their counterparts. *)
Definition sql_apply (env : sql_env) (op : queue_op) (db : SQLiteStore) : SQLiteStore :=
  match op with
  | OpEnqueue clk job => (sql_EnqueueRunJob env clk job db).2
  | OpLease ord clk w d => (sql_LeaseNextRunJob env ord clk w d db).2
  | OpExtend clk id w d => (sql_ExtendRunJobLease env clk id w d db).2
  | OpComplete clk id => (sql_CompleteRunJob env clk id db).2
  | OpCancel clk id e => (sql_CancelRunJob env clk id e db).2
  | OpRetry clk id d e => (sql_RetryRunJob env clk id d e db).2
  | OpFail clk id e => (sql_FailRunJob env clk id e db).2
  | OpDeadLetter clk id e => (sql_DeadLetterRunJob env clk id e db).2
  | OpRequeue clk id d b e => (sql_RequeueRunJob env clk id d b e db).2
  | OpPurge ord clk s d l => (sql_PurgeRunJobs env ord clk s d l db).2
  end.

(** An operation of the program but a purge: leases not after [T], and named jobs. *)
Definition op_allowed (T : Z) (named : string → Prop) (op : queue_op) : Prop :=
  op_ok op ∧ is_purge op = false ∧
  (∀ id, op_job op = Some id → named id) ∧
  match op with OpLease _ clk _ _ => UnixNano (clk 0%nat) ≤ T | _ => True end.

Section steps.
Context (T : Z) (named purged : string → Prop) (env : sql_env) (Hrely : rely T named purged env).
Abbreviation steps := (rtc (db_step T named purged)).

Lemma appendTransition_steps k now id from to reason actor db :
  steps db (sql_appendTransition env k now id from to reason actor db).2.
Proof using Hrely.
  unfold sql_appendTransition. cbv zeta. etrans; [apply (Hrely k)|].
  destruct (se_err env k); [done|]. destruct (tbl_run_queue _ !! id); [|done].
  apply rtc_once, step_append.
Qed.
Lemma update_job_steps env' k id guard set_ db :
  rely T named purged env' →
  (∀ row, guard row = true → named id ∧ row_move row (set_ row)) →
  steps db (update_job env' k id guard set_ db).2.
Proof.
  intros Hr Hg. unfold update_job. cbv zeta. etrans; [apply (Hr k)|].
  destruct (se_err env' k); [done|]. destruct (tbl_run_queue _ !! id) as [row|] eqn:Hrow; [|done].
  destruct (guard row) eqn:Hgr; [|done]. destruct (Hg row Hgr). simpl.
  by apply rtc_once, (step_named _ _ _ _ id row).
Qed.
Lemma transition_job_steps id guard set_ rejected to reason actor now db :
  named id → (∀ row, guard row = true → lifecycle (r_status row) (r_status (set_ row))) →
  steps db (transition_job env id guard set_ rejected to reason actor now db).2.
Proof using Hrely.
  intros Hn Hg. unfold transition_job. cbv zeta. etrans; [apply (Hrely 0%nat)|].
  destruct (sql_GetRunJob _ _ _); [|done].
  match goal with |- context [update_job env 1 id guard set_ ?db0] =>
    pose proof (update_job_steps env 1 id guard set_ db0 Hrely) as Hu end.
  destruct (update_job _ _ _ _ _ _) as [[[]|] db']; simpl in Hu; simpl.
  - etrans; [apply Hu|apply appendTransition_steps].
    intros row Hr. split; [done|]. by apply row_moved, Hg.
  - apply Hu. intros row Hr. split; [done|]. by apply row_moved, Hg.
  - apply Hu. intros row Hr. split; [done|]. by apply row_moved, Hg.
Qed.
End steps.

(** Whatever the others and the driver do, a method does only such steps itself. *)
Lemma lease_steps T named purged env ord clk w d db :
  rely T named purged env → UnixNano (clk 0%nat) ≤ T →
  rtc (db_step T named purged) db (sql_LeaseNextRunJob env ord clk w d db).2.
Proof.
  intros Hr HT. unfold sql_LeaseNextRunJob. cbv zeta. etrans; [apply (Hr 0%nat)|].
  generalize (se_other env 0%nat db). clear db. intros db.
  destruct (se_err env 0%nat); [done|]. destruct (se_err env 1%nat); [done|].
  pose proof (lease_select ord (UnixNano (clk 0%nat)) db) as Hsel.
  destruct (sort_slice _ _) as [|[id row] l]; [done|]. destruct Hsel as (Hrow & Hl & _).
  apply leasable_free in Hl. unfold update_job. simpl.
  destruct (se_err env 2%nat); [done|]. rewrite Hrow, Hl. destruct (se_err env 3%nat); [done|].
  match goal with |- context [sql_appendTransition env 4 ?now id ?from ?to ?r w ?db'] =>
    pose proof (appendTransition_steps T named purged env Hr 4 now id from to r w db') as Ha;
    destruct (sql_appendTransition env 4 now id from to r w db') as [[?|?] db2] end;
  simpl in *; (etrans; [|exact Ha]); apply rtc_once;
  by eapply (step_lease _ _ _ _ id row).
Qed.
Lemma enqueue_steps T named purged env clk job db :
  rely T named purged env → op_ok (OpEnqueue clk job) →
  rtc (db_step T named purged) db (sql_EnqueueRunJob env clk job db).2.
Proof.
  intros Hr (Hs & _). unfold sql_EnqueueRunJob. cbv zeta. destruct (bool_decide _); [done|].
  etrans; [apply (Hr 0%nat)|]. generalize (se_other env 0%nat db). clear db. intros db.
  destruct (se_err env 0%nat); [done|].
  etrans; [|by apply appendTransition_steps].
  match goal with |- context [row_of_job ?j] => set (job' := j) end.
  destruct (tbl_run_queue db !! job_ID job') eqn:Hj; [done|].
  apply rtc_once, step_insert; [done|]. simpl. unfold job'.
  repeat match goal with |- context [if ?b then _ else _] => destruct b eqn:? end; simpl;
    reflect_Z; tauto.
Qed.
Lemma row_leased_spec r : row_leased r = true → r_status r = RunJobStatusLeased.
Proof. apply bool_decide_eq_true. Qed.
Lemma sql_apply_steps T named purged env op db :
  rely T named purged env → op_allowed T named op → rtc (db_step T named purged) db (sql_apply env op db).
Proof.
  intros Hr (Hok & Hp & Hn & HT).
  destruct op as [clk job|ord clk w d|clk id w d|clk id|clk id e|clk id d e|clk id e|clk id e
    |clk id d b e|ord clk s d l]; try discriminate Hp; simpl in *.
  all: try (specialize (Hn id eq_refl)).
  - by apply enqueue_steps with (clk := clk).
  - by apply lease_steps.
  - unfold sql_ExtendRunJobLease. cbv zeta.
    match goal with |- context [update_job env 0 id ?g ?s db] =>
      pose proof (update_job_steps T named purged env 0 id g s db Hr) as Hu;
      destruct (update_job env 0 id g s db) as [[[]|] db'] end; apply Hu;
    (intros row [Hl _]%andb_true_iff; split; [done|]; apply bool_decide_eq_true in Hl;
     by apply row_touched).
  - apply transition_job_steps; [done..|]. intros row ->%row_leased_spec. constructor.
  - apply transition_job_steps; [done..|]. intros row Hg%bool_decide_eq_true. simpl.
    apply life_cancel; intros Hs; rewrite Hs in Hg; vm_compute in Hg; set_solver.
  - apply transition_job_steps; [done..|]. intros row ->%row_leased_spec. constructor.
  - apply transition_job_steps; [done..|]. intros row ->%row_leased_spec. constructor.
  - apply transition_job_steps; [done..|]. intros row ->%row_leased_spec. constructor.
  - apply transition_job_steps; [done..|]. intros row Hg%bool_decide_eq_true. simpl.
    apply life_requeue. set_solver.
Qed.

(** A sequence of methods, each among the statements of others. *)
Definition sql_run (calls : list (sql_env * queue_op)) (db : SQLiteStore) : SQLiteStore :=
  foldl (λ db c, sql_apply c.1 c.2 db) db calls.
Definition call_allowed (T : Z) (named purged : string → Prop) (c : sql_env * queue_op) : Prop :=
  rely T named purged c.1 ∧ op_allowed T named c.2.
Lemma sql_run_steps T named purged calls db :
  Forall (call_allowed T named purged) calls → rtc (db_step T named purged) db (sql_run calls db).
Proof.
  intros Hc. revert db. induction Hc as [|c calls [Hr Ho] _ IH]; intros db; [done|].
  simpl. etrans; [by apply sql_apply_steps|apply IH].
Qed.

(** A row that no step may change stays. *)
Lemma steps_keep T named purged (P : job_row → Prop) id row db db' :
  P row →
  (∀ now, now ≤ T → P row → free_row now row = false) →
  (named id → P row → ∀ row', ¬ row_move row row') → ¬ purged id →
  rtc (db_step T named purged) db db' → tbl_run_queue db !! id = Some row →
  tbl_run_queue db' !! id = Some row.
Proof.
  intros HP Hfree Hmove Hdel. induction 1 as [|db1 db2 db3 Hstep _ IH]; [done|]. intros Hrow.
  apply IH. destruct Hstep as [i r Hn _|i r r' now Hr Hnow Hf _|i r r' Hr Hnm Hm|i Hi|tr|ws rs];
    simpl; try done.
  - rewrite lookup_insert_ne; [done|congruence].
  - rewrite lookup_insert_ne; [done|]. intros ->. simplify_eq. by rewrite Hfree in Hf.
  - rewrite lookup_insert_ne; [done|]. intros ->. simplify_eq. by destruct (Hmove Hnm HP r').
  - unfold delete_row. destruct (tbl_run_queue db1 !! i); [|done]. simpl.
    rewrite lookup_delete_ne; [done|]. by intros ->.
Qed.

(** A purge keeps the jobs that it does not select, whatever others delete meanwhile. *)
Lemma delete_rows_keep err k ids deleted id row db r db' :
  id ∉ ids → delete_rows err k ids deleted db = (r, db') →
  tbl_run_queue db !! id = Some row → tbl_run_queue db' !! id = Some row.
Proof.
  revert k deleted db. induction ids as [|i ids IH]; intros k deleted db Hid Hd Hrow; simpl in Hd.
  { by injection Hd as <- <-. }
  apply not_elem_of_cons in Hid as [Hne Hid]. destruct (err k); [by injection Hd as <- <-|].
  unfold delete_row in Hd. destruct (tbl_run_queue db !! i); apply (IH _ _ _ Hid Hd); [|done].
  simpl. by rewrite lookup_delete_ne.
Qed.
Lemma purge_selects ord clk status olderThan limit db id :
  id ∈ sql_purge_select ord clk status olderThan limit db →
  ∃ row, tbl_run_queue db !! id = Some row ∧ (status = "" ∨ r_status row = status).
Proof.
  unfold sql_purge_select. cbv zeta. intros ([i row] & -> & Hin)%list_elem_of_fmap.
  apply elem_of_take in Hin as (j & Hj%list_elem_of_lookup_2 & _).
  rewrite elem_of_sort_slice in Hj. unfold rows_where in Hj.
  apply list_elem_of_filter in Hj as [Hp Hj].
  exists row. split; [by apply elem_of_iter in Hj|].
  apply andb_true_iff in Hp as [Hp _]. apply orb_true_iff in Hp as [Hp|Hp];
    apply bool_decide_eq_true in Hp; auto.
Qed.
Lemma purge_keeps env ord clk status olderThan limit db id row :
  (∀ k db, tbl_run_queue db !! id = Some row → tbl_run_queue (se_other env k db) !! id = Some row) →
  status ≠ "" → status ≠ r_status row → tbl_run_queue db !! id = Some row →
  tbl_run_queue (sql_PurgeRunJobs env ord clk status olderThan limit db).2 !! id = Some row.
Proof.
  intros Hothers Hne Hst Hrow. unfold sql_PurgeRunJobs. cbv zeta. apply (Hothers 0%nat) in Hrow.
  generalize dependent (se_other env 0%nat db). clear db. intros db Hrow.
  destruct (se_err env 0%nat); [done|].
  destruct (Nat.eqb _ 0); [done|]. apply (Hothers 1%nat) in Hrow as Hrow1.
  destruct (se_err env 1%nat); [done|].
  destruct (delete_rows _ _ _ _ _) as [r db'] eqn:Hd.
  assert (Hnot : id ∉ fetched env 0 (sql_purge_select ord clk status olderThan limit db)).
  { intros Hin. assert (Hin' : id ∈ sql_purge_select ord clk status olderThan limit db).
    { unfold fetched in Hin. destruct (se_cut env 0); [|done].
      by apply elem_of_take in Hin as (i & Hi%list_elem_of_lookup_2 & _). }
    apply purge_selects in Hin' as (row' & Hrow' & Hs). simplify_eq. by destruct Hs. }
  pose proof (delete_rows_keep _ _ _ _ _ _ _ _ _ Hnot Hd Hrow1) as Hkept.
  destruct r; [|done]. by destruct (se_err env 2%nat).
Qed.

Lemma lease_committed T named purged env ord clk w d job db db1 :
  rely T named purged env → sql_LeaseNextRunJob env ord clk w d db = (Ok job, db1) →
  ∃ db' row, tbl_run_queue db' !! job_ID job = Some row ∧ scanRunJob (job_ID job, row) = job ∧
    r_status row = RunJobStatusLeased ∧ r_lease_owner row = w ∧
    r_lease_until row = UnixNano (time_Add (clk 1%nat) d) ∧ rtc (db_step T named purged) db' db1.
Proof.
  intros Hr. unfold sql_LeaseNextRunJob. cbv zeta. generalize (se_other env 0%nat db). clear db.
  intros db. destruct (se_err env 0%nat); [done|]. destruct (se_err env 1%nat); [done|].
  pose proof (lease_select ord (UnixNano (clk 0%nat)) db) as Hsel.
  destruct (sort_slice _ _) as [|[id row] l]; [done|]. destruct Hsel as (Hrow & Hl & _).
  apply leasable_free in Hl. unfold update_job. simpl.
  destruct (se_err env 2%nat); [done|]. rewrite Hrow, Hl. destruct (se_err env 3%nat); [done|].
  match goal with |- context [sql_appendTransition env 4 ?now id ?from ?to ?r w ?db'] =>
    pose proof (appendTransition_steps T named purged env Hr 4 now id from to r w db') as Ha;
    destruct (sql_appendTransition env 4 now id from to r w db') as [[?|?] db2] eqn:He end;
  [|done]. intros [= <- <-]. simpl in *.
  match type of Ha with rtc _ ?d _ => exists d end. simpl.
  exists (leased_row clk w d row). split; [apply lookup_insert_eq|].
  split_and!; [reflexivity..|exact Ha].
Qed.

(** Three jobs, the first cancelled; and the workers w1 and w2. *)
Module SqlSample.
Definition t0 : time := unix_epoch.
Definition at_ (n : Z) : clock := λ k, t0 + n + Z.of_nat k.
Definition jobs : list (sql_env * queue_op) :=
  [(quiet_env, OpEnqueue (at_ 10) (QueueSample.job "j1"));
   (quiet_env, OpEnqueue (at_ 20) (QueueSample.job "j2"));
   (quiet_env, OpEnqueue (at_ 30) (QueueSample.job "j3"));
   (quiet_env, OpCancel (at_ 40) "j1" "stop")].
Definition db : SQLiteStore := sql_run jobs empty_db.
(** w2 asks for a job before every statement of w1. *)
Definition busy : sql_env :=
  mkSqlEnv (λ _, None) (λ k, sql_apply quiet_env (OpLease canonical_order (at_ 150) "w2" 500))
    (λ _, None).
Lemma rely_quiet T named purged : rely T named purged quiet_env.
Proof. intros k d. apply rtc_refl. Qed.
Lemma rely_busy T named purged : 150 ≤ T → rely T named purged busy.
Proof.
  intros HT k d. apply sql_apply_steps; [apply rely_quiet|]. split; [done|]. split; [done|].
  split; [done|]. transitivity 150; [|done]. vm_compute. discriminate.
Qed.
End SqlSample.

(** A call, purges of a status other than LEASED included. *)
Definition call_or_purge (T : Z) (named purged : string → Prop) (c : sql_env * queue_op) : Prop :=
  rely T named purged c.1 ∧
  match c.2 with
  | OpPurge _ _ status _ _ => status ≠ "" ∧ status ≠ RunJobStatusLeased
  | op => op_allowed T named op
  end.
Lemma call_keeps_lease T named purged c db id row :
  r_status row = RunJobStatusLeased → (∀ now, now ≤ T → free_row now row = false) →
  ¬ named id → ¬ purged id → call_or_purge T named purged c →
  tbl_run_queue db !! id = Some row → tbl_run_queue (sql_apply c.1 c.2 db) !! id = Some row.
Proof.
  intros Hs Hfree Hn Hp [Hr Hop] Hrow.
  assert (Hkeep : ∀ db1 db2, rtc (db_step T named purged) db1 db2 →
    tbl_run_queue db1 !! id = Some row → tbl_run_queue db2 !! id = Some row).
  { intros db1 db2 Hsteps. apply (steps_keep T named purged (λ r, r = row)); auto. }
  destruct (is_purge c.2) eqn:Hip.
  - destruct c as [env []]; try discriminate Hip. simpl in *. destruct Hop as [Hne Hnl].
    apply purge_keeps; [|done|by rewrite Hs|done]. intros k db'. apply Hkeep, Hr.
  - apply (Hkeep db); [|done]. apply sql_apply_steps; [done|]. by destruct c as [env []].
Qed.

(** C24. Leases are exclusive across processes.  A job that [LeaseNextRunJob] of the SQLite
    store hands out stays exactly as handed out until its lease runs out or somebody
    settles, extends or cancels it, whatever methods other processes run - they may enqueue,
    lease, settle and requeue other jobs, and purge the jobs of any one status other than
    LEASED -, between the statements of these too, and whichever statements fail.  Excluded
    are purges that may delete the job: one of all statuses or of LEASED, and one that
    selected the job before it was leased. *)
Theorem sqlite_lease_exclusive T named purged env ord clk w d job db db1 calls :
  rely T named purged env → T ≤ UnixNano (time_Add (clk 1%nat) d) →
  ¬ named (job_ID job) → ¬ purged (job_ID job) →
  sql_LeaseNextRunJob env ord clk w d db = (Ok job, db1) →
  Forall (call_or_purge T named purged) calls →
  job_Status job = RunJobStatusLeased ∧ job_LeaseOwner job = w ∧
  sql_GetRunJob quiet_env (job_ID job) (sql_run calls db1) = Ok job.
Proof.
  intros Hr HT Hn Hp Hl Hc.
  destruct (lease_committed T named purged _ _ _ _ _ _ _ _ Hr Hl)
    as (db' & row & Hrow & Hscan & Hs & Hw & Hu & Hsteps).
  split; [by rewrite <-Hscan|]. split; [by rewrite <-Hscan|].
  assert (Hfree : ∀ now, now ≤ T → free_row now row = false).
  { intros now Hnow. unfold free_row. rewrite Hs, Hu, (proj2 (Z.ltb_ge _ _)) by lia. reflexivity. }
  assert (Hrow1 : tbl_run_queue db1 !! job_ID job = Some row)
    by (apply (steps_keep T named purged (λ r, r = row) _ _ db'); auto; done).
  rewrite sql_GetRunJob_quiet.
  enough (tbl_run_queue (sql_run calls db1) !! job_ID job = Some row) as -> by (by rewrite Hscan).
  clear Hl Hsteps. revert db1 Hrow1. induction Hc as [|c calls Hc _ IH]; intros db1 Hrow1; [done|].
  simpl. apply IH. by apply (call_keeps_lease T named purged).
Qed.
(** Another process completes, leases and purges jobs meanwhile. *)
Lemma sqlite_lease_exclusive_witness :
  let r := sql_LeaseNextRunJob SqlSample.busy canonical_order (SqlSample.at_ 100) "w1" 100
             SqlSample.db in
  let others := [(SqlSample.busy, OpComplete (SqlSample.at_ 160) "j2");
                 (SqlSample.busy, OpPurge canonical_order (SqlSample.at_ 170) "CANCELLED" 0 10);
                 (SqlSample.busy, OpLease canonical_order (SqlSample.at_ 190) "w2" 100)] in
  ∃ job, r.1 = Ok job ∧ job_ID job = "j3" ∧ job_LeaseOwner job = "w1" ∧
    sql_GetRunJob quiet_env "j3" (sql_run others r.2) = Ok job ∧
    sql_GetRunJob quiet_env "j1" (sql_run others r.2) = Err "run job not found".
Proof.
  intros r others. destruct r as [[job|e] db1] eqn:Hr; [|vm_compute in Hr; discriminate Hr].
  assert (Hid : job_ID job = "j3")
    by (vm_compute in Hr; injection Hr as <- _; vm_compute; reflexivity).
  exists job. split; [reflexivity|]. split; [exact Hid|].
  destruct (sqlite_lease_exclusive 200 (λ id, id = "j2") (λ _, False) SqlSample.busy canonical_order
    (SqlSample.at_ 100) "w1" 100 job SqlSample.db db1 others) as (_ & Hw & Hg).
  - apply SqlSample.rely_busy. discriminate.
  - vm_compute. discriminate.
  - rewrite Hid. discriminate.
  - exact (λ x, x).
  - exact Hr.
  - repeat constructor; try (apply SqlSample.rely_busy; discriminate); simpl.
    + intros id [= <-]. reflexivity.
    + discriminate.
    + discriminate.
    + discriminate.
    + vm_compute. discriminate.
  - split; [exact Hw|]. rewrite Hid in Hg. split; [exact Hg|].
    vm_compute in Hr. injection Hr as <- <-. vm_compute. reflexivity.
Defined.

(** Finished is finished, across processes: no method of the SQLite store but a
    purge changes a job that has succeeded or was cancelled, whatever other processes
    do between its statements and whichever statements fail. *)
Theorem sqlite_final_job_unchanged T named purged calls db id row :
  Forall (call_allowed T named purged) calls → ¬ purged id →
  tbl_run_queue db !! id = Some row →
  r_status row = RunJobStatusSucceeded ∨ r_status row = RunJobStatusCancelled →
  tbl_run_queue (sql_run calls db) !! id = Some row.
Proof.
  intros Hc Hp Hrow Hf. apply (steps_keep T named purged (λ r, r = row) id row db); [done| | |done| |done].
  - intros now _ _. unfold free_row. destruct Hf as [-> | ->]; reflexivity.
  - intros _ _ row' [Hl|Hs _ _ _]; [by apply (lifecycle_final _ _ Hf) in Hl|].
    destruct Hf as [Hf|Hf]; rewrite Hf in Hs; discriminate Hs.
  - by apply sql_run_steps.
Qed.
Lemma sqlite_final_job_unchanged_witness :
  let late := [(SqlSample.busy, OpComplete (SqlSample.at_ 200) "j1");
               (SqlSample.busy, OpRequeue (SqlSample.at_ 201) "j1" 0 "me" "again");
               (SqlSample.busy, OpLease canonical_order (SqlSample.at_ 300) "w3" 100)] in
  ∃ row, tbl_run_queue SqlSample.db !! "j1" = Some row ∧ r_status row = RunJobStatusCancelled ∧
    tbl_run_queue (sql_run late SqlSample.db) !! "j1" = Some row.
Proof.
  intros late.
  destruct (tbl_run_queue SqlSample.db !! "j1") as [row|] eqn:Hrow;
    [|vm_compute in Hrow; discriminate Hrow].
  assert (Hs : r_status row = RunJobStatusCancelled)
    by (vm_compute in Hrow; injection Hrow as <-; vm_compute; reflexivity).
  exists row. split; [reflexivity|]. split; [exact Hs|].
  apply (sqlite_final_job_unchanged 1000 (λ _, True) (λ _, False)).
  - repeat constructor; try (apply SqlSample.rely_busy; discriminate); simpl; try discriminate.
  - exact (λ x, x).
  - exact Hrow.
  - right. exact Hs.
Defined.

(** ** What the guards do not protect *)

Definition row_statuses (id : string) (db : SQLiteStore) : list (string * string) :=
  (λ t, (t_from_status t, t_to_status t)) <$> filter (λ t, t_job_id t = id) (tbl_transitions db).

(** A job is cancelled while another process leases it, between the SELECT and the
    UPDATE: both succeed, and the history says that the job went from QUEUED to
    LEASED and then from QUEUED to CANCELLED. *)
Theorem stale_transition :
  let env := mkSqlEnv (λ _, None) (λ k, if Nat.eqb k 1 then
               sql_apply quiet_env (OpLease canonical_order (SqlSample.at_ 100) "w2" 500) else id)
               (λ _, None) in
  let r := sql_CancelRunJob env (SqlSample.at_ 101) "j2" "stop" SqlSample.db in
  r.1 = Ok tt ∧
  row_statuses "j2" r.2 = [("", "QUEUED"); ("QUEUED", "LEASED"); ("QUEUED", "CANCELLED")].
Proof. split; vm_compute; reflexivity. Qed.

(** Enqueueing a job that is there changes nothing but its history, which records
    that it was enqueued again, although it has been leased since. *)
Theorem enqueued_twice :
  let leased := sql_apply quiet_env (OpLease canonical_order (SqlSample.at_ 100) "w2" 500)
                  SqlSample.db in
  let r := sql_EnqueueRunJob quiet_env (SqlSample.at_ 120) (QueueSample.job "j2") leased in
  r.1 = Ok tt ∧ tbl_run_queue r.2 = tbl_run_queue leased ∧
  row_statuses "j2" r.2 = [("", "QUEUED"); ("QUEUED", "LEASED"); ("", "QUEUED")].
Proof. split_and!; vm_compute; reflexivity. Qed.

(** When the transition cannot be written the job has changed all the same, although
    the caller is told that the method failed. *)
Theorem failed_but_done :
  let env := mkSqlEnv (λ k, if Nat.eqb k 2 then Some "disk I/O error" else None) (λ _, id)
               (λ _, None) in
  let r := sql_CancelRunJob env (SqlSample.at_ 101) "j2" "stop" SqlSample.db in
  r.1 = Err "disk I/O error" ∧
  r_status <$> tbl_run_queue r.2 !! "j2" = Some RunJobStatusCancelled ∧
  row_statuses "j2" r.2 = [("", "QUEUED")].
Proof. split_and!; vm_compute; reflexivity. Qed.

(** A purge of cancelled or failed jobs deletes by ID: a job that another process
    requeued between the SELECT and the DELETE is deleted although it is queued. *)
Theorem purged_after_requeue :
  let failed := sql_run [(quiet_env, OpLease canonical_order (SqlSample.at_ 100) "w2" 500);
                         (quiet_env, OpFail (SqlSample.at_ 110) "j2" "boom")] SqlSample.db in
  let requeue := sql_apply quiet_env (OpRequeue (SqlSample.at_ 120) "j2" 0 "me" "again") in
  let env := mkSqlEnv (λ _, None) (λ k, if Nat.eqb k 1 then requeue else id) (λ _, None) in
  let r := sql_PurgeRunJobs env canonical_order (SqlSample.at_ 119) "FAILED" 0 10 failed in
  r_status <$> tbl_run_queue (requeue failed) !! "j2" = Some RunJobStatusQueued ∧
  r.1 = Ok 1 ∧ tbl_run_queue r.2 !! "j2" = None.
Proof. split_and!; vm_compute; reflexivity. Qed.

(** A purge that names no status deletes a job that a worker has leased, whose lease has
    not run out. *)
Theorem purged_while_leased :
  let leased := sql_apply quiet_env (OpLease canonical_order (SqlSample.at_ 100) "w2" 500)
                  SqlSample.db in
  let r := sql_PurgeRunJobs quiet_env canonical_order (SqlSample.at_ 110) "" 0 10 leased in
  r_status <$> tbl_run_queue leased !! "j2" = Some RunJobStatusLeased ∧
  tbl_run_queue r.2 !! "j2" = None.
Proof. split; vm_compute; reflexivity. Qed.
