(* ===== verification/SqliteSim.v ===== *)
(** * The SQLite queue behaves like the memory queue

    A forward simulation: methods of [SQLiteStore] that run one after the other,
    without failures, give the answers that [MemoryRunQueue] gives for some order of
    iteration, and leave the same jobs with the same histories - up to what the two
    do not store alike: the end of the lease of a job that is not leased, and the
    time of a replay that never was. *)

From S2P Require Import Prelude GoLib Domain Interfaces Queue QueueProps Sqlite SqliteProps.
Local Open Scope Z_scope.

(** ** Jobs alike *)

(** The instants that an [int64] of nanoseconds since 1970 can hold. *)
Definition nano_ok (t : time) : Prop := int64_min ≤ t - unix_epoch ≤ int64_max.
Lemma UnixNano_ok t : nano_ok t → UnixNano t = t - unix_epoch.
Proof. apply wrap64_id. Qed.
Lemma unix_nano_ok t : nano_ok t → unix_nano (UnixNano t) = t.
Proof. intros Ht. rewrite UnixNano_ok by done. unfold unix_nano. lia. Qed.
Lemma nano_ok_nonzero t : nano_ok t → t ≠ time_zero.
Proof. unfold nano_ok, time_zero, unix_epoch, int64_min, int64_max. lia. Qed.
Lemma UnixNano_idem t : UnixNano (unix_nano (UnixNano t)) = UnixNano t.
Proof.
  unfold UnixNano at 1, unix_nano. rewrite Z.add_simpl_l. apply wrap64_id, wrap64_range.
Qed.

Record job_equiv (a b : RunQueueJob) : Prop := {
  je_same : a <| job_LeaseUntil := time_zero |> <| job_ReplayedAt := time_zero |> =
            b <| job_LeaseUntil := time_zero |> <| job_ReplayedAt := time_zero |>;
  je_until : job_Status a = RunJobStatusLeased → job_LeaseUntil a = job_LeaseUntil b;
  je_replayed : UnixNano (job_ReplayedAt a) = UnixNano (job_ReplayedAt b);
}.
#[export] Instance job_equiv_equivalence : Equivalence job_equiv.
Proof.
  split.
  - intros a. by split.
  - intros a b [Hs Hu Hr]. split; [done| |done]. intros Hb. symmetry. apply Hu.
    injection Hs. congruence.
  - intros a b c [Hs Hu Hr] [Hs' Hu' Hr']. split; [congruence| |congruence].
    intros Ha. rewrite Hu by done. apply Hu'. injection Hs. congruence.
Qed.
(** Equivalent jobs agree on every field but two. *)
Lemma job_equiv_fields a b :
  job_equiv a b →
  job_ID a = job_ID b ∧ job_WorkflowID a = job_WorkflowID b ∧ job_RunID a = job_RunID b ∧
  job_RequestID a = job_RequestID b ∧ job_Status a = job_Status b ∧
  job_Attempts a = job_Attempts b ∧ job_MaxAttempts a = job_MaxAttempts b ∧
  job_LastError a = job_LastError b ∧ job_LeaseOwner a = job_LeaseOwner b ∧
  job_AvailableAt a = job_AvailableAt b ∧ job_ReplayCount a = job_ReplayCount b ∧
  job_ReplayedBy a = job_ReplayedBy b ∧ job_ReplayReason a = job_ReplayReason b ∧
  job_CreatedAt a = job_CreatedAt b ∧ job_UpdatedAt a = job_UpdatedAt b.
Proof. intros [Hs _ _]. injection Hs. intros. by split_and!. Qed.

(** ** States alike *)

Definition row_alike (now : time) (id : string) (row : job_row) (job : RunQueueJob) : Prop :=
  job_equiv (scanRunJob (id, row)) job ∧
  (job_Status job = RunJobStatusSucceeded ∨ cancellable (job_Status job) = true) ∧
  (job_Status job = RunJobStatusLeased →
     job_AvailableAt job ≤ now ∧ job_LeaseUntil job ≠ time_zero).
Record alike (now : time) (db : SQLiteStore) (q : MemoryRunQueue) : Prop := {
  al_jobs id : option_Forall2 (row_alike now id) (tbl_run_queue db !! id) (q_jobs q !! id);
  al_history id : scanTransition <$> filter (λ t, t_job_id t = id) (tbl_transitions db) =
                  MemQ.history id q;
}.
Lemma alike_empty now : alike now empty_db NewMemoryRunQueue.
Proof. split; intros id; [constructor|done]. Qed.
Lemma alike_later now now' db q : now ≤ now' → alike now db q → alike now' db q.
Proof.
  intros Hn [Hj Hh]. split; [|done]. intros id. specialize (Hj id).
  destruct Hj as [row job (He & Hk & Hl)|]; constructor. split; [done|]. split; [done|]. intros Hs.
  destruct (Hl Hs). split; [lia|done].
Qed.
Lemma alike_move now db q id row job from to reason actor :
  alike now db q → nano_ok now → row_alike now id row job →
  alike now (move_row id row (mkTransitionRow id from to reason actor (UnixNano now)) db)
    (appendTransition now id from to reason actor (put_job id job q)).
Proof.
  intros [Hj Hh] Hnow Hr. split; intros id'.
  - simpl. destruct (decide (id = id')) as [<-|Hne].
    + rewrite !lookup_insert_eq. by constructor.
    + rewrite !lookup_insert_ne by done. apply Hj.
  - specialize (Hh id'). simpl. rewrite filter_app, fmap_app. unfold MemQ.history in *. simpl.
    destruct (decide (id = id')) as [<-|Hne].
    + rewrite filter_cons_True by done. rewrite lookup_insert_eq. simpl. rewrite <-Hh.
      unfold scanTransition at 2. simpl. by rewrite unix_nano_ok.
    + rewrite filter_cons_False by done. rewrite lookup_insert_ne by done. simpl.
      by rewrite app_nil_r.
Qed.

(** ** Calls alike *)

Inductive response :=
| RUnit (r : result unit)
| RJob (r : result RunQueueJob).
Definition mem_call (op : queue_op) (q : MemoryRunQueue) : response * MemoryRunQueue :=
  match op with
  | OpEnqueue clk job => prod_map RUnit id (MemQ.EnqueueRunJob clk job q)
  | OpLease ord clk w d => prod_map RJob id (MemQ.LeaseNextRunJob ord clk w d q)
  | OpExtend clk i w d => prod_map RUnit id (MemQ.ExtendRunJobLease clk i w d q)
  | OpComplete clk i => prod_map RUnit id (MemQ.CompleteRunJob clk i q)
  | OpCancel clk i e => prod_map RUnit id (MemQ.CancelRunJob clk i e q)
  | OpRetry clk i d e => prod_map RUnit id (MemQ.RetryRunJob clk i d e q)
  | OpFail clk i e => prod_map RUnit id (MemQ.FailRunJob clk i e q)
  | OpDeadLetter clk i e => prod_map RUnit id (MemQ.DeadLetterRunJob clk i e q)
  | OpRequeue clk i d b e => prod_map RUnit id (MemQ.RequeueRunJob clk i d b e q)
  | OpPurge ord clk s d l => (RUnit (Ok tt), apply_op op q)
  end.
Definition sql_call (op : queue_op) (db : SQLiteStore) : response * SQLiteStore :=
  match op with
  | OpEnqueue clk job => prod_map RUnit id (sql_EnqueueRunJob quiet_env clk job db)
  | OpLease ord clk w d => prod_map RJob id (sql_LeaseNextRunJob quiet_env ord clk w d db)
  | OpExtend clk i w d => prod_map RUnit id (sql_ExtendRunJobLease quiet_env clk i w d db)
  | OpComplete clk i => prod_map RUnit id (sql_CompleteRunJob quiet_env clk i db)
  | OpCancel clk i e => prod_map RUnit id (sql_CancelRunJob quiet_env clk i e db)
  | OpRetry clk i d e => prod_map RUnit id (sql_RetryRunJob quiet_env clk i d e db)
  | OpFail clk i e => prod_map RUnit id (sql_FailRunJob quiet_env clk i e db)
  | OpDeadLetter clk i e => prod_map RUnit id (sql_DeadLetterRunJob quiet_env clk i e db)
  | OpRequeue clk i d b e => prod_map RUnit id (sql_RequeueRunJob quiet_env clk i d b e db)
  | OpPurge ord clk s d l => (RUnit (Ok tt), sql_apply quiet_env op db)
  end.

(** Both succeed, with equivalent jobs, or both fail; but a job that is cancelled
    already is cancelled once more by the memory queue and refused by SQLite. *)
Definition response_alike (op : queue_op) (q : MemoryRunQueue) (r r' : response) : Prop :=
  match r, r' with
  | RUnit (Ok _), RUnit (Ok _) | RUnit (Err _), RUnit (Err _) | RJob (Err _), RJob (Err _) => True
  | RJob (Ok a), RJob (Ok b) => job_equiv a b
  | RUnit (Err _), RUnit (Ok _) =>
      ∃ clk id reason job, op = OpCancel clk id reason ∧ q_jobs q !! id = Some job ∧
        job_Status job = RunJobStatusCancelled
  | _, _ => False
  end.
(** The same call, but for the order in which the map is ranged over. *)
Definition same_call (op op' : queue_op) : Prop :=
  match op, op' with
  | OpLease _ clk w d, OpLease _ clk' w' d' => clk = clk' ∧ w = w' ∧ d = d'
  | _, _ => op = op'
  end.

(** A call at the instant [t] that takes no time, with times and durations that
    SQLite can store; the jobs enqueued are new ones as the program makes them. *)
Definition stamp_ok (t : time) : Prop := t = time_zero ∨ nano_ok t.
Definition call_at (t : time) (op : queue_op) : Prop :=
  op_ok op ∧ nano_ok t ∧
  match op with
  | OpEnqueue clk job =>
      (∀ k, clk k = t) ∧ job_ID job ≠ "" ∧ 0 < job_MaxAttempts job ∧
      stamp_ok (job_CreatedAt job) ∧ stamp_ok (job_UpdatedAt job) ∧ stamp_ok (job_AvailableAt job)
  | OpLease _ clk _ d | OpExtend clk _ _ d | OpRetry clk _ d _ | OpRequeue clk _ d _ _ =>
      (∀ k, clk k = t) ∧ nano_ok (time_Add t d)
  | OpComplete clk _ | OpCancel clk _ _ | OpFail clk _ _ | OpDeadLetter clk _ _ => ∀ k, clk k = t
  | OpPurge _ _ _ _ _ => False
  end.
(** The job enqueued is not there yet. *)
Definition fresh (db : SQLiteStore) (op : queue_op) : Prop :=
  match op with OpEnqueue _ job => tbl_run_queue db !! job_ID job = None | _ => True end.

Definition call_simulated (t : time) (op : queue_op) (db : SQLiteStore) (q : MemoryRunQueue) : Prop :=
  ∃ op', same_call op op' ∧
    response_alike op q (sql_call op db).1 (mem_call op' q).1 ∧
    alike t (sql_call op db).2 (mem_call op' q).2.

(** The jobs are alike after the same fields were set. *)
Ltac solve_row_alike :=
  match goal with
  | Heq : job_equiv (scanRunJob (_, ?row)) ?job |- row_alike _ _ _ _ =>
      destruct row, job, Heq as [Hsame Huntil Hrep];
      injection Hsame; clear Hsame; intros; simpl in *; subst; split;
      [split; simpl;
        [rewrite ?unix_nano_ok by done; reflexivity
        |rewrite ?unix_nano_ok by done; first [done|auto]
        |rewrite ?UnixNano_idem by done; first [done|auto]]
      |split; [simpl; auto|simpl; try discriminate]]
  end.

Section six.
Context (t : time) (Ht : nano_ok t).
Context (db : SQLiteStore) (q : MemoryRunQueue) (Hal : alike t db q).

(** A method that moves a job: missing, refused and moved on both sides. *)
Lemma move_simulated id guard set_ rejected to reason actor mguard mset e
    (m : result unit * MemoryRunQueue) :
  (∀ row job, row_alike t id row job → guard row = mguard job ∧
     (mguard job = true → row_alike t id (set_ row) (mset job))) →
  m = match q_jobs q !! id with
      | None => (Err "run job not found", q)
      | Some job =>
          if mguard job : bool then
            (Ok tt, appendTransition t id (job_Status job) to reason actor
                      (put_job id (mset job) q))
          else (Err e, q)
      end →
  let r := transition_job quiet_env id guard set_ rejected to reason actor t db in
  (match r.1, m.1 with Ok _, Ok _ | Err _, Err _ => True | _, _ => False end) ∧ alike t r.2 m.2.
Proof using Ht Hal.
  intros Hrow ->. cbv zeta. rewrite transition_job_quiet. pose proof (al_jobs _ _ _ Hal id) as Hj.
  destruct Hj as [row job Hra|]; [|done].
  destruct (Hrow _ _ Hra) as [Hg Hset]. rewrite Hg. destruct (mguard job); [|done]. split; [done|].
  replace (r_status row) with (job_Status job)
    by (symmetry; apply (job_equiv_fields (scanRunJob (id, row)) job), Hra).
  simpl. apply alike_move; auto.
Qed.
End six.

(** Both guards test the status, which is the same. *)
Lemma alike_status t id row job : row_alike t id row job → r_status row = job_Status job.
Proof. intros [He _]. apply (job_equiv_fields (scanRunJob (id, row)) job He). Qed.
Lemma same_call_refl op : same_call op op.
Proof. by destruct op. Qed.
Lemma move_call t db q op id guard set_ rejected to reason actor mguard mset e
    (m : result unit * MemoryRunQueue) :
  nano_ok t → alike t db q →
  sql_call op db = prod_map RUnit (λ s, s)
    (transition_job quiet_env id guard set_ rejected to reason actor t db) →
  mem_call op q = prod_map RUnit (λ s, s) m →
  m = match q_jobs q !! id with
      | None => (Err "run job not found", q)
      | Some job =>
          if mguard job : bool then
            (Ok tt, appendTransition t id (job_Status job) to reason actor
                      (put_job id (mset job) q))
          else (Err e, q)
      end →
  (∀ row job, row_alike t id row job → guard row = mguard job ∧
     (mguard job = true → row_alike t id (set_ row) (mset job))) →
  call_simulated t op db q.
Proof.
  intros Ht Hal Hs Hm Hmm Hrow. exists op. split; [apply same_call_refl|]. rewrite Hs, Hm.
  destruct (move_simulated t Ht db q Hal id guard set_ rejected to reason actor mguard mset e m
    Hrow Hmm) as [Hres Hal'].
  destruct (transition_job _ _ _ _ _ _ _ _ _ _) as [[] ?], m as [[] ?]; simpl in *; tauto.
Qed.

Definition mem_leased (job : RunQueueJob) : bool :=
  bool_decide (job_Status job = RunJobStatusLeased).
(** Unfolds the method of the memory queue up to [move_call]'s form. *)
Ltac solve_mem_side op Hclk :=
  unfold op, mem_leased; rewrite !Hclk;
  match goal with |- context [q_jobs ?q !! ?id] => destruct (q_jobs q !! id); [|done] end;
  repeat case_bool_decide; simpl; tauto.
Ltac solve_row_side :=
  let Hra := fresh "Hra" in intros ? ? Hra; pose proof (alike_status _ _ _ _ Hra) as Hst;
  split; [unfold row_leased; simpl; by rewrite ?Hst|];
  intros _; destruct Hra as [Heq _]; solve_row_alike.
Ltac solve_sql_side op Hclk := simpl; unfold op; rewrite !Hclk; reflexivity.

Lemma complete_simulated t clk id db q :
  nano_ok t → (∀ k, clk k = t) → alike t db q → call_simulated t (OpComplete clk id) db q.
Proof.
  intros Ht Hclk Hal.
  eapply (move_call t db q) with (mguard := mem_leased) (mset := λ job,
    job <| job_Status := RunJobStatusSucceeded |> <| job_LeaseOwner := "" |>
        <| job_LeaseUntil := time_zero |> <| job_UpdatedAt := t |>); [done|done| |reflexivity| |].
  - solve_sql_side sql_CompleteRunJob Hclk.
  - solve_mem_side MemQ.CompleteRunJob Hclk.
  - solve_row_side.
Qed.
Lemma fail_simulated t clk id e db q :
  nano_ok t → (∀ k, clk k = t) → alike t db q → call_simulated t (OpFail clk id e) db q.
Proof.
  intros Ht Hclk Hal.
  eapply (move_call t db q) with (mguard := mem_leased) (mset := λ job,
    job <| job_Status := RunJobStatusFailed |> <| job_LastError := e |> <| job_LeaseOwner := "" |>
        <| job_LeaseUntil := time_zero |> <| job_UpdatedAt := t |>); [done|done| |reflexivity| |].
  - solve_sql_side sql_FailRunJob Hclk.
  - solve_mem_side MemQ.FailRunJob Hclk.
  - solve_row_side.
Qed.
Lemma dead_simulated t clk id e db q :
  nano_ok t → (∀ k, clk k = t) → alike t db q → call_simulated t (OpDeadLetter clk id e) db q.
Proof.
  intros Ht Hclk Hal.
  eapply (move_call t db q) with (mguard := mem_leased) (mset := λ job,
    job <| job_Status := RunJobStatusDead |> <| job_LastError := e |> <| job_LeaseOwner := "" |>
        <| job_LeaseUntil := time_zero |> <| job_UpdatedAt := t |>); [done|done| |reflexivity| |].
  - solve_sql_side sql_DeadLetterRunJob Hclk.
  - solve_mem_side MemQ.DeadLetterRunJob Hclk.
  - solve_row_side.
Qed.
Lemma retry_simulated t clk id d e db q :
  nano_ok t → nano_ok (time_Add t d) → (∀ k, clk k = t) → alike t db q →
  call_simulated t (OpRetry clk id d e) db q.
Proof.
  intros Ht Hd Hclk Hal.
  eapply (move_call t db q) with (mguard := mem_leased) (mset := λ job,
    job <| job_Status := RunJobStatusQueued |> <| job_AvailableAt := time_Add t d |>
        <| job_LastError := e |> <| job_LeaseOwner := "" |>
        <| job_LeaseUntil := time_zero |> <| job_UpdatedAt := t |>); [done|done| |reflexivity| |].
  - solve_sql_side sql_RetryRunJob Hclk.
  - solve_mem_side MemQ.RetryRunJob Hclk.
  - solve_row_side.
Qed.
Lemma requeue_simulated t clk id d by_ e db q :
  nano_ok t → nano_ok (time_Add t d) → (∀ k, clk k = t) → alike t db q →
  call_simulated t (OpRequeue clk id d by_ e) db q.
Proof.
  intros Ht Hd Hclk Hal.
  eapply (move_call t db q) with
    (mguard := λ job, bool_decide (job_Status job ∈ [RunJobStatusDead; RunJobStatusFailed]))
    (mset := λ job,
      job <| job_Status := RunJobStatusQueued |> <| job_LeaseOwner := "" |>
          <| job_LeaseUntil := time_zero |> <| job_AvailableAt := time_Add t d |>
          <| job_ReplayCount := wrap64 (job_ReplayCount job + 1) |>
          <| job_ReplayedBy := by_ |> <| job_ReplayReason := e |>
          <| job_ReplayedAt := t |> <| job_UpdatedAt := t |>); [done|done| |reflexivity| |].
  - solve_sql_side sql_RequeueRunJob Hclk.
  - unfold MemQ.RequeueRunJob. rewrite !Hclk. destruct (q_jobs q !! id); [|done].
    repeat case_bool_decide; simpl; set_solver.
  - solve_row_side.
Qed.

Lemma cancel_simulated t clk id e db q :
  nano_ok t → (∀ k, clk k = t) → alike t db q → call_simulated t (OpCancel clk id e) db q.
Proof.
  intros Ht Hclk Hal.
  destruct (q_jobs q !! id) as [job|] eqn:Hjob;
    [destruct (decide (job_Status job = RunJobStatusCancelled)) as [Hc|Hc]|].
  - exists (OpCancel clk id e). split; [reflexivity|]. simpl.
    unfold sql_CancelRunJob, MemQ.CancelRunJob. rewrite transition_job_quiet.
    pose proof (al_jobs _ _ _ Hal id) as Hj. rewrite Hjob in *. inversion Hj as [row ? Hra Hrow|].
    subst. pose proof (alike_status _ _ _ _ Hra) as Hst. rewrite Hst, Hc. simpl.
    split; [by exists clk, id, e, job|done].
  - eapply (move_call t db q) with
      (mguard := λ job, bool_decide (job_Status job ∈ [RunJobStatusQueued; RunJobStatusFailed;
         RunJobStatusDead; RunJobStatusLeased]))
      (mset := λ job, job <| job_Status := RunJobStatusCancelled |> <| job_LastError := e |>
          <| job_LeaseOwner := "" |> <| job_LeaseUntil := time_zero |>
          <| job_UpdatedAt := t |>); [done|done| |reflexivity| |].
    + solve_sql_side sql_CancelRunJob Hclk.
    + unfold MemQ.CancelRunJob. rewrite Hjob, !Hclk, (bool_decide_false (_ = "CANCELLED")) by done.
      pose proof (al_jobs _ _ _ Hal id) as Hj. rewrite Hjob in Hj. inversion Hj as [row ? Hra Hrow|].
      destruct Hra as (_ & Hk & _). unfold cancellable in Hk. rewrite bool_decide_eq_true in Hk.
      repeat case_bool_decide ; simpl; try done; exfalso.
      * match goal with Hs : job_Status job = _, Hb : _ ∈ _ |- _ =>
          rewrite Hs in Hb; apply (bool_decide_eq_true_2 _) in Hb; discriminate Hb end.
      * set_unfold. tauto.
    + solve_row_side.
  - exists (OpCancel clk id e). split; [reflexivity|]. simpl.
    unfold sql_CancelRunJob, MemQ.CancelRunJob. rewrite transition_job_quiet, Hjob.
    pose proof (al_jobs _ _ _ Hal id) as Hj. rewrite Hjob in Hj. by inversion Hj.
Qed.

Lemma extend_simulated t clk id w d db q :
  nano_ok t → nano_ok (time_Add t d) → (∀ k, clk k = t) → alike t db q →
  call_simulated t (OpExtend clk id w d) db q.
Proof.
  intros Ht Hd Hclk Hal. exists (OpExtend clk id w d). split; [reflexivity|]. simpl.
  unfold sql_ExtendRunJobLease, MemQ.ExtendRunJobLease, update_job. simpl. rewrite !Hclk.
  pose proof (al_jobs _ _ _ Hal id) as Hj. destruct (q_jobs q !! id) as [job|] eqn:Hjob;
    inversion Hj as [row ? Hra Hrow Heq|]; [subst|done]; clear Hj.
  pose proof (alike_status _ _ _ _ Hra) as Hst.
  assert (Hw : r_lease_owner row = job_LeaseOwner job)
    by apply (job_equiv_fields (scanRunJob (id, row)) job (proj1 Hra)).
  rewrite Hst, Hw. destruct (decide (job_Status job = RunJobStatusLeased)) as [H|H];
    [rewrite (bool_decide_true (_ = "LEASED")), (bool_decide_false (_ ≠ "LEASED")) by tauto
    |by rewrite (bool_decide_false (_ = "LEASED")), (bool_decide_true (_ ≠ "LEASED")) by tauto].
  destruct (decide (job_LeaseOwner job = w)) as [Ho|Ho];
    [rewrite (bool_decide_true (_ = w)), (bool_decide_false (_ ≠ w)) by tauto
    |by rewrite (bool_decide_false (_ = w)), (bool_decide_true (_ ≠ w)) by tauto].
  simpl.
  split; [done|]. destruct Hal as [Hjs Hh]. split; [|exact Hh]. intros id'. simpl.
  destruct (decide (id = id')) as [<-|Hne].
  - rewrite !lookup_insert_eq. constructor. destruct Hra as (Heq & Hk & Hl).
    destruct (Hl H) as [Hav _]. clear -Heq Hk Hav Ht Hd H.
    destruct row, job, Heq as [Hsame Huntil Hrep]. injection Hsame. clear Hsame. intros.
    simpl in *. subst. split; [split; simpl|].
    + rewrite !unix_nano_ok by done. reflexivity.
    + intros _. by rewrite unix_nano_ok.
    + exact Hrep.
    + split; [exact Hk|]. intros _. split; [exact Hav|]. by apply nano_ok_nonzero.
  - rewrite !lookup_insert_ne by done. apply Hjs.
Qed.

(** A job as both queues store it. *)
Definition stored_job (now : time) (job : RunQueueJob) : RunQueueJob :=
  let job := if IsZero (job_CreatedAt job) then job <| job_CreatedAt := now |> else job in
  let job := if IsZero (job_UpdatedAt job) then job <| job_UpdatedAt := now |> else job in
  let job := if IsZero (job_AvailableAt job) then job <| job_AvailableAt := now |> else job in
  if bool_decide (job_Status job = "") then job <| job_Status := RunJobStatusQueued |> else job.
Lemma stamp_stored t u : nano_ok t → stamp_ok u → nano_ok (if IsZero u then t else u).
Proof. intros Ht [->|Hu]; [done|]. by destruct (IsZero u). Qed.
Ltac solve_stored Hs :=
  destruct Hs as [-> | ->];
  [rewrite ?(bool_decide_true (@eq string EmptyString EmptyString)) by reflexivity
  |rewrite ?(bool_decide_false (@eq string "QUEUED" EmptyString)) by discriminate];
  repeat (match goal with |- context [IsZero ?a] => is_var a; destruct (IsZero a) eqn:? end; simpl;
    try discriminate);
  try match goal with H : 0 < ?m |- context [?m <=? 0] =>
        rewrite (proj2 (Z.leb_gt _ _) H) end;
  reflexivity.
Lemma stored_job_eq t job :
  (job_Status job = "" ∨ job_Status job = RunJobStatusQueued) →
  stored_job t job = job <| job_Status := RunJobStatusQueued |>
    <| job_CreatedAt := if IsZero (job_CreatedAt job) then t else job_CreatedAt job |>
    <| job_UpdatedAt := if IsZero (job_UpdatedAt job) then t else job_UpdatedAt job |>
    <| job_AvailableAt := if IsZero (job_AvailableAt job) then t else job_AvailableAt job |>.
Proof.
  destruct job. simpl. intros Hs. unfold stored_job. simpl.
  solve_stored Hs.
Qed.
Lemma row_of_job_alike t job :
  nano_ok (job_CreatedAt job) → nano_ok (job_UpdatedAt job) → nano_ok (job_AvailableAt job) →
  job_Status job = RunJobStatusQueued → row_alike t (job_ID job) (row_of_job job) job.
Proof.
  intros Hc Hu Ha Hs. split; [|rewrite Hs; split; [by right|discriminate]].
  unfold row_of_job. destruct job; simpl in *. split; simpl.
  - rewrite (unix_nano_ok _ Hc), (unix_nano_ok _ Hu), (unix_nano_ok _ Ha). reflexivity.
  - rewrite Hs. discriminate.
  - apply UnixNano_idem.
Qed.
Lemma enqueue_simulated t clk job db q :
  call_at t (OpEnqueue clk job) → fresh db (OpEnqueue clk job) → alike t db q →
  call_simulated t (OpEnqueue clk job) db q.
Proof.
  intros ((Hs & Ho & Hl) & Ht & Hclk & Hid & Hmax & Hc & Hu & Ha) Hf Hal. simpl in Hf.
  exists (OpEnqueue clk job). split; [reflexivity|]. simpl.
  set (id := job_ID job) in *. pose proof (al_jobs _ _ _ Hal id) as Hj. rewrite Hf in Hj.
  unfold sql_EnqueueRunJob, MemQ.EnqueueRunJob. rewrite !Hclk, bool_decide_false by done.
  destruct (q_jobs q !! id) as [?|] eqn:Hn; [by inversion Hj|]. clear Hj. fold id. rewrite Hn.
  fold (stored_job t job).
  set (job' := stored_job t job). assert (Hj' : stored_job t job = job') by done.
  rewrite stored_job_eq in Hj' by done.
  match goal with |- context [row_of_job ?j] => replace j with job' end.
  2:{ rewrite <-Hj'. clear -Hs Hmax. destruct job. simpl in *.
      solve_stored Hs. }
  unfold sql_appendTransition. simpl.
  assert (Hid' : job_ID job' = id) by by rewrite <-Hj'.
  assert (Hs' : job_Status job' = RunJobStatusQueued) by by rewrite <-Hj'.
  rewrite Hid', Hs', Hf. simpl. rewrite lookup_insert_eq. simpl. split; [done|].
  apply alike_move; [done..|]. rewrite <-Hid'.
  apply row_of_job_alike; [..|done]; rewrite <-Hj'; simpl; by apply stamp_stored.
Qed.

(** ** Leasing: the memory queue can pick the row that SQLite picked *)

Lemma front_perm (id : string) A (m : gmap string A) :
  match m !! id with
  | Some v => (id, v) :: map_to_list (delete id m)
  | None => map_to_list m
  end ≡ₚ map_to_list m.
Proof. destruct (m !! id) eqn:Hm; [|done]. by apply map_to_list_delete. Qed.
Definition front_order (id : string) : iter_order := IterOrder _ (front_perm id).

Lemma sort_slice_front {A} (less : A → A → bool) x l :
  (∀ y, y ∈ l → less y x = false) → ∃ l', sort_slice less (x :: l) = x :: l'.
Proof.
  intros Hmin. simpl. destruct (sort_slice less l) as [|y l'] eqn:Hs; simpl; [by eexists|].
  rewrite Hmin; [by eexists|]. apply (elem_of_sort_slice less). rewrite Hs. set_solver.
Qed.

Lemma leasable_alike t id row job :
  nano_ok t → row_alike t id row job → leasable_row (UnixNano t) row = MemQ.leasable t job.
Proof.
  intros Ht (Heq & _ & Hl). rewrite UnixNano_ok by done. clear Ht.
  destruct row, job, Heq as [Hsame Huntil _]. injection Hsame. clear Hsame. intros.
  simpl in *. subst. unfold leasable_row, free_row, MemQ.leasable, After, Before, IsZero. simpl.
  apply eq_bool_prop_intro.
  rewrite !Is_true_true, !andb_true_iff, !orb_true_iff, !andb_true_iff, !bool_decide_eq_true, !negb_true_iff.
  rewrite Z.ltb_lt, Z.leb_le, Z.ltb_ge, Z.eqb_neq, Z.ltb_lt. unfold unix_nano in *.
  destruct (decide (job_Status = RunJobStatusLeased)) as [Hs|Hs]; [|intuition lia].
  specialize (Huntil Hs). destruct (Hl Hs). subst. split.
  - intros [[[=]|[_ ?]] ?]. right. split; [split; [done|lia]|lia].
  - intros [[[=] _]|[[_ ?] ?]]. split; [right; split; [done|lia]|lia].
Qed.
Lemma created_alike t id row job :
  row_alike t id row job → job_CreatedAt job = unix_nano (r_created_at row).
Proof. intros [He _]. symmetry. apply (job_equiv_fields (scanRunJob (id, row)) job He). Qed.

Lemma front_candidates id now (q : MemoryRunQueue) job :
  q_jobs q !! id = Some job → MemQ.leasable now job = true →
  (∀ id' job', q_jobs q !! id' = Some job' → MemQ.leasable now job' = true →
     job_CreatedAt job ≤ job_CreatedAt job') →
  ∃ l, sort_slice MemQ.created_less
    (filter (λ j, MemQ.leasable now j = true) (iter_values (front_order id) (q_jobs q))) = job :: l.
Proof.
  intros Hj Hl Hmin. unfold iter_values. simpl. rewrite Hj. simpl.
  rewrite filter_cons_True by done. apply sort_slice_front. intros y.
  rewrite list_elem_of_filter, list_elem_of_fmap.
  intros (Hy & [id' j] & -> & Hin%elem_of_map_to_list). simpl in *.
  apply lookup_delete_Some in Hin as [_ Hin]. apply Z.ltb_ge. by apply (Hmin id').
Qed.
Lemma no_candidates ord now (q : MemoryRunQueue) :
  (∀ id job, q_jobs q !! id = Some job → MemQ.leasable now job = false) →
  filter (λ j, MemQ.leasable now j = true) (iter_values ord (q_jobs q)) = [].
Proof.
  intros Hno. apply elem_of_nil_inv. intros job [Hl Hin]%list_elem_of_filter.
  apply elem_of_iter_values in Hin as [id Hj]. by rewrite (Hno id job Hj) in Hl.
Qed.

Lemma lease_simulated t ord clk w d db q :
  nano_ok t → nano_ok (time_Add t d) → (∀ k, clk k = t) → alike t db q →
  call_simulated t (OpLease ord clk w d) db q.
Proof.
  intros Ht Hd Hclk Hal. unfold call_simulated. simpl. rewrite sql_LeaseNextRunJob_quiet, !Hclk.
  pose proof (lease_select ord (UnixNano t) db) as Hsel.
  destruct (sort_slice _ _) as [|[id row] l].
  - exists (OpLease ord clk w d). split; [done|]. simpl. unfold MemQ.LeaseNextRunJob.
    rewrite !Hclk, no_candidates; [done|]. intros id job Hjob.
    pose proof (al_jobs _ _ _ Hal id) as Hj. rewrite Hjob in Hj. inversion Hj as [row ? Hra Hrow|].
    subst. rewrite <-(leasable_alike t id row) by done. by apply (Hsel id).
  - destruct Hsel as (Hrow & Hl & Hmin). exists (OpLease (front_order id) clk w d).
    split; [done|]. simpl. unfold MemQ.LeaseNextRunJob. rewrite !Hclk.
    pose proof (al_jobs _ _ _ Hal id) as Hj. rewrite Hrow in Hj. inversion Hj as [? job Hra Heq Hjob|].
    subst. symmetry in Hjob. rewrite (leasable_alike t id row job) in Hl by done.
    destruct (front_candidates id t q job Hjob Hl) as [l' ->].
    { intros id' job' Hjob' Hl'. pose proof (al_jobs _ _ _ Hal id') as Hj'. rewrite Hjob' in Hj'.
      inversion Hj' as [row' ? Hra' Hrow'|]. subst. symmetry in Hrow'.
      rewrite (created_alike _ _ _ _ Hra), (created_alike _ _ _ _ Hra'). unfold unix_nano.
      rewrite <-(leasable_alike t id' row') in Hl' by done. pose proof (Hmin _ _ Hrow' Hl'). lia. }
    simpl. assert (Hid : job_ID job = id)
      by (symmetry; apply (job_equiv_fields (scanRunJob (id, row)) job (proj1 Hra))).
    assert (Hra' : row_alike t id (leased_row clk w d row) (leased_job t w d job)).
    { assert (Hav : job_AvailableAt job ≤ t).
      { destruct (decide (job_Status job = RunJobStatusLeased)) as [Hs|Hs]; [by apply Hra|].
        apply leasable_spec in Hl as [[_ ?]|[? _]]; done. }
      clear -Hra Hav Ht Hd Hclk. destruct Hra as (Heq & Hk & _). unfold leased_row. rewrite !Hclk.
      destruct row, job, Heq as [Hsame Huntil Hrep]. injection Hsame. clear Hsame. intros.
      simpl in *. subst. split; [split; simpl|].
      + unfold leased_job. by rewrite !unix_nano_ok.
      + intros _. by rewrite unix_nano_ok.
      + exact Hrep.
      + split; [by right|]. intros _. split; [exact Hav|]. by apply nano_ok_nonzero. }
    unfold leased_row in *. rewrite !Hclk in *.
    split; [exact (proj1 Hra')|]. rewrite (alike_status _ _ _ _ Hra), Hid.
    by apply (alike_move t db q id _ (leased_job t w d job)).
Qed.

(** ** Runs alike *)

Lemma call_simulates t op db q :
  call_at t op → fresh db op → alike t db q → call_simulated t op db q.
Proof.
  intros Hc Hf Hal. pose proof Hc as (_ & Ht & Hop).
  destruct op; [by apply enqueue_simulated|..]; simpl in Hop; try destruct Hop as [Hclk Hd].
  - by apply lease_simulated.
  - by apply extend_simulated.
  - by apply complete_simulated.
  - by apply cancel_simulated.
  - by apply retry_simulated.
  - by apply fail_simulated.
  - by apply dead_simulated.
  - by apply requeue_simulated.
  - done.
Qed.

(** What a client can read: the jobs, and the histories of their status changes. *)
Definition same_view (db : SQLiteStore) (q : MemoryRunQueue) : Prop :=
  (∀ id, match sql_GetRunJob quiet_env id db, MemQ.GetRunJob id q with
         | Ok a, Ok b => job_equiv a b
         | Err e, Err e' => e = e'
         | _, _ => False
         end) ∧
  ∀ id, scanTransition <$> filter (λ t, t_job_id t = id) (tbl_transitions db) = MemQ.history id q.
Lemma alike_view now db q : alike now db q → same_view db q.
Proof.
  intros [Hj Hh]. split; [|done]. intros id. specialize (Hj id).
  rewrite sql_GetRunJob_quiet. unfold MemQ.GetRunJob.
  destruct Hj as [row job [He _]|]; [exact He|done].
Qed.

(** Calls one after the other, at instants that do not go back. *)
Fixpoint serial (now : time) (ops : list queue_op) (db : SQLiteStore) : Prop :=
  match ops with
  | [] => True
  | op :: ops =>
      ∃ t, now ≤ t ∧ call_at t op ∧ fresh db op ∧ serial t ops (sql_call op db).2
  end.
(** The calls [ops] on SQLite and [ops'] in memory answer alike and show the same
    all along. *)
Fixpoint runs_alike (ops ops' : list queue_op) (db : SQLiteStore) (q : MemoryRunQueue) : Prop :=
  same_view db q ∧
  match ops, ops' with
  | [], [] => True
  | op :: ops, op' :: ops' =>
      same_call op op' ∧ response_alike op q (sql_call op db).1 (mem_call op' q).1 ∧
      runs_alike ops ops' (sql_call op db).2 (mem_call op' q).2
  | _, _ => False
  end.
Lemma runs_simulated now ops db q :
  serial now ops db → alike now db q → ∃ ops', runs_alike ops ops' db q.
Proof.
  revert now db q. induction ops as [|op ops IH]; intros now db q Hs Hal.
  - exists []. split; [by eapply alike_view|done].
  - destruct Hs as (t & Hnow & Hc & Hf & Hs). pose proof (alike_later _ _ _ _ Hnow Hal) as Hal'.
    destruct (call_simulates t op db q Hc Hf Hal') as (op' & Hsame & Hr & Hal2).
    destruct (IH t _ _ Hs Hal2) as [ops' Hrun]. exists (op' :: ops').
    split; [by eapply alike_view|done].
Qed.

(** C23. The SQLite queue refines the memory queue.  A client enqueues, leases, extends,
    completes, cancels, retries, fails, buries and requeues jobs, one call after the other,
    none of which fails in the driver and none a purge: each at one instant of a clock that
    does not go back, with times that SQLite can store (1678 to 2262).  The jobs it enqueues
    are as the program makes them - queued, with an ID and a positive MaxAttempts - and new:
    their ID is not in the queue (what becomes of one that is, [enqueued_twice] says).  It
    gets from SQLite the answers that the memory queue gives for some order of iteration
    over its map, and reads the same jobs and histories after every call; the one exception
    among these calls is a second cancellation, which SQLite refuses. *)
Theorem sqlite_refines_memory now ops :
  serial now ops empty_db → ∃ ops', runs_alike ops ops' empty_db NewMemoryRunQueue.
Proof. intros Hs. apply (runs_simulated now); [exact Hs|apply alike_empty]. Qed.
(** One call of a concrete run, at [t]. *)
Ltac serial_step t :=
  exists t; split; [vm_compute; discriminate|]; split;
  [unfold call_at; simpl; unfold stamp_ok, nano_ok; split_and!;
   try solve [exact I | reflexivity | intros; reflexivity | vm_compute; discriminate
             | right; reflexivity | left; reflexivity]
  |split; [first [exact I | vm_compute; reflexivity]|]].
Lemma sqlite_refines_memory_witness :
  let at_ t := (λ _, unix_epoch + t) : clock in
  let ops := [OpEnqueue (at_ 10) (QueueSample.job "j1"); OpEnqueue (at_ 20) (QueueSample.job "j2");
              OpLease canonical_order (at_ 100) "w1" 50; OpExtend (at_ 120) "j1" "w1" 100;
              OpRetry (at_ 130) "j1" 5 "boom"; OpLease canonical_order (at_ 200) "w2" 50;
              OpLease canonical_order (at_ 210) "w2" 50; OpFail (at_ 220) "j1" "x";
              OpRequeue (at_ 230) "j1" 5 "me" "again"; OpCancel (at_ 240) "j2" "stop"] in
  ∃ ops', runs_alike ops ops' empty_db NewMemoryRunQueue.
Proof.
  intros at_ ops. apply (sqlite_refines_memory unix_epoch).
  do 2 (unfold ops; match goal with |- serial _ (OpEnqueue (at_ ?t) _ :: _) _ =>
          serial_step (unix_epoch + t) end).
  serial_step (unix_epoch + 100). serial_step (unix_epoch + 120). serial_step (unix_epoch + 130).
  serial_step (unix_epoch + 200). serial_step (unix_epoch + 210). serial_step (unix_epoch + 220).
  serial_step (unix_epoch + 230). serial_step (unix_epoch + 240). exact I.
Defined.
