(* ===== verification/SqliteRuns.v ===== *)
(** * The SQLite store lists runs like the memory store

    The status of a run is not a column of the table: the listing decodes rows and
    counts its page itself.  It shows the window that LIMIT and OFFSET would, and the
    page that the memory store shows for the same runs. *)

From S2P Require Import Prelude GoLib Domain Interfaces Store Sqlite SqliteSim.
Local Open Scope Z_scope.

(** ** Rows and what they decode to *)

Section listing.
Context (UnmarshalRun : string → result Run).

(** The run in a row. *)
Definition decoded (row : run_row) : Run :=
  match UnmarshalRun (rr_payload row) with Ok run => run | Err _ => Run_zero end.
(** The columns repeat what the payload says. *)
Record row_holds (row : run_row) (run : Run) : Prop := {
  rh_payload : UnmarshalRun (rr_payload row) = Ok run;
  rh_workflow : rr_workflow_id row = run_WorkflowID run;
  rh_request : rr_request_id row = run_RequestID run;
  rh_started : rr_started_at row = run_StartedAt run - unix_epoch;
}.
Definition runs_alike_in (db : SQLiteStore) (s : MemoryStore) : Prop :=
  ∀ id, option_Forall2 row_holds (tbl_runs db !! id) (runs s !! id).

Lemma decode_all_decoded rows :
  (∀ row, row ∈ rows → ∃ run, row_holds row run) →
  decode_all UnmarshalRun (rr_payload <$> rows) = Ok (decoded <$> rows).
Proof.
  induction rows as [|row rows IH]; intros Hr; [done|]. rewrite !fmap_cons. cbn [decode_all].
  unfold decoded at 1. destruct (Hr row) as [run [Hp _ _ _]]; [set_solver|].
  rewrite Hp, IH by set_solver. done.
Qed.

(** The loop over the rows takes the window of the runs with the status asked for:
    what is left of the offset is skipped, then what is left of the page is taken. *)
Lemma scan_runs_loop status limit offset payloads runs_ seen items :
  decode_all UnmarshalRun payloads = Ok runs_ → 0 ≤ seen ≤ offset → zlen items ≤ limit →
  (items ≠ [] → seen = offset) →
  scan_runs UnmarshalRun status limit offset payloads seen items =
  Ok (items ++ take (Z.to_nat (limit - zlen items))
                (drop (Z.to_nat (offset - seen)) (filter (λ r, run_Status r = status) runs_))).
Proof.
  revert runs_ seen items. induction payloads as [|p payloads IH]; intros runs_ seen items Hd Hs Hl Hi.
  - injection Hd as <-. cbn [scan_runs]. by rewrite filter_nil, drop_nil, take_nil, app_nil_r.
  - simpl in *. destruct (UnmarshalRun p) as [run|e]; [|done]. simpl in Hd.
    destruct (decode_all UnmarshalRun payloads) as [rs|e] eqn:Hrs; [|done].
    injection Hd as <-. destruct (decide (run_Status run = status)) as [He|He].
    + rewrite bool_decide_false by tauto. rewrite filter_cons_True by done.
      destruct (Z.ltb_spec seen offset) as [Hlt|Hge].
      * rewrite (IH rs) by (done || lia || (intros Hne; specialize (Hi Hne); lia)).
        replace (Z.to_nat (offset - seen)) with (S (Z.to_nat (offset - (seen + 1)))) by lia. done.
      * assert (seen = offset) as -> by lia. rewrite Z.sub_diag. simpl.
        destruct (Z.leb_spec limit (zlen items)) as [Hfull|Hroom].
        { replace (Z.to_nat (limit - zlen items)) with 0%nat by lia. by rewrite app_nil_r. }
        rewrite (IH rs), Z.sub_diag.
        -- unfold zlen. rewrite length_app. simpl.
           replace (Z.to_nat (limit - Z.of_nat (length items)))
             with (S (Z.to_nat (limit - Z.of_nat (length items + 1)))) by (unfold zlen in *; lia).
           simpl. by rewrite <-app_assoc.
        -- done.
        -- lia.
        -- unfold zlen in *. rewrite length_app. simpl. lia.
        -- done.
    + rewrite bool_decide_true by done. rewrite filter_cons_False by done. by apply IH.
Qed.
End listing.

(** ** The same page *)

Lemma list_filter_iff_in {A} (P Q : A → Prop) `{!∀ x, Decision (P x), !∀ x, Decision (Q x)} (l : list A) :
  (∀ x, x ∈ l → P x ↔ Q x) → filter P l = filter Q l.
Proof.
  induction l as [|x l IH]; intros HPQ; [done|].
  assert (Hx : P x ↔ Q x) by (apply HPQ; set_solver).
  destruct (decide (P x)).
  - rewrite !filter_cons_True by tauto. f_equal. apply IH. set_solver.
  - rewrite !filter_cons_False by tauto. apply IH. set_solver.
Qed.
Lemma filter_fmap_comm {A B} (f : A → B) (P : B → Prop) `{!∀ x, Decision (P x)} (l : list A) :
  filter P (f <$> l) = f <$> filter (λ x, P (f x)) l.
Proof.
  induction l as [|x l IH]; [done|]. rewrite fmap_cons. destruct (decide (P (f x))).
  - rewrite !filter_cons_True by done. by rewrite fmap_cons, IH.
  - rewrite !filter_cons_False by done. done.
Qed.

Section agree.
Context (UnmarshalRun : string → result Run).
Context (db : SQLiteStore) (s : MemoryStore).
Hypothesis Hal : runs_alike_in UnmarshalRun db s.
Abbreviation dec := (decoded UnmarshalRun).

Lemma row_holds_decoded row run : row_holds UnmarshalRun row run → dec row = run.
Proof. intros [Hp _ _ _]. unfold decoded. by rewrite Hp. Qed.
Lemma runs_decoded : runs s = dec <$> tbl_runs db.
Proof using Hal.
  apply map_eq. intros id. rewrite lookup_fmap. specialize (Hal id).
  destruct Hal as [row run Hr|]; [|done]. simpl. by rewrite (row_holds_decoded _ _ Hr).
Qed.
Lemma iter_row_holds ord row :
  row ∈ iter_values ord (tbl_runs db) → row_holds UnmarshalRun row (dec row).
Proof using Hal.
  intros [id Hid]%elem_of_iter_values. specialize (Hal id). rewrite Hid in Hal.
  inversion Hal as [? run Hr|]. subst. by rewrite (row_holds_decoded _ _ Hr).
Qed.
Lemma iter_runs_decoded ord ord' :
  dec <$> iter_values ord' (tbl_runs db) ≡ₚ iter_values ord (runs s).
Proof using Hal.
  rewrite runs_decoded. unfold iter_values. rewrite !iter_perm, map_to_list_fmap.
  rewrite <-!list_fmap_compose. done.
Qed.

Lemma IsZero_spec t : IsZero t = true ↔ t = time_zero.
Proof. apply Z.eqb_eq. Qed.
Lemma clauses_selected workflowID requestID after before row :
  stamp_ok after → stamp_ok before → row_holds UnmarshalRun row (dec row) →
  run_clauses workflowID requestID after before row = true ↔
  run_selected workflowID "" requestID after before (dec row).
Proof.
  intros Ha Hb [_ Hw Hq Hs]. unfold run_clauses, run_selected. rewrite Hw, Hq, Hs.
  rewrite !andb_true_iff, !orb_true_iff, !bool_decide_eq_true, !IsZero_spec, !Z.leb_le.
  assert (Hta : ∀ t, stamp_ok t → t = time_zero ∨ UnixNano t = t - unix_epoch).
  { intros t [->|Ht]; [by left|right; by apply UnixNano_ok]. }
  destruct (Hta _ Ha) as [-> | ->], (Hta _ Hb) as [-> | ->]; intuition lia.
Qed.

Lemma started_row_less_asym desc a b :
  started_row_less desc a b = true → started_row_less desc b a = false.
Proof. unfold started_row_less. destruct desc; rewrite Z.ltb_lt, Z.ltb_ge; lia. Qed.
Lemma started_row_le_trans desc a b c :
  sorted_le (started_row_less desc) a b → sorted_le (started_row_less desc) b c →
  sorted_le (started_row_less desc) a c.
Proof. unfold sorted_le, started_row_less. destruct desc; rewrite !Z.ltb_ge; lia. Qed.

Lemma decoded_sorted desc rows :
  (∀ row, row ∈ rows → row_holds UnmarshalRun row (dec row)) →
  StronglySorted (sorted_le (started_row_less desc)) rows →
  StronglySorted (sorted_le (Memory.run_less desc)) (dec <$> rows).
Proof.
  clear s db Hal. intros Hh. induction 1 as [|row rows _ IH Hall]; [constructor|]. rewrite fmap_cons.
  constructor; [apply IH; set_solver|]. apply Forall_fmap, Forall_forall. intros row' Hin.
  rewrite Forall_forall in Hall. pose proof (Hall _ Hin) as Hle.
  destruct (Hh row) as [_ _ _ H1]; [set_solver|]. destruct (Hh row') as [_ _ _ H2]; [set_solver|].
  unfold sorted_le, started_row_less, Memory.run_less, After, Before in *. simpl.
  rewrite H1, H2 in Hle. destruct desc; rewrite Z.ltb_ge in *; lia.
Qed.
(** The rows of a listing, decoded, are the runs that the memory store selects. *)
Lemma listing_decoded ord ord' workflowID status requestID after before desc :
  stamp_ok after → stamp_ok before →
  (∀ a b, a ∈ iter_values ord (runs s) → b ∈ iter_values ord (runs s) →
     run_StartedAt a = run_StartedAt b → a = b) →
  filter (λ r, status = "" ∨ run_Status r = status)
    (dec <$> select_runs ord' (run_clauses workflowID requestID after before) desc db) =
  sort_slice (Memory.run_less desc)
    (Memory.matching_runs ord (Memory.run_matches workflowID status requestID after before) s).
Proof using Hal.
  intros Ha Hb Huniq. set (rows := select_runs _ _ _ _).
  assert (Hrows : ∀ row, row ∈ rows → row_holds UnmarshalRun row (dec row)).
  { intros row. unfold rows, select_runs. rewrite elem_of_sort_slice, list_elem_of_filter.
    intros [_ Hin]. by apply (iter_row_holds ord'). }
  assert (Hperm : filter (λ r, status = "" ∨ run_Status r = status) (dec <$> rows) ≡ₚ
    Memory.matching_runs ord (Memory.run_matches workflowID status requestID after before) s).
  { unfold rows, select_runs, Memory.matching_runs. rewrite sort_slice_perm.
    rewrite <-(iter_runs_decoded ord ord'). rewrite !filter_fmap_comm, list_filter_filter.
    erewrite list_filter_iff_in; [done|]. intros row Hin. simpl.
    rewrite clauses_selected, run_matches_spec by (try done; by apply (iter_row_holds ord')).
    unfold run_selected. tauto. }
  apply (StronglySorted_unique_strong (sorted_le (Memory.run_less desc))).
  - intros a b Hina Hinb Hab Hba. rewrite Hperm in Hina. rewrite elem_of_sort_slice in Hinb.
    unfold Memory.matching_runs in *. apply list_elem_of_filter in Hina as [_ Hina].
    apply list_elem_of_filter in Hinb as [_ Hinb]. apply Huniq; [done..|].
    unfold sorted_le, Memory.run_less, After, Before in *.
    destruct desc; rewrite Z.ltb_ge in *; lia.
  - apply StronglySorted_filter, decoded_sorted; [done|].
    apply sort_slice_sorted; [apply started_row_less_asym|apply started_row_le_trans].
  - apply sort_slice_sorted; [apply run_less_asym|apply run_le_trans].
  - by rewrite sort_slice_perm.
Qed.
End agree.

(** ** The same runs saved in both stores *)

Definition sql_saves (MarshalRun : Run → result string) (clk : clock) (saves : list Run)
    (db : SQLiteStore) : SQLiteStore :=
  foldl (λ db run, (sql_SaveRun MarshalRun quiet_env clk run db).2) db saves.
Definition mem_saves (saves : list Run) (s : MemoryStore) : MemoryStore :=
  foldl (λ s run, (Memory.SaveRun run s).2) s saves.
(** A run that [json.Marshal] writes as a text from which it can be read back, with a start
    that SQLite can store. *)
Definition savable (MarshalRun : Run → result string) (UnmarshalRun : string → result Run)
    (run : Run) : Prop :=
  nano_ok (run_StartedAt run) ∧ ∃ p, MarshalRun run = Ok p ∧ UnmarshalRun p = Ok run.

Lemma saves_alike MarshalRun UnmarshalRun clk saves db s :
  Forall (savable MarshalRun UnmarshalRun) saves → runs_alike_in UnmarshalRun db s →
  runs_alike_in UnmarshalRun (sql_saves MarshalRun clk saves db) (mem_saves saves s).
Proof.
  intros Hs. revert db s. induction Hs as [|run saves [Ht (p & Hp & Hcodec)] _ IH]; intros db s Hal;
    [done|].
  simpl. apply IH. intros id. unfold sql_SaveRun. rewrite Hp. simpl.
  assert (Hz : IsZero (run_StartedAt run) = false)
    by (apply Z.eqb_neq; by apply nano_ok_nonzero).
  rewrite Hz. destruct (decide (run_ID run = id)) as [<-|Hne].
  - rewrite !lookup_insert_eq. constructor. split; simpl; [done..|].
    by apply UnixNano_ok.
  - rewrite !lookup_insert_ne by done. apply Hal.
Qed.

(** C37. Both stores list runs alike: after the same runs were saved, each written as JSON
    from which it can be read back and with a start that SQLite can store (1678 to 2262),
    [ListRunsFiltered] of the SQLite store - which has no column for the status, and counts
    the page it returns while it decodes the rows - shows the page that the memory store
    shows, and the counts agree, whatever orders rows and maps are read in.  This for a page
    of at least one run, at an offset that is not negative and does not overflow with the
    limit, for bounds that are absent or that SQLite can store, if no two runs started at
    the same nanosecond and no statement fails. *)
Theorem sqlite_lists_like_memory MarshalRun UnmarshalRun clk saves ord ord'
    workflowID status requestID after before desc limit offset :
  Forall (savable MarshalRun UnmarshalRun) saves → stamp_ok after → stamp_ok before →
  0 < limit → 0 ≤ offset → offset + limit ≤ int64_max →
  let db := sql_saves MarshalRun clk saves empty_db in
  let s := mem_saves saves NewMemoryStore in
  (∀ a b, a ∈ iter_values ord (runs s) → b ∈ iter_values ord (runs s) →
     run_StartedAt a = run_StartedAt b → a = b) →
  Memory.ListRunsFiltered ord workflowID status requestID after before desc limit offset s =
    Some (sql_ListRunsFiltered UnmarshalRun quiet_env ord' workflowID status requestID
            after before desc limit offset db) ∧
  Memory.CountRunsFiltered ord workflowID status requestID after before s =
    sql_CountRunsFiltered UnmarshalRun quiet_env ord' workflowID status requestID after before db.
Proof.
  intros Hsaves Ha Hb Hl Ho Hov db s Huniq.
  assert (Hal : runs_alike_in UnmarshalRun db s) by (apply saves_alike; [done|]; by constructor).
  clearbody db s. pose proof (listing_decoded UnmarshalRun db s Hal ord ord' workflowID status
    requestID after before desc Ha Hb Huniq) as Hlist.
  assert (Hrows : ∀ p, decode_all UnmarshalRun (rr_payload <$> select_runs ord' p desc db) =
                    Ok (decoded UnmarshalRun <$> select_runs ord' p desc db)).
  { intros p. apply decode_all_decoded. intros row. unfold select_runs.
    rewrite elem_of_sort_slice, list_elem_of_filter. intros [_ Hin]. eexists.
    by apply (iter_row_holds _ db s Hal ord'). }
  split.
  - unfold Memory.ListRunsFiltered, sql_ListRunsFiltered, fetched. cbv zeta. simpl.
    rewrite page_window by done. simpl. rewrite <-Hlist. clear Hlist.
    unfold page_limit, page_offset.
    rewrite (proj2 (Z.leb_gt limit 0)), (proj2 (Z.ltb_ge offset 0)) by lia.
    case_bool_decide as Hst.
    + unfold sql_limit. rewrite <-fmap_drop, <-fmap_take, decode_all_decoded.
      * rewrite list_filter_all by (intros; by left). by rewrite fmap_take, fmap_drop.
      * intros row Hin. apply elem_of_take in Hin as (i & Hi & _).
        rewrite lookup_drop in Hi. apply list_elem_of_lookup_2 in Hi. revert Hi.
        unfold select_runs. rewrite elem_of_sort_slice, list_elem_of_filter. intros [_ Hin].
        eexists. by apply (iter_row_holds _ db s Hal ord').
    + rewrite (scan_runs_loop _ _ _ _ _ _ _ _ (Hrows _)) by (done || lia || (unfold zlen; simpl; lia)).
      simpl. unfold zlen. simpl. rewrite !Z.sub_0_r. do 4 f_equal.
      apply list_filter_iff. intros r. tauto.
  - unfold Memory.CountRunsFiltered, sql_CountRunsFiltered, fetched. simpl.
    rewrite <-(sort_slice_perm (Memory.run_less desc) (Memory.matching_runs _ _ _)), <-Hlist.
    set (rows := filter _ (iter_values ord' (tbl_runs db))).
    assert (Hp : select_runs ord' (run_clauses workflowID requestID after before) desc db ≡ₚ rows)
      by apply sort_slice_perm.
    rewrite decode_all_decoded; [simpl; rewrite Hp|].
    + case_bool_decide as Hst.
      * rewrite list_filter_all by (intros; by left). unfold zlen. by rewrite length_fmap.
      * do 2 f_equal. apply list_filter_iff. intros r. tauto.
    + intros row. unfold rows. rewrite list_elem_of_filter. intros [_ Hin]. eexists.
      by apply (iter_row_holds _ db s Hal ord').
Qed.
(** Three runs, one of them failed; a toy codec that keeps the fields that differ. *)
Module RunsSample.
Definition run (id : string) (started : Z) (status : RunStatus) : Run :=
  Run_zero <| run_ID := id |> <| run_WorkflowID := "w" |> <| run_Status := status |>
    <| run_StartedAt := unix_epoch + started |>.
Definition saves : list Run :=
  [run "a" 3 RunStatusSuccess; run "b" 1 RunStatusFailed; run "c" 2 RunStatusSuccess].
Definition marshal (r : Run) : result string :=
  if bool_decide (r = run "a" 3 RunStatusSuccess) then Ok "A" else
  if bool_decide (r = run "b" 1 RunStatusFailed) then Ok "B" else
  if bool_decide (r = run "c" 2 RunStatusSuccess) then Ok "C" else Err "unsupported value".
Definition unmarshal (s : string) : result Run :=
  if bool_decide (s = "A") then Ok (run "a" 3 RunStatusSuccess) else
  if bool_decide (s = "B") then Ok (run "b" 1 RunStatusFailed) else
  if bool_decide (s = "C") then Ok (run "c" 2 RunStatusSuccess) else Err "invalid JSON".
End RunsSample.
Lemma sqlite_lists_like_memory_witness :
  let db := sql_saves RunsSample.marshal (λ _, 0) RunsSample.saves empty_db in
  let s := mem_saves RunsSample.saves NewMemoryStore in
  Memory.ListRunsFiltered canonical_order "w" RunStatusSuccess "" 0 0 false 1 1 s =
    Some (sql_ListRunsFiltered RunsSample.unmarshal quiet_env canonical_order "w" RunStatusSuccess
            "" 0 0 false 1 1 db) ∧
  Memory.CountRunsFiltered canonical_order "w" RunStatusSuccess "" 0 0 s = Ok 2.
Proof.
  intros db s.
  destruct (sqlite_lists_like_memory RunsSample.marshal RunsSample.unmarshal (λ _, 0)
    RunsSample.saves canonical_order canonical_order "w" RunStatusSuccess "" 0 0 false 1 1)
    as [Hl Hc].
  - repeat constructor; try (vm_compute; discriminate); eexists; split; vm_compute; reflexivity.
  - left. reflexivity.
  - left. reflexivity.
  - reflexivity.
  - discriminate.
  - vm_compute. discriminate.
  - set (l := iter_values _ _).
    assert (Hu : Forall (λ a, Forall (λ b, run_StartedAt a = run_StartedAt b → a = b) l) l)
      by (apply (bool_decide_unpack _); vm_compute; exact I).
    intros a b Ha Hb. rewrite Forall_forall in Hu. specialize (Hu a Ha).
    rewrite Forall_forall in Hu. exact (Hu b Hb).
  - split; [exact Hl|]. vm_compute. reflexivity.
Defined.

(** When reading the rows fails half way - the request's context ended, say - the listing
    answers the runs it has read, without an error, and the page of two is one of one. *)
Theorem truncated_listing :
  let db := sql_saves RunsSample.marshal (λ _, 0) RunsSample.saves empty_db in
  let broken := mkSqlEnv (λ _, None) (λ _ db, db) (λ _, Some 1%nat) in
  let page env := (λ found : list Run, run_ID <$> found) <$>
    sql_ListRunsFiltered RunsSample.unmarshal env canonical_order "w" "" "" 0 0 false 2 0 db in
  page quiet_env = Ok ["b"; "c"] ∧ page broken = Ok ["b"].
Proof. split; vm_compute; reflexivity. Qed.
