(* ===== verification/SqliteOpen.v ===== *)
(** * internal/store/sqlite_store.go: opening the database

    [NewSQLiteStore] makes the directory, opens the file, sets the pragmas of the
    connection and migrates the schema.  The schema is data here: a table is its columns
    and constraints, an index the columns of its table.  Statements are executed one by
    one; each may fail, and before each one other processes, which may be opening the same
    file, may have changed the schema.  The rows of the tables are in [Sqlite]. *)

From S2P Require Import Prelude GoLib GoText.
Local Open Scope Z_scope.

(** ** The schema and the statements on it *)

(** A column: its name and its declaration. *)
Definition column : Type := string * string.
Record table := mkTable { tb_columns : list column; tb_constraints : list string }.
Record schema := mkSchema {
  sc_tables : gmap string table;
  sc_indexes : gmap string (string * list string);   (** the table and its columns *)
}.
#[export] Instance schema_settable : Settable schema := λ s, mkSchema (sc_tables s) (sc_indexes s).
Definition new_schema : schema := mkSchema ∅ ∅.

Inductive statement :=
  | Pragma (name value : string)
  | CreateTable (name : string) (columns : list column) (constraints : list string)
  | CreateIndex (name tbl : string) (columns : list string)
  | AddColumn (tbl : string) (col : column).

(** What SQLite does with a statement: the [IF NOT EXISTS] of the source is part of
    [CREATE TABLE] and [CREATE INDEX]; tables and indexes share their names.  All names
    are lower case, so that comparing them exactly is enough. *)
Definition exec_schema (stmt : statement) (s : schema) : result schema :=
  match stmt with
  | Pragma _ _ => Ok s
  | CreateTable name columns constraints =>
      if bool_decide (is_Some (sc_indexes s !! name))
      then Err ("there is already an index named " +:+ name) else
      match sc_tables s !! name with
      | Some _ => Ok s
      | None => Ok (s <| sc_tables := <[name := mkTable columns constraints]> (sc_tables s) |>)
      end
  | CreateIndex name tbl columns =>
      match sc_indexes s !! name, sc_tables s !! name, sc_tables s !! tbl with
      | Some _, _, _ => Ok s
      | None, Some _, _ => Err ("there is already a table named " +:+ name)
      | None, None, None => Err ("no such table: main." +:+ tbl)
      | None, None, Some t =>
          if bool_decide (columns ⊆ (tb_columns t).*1)
          then Ok (s <| sc_indexes := <[name := (tbl, columns)]> (sc_indexes s) |>)
          else Err ("table " +:+ tbl +:+ " has no such column")
      end
  | AddColumn tbl col =>
      match sc_tables s !! tbl with
      | None => Err ("no such table: " +:+ tbl)
      | Some t =>
          if bool_decide (col.1 ∈ (tb_columns t).*1) then Err ("duplicate column name: " +:+ col.1)
          else Ok (s <| sc_tables := <[tbl := mkTable (tb_columns t ++ [col]) (tb_constraints t)]>
                                       (sc_tables s) |>)
      end
  end.

(** ** The lists of statements of the source *)

Definition pragmas : list statement :=
  [Pragma "busy_timeout" "5000"; Pragma "journal_mode" "WAL"; Pragma "synchronous" "NORMAL";
   Pragma "foreign_keys" "ON"].
Definition workflows_columns : list column :=
  [("id", "TEXT PRIMARY KEY"); ("payload", "TEXT NOT NULL"); ("updated_at", "INTEGER NOT NULL")].
Definition runs_columns : list column :=
  [("id", "TEXT PRIMARY KEY"); ("workflow_id", "TEXT NOT NULL");
   ("request_id", "TEXT NOT NULL DEFAULT ''"); ("started_at", "INTEGER NOT NULL");
   ("payload", "TEXT NOT NULL"); ("updated_at", "INTEGER NOT NULL")].
Definition run_queue_columns : list column :=
  [("id", "TEXT PRIMARY KEY"); ("workflow_id", "TEXT NOT NULL"); ("run_id", "TEXT NOT NULL");
   ("request_id", "TEXT NOT NULL DEFAULT ''"); ("status", "TEXT NOT NULL");
   ("attempts", "INTEGER NOT NULL"); ("max_attempts", "INTEGER NOT NULL");
   ("last_error", "TEXT NOT NULL"); ("lease_owner", "TEXT NOT NULL");
   ("lease_until", "INTEGER NOT NULL"); ("available_at", "INTEGER NOT NULL");
   ("created_at", "INTEGER NOT NULL"); ("updated_at", "INTEGER NOT NULL")].
Definition transitions_columns : list column :=
  [("id", "INTEGER PRIMARY KEY AUTOINCREMENT"); ("job_id", "TEXT NOT NULL");
   ("from_status", "TEXT NOT NULL"); ("to_status", "TEXT NOT NULL"); ("reason", "TEXT NOT NULL");
   ("actor", "TEXT NOT NULL"); ("created_at", "INTEGER NOT NULL")].
Definition transitions_constraints : list string :=
  ["FOREIGN KEY(job_id) REFERENCES run_queue(id) ON DELETE CASCADE"].
Definition stmts : list statement :=
  [CreateTable "workflows" workflows_columns [];
   CreateTable "runs" runs_columns [];
   CreateIndex "idx_runs_workflow_started" "runs" ["workflow_id"; "started_at"];
   CreateIndex "idx_runs_request_workflow" "runs" ["request_id"; "workflow_id"];
   CreateTable "run_queue" run_queue_columns [];
   CreateIndex "idx_run_queue_state" "run_queue" ["status"; "available_at"; "created_at"];
   CreateIndex "idx_run_queue_request" "run_queue" ["workflow_id"; "request_id"];
   CreateTable "run_queue_transitions" transitions_columns transitions_constraints;
   CreateIndex "idx_run_queue_transitions_job_created" "run_queue_transitions"
     ["job_id"; "created_at"]].
(** The columns that later versions added to run_queue. *)
Definition replay_columns : list column :=
  [("replay_count", "INTEGER NOT NULL DEFAULT 0"); ("replayed_by", "TEXT NOT NULL DEFAULT ''");
   ("replay_reason", "TEXT NOT NULL DEFAULT ''"); ("replayed_at", "INTEGER NOT NULL DEFAULT 0")].
Definition alters : list statement := AddColumn "run_queue" <$> replay_columns.

(** ** Executing them *)

(** The environment of an opening: what the operating system and the driver say to the
    path, the error of the call number [k] of [ExecContext] that does not come from the
    schema, and what others did to the schema before that call. *)
Record open_env := mkOpenEnv {
  oe_mkdir : string → result unit;   (** [os.MkdirAll(filepath.Dir(path))] *)
  oe_open : string → result unit;    (** [sql.Open] *)
  oe_err : nat → statement → option string;
  oe_other : nat → schema → schema;
}.
(** The connection: the calls made, the time slept, the schema of the file, the pragmas
    set, whether [Close] was called. *)
Record connection := mkConnection {
  cn_calls : nat;
  cn_slept : duration;
  cn_schema : schema;
  cn_pragmas : list (string * string);
  cn_closed : bool;
}.
#[export] Instance connection_settable : Settable connection := λ c,
  mkConnection (cn_calls c) (cn_slept c) (cn_schema c) (cn_pragmas c) (cn_closed c).

Definition isSQLiteBusyError (err : string) : bool :=
  let message := ToLower err in
  Contains message "sqlite_busy" || Contains message "database is locked".

Section open.
Context (env : open_env).

(** [db.ExecContext(ctx, stmt)] *)
Definition exec (stmt : statement) (c : connection) : result unit * connection :=
  let k := cn_calls c in
  let c := c <| cn_calls := S k |> <| cn_schema := oe_other env k (cn_schema c) |> in
  match oe_err env k stmt with
  | Some e => (Err e, c)
  | None =>
      match exec_schema stmt (cn_schema c) with
      | Err e => (Err e, c)
      | Ok s =>
          let c := c <| cn_schema := s |> in
          (Ok tt, match stmt with
                  | Pragma n v => c <| cn_pragmas := cn_pragmas c ++ [(n, v)] |>
                  | _ => c
                  end)
      end
  end.

(** The loop of execWithBusyRetry with [left_] attempts left. *)
Fixpoint busy_loop (left_ : nat) (lastErr : option string) (stmt : statement) (c : connection) :
    result unit * connection :=
  match left_ with
  | O => (Err (default "sqlite busy retry exhausted" lastErr), c)
  | S left_ =>
      match exec stmt c with
      | (Ok _, c) => (Ok tt, c)
      | (Err err, c) =>
          if negb (isSQLiteBusyError err) then (Err err, c)
          else busy_loop left_ (Some err) stmt (c <| cn_slept := cn_slept c + 100 * Millisecond |>)
      end
  end.
Definition execWithBusyRetry (stmt : statement) (c : connection) : result unit * connection :=
  busy_loop 20 None stmt c.
Definition execIgnoreDuplicateColumn (stmt : statement) (c : connection) :
    result unit * connection :=
  match exec stmt c with
  | (Ok _, c) => (Ok tt, c)
  | (Err err, c) =>
      if Contains (ToLower err) "duplicate column name" then (Ok tt, c) else (Err err, c)
  end.

(** [for _, stmt := range stmts { if err := f(stmt); err != nil { return err } }] *)
Fixpoint exec_all (f : statement → connection → result unit * connection) (l : list statement)
    (c : connection) : result unit * connection :=
  match l with
  | [] => (Ok tt, c)
  | stmt :: l =>
      match f stmt c with
      | (Err err, c) => (Err err, c)
      | (Ok _, c) => exec_all f l c
      end
  end.
Definition migrate (c : connection) : result unit * connection :=
  match exec_all execWithBusyRetry stmts c with
  | (Err err, c) => (Err err, c)
  | (Ok _, c) => exec_all execIgnoreDuplicateColumn alters c
  end.
Definition Close (c : connection) : connection := c <| cn_closed := true |>.
(** On a file with this schema. *)
Definition NewSQLiteStore (dbPath : string) (s : schema) : result unit * connection :=
  let c := mkConnection 0 0 s [] false in
  if bool_decide (dbPath = "") then (Err "dbPath is required", c) else
  match oe_mkdir env dbPath with
  | Err err => (Err err, c)
  | Ok _ =>
      match oe_open env dbPath with
      | Err err => (Err err, c)
      | Ok _ =>
          match exec_all execWithBusyRetry pragmas c with
          | (Err err, c) => (Err err, Close c)
          | (Ok _, c) =>
              match migrate c with
              | (Err err, c) => (Err err, Close c)
              | (Ok _, c) => (Ok tt, c)
              end
          end
      end
  end.
End open.

(** ** The schemas on the way *)

#[local] Arguments run_queue_columns : simpl never.
#[local] Arguments replay_columns : simpl never.
Definition base : gmap string table :=
  list_to_map [("workflows", mkTable workflows_columns []); ("runs", mkTable runs_columns []);
    ("run_queue", mkTable run_queue_columns []);
    ("run_queue_transitions", mkTable transitions_columns transitions_constraints)].
Definition added (name : string) : list column :=
  if bool_decide (name = "run_queue") then replay_columns else [].
Definition upgraded (k : nat) (name : string) (t : table) : table :=
  mkTable (tb_columns t ++ take k (added name)) (tb_constraints t).
Definition indexes : gmap string (string * list string) :=
  list_to_map [("idx_runs_workflow_started", ("runs", ["workflow_id"; "started_at"]));
    ("idx_runs_request_workflow", ("runs", ["request_id"; "workflow_id"]));
    ("idx_run_queue_state", ("run_queue", ["status"; "available_at"; "created_at"]));
    ("idx_run_queue_request", ("run_queue", ["workflow_id"; "request_id"]));
    ("idx_run_queue_transitions_job_created", ("run_queue_transitions", ["job_id"; "created_at"]))].
(** What a finished migration leaves. *)
Definition complete : schema := mkSchema (map_imap (λ name t, Some (upgraded 4 name t)) base) indexes.
(** What a migration that stopped anywhere, or an older version, may have left: some of
    the tables, run_queue with some of the later columns, some of the indexes. *)
Definition partial (s : schema) : Prop :=
  map_Forall (λ name t, ∃ b k, base !! name = Some b ∧ t = upgraded k name b) (sc_tables s) ∧
  sc_indexes s ⊆ indexes.
(** Nothing is dropped. *)
Definition grows (s s' : schema) : Prop :=
  (∀ name t, sc_tables s !! name = Some t → ∃ t' more, sc_tables s' !! name = Some t' ∧
     tb_columns t' = tb_columns t ++ more ∧ tb_constraints t' = tb_constraints t) ∧
  sc_indexes s ⊆ sc_indexes s'.
#[export] Instance grows_preorder : PreOrder grows.
Proof.
  split.
  - intros s. split; [|done]. intros name t Ht. exists t, []. by rewrite app_nil_r.
  - intros s1 s2 s3 [T1 I1] [T2 I2]. split; [|by etrans]. intros name t Ht.
    destruct (T1 name t Ht) as (t2 & m & H2 & E2 & C2).
    destruct (T2 name t2 H2) as (t3 & m' & H3 & E3 & C3).
    exists t3, (m ++ m'). by rewrite E3, E2, C3, C2, app_assoc.
Qed.

(** What a statement is there for. *)
Definition has (s : schema) (ps : list (string * string)) (stmt : statement) : Prop :=
  match stmt with
  | Pragma n v => (n, v) ∈ ps
  | CreateTable name _ _ => is_Some (sc_tables s !! name)
  | CreateIndex name tbl columns => sc_indexes s !! name = Some (tbl, columns)
  | AddColumn tbl col => ∃ t, sc_tables s !! tbl = Some t ∧ col ∈ tb_columns t
  end.
Lemma has_grows s s' ps ps' stmt : grows s s' → ps ⊆ ps' → has s ps stmt → has s' ps' stmt.
Proof.
  intros [Ht Hi] Hps. destruct stmt; simpl.
  - by apply Hps.
  - intros [t Hs]. destruct (Ht _ _ Hs) as (t' & _ & H' & _). eauto.
  - intros Hs. by apply (lookup_weaken _ _ _ _ Hs).
  - intros (t & Hs & Hc). destruct (Ht _ _ Hs) as (t' & more & H' & E & _).
    exists t'. split; [done|]. rewrite E. apply elem_of_app. by left.
Qed.

(** All the statements, in their order. *)
Definition plan : list statement := pragmas ++ stmts ++ alters.

Lemma grows_insert_table s name t :
  sc_tables s !! name = None → grows s (s <| sc_tables := <[name := t]> (sc_tables s) |>).
Proof.
  intros Hn. split; [|done]. intros name' t' Ht'. exists t', [].
  simpl. rewrite lookup_insert_ne by congruence. by rewrite app_nil_r.
Qed.
Lemma run_queue_table s : partial s → is_Some (sc_tables s !! "run_queue") →
  ∃ j, (j ≤ 4)%nat ∧ sc_tables s !! "run_queue" =
    Some (mkTable (run_queue_columns ++ take j replay_columns) []).
Proof.
  intros [Hp _] [t Ht]. destruct (Hp _ _ Ht) as (b & k & Hb & ->).
  vm_compute in Hb. injection Hb as <-. exists (Nat.min k 4). split; [lia|].
  assert (Hk : take k replay_columns = take (Nat.min k 4) replay_columns).
  { destruct k as [|[|[|[|k]]]]; [done..|]. by destruct k. }
  rewrite Ht. unfold upgraded, added. rewrite bool_decide_true by done. by rewrite Hk.
Qed.
(** Adding column [k] once the first [k] are there. *)
Lemma add_column_step s k col j : partial s → replay_columns !! k = Some col → (k ≤ j)%nat →
  sc_tables s !! "run_queue" = Some (mkTable (run_queue_columns ++ take j replay_columns) []) →
  match exec_schema (AddColumn "run_queue" col) s with
  | Ok s' => partial s' ∧ grows s s' ∧ ∀ ps, has s' ps (AddColumn "run_queue" col)
  | Err e => e = "duplicate column name: " +:+ col.1 ∧ ∀ ps, has s ps (AddColumn "run_queue" col)
  end.
Proof.
  intros [Hp Hi] Hk Hj Hs. simpl. rewrite Hs. simpl. pose proof (lookup_lt_Some _ _ _ Hk) as Hlt.
  destruct (decide (k = j)) as [<-|Hne].
  - rewrite bool_decide_false.
    2:{ assert (Hk' : (k = 0 ∨ k = 1 ∨ k = 2 ∨ k = 3)%nat) by (simpl in Hlt; lia).
        destruct Hk' as [-> |[-> |[-> | ->]]]; injection Hk as <-; apply (bool_decide_unpack _); vm_compute; exact I. }
    assert (Ht : take (S k) replay_columns = take k replay_columns ++ [col]) by by apply take_S_r.
    split; [split; [|done]|split; [split; [|done]|]].
    + simpl. apply map_Forall_insert_2; [|done].
      exists (mkTable run_queue_columns []), (S k). split; [by vm_compute|].
      unfold upgraded, added. cbn [tb_columns tb_constraints]. rewrite bool_decide_true by done. rewrite Ht.
      exact (f_equal (λ c, mkTable c []) (eq_sym (app_assoc run_queue_columns _ _))).
    + intros name t Hn. simpl. destruct (decide (name = "run_queue")) as [-> |Hq].
      * rewrite lookup_insert_eq. rewrite Hs in Hn. injection Hn as <-. eauto.
      * rewrite lookup_insert_ne by done. exists t, []. by rewrite app_nil_r.
    + intros _. simpl. eexists. rewrite lookup_insert_eq. split; [done|].
      apply (proj2 (elem_of_app (run_queue_columns ++ take k replay_columns) [col] col)). right. by left.
  - assert (Hin : col ∈ run_queue_columns ++ take j replay_columns).
    { apply elem_of_app. right. apply list_elem_of_lookup. exists k. by rewrite lookup_take_lt by lia. }
    rewrite bool_decide_true.
    2:{ exact (list_elem_of_fmap_2 fst _ _ Hin). }
    split; [done|]. intros _. simpl. eauto.
Qed.
Lemma names_apart : map_Forall (λ name _, indexes !! name = None) base.
Proof. apply (bool_decide_unpack _). vm_compute. exact I. Qed.
Lemma create_table_step s name b : partial s → base !! name = Some b →
  ∃ s', exec_schema (CreateTable name (tb_columns b) (tb_constraints b)) s = Ok s' ∧
    partial s' ∧ grows s s' ∧ is_Some (sc_tables s' !! name).
Proof.
  intros [Hp Hi] Hb. pose proof (names_apart _ _ Hb) as Hno. simpl in Hno.
  simpl. rewrite bool_decide_false.
  2:{ intros [ix Hix]. apply (lookup_weaken _ _ _ _) with (2 := Hi) in Hix. congruence. }
  destruct (sc_tables s !! name) as [t|] eqn:Ht; [exists s; split; [done|]; split; [by split|]; split; [done|by rewrite Ht]|].
  eexists. split; [done|]. split; [split; [|done]|split; [by apply grows_insert_table|]].
  - simpl. apply map_Forall_insert_2; [|done]. exists b, 0%nat. split; [done|].
    unfold upgraded. rewrite take_0, app_nil_r. by destruct b.
  - simpl. rewrite lookup_insert_eq. eauto.
Qed.
(** Every table an index is on has its columns from the start. *)
Lemma indexes_covered : map_Forall (λ name ix, base !! name = None ∧
  ix.2 ⊆ (default [] (tb_columns <$> base !! ix.1)).*1) indexes.
Proof. apply (bool_decide_unpack _). vm_compute. exact I. Qed.
Lemma create_index_step s name tbl columns : partial s →
  indexes !! name = Some (tbl, columns) → is_Some (sc_tables s !! tbl) →
  ∃ s', exec_schema (CreateIndex name tbl columns) s = Ok s' ∧
    partial s' ∧ grows s s' ∧ sc_indexes s' !! name = Some (tbl, columns).
Proof.
  intros [Hp Hi] Hix [t Ht]. simpl. rewrite Ht.
  destruct (indexes_covered _ _ Hix) as [Hno Hcov]. simpl in Hcov.
  destruct (sc_indexes s !! name) as [ix|] eqn:Hs.
  { exists s. split; [done|]. split; [by split|]. split; [done|]. rewrite Hs. by rewrite <-Hix, (lookup_weaken _ _ _ _ Hs Hi). }
  destruct (sc_tables s !! name) as [t'|] eqn:Ht'.
  { destruct (Hp _ _ Ht') as (b & k & Hb & _). congruence. }
  destruct (Hp _ _ Ht) as (b & k & Hb & ->). rewrite Hb in Hcov.
  rewrite bool_decide_true.
  2:{ intros c Hc. simpl. rewrite fmap_app. apply elem_of_app. left. by apply Hcov. }
  eexists. split; [done|]. split; [|split; [split; [|]|]].
  - split; [done|]. simpl. by apply insert_subseteq_l.
  - intros n t Hn. exists t, []. by rewrite app_nil_r.
  - simpl. by apply insert_subseteq.
  - simpl. by rewrite lookup_insert_eq.
Qed.

Lemma plan_cases i stmt : plan !! i = Some stmt →
  (∃ n v, stmt = Pragma n v) ∨
  (∃ name b, base !! name = Some b ∧ stmt = CreateTable name (tb_columns b) (tb_constraints b)) ∨
  (∃ name tbl cols j cols' cs', indexes !! name = Some (tbl, cols) ∧ stmt = CreateIndex name tbl cols ∧
     (j < i)%nat ∧ plan !! j = Some (CreateTable tbl cols' cs')) ∨
  (∃ k col, replay_columns !! k = Some col ∧ stmt = AddColumn "run_queue" col ∧ i = (13 + k)%nat).
Proof.
  intros Hi.
  do 4 (destruct i as [|i]; [left; injection Hi as <-; eauto|]).
  do 2 (destruct i as [|i]; [right; left; injection Hi as <-; eexists _, (mkTable _ _); split; [|done];
    by vm_compute|]).
  do 2 (destruct i as [|i]; [right; right; left; injection Hi as <-;
    eexists _, _, _, 5%nat, _, _; split; [|split; [done|split; [lia|done]]]; by vm_compute|]).
  destruct i as [|i]; [right; left; injection Hi as <-; eexists _, (mkTable _ _); split; [|done];
    by vm_compute|].
  do 2 (destruct i as [|i]; [right; right; left; injection Hi as <-;
    eexists _, _, _, 8%nat, _, _; split; [|split; [done|split; [lia|done]]]; by vm_compute|]).
  destruct i as [|i]; [right; left; injection Hi as <-; eexists _, (mkTable _ _); split; [|done];
    by vm_compute|].
  destruct i as [|i]; [right; right; left; injection Hi as <-;
    eexists _, _, _, 11%nat, _, _; split; [|split; [done|split; [lia|done]]]; by vm_compute|].
  do 3 right. change (alters !! i = Some stmt) in Hi. unfold alters in Hi.
  rewrite list_lookup_fmap in Hi. destruct (replay_columns !! i) as [col|] eqn:Hc; [|done].
  injection Hi as <-. by exists i, col.
Qed.
(** Column [k] is there only when more than [k] of them are. *)
Lemma column_index k j col : replay_columns !! k = Some col → (j ≤ 4)%nat →
  col ∈ run_queue_columns ++ take j replay_columns → (k < j)%nat.
Proof.
  intros Hk Hj Hin. destruct (decide (k < j)%nat) as [|Hle]; [done|]. exfalso. revert Hin.
  pose proof (lookup_lt_Some _ _ _ Hk) as Hlt. change (k < 4)%nat in Hlt.
  destruct k as [|[|[|[|k]]]]; [..|lia]; injection Hk as <-;
    (destruct j as [|[|[|[|j]]]]; [..|lia]; try lia); apply (bool_decide_unpack _); vm_compute; exact I.
Qed.

(** One statement of the plan, when those before it have been executed. *)
Lemma plan_step s ps i stmt : partial s → plan !! i = Some stmt → Forall (has s ps) (take i plan) →
  match exec_schema stmt s with
  | Ok s' => partial s' ∧ grows s s' ∧
      ∀ ps', (∀ n v, stmt = Pragma n v → (n, v) ∈ ps') → has s' ps' stmt
  | Err e => has s ps stmt ∧ ∃ col, col ∈ replay_columns ∧ stmt = AddColumn "run_queue" col ∧
      e = "duplicate column name: " +:+ col.1
  end.
Proof.
  intros Hp Hi Hdone.
  assert (Hhas : ∀ j st, (j < i)%nat → plan !! j = Some st → has s ps st).
  { intros j st Hj Hst. apply (proj1 (Forall_lookup _ _) Hdone j). by rewrite lookup_take_lt. }
  destruct (plan_cases i stmt Hi) as [(n & v & ->)|[(name & b & Hb & ->)|
    [(name & tbl & cols & j & cols' & cs' & Hix & -> & Hj & Ht)|(k & col & Hk & -> & ->)]]].
  - split; [done|]. split; [done|]. intros ps' H'. by apply H'.
  - destruct (create_table_step s name b Hp Hb) as (s' & -> & ? & ? & ?). done.
  - destruct (create_index_step s name tbl cols Hp Hix (Hhas j _ Hj Ht)) as (s' & -> & ? & ? & ?). done.
  - destruct (run_queue_table s Hp) as (j & Hj & Ht).
    { apply (Hhas 8%nat (CreateTable "run_queue" run_queue_columns [])); [lia|done]. }
    assert (Hkj : (k ≤ j)%nat).
    { destruct k as [|k]; [lia|]. destruct (replay_columns !! k) as [col'|] eqn:Hc.
      2:{ apply lookup_ge_None in Hc. apply lookup_lt_Some in Hk. lia. }
      destruct (Hhas (13 + k)%nat (AddColumn "run_queue" col')) as (t & Ht' & Hin); [lia| |].
      { change (alters !! k = Some (AddColumn "run_queue" col')). unfold alters.
        by rewrite list_lookup_fmap, Hc. }
      rewrite Ht in Ht'. injection Ht' as <-. exact (column_index k j col' Hc Hj Hin). }
    pose proof (add_column_step s k col j Hp Hk Hkj Ht) as Hadd.
    destruct (exec_schema _ s) as [s'|e].
    + destruct Hadd as (? & ? & ?). split_and!; [done..|]. intros ps' _. auto.
    + destruct Hadd as (-> & Hh). split; [apply Hh|]. exists col. split; [|done].
      by apply list_elem_of_lookup_2 with k.
Qed.
#[local] Instance statement_eq_dec : EqDecision statement.
Proof. solve_decision. Defined.
Lemma tables_planned :
  map_Forall (λ name b, CreateTable name (tb_columns b) (tb_constraints b) ∈ plan) base.
Proof. apply (bool_decide_unpack _). vm_compute. exact I. Qed.
Lemma indexes_planned : map_Forall (λ name ix, CreateIndex name ix.1 ix.2 ∈ plan) indexes.
Proof. apply (bool_decide_unpack _). vm_compute. exact I. Qed.
Lemma complete_of s ps : partial s → Forall (has s ps) plan → s = complete.
Proof.
  intros Hp Hall. pose proof (proj1 (Forall_forall _ _) Hall) as Hhas.
  pose proof (run_queue_table s Hp (Hhas _ (tables_planned "run_queue" _ eq_refl))) as (j & Hj & Hq).
  assert (Hj4 : (3 < j)%nat).
  { destruct (Hhas (AddColumn "run_queue" ("replayed_at", "INTEGER NOT NULL DEFAULT 0"))) as (t & Ht & Hin).
    { by apply (list_elem_of_lookup_2 plan 16). }
    rewrite Hq in Ht. injection Ht as <-. by apply (column_index 3 j _ eq_refl Hj Hin). }
  destruct Hp as [Hp Hi]. destruct s as [tables ixs]. unfold complete. simpl in *. f_equal.
  - apply map_eq. intros name. rewrite map_lookup_imap.
    destruct (base !! name) as [b|] eqn:Hb; simpl.
    2:{ destruct (tables !! name) eqn:Ht; [|done]. destruct (Hp _ _ Ht) as (? & ? & ? & _). congruence. }
    destruct (Hhas _ (tables_planned name b Hb)) as [t Ht]. simpl in Ht. rewrite Ht.
    destruct (Hp _ _ Ht) as (b' & k & Hb' & ->). rewrite Hb in Hb'. injection Hb' as <-. f_equal.
    destruct (decide (name = "run_queue")) as [-> |Hne].
    + rewrite Hq in Ht. injection Ht as Hc _. vm_compute in Hb. injection Hb as <-.
      unfold upgraded. cbn [tb_columns tb_constraints] in *. rewrite <-Hc.
      replace j with 4%nat by lia. done.
    + unfold upgraded, added. rewrite bool_decide_false by done. by rewrite !take_nil.
  - apply (anti_symm (⊆)); [done|]. apply map_subseteq_spec. intros name [tbl cols] Hix.
    exact (Hhas _ (indexes_planned name (tbl, cols) Hix)).
Qed.

(** ** Opening *)

(** What others do to the schema keeps it a partial one and drops nothing (another opening
    of the file does just that); that a column exists is only reported when it
    does. *)
Record driver (env : open_env) : Prop := {
  dv_other : ∀ k s, partial s → partial (oe_other env k s) ∧ grows s (oe_other env k s);
  dv_err : ∀ k stmt e, oe_err env k stmt = Some e →
    Contains (ToLower e) "duplicate column name" = false;
}.
(** The database is busy now and then, but never for 20 calls in a row, and never when a
    column is added. *)
Record patient (env : open_env) : Prop := {
  pt_busy : ∀ k stmt e, oe_err env k stmt = Some e → isSQLiteBusyError e = true;
  pt_alter : ∀ k tbl col, oe_err env k (AddColumn tbl col) = None;
  pt_turn : ∀ k, ∃ j, (k ≤ j < k + 20)%nat ∧ ∀ stmt, oe_err env j stmt = None;
}.

Section opening.
Context (env : open_env) (Hdriver : driver env).
#[local] Set Default Proof Using "Hdriver".

(** The first [i] statements of the plan have been executed. *)
Definition good (i : nat) (c : connection) : Prop :=
  partial (cn_schema c) ∧ Forall (has (cn_schema c) (cn_pragmas c)) (take i plan).
(** From [c] to [c'] in at most [n] calls and [d] of sleep. *)
Definition goes (n : nat) (d : duration) (c c' : connection) : Prop :=
  grows (cn_schema c) (cn_schema c') ∧ (cn_calls c' ≤ cn_calls c + n)%nat ∧
  cn_slept c' ≤ cn_slept c + d ∧ cn_closed c' = cn_closed c.
Lemma goes_trans n1 d1 n2 d2 c1 c2 c3 :
  goes n1 d1 c1 c2 → goes n2 d2 c2 c3 → goes (n1 + n2) (d1 + d2) c1 c3.
Proof. intros (? & ? & ? & ?) (? & ? & ? & ?). split; [by etrans|]. split_and!; [lia|lia|congruence]. Qed.

Lemma good_next i stmt c : plan !! i = Some stmt → good i c →
  has (cn_schema c) (cn_pragmas c) stmt → good (S i) c.
Proof using.
  intros Hi [Hp Hd] Hh. split; [done|]. rewrite (take_S_r _ _ _ Hi). apply Forall_app_2; [done|].
  by apply Forall_singleton.
Qed.
Lemma exec_good i stmt c : plan !! i = Some stmt → good i c →
  let '(r, c') := exec env stmt c in
  good i c' ∧ goes 1 0 c c' ∧ cn_calls c' = S (cn_calls c) ∧
  match r with
  | Ok _ => good (S i) c'
  | Err e => oe_err env (cn_calls c) stmt = Some e ∨
      good (S i) c' ∧ ∃ col, col ∈ replay_columns ∧ stmt = AddColumn "run_queue" col ∧
        e = "duplicate column name: " +:+ col.1
  end.
Proof.
  intros Hi [Hp Hdone]. unfold exec. simpl.
  destruct (dv_other _ Hdriver (cn_calls c) _ Hp) as [Hp1 Hg1].
  set (s1 := oe_other env (cn_calls c) (cn_schema c)) in *.
  assert (Hdone1 : Forall (has s1 (cn_pragmas c)) (take i plan)).
  { eapply Forall_impl; [exact Hdone|]. intros st. by apply has_grows. }
  assert (Hgo : ∀ s' ps', grows s1 s' → goes 1 0 c (mkConnection (S (cn_calls c)) (cn_slept c) s' ps' (cn_closed c))).
  { intros s' ps' Hs'. split_and!; simpl; [by etrans|lia|lia|done]. }
  destruct (oe_err env (cn_calls c) stmt) as [e|].
  { split; [done|]. split; [by apply Hgo|]. split; [done|by left]. }
  pose proof (plan_step s1 (cn_pragmas c) i stmt Hp1 Hi Hdone1) as Hstep.
  destruct (exec_schema stmt s1) as [s2|e].
  2:{ destruct Hstep as (Hh & Hcol). split; [done|]. split; [by apply Hgo|]. split; [done|]. right.
      split; [|done]. by apply (good_next i stmt). }
  destruct Hstep as (Hp2 & Hg2 & Hh).
  set (c2 := match stmt with Pragma _ _ => _ | _ => _ end).
  assert (Hc2 : ∃ ps, c2 = mkConnection (S (cn_calls c)) (cn_slept c) s2 ps (cn_closed c) ∧
    cn_pragmas c ⊆ ps ∧ has s2 ps stmt).
  { exists (match stmt with Pragma n v => cn_pragmas c ++ [(n, v)] | _ => cn_pragmas c end).
    split; [by destruct stmt|]. split.
    - intros p Hin. destruct stmt; [apply elem_of_app; by left|done..].
    - apply Hh. intros n v ->. apply elem_of_app. right. by left. }
  destruct Hc2 as (ps & -> & Hps & Hst).
  assert (Hdone2 : Forall (has s2 ps) (take i plan)).
  { eapply Forall_impl; [exact Hdone1|]. intros st. by apply has_grows. }
  split; [by split|]. split; [by apply Hgo|]. split; [done|]. by apply (good_next i stmt).
Qed.

Lemma busy_loop_good left_ lastErr i stmt c :
  plan !! i = Some stmt → (∀ tbl col, stmt ≠ AddColumn tbl col) → good i c →
  let '(r, c') := busy_loop env left_ lastErr stmt c in
  good i c' ∧ goes left_ (Z.of_nat left_ * (100 * Millisecond)) c c' ∧
  (r = Ok tt → good (S i) c') ∧
  (patient env → (∃ j, (cn_calls c ≤ j < cn_calls c + left_)%nat ∧ ∀ stmt, oe_err env j stmt = None) →
   r = Ok tt).
Proof.
  intros Hi Hst. revert lastErr c. induction left_ as [|left_ IH]; intros lastErr c Hg; simpl.
  { split; [done|]. split; [split_and!; [done|lia|lia|done]|]. split; [done|]. intros _ (j & Hj & _). lia. }
  pose proof (exec_good i stmt c Hi Hg) as Hx. destruct (exec env stmt c) as [[[]|e] c1].
  { destruct Hx as (Hg1 & (? & ? & ? & ?) & _ & Hg'). split; [done|]. split; [|done].
    split_and!; [done|lia| |done]. unfold Millisecond. lia. }
  destruct Hx as (Hg1 & (Hgr & Hcalls & Hsl & Hcl) & Hcalls1 & Herr).
  destruct Herr as [Herr|(_ & col & _ & -> & _)]; [|by destruct (Hst "run_queue" col)].
  destruct (isSQLiteBusyError e) eqn:Hb; simpl.
  2:{ split; [done|]. split; [|split; [done|]].
      - split_and!; [done|lia| |done]. unfold Millisecond. lia.
      - intros Hpt _. by rewrite (pt_busy _ Hpt _ _ _ Herr) in Hb. }
  match goal with |- context [busy_loop env left_ (Some e) stmt ?c] => specialize (IH (Some e) c Hg1) end.
  destruct (busy_loop _ _ _ _ _) as [r c2]. destruct IH as (Hg2 & (Hgr2 & Hc2 & Hs2 & Hcl2) & Hok & Hpat).
  simpl in *. split; [done|]. split; [|split; [done|]].
  - split_and!; [by etrans|lia|lia|congruence].
  - intros Hpt (j & Hj & Hno). apply Hpat; [done|]. exists j. split; [|done].
    destruct (decide (j = cn_calls c)) as [-> |]; [by rewrite Hno in Herr|]. lia.
Qed.

(** Executing a stretch of the plan. *)
Definition runs_plan (f : statement → connection → result unit * connection) (n : nat) (d : duration)
    (i : nat) (stmt : statement) : Prop :=
  ∀ c, good i c → let '(r, c') := f stmt c in
    good i c' ∧ goes n d c c' ∧ (r = Ok tt → good (S i) c') ∧ (patient env → r = Ok tt).
Lemma retry_runs i stmt : plan !! i = Some stmt → (∀ tbl col, stmt ≠ AddColumn tbl col) →
  runs_plan (execWithBusyRetry env) 20 (2 * Second) i stmt.
Proof.
  intros Hi Hst c Hg. pose proof (busy_loop_good 20 None i stmt c Hi Hst Hg) as Hl.
  unfold execWithBusyRetry. destruct (busy_loop _ _ _ _ _) as [r c']. destruct Hl as (? & ? & ? & Hp).
  split_and!; [done..|]. intros Hpt. apply Hp; [done|]. apply (pt_turn _ Hpt).
Qed.
Lemma ignore_runs i col : plan !! i = Some (AddColumn "run_queue" col) →
  runs_plan (execIgnoreDuplicateColumn env) 1 0 i (AddColumn "run_queue" col).
Proof.
  intros Hi c Hg. pose proof (exec_good i _ c Hi Hg) as Hx. unfold execIgnoreDuplicateColumn.
  destruct (exec _ _ _) as [[[]|e] c1]; destruct Hx as (Hg1 & Hgo & _ & Hr); [done|].
  destruct Hr as [Herr|(Hg2 & col' & Hcol & [= ->] & ->)].
  - rewrite (dv_err _ Hdriver _ _ _ Herr). split_and!; [done..|].
    intros Hpt. by rewrite (pt_alter _ Hpt) in Herr.
  - assert (Hdup : Forall (λ col, Contains (ToLower ("duplicate column name: " +:+ col.1))
      "duplicate column name" = true) replay_columns).
    { apply (bool_decide_unpack _). vm_compute. exact I. }
    rewrite (proj1 (Forall_forall _ _) Hdup col' Hcol). done.
Qed.
Lemma exec_all_runs f n d l i c :
  (∀ k stmt, l !! k = Some stmt → runs_plan f n d (i + k) stmt) → good i c → 0 ≤ d →
  let '(r, c') := exec_all f l c in
  partial (cn_schema c') ∧ goes (length l * n) (Z.of_nat (length l) * d) c c' ∧
  (r = Ok tt → good (i + length l) c') ∧ (patient env → r = Ok tt).
Proof.
  revert i c. induction l as [|stmt l IH]; intros i c Hl Hg Hd; simpl.
  { split; [by destruct Hg|]. split; [split_and!; [done|lia|lia|done]|]. by rewrite Nat.add_0_r. }
  pose proof (Hl 0%nat stmt eq_refl) as H0. rewrite Nat.add_0_r in H0. specialize (H0 c Hg).
  destruct (f stmt c) as [[[]|e] c1]; destruct H0 as (Hg1 & Hgo1 & Hok1 & Hpt1).
  2:{ split; [by destruct Hg1|]. split; [|done]. destruct Hgo1 as (? & ? & ? & ?). split_and!; [done|lia|lia|done]. }
  specialize (IH (S i) c1). destruct (exec_all f l c1) as [r c2].
  destruct IH as (Hp2 & Hgo2 & Hok2 & Hpt2); [|by apply Hok1|done|].
  { intros k st Hk. replace (S i + k)%nat with (i + S k)%nat by lia. by apply Hl. }
  split; [done|]. split; [|by rewrite <-Nat.add_succ_comm].
  replace (Z.of_nat (S (length l)) * d) with (d + Z.of_nat (length l) * d) by lia.
  by apply goes_trans with c1.
Qed.
Lemma pragmas_run k stmt : pragmas !! k = Some stmt →
  runs_plan (execWithBusyRetry env) 20 (2 * Second) (0 + k) stmt.
Proof.
  intros Hk. apply retry_runs; [by apply lookup_app_l_Some|].
  intros tbl col ->. apply list_elem_of_lookup_2 in Hk. revert Hk.
  apply (bool_decide_unpack _). vm_compute. exact I.
Qed.
Lemma stmts_run k stmt : stmts !! k = Some stmt →
  runs_plan (execWithBusyRetry env) 20 (2 * Second) (4 + k) stmt.
Proof.
  intros Hk. apply retry_runs.
  - change ((stmts ++ alters) !! k = Some stmt). by apply lookup_app_l_Some.
  - intros tbl col ->. apply list_elem_of_lookup_2 in Hk. revert Hk.
    apply (bool_decide_unpack _). vm_compute. exact I.
Qed.
Lemma alters_run k stmt : alters !! k = Some stmt →
  runs_plan (execIgnoreDuplicateColumn env) 1 0 (13 + k) stmt.
Proof.
  intros Hk. assert (∃ col, stmt = AddColumn "run_queue" col) as [col ->].
  { unfold alters in Hk. rewrite list_lookup_fmap in Hk. destruct (replay_columns !! k); [|done].
    injection Hk as <-. eauto. }
  by apply ignore_runs.
Qed.
End opening.

(** C25. Opening the database migrates it, from any version and after any interruption:
    if the schema is one that an older version or an unfinished migration left, and others
    only migrate it further, then whatever calls fail the schema is again such a one and
    nothing of it is dropped, with at most 264 calls and 26 seconds of sleep; an opening that
    succeeds leaves exactly the complete schema with all pragmas set, one that fails after its first
    call closes the connection, and it does succeed if the database is not busy for 20 calls
    in a row, nor when a column is added, and nothing else fails. *)
Theorem open_migrates env dbPath s : driver env → partial s →
  let '(r, c) := NewSQLiteStore env dbPath s in
  partial (cn_schema c) ∧ grows s (cn_schema c) ∧
  (cn_calls c ≤ 264)%nat ∧ cn_slept c ≤ 26 * Second ∧
  match r with
  | Ok _ => cn_schema c = complete ∧ cn_closed c = false ∧
      ∀ n v, Pragma n v ∈ pragmas → (n, v) ∈ cn_pragmas c
  | Err _ => cn_calls c = 0%nat ∨ cn_closed c = true
  end ∧
  (patient env → dbPath ≠ "" → oe_mkdir env dbPath = Ok tt → oe_open env dbPath = Ok tt → r = Ok tt).
Proof.
  intros Hd Hs. unfold NewSQLiteStore. set (c0 := mkConnection 0 0 s [] false).
  assert (Hquit : partial (cn_schema c0) ∧ grows s (cn_schema c0) ∧ (cn_calls c0 ≤ 264)%nat ∧
    cn_slept c0 ≤ 26 * Second ∧ (cn_calls c0 = 0%nat ∨ cn_closed c0 = true)).
  { split_and!; [done..|simpl; lia|unfold Second; simpl; lia|by left]. }
  destruct Hquit as (Q1 & Q2 & Q3 & Q4 & Q5).
  case_bool_decide; [split_and!; [done..|tauto]|].
  destruct (oe_mkdir env dbPath) as [[]|e]; [|split_and!; [done..|intros; congruence]].
  destruct (oe_open env dbPath) as [[]|e]; [|split_and!; [done..|intros; congruence]].
  pose proof (exec_all_runs env Hd _ 20 (2 * Second) pragmas 0 c0 (pragmas_run env Hd)) as R1.
  destruct (exec_all _ pragmas c0) as [r1 c1].
  destruct R1 as (P1 & (G1 & C1 & S1 & L1) & O1 & T1); [by split|done|].
  simpl length in *. unfold Second in *. simpl in G1, C1, S1, L1.
  destruct r1 as [[]|e1]; [|split_and!; [done|done|simpl; lia|simpl; lia|by right|naive_solver]].
  specialize (O1 eq_refl). clear T1. unfold migrate.
  pose proof (exec_all_runs env Hd _ 20 (2 * Second) stmts 4 c1 (stmts_run env Hd) O1) as R2.
  destruct (exec_all _ stmts c1) as [r2 c2].
  destruct R2 as (P2 & (G2 & C2 & S2 & L2) & O2 & T2); [done|]. simpl length in *. unfold Second in *.
  destruct r2 as [[]|e2]; [|split_and!; [done|by etrans|simpl; lia|simpl; lia|by right|naive_solver]].
  specialize (O2 eq_refl). clear T2.
  pose proof (exec_all_runs env Hd _ 1 0 alters 13 c2 (alters_run env Hd) O2) as R3.
  destruct (exec_all _ alters c2) as [r3 c3].
  destruct R3 as (P3 & (G3 & C3 & S3 & L3) & O3 & T3); [done|]. simpl length in *.
  destruct r3 as [[]|e3].
  2:{ split_and!; [done|simpl; by etrans; [|etrans]|simpl; lia|simpl; lia|by right|naive_solver]. }
  destruct (O3 eq_refl) as [_ Hall].
  split_and!; [done|by etrans; [|etrans]|lia|lia| | | |done].
  - exact (complete_of _ _ P3 Hall).
  - congruence.
  - intros n v Hn. apply (proj1 (Forall_forall _ _) Hall (Pragma n v)).
    exact (proj2 (elem_of_app pragmas (stmts ++ alters) _) (or_introl Hn)).
Qed.
(** An old database, busy at every other call, while another process opens it too. *)
Module OpenSample.
Definition locked : string := "database is locked (5) (SQLITE_BUSY)".
Definition quiet : open_env := mkOpenEnv (λ _, Ok tt) (λ _, Ok tt) (λ _ _, None) (λ _ s, s).
Definition old : schema :=
  mkSchema (list_to_map [("workflows", mkTable workflows_columns []);
              ("run_queue", mkTable (run_queue_columns ++ take 2 replay_columns) [])]) ∅.
Definition busy_at (k : nat) : open_env :=
  mkOpenEnv (λ _, Ok tt) (λ _, Ok tt) (λ j _, if Nat.eqb j k then Some locked else None) (λ _ s, s).
Definition other_open (s : schema) : result unit * connection :=
  NewSQLiteStore quiet "data/orchestrator.db" s.
Definition shared : open_env :=
  mkOpenEnv (λ _, Ok tt) (λ _, Ok tt)
    (λ k stmt, match stmt with
               | AddColumn _ _ => None
               | _ => if Nat.even k then Some locked else None
               end)
    (λ k s, if Nat.eqb k 9 then cn_schema (other_open s).2 else s).
Lemma quiet_driver : driver quiet.
Proof. split; [done|]. intros k stmt e [=]. Qed.
Lemma old_partial : partial old.
Proof.
  split; [|by apply map_empty_subseteq]. repeat apply map_Forall_insert_2; [| |apply map_Forall_empty].
  - exists (mkTable workflows_columns []), 0%nat. by vm_compute.
  - exists (mkTable run_queue_columns []), 2%nat. by vm_compute.
Qed.
Lemma shared_patient : patient shared.
Proof.
  split.
  - intros k stmt e. unfold shared. simpl. destruct stmt; [..|intros [=]];
      (destruct (Nat.even k); [intros [= <-]; by vm_compute|intros [=]]).
  - done.
  - intros k. destruct (Nat.even k) eqn:Hk.
    + exists (S k). split; [lia|]. assert (Hs : Nat.even (S k) = false).
      { by rewrite Nat.even_succ, <-Nat.negb_even, Hk. }
      intros stmt. unfold shared. cbn [oe_err]. rewrite Hs. by destruct stmt.
    + exists k. split; [lia|]. intros stmt. unfold shared. cbn [oe_err]. rewrite Hk. by destruct stmt.
Qed.
End OpenSample.
Lemma open_migrates_witness :
  (NewSQLiteStore OpenSample.shared "data/orchestrator.db" OpenSample.old).1 = Ok tt ∧
  cn_schema (NewSQLiteStore OpenSample.shared "data/orchestrator.db" OpenSample.old).2 = complete.
Proof.
  assert (Hd : driver OpenSample.shared).
  { split.
    - intros k s Hs. cbn [OpenSample.shared oe_other]. destruct (Nat.eqb k 9); [|by split].
      unfold OpenSample.other_open.
      pose proof (open_migrates OpenSample.quiet "data/orchestrator.db" s OpenSample.quiet_driver Hs) as Ho.
      destruct (NewSQLiteStore _ _ s) as [r c].
      destruct Ho as (Hp & Hg & _). exact (conj Hp Hg).
    - intros k stmt e. unfold OpenSample.shared. simpl. destruct stmt; [..|intros [=]];
        (destruct (Nat.even k); [intros [= <-]; by vm_compute|intros [=]]). }
  pose proof (open_migrates OpenSample.shared "data/orchestrator.db" OpenSample.old Hd OpenSample.old_partial) as Ho.
  destruct (NewSQLiteStore OpenSample.shared _ _) as [r c]. destruct Ho as (_ & _ & _ & _ & Hr & Hok).
  rewrite Hok in Hr; [|apply OpenSample.shared_patient|done|done|done].
  rewrite Hok; [|apply OpenSample.shared_patient|done|done|done]. split; [done|apply Hr].
Defined.
(** A busy database is waited for at any call but those that add a column: there the
    opening fails at once. *)
Theorem alter_not_retried :
  Forall (λ k, (NewSQLiteStore (OpenSample.busy_at k) "db" new_schema).1 = Ok tt) (seq 0 13) ∧
  Forall (λ k, (NewSQLiteStore (OpenSample.busy_at k) "db" new_schema).1 = Err OpenSample.locked) (seq 13 4).
Proof. split; repeat apply Forall_cons_2; try apply Forall_nil_2; vm_compute; reflexivity. Qed.
