(* ===== verification/ApiText.v ===== *)
(** * internal/api/server.go: requests, tokens and decoding

    What the handlers of the HTTP server share: tokens and scopes, paging and filter
    parameters, the decoding of workflows.  Decoding JSON into a struct, parsing a
    duration and parsing a time stamp are parameters; everything else is as written. *)

From S2P Require Import Prelude GoLib GoText Domain.
Local Open Scope Z_scope.

(** ** Requests and responses *)

(** [r.URL.Query().Get] and [r.Header.Get] are functions: a missing key reads "". *)
Record request := mkRequest {
  rq_method : string;
  rq_path : string;
  rq_query : string → string;
  rq_header : string → string;
  rq_body : string;
}.
Record bulkFailureDetail := mkBulkFailureDetail { bf_Code : string; bf_Message : string }.
(** The JSON values that handlers write. *)
Inductive payload :=
| PError (message : string)
| PValidation (field message : string)
| PWorkflow (workflow : Workflow)
| PWorkflows (items : list Workflow)
| PRun (run : Run)
| PRuns (items : list Run)
| PJob (job : RunQueueJob)
| PJobs (items : list RunQueueJob)
| PTransitions (items : list RunJobTransition)
| PSchedule (config : ScheduleConfig)
| PSchedules (items : list ScheduleConfig)
| PList (items : payload) (total limit offset returned : Z)
| PJobStats (total : Z) (byStatus : gmap string Z)
| PBulk (done_ : list RunQueueJob) (resultCode : string) (failed : gmap string string)
    (failedDetails : gmap string bulkFailureDetail)
| PPurge (deleted : Z) (resultCode : string) (dryRun : option bool) (matched : option Z)
| PRunCancelled (runID : string) (cancelledJobs : list RunQueueJob)
| PStatus (status workflowID : string)
| PReady (status error : string)
| PHealth (uptimeSeconds : Z) (authEnabled queueConfigured schedulerEnabled retentionConfigured : bool)
| PText (text : string).
Record response := mkResponse { rs_code : Z; rs_body : payload }.

Definition writeError (status : Z) (message : string) : response :=
  mkResponse status (PError message).
Definition writeValidationError (status : Z) (field message : string) : response :=
  mkResponse status (PValidation field message).

(** The runs whose fields an answer shows. *)
Fixpoint shown_runs (p : payload) : list Run :=
  match p with
  | PRun run => [run]
  | PRuns items => items
  | PList items _ _ _ _ => shown_runs items
  | _ => []
  end.
(** [json.NewEncoder(w).Encode(value)] ranges over the maps of the value.  [live]: the IDs of
    the stored runs whose [Results] an executor in flight may be writing at that moment.  To
    read a map that is being written is a data race, and Go ends the process when it sees
    one: [None]. *)
Definition writeJSON (live : gset string) (resp : response) : option response :=
  if bool_decide (Exists (λ run, run_ID run ∈ live) (shown_runs (rs_body resp))) then None
  else Some resp.

(** ** Tokens *)

Definition isWriteMethod (method : string) : bool :=
  negb (bool_decide (method ∈ ["GET"; "HEAD"; "OPTIONS"])).
Definition extractToken (r : request) : string :=
  let authHeader := TrimSpace (rq_header r "Authorization") in
  if HasPrefix (ToLower authHeader) "bearer " then TrimSpace (str_drop 7 authHeader)
  else TrimSpace (rq_header r "X-API-Token").

(** One segment of the configuration, [scope:token]. *)
Definition auth_segment (tokens : gset string * gset string) (part : string) :
    gset string * gset string :=
  let '(read, write) := tokens in
  let segment := TrimSpace part in
  if bool_decide (segment = "") then tokens else
  match SplitN2 segment ":" with
  | [scope; token] =>
      let scope := ToLower (TrimSpace scope) in
      let token := TrimSpace token in
      if bool_decide (token = "") then tokens else
      if bool_decide (scope = "read") then ({[token]} ∪ read, write) else
      if bool_decide (scope = "write") then (read, {[token]} ∪ write) else
      if bool_decide (scope = "admin") then ({[token]} ∪ read, {[token]} ∪ write) else tokens
  | _ => tokens
  end.
Definition parseAuthConfig (raw : string) : gset string * gset string :=
  let trimmed := TrimSpace raw in
  if bool_decide (trimmed = "") then (∅, ∅) else
  if negb (Contains trimmed ":") then ({[trimmed]}, {[trimmed]}) else
  foldl auth_segment (∅, ∅) (Split trimmed ",").
Definition isAuthorized (authRead authWrite : gset string) (authOn : bool) (r : request) : bool :=
  if negb authOn then true else
  let token := extractToken r in
  if bool_decide (token = "") then false else
  let canRead := bool_decide (token ∈ authRead) in
  let canWrite := bool_decide (token ∈ authWrite) in
  if isWriteMethod (rq_method r) then canWrite else canRead || canWrite.

(** ** Parameters *)

(** [if raw := TrimSpace(Get(key)); raw != "" { if val, err := Atoi(raw); err == nil
    && ok(val) { x = val } }] *)
Definition int_param (r : request) (key : string) (ok : Z → bool) (default_ : Z) : Z :=
  match Atoi (TrimSpace (rq_query r key)) with
  | Some val => if ok val then val else default_
  | None => default_
  end.
Definition parseLimitOffset (r : request) : Z * Z :=
  (int_param r "limit" (λ v, (0 <? v) && (v <=? 1000)) 50,
   int_param r "offset" (λ v, 0 <=? v) 0).
Definition parseOptionalBool (raw : string) : bool * bool :=
  match ParseBool (TrimSpace raw) with Some val => (val, true) | None => (false, false) end.
Definition useListEnvelope (r : request) : bool :=
  match parseOptionalBool (rq_query r "envelope") with
  | (val, true) => val
  | _ =>
      match parseOptionalBool (rq_header r "X-List-Envelope") with
      | (val, true) => val
      | _ => false
      end
  end.
Definition writeListResponse {A} (r : request) (wrap : list A → payload) (items : list A)
    (total limit offset : Z) : response :=
  if useListEnvelope r
  then mkResponse 200 (PList (wrap items) total limit offset (zlen items))
  else mkResponse 200 (wrap items).
(** [paginateWorkflows]; [None] is a panic. *)
Definition paginate {A} (r : request) (items : list A) : option (list A) :=
  let '(limit, offset) := parseLimitOffset r in
  if zlen items <=? offset then Some [] else
  let last := wrap64 (offset + limit) in
  let last := if zlen items <? last then zlen items else last in
  slice offset last items.

Definition isValidRunStatus (raw : string) : bool :=
  bool_decide (ToUpper (TrimSpace raw) ∈
    [RunStatusPending; RunStatusRunning; RunStatusSuccess; RunStatusFailed; RunStatusCancelled]).
Definition isValidRunJobStatus (raw : string) : bool :=
  bool_decide (ToUpper (TrimSpace raw) ∈
    [RunJobStatusQueued; RunJobStatusLeased; RunJobStatusSucceeded; RunJobStatusFailed;
     RunJobStatusDead; RunJobStatusCancelled]).
Definition deterministicRunID (workflowID key : string) : string :=
  "idem-" +:+ EncodeToString (sha1_Sum (workflowID +:+ "|" +:+ key)).

Definition bulkResultCode (success failed : Z) : string :=
  if failed =? 0 then "BULK_OK" else
  if success =? 0 then "BULK_ALL_FAILED" else "BULK_PARTIAL_FAILURE".
Definition classifyBulkJobError (message : string) : string :=
  let msg := ToLower (TrimSpace message) in
  if Contains msg "not found" then "JOB_NOT_FOUND" else
  if Contains msg "only failed or dead-letter" then "INVALID_JOB_STATE" else
  if Contains msg "cannot be cancelled" then "INVALID_JOB_STATE" else
  if Contains msg "transition rejected" then "INVALID_JOB_STATE" else
  "JOB_OPERATION_FAILED".

(** ** Time stamps *)
Section times.
(** [time.Parse] with the layouts RFC3339 and RFC3339Nano. *)
Context (ParseRFC3339 ParseRFC3339Nano : string → result time).

Definition parseOptionalTime (raw : string) : result (time * bool) :=
  let trimmed := TrimSpace raw in
  if bool_decide (trimmed = "") then Ok (time_zero, false) else
  match ParseRFC3339 trimmed with
  | Ok parsed => Ok (parsed, true)
  | Err _ => parsed ← ParseRFC3339Nano trimmed; Ok (parsed, true)
  end.
(** The two bounds of a filter, and whether both are given the wrong way round. *)
Definition parse_bounds (r : request) (after before : string) : response + (time * time * bool) :=
  match parseOptionalTime (rq_query r after) with
  | Err _ => inl (writeValidationError 400 after "invalid RFC3339 timestamp")
  | Ok (lo, hasLo) =>
      match parseOptionalTime (rq_query r before) with
      | Err _ => inl (writeValidationError 400 before "invalid RFC3339 timestamp")
      | Ok (hi, hasHi) => inr (lo, hi, hasLo && hasHi && After lo hi)
      end
  end.
Definition bounds_swapped (after before : string) : response :=
  writeValidationError 400 after (after +:+ " must be before " +:+ before).
End times.
