(* ===== verification/WorkflowDecode.v ===== *)
(** * Decoding workflows: pkg/utils/workflow_loader.go, and server.go's requests

    The loader of workflow files, the body of POST and PUT /workflows and the body of
    PATCH /workflows/{id} hold the same fields, durations as text.  Each of the three
    places has code of its own for it, and so it is here: the loader has types of its own,
    reads YAML too, and ignores fields it does not know; the server refuses those, and reads
    one JSON value of the body.  They differ also in when a duration counts as given: the
    loader tests the raw text against "", the server the trimmed one.  What encoding/json
    and yaml.v3 make of a text, and [time.ParseDuration], are parameters. *)

From S2P Require Import Prelude GoLib GoText Domain.
Local Open Scope Z_scope.

(** ** What is decoded into *)

Record retryPolicyRequest := mkRetryPolicyRequest {
  rpr_MaxAttempts : Z;
  rpr_BackoffBase : string;
}.
Record compensationSpecRequest := mkCompensationSpecRequest {
  csr_Action : string;
  csr_Input : gmap string string;
  csr_Timeout : string;
}.
Record taskNodeRequest := mkTaskNodeRequest {
  tnr_ID : string;
  tnr_Name : string;
  tnr_Action : string;
  tnr_Input : gmap string string;
  tnr_DependsOn : list string;
  tnr_Condition : string;
  tnr_RunAfter : string;
  tnr_Timeout : string;
  tnr_AllowFailure : bool;
  tnr_RetryPolicy : retryPolicyRequest;
  tnr_Compensation : compensationSpecRequest;
}.
Record workflowRequest := mkWorkflowRequest {
  wfr_ID : string;
  wfr_Name : string;
  wfr_Description : string;
  wfr_Version : string;
  wfr_MaxConcurrency : Z;
  wfr_FailFast : bool;
  wfr_CompensateOnFailure : bool;
  wfr_Timeout : string;
  wfr_Tasks : list taskNodeRequest;
}.
(** Pointers: a field that is not given is [None]. *)
Record workflowPatchRequest := mkWorkflowPatchRequest {
  wpr_ID : option string;
  wpr_Name : option string;
  wpr_Description : option string;
  wpr_Version : option string;
  wpr_MaxConcurrency : option Z;
  wpr_FailFast : option bool;
  wpr_CompensateOnFailure : option bool;
  wpr_Timeout : option string;
  wpr_Tasks : option (list taskNodeRequest);
}.

(** The loader's. *)
Record retryPolicyConfig := mkRetryPolicyConfig {
  rpc_MaxAttempts : Z;
  rpc_BackoffBase : string;
}.
Record compensationConfig := mkCompensationConfig {
  cc_Action : string;
  cc_Input : gmap string string;
  cc_Timeout : string;
}.
Record taskConfig := mkTaskConfig {
  tc_ID : string;
  tc_Name : string;
  tc_Action : string;
  tc_Input : gmap string string;
  tc_DependsOn : list string;
  tc_Condition : string;
  tc_RunAfter : string;
  tc_Timeout : string;
  tc_AllowFailure : bool;
  tc_RetryPolicy : retryPolicyConfig;
  tc_Compensation : compensationConfig;
}.
Record workflowFile := mkWorkflowFile {
  wff_ID : string;
  wff_Name : string;
  wff_Description : string;
  wff_Version : string;
  wff_MaxConcurrency : Z;
  wff_FailFast : bool;
  wff_CompensateOnFailure : bool;
  wff_Timeout : string;
  wff_Tasks : list taskConfig;
}.

(** [decoder := json.NewDecoder(body); decoder.DisallowUnknownFields();
    return decoder.Decode(out)]: [Decode] says what [Decode] makes of a body, given whether
    unknown fields are refused. *)
Definition decodeJSON {A} (Decode : bool → string → result A) (body : string) : result A :=
  let disallowUnknownFields := true in
  match Decode disallowUnknownFields body with
  | Err err => Err err
  | Ok out => Ok out
  end.

Section decode.
(** [time.ParseDuration] *)
Context (ParseDuration : string → result duration).

(** [d, err := time.ParseDuration(raw); if err != nil { return fmt.Errorf(prefix + "%w", err) };
    x.field = d] *)
Definition set_duration {A} (raw prefix : string) (set_ : duration → A → A) (x : A) : result A :=
  match ParseDuration raw with
  | Err err => Err (prefix +:+ err)
  | Ok d => Ok (set_ d x)
  end.
(** [x.RetryPolicy.BackoffBase = d] and [x.Compensation.Timeout = d] *)
Definition set_backoff (d : duration) (t : TaskNode) : TaskNode :=
  t <| task_RetryPolicy := mkRetryPolicy (retry_MaxAttempts (task_RetryPolicy t)) d |>.
Definition set_comp_timeout (d : duration) (t : TaskNode) : TaskNode :=
  t <| task_Compensation :=
    mkCompensationSpec (comp_Action (task_Compensation t)) (comp_Input (task_Compensation t)) d |>.

(** ** The loader *)

(** The body of its loop over the tasks. *)
Definition load_task (task : taskConfig) : result TaskNode :=
  let retry := tc_RetryPolicy task in
  let comp := tc_Compensation task in
  let node := mkTaskNode (tc_ID task) (tc_Name task) (tc_Action task) (tc_Input task)
    (tc_DependsOn task) (tc_Condition task) 0 0 (mkRetryPolicy (rpc_MaxAttempts retry) 0)
    (tc_AllowFailure task) (mkCompensationSpec (cc_Action comp) (cc_Input comp) 0) in
  node ← (if bool_decide (tc_RunAfter task ≠ "") then
            set_duration (tc_RunAfter task) ("invalid runAfter for " +:+ tc_ID task +:+ ": ")
              (λ d t, t <| task_RunAfter := d |>) node
          else Ok node);
  node ← (if bool_decide (tc_Timeout task ≠ "") then
            set_duration (tc_Timeout task) ("invalid task timeout for " +:+ tc_ID task +:+ ": ")
              (λ d t, t <| task_Timeout := d |>) node
          else Ok node);
  node ← (if bool_decide (rpc_BackoffBase retry ≠ "") then
            set_duration (rpc_BackoffBase retry) ("invalid backoffBase for " +:+ tc_ID task +:+ ": ")
              set_backoff node
          else Ok node);
  if bool_decide (cc_Timeout comp ≠ "") then
    set_duration (cc_Timeout comp) ("invalid compensation timeout for " +:+ tc_ID task +:+ ": ")
      set_comp_timeout node
  else Ok node.
Fixpoint load_tasks (tasks : list taskConfig) : result (list TaskNode) :=
  match tasks with
  | [] => Ok []
  | task :: tasks =>
      node ← load_task task;
      nodes ← load_tasks tasks;
      Ok (node :: nodes)
  end.
(** [filepath.Ext]: from the last dot of the last element of the path. *)
Fixpoint ext_rev (rev_path acc : string) : string :=
  match rev_path with
  | "" => ""
  | String c rest =>
      if bool_decide (c = "/"%char) then "" else
      if bool_decide (c = "."%char) then String c acc else ext_rev rest (String c acc)
  end.
Definition Ext (path : string) : string := ext_rev (String.rev path) "".
(** [read] is what [os.ReadFile] answers, [UnmarshalJSON] and [UnmarshalYAML] what the
    two packages' [Unmarshal] make of a whole file. *)
Definition LoadWorkflowFromFile (UnmarshalYAML UnmarshalJSON : string → result workflowFile)
    (read : result string) (path : string) : result Workflow :=
  match read with
  | Err err => Err err
  | Ok content =>
      let ext := ToLower (Ext path) in
      cfg ← (if bool_decide (ext ∈ [".yaml"; ".yml"]) then
               match UnmarshalYAML content with
               | Err err => Err ("decode workflow yaml: " +:+ err)
               | Ok cfg => Ok cfg
               end
             else
               match UnmarshalJSON content with
               | Err err => Err ("decode workflow json: " +:+ err)
               | Ok cfg => Ok cfg
               end);
      let w := mkWorkflow (wff_ID cfg) (wff_Name cfg) (wff_Description cfg) (wff_Version cfg)
        (wff_MaxConcurrency cfg) (wff_FailFast cfg) (wff_CompensateOnFailure cfg) 0 [] in
      w ← (if bool_decide (wff_Timeout cfg ≠ "") then
             set_duration (wff_Timeout cfg) "invalid workflow timeout: "
               (λ d w, w <| wf_Timeout := d |>) w
           else Ok w);
      nodes ← load_tasks (wff_Tasks cfg);
      Ok (w <| wf_Tasks := nodes |>)
  end.

(** ** The body of POST and PUT *)

(** The body of the loop over the tasks. *)
Definition request_task (taskReq : taskNodeRequest) : result TaskNode :=
  let retry := tnr_RetryPolicy taskReq in
  let comp := tnr_Compensation taskReq in
  let task := mkTaskNode (tnr_ID taskReq) (tnr_Name taskReq) (tnr_Action taskReq)
    (tnr_Input taskReq) (tnr_DependsOn taskReq) (tnr_Condition taskReq) 0 0
    (mkRetryPolicy (rpr_MaxAttempts retry) 0) (tnr_AllowFailure taskReq)
    (mkCompensationSpec (csr_Action comp) (csr_Input comp) 0) in
  task ← (if bool_decide (TrimSpace (tnr_RunAfter taskReq) ≠ "") then
            set_duration (tnr_RunAfter taskReq)
              ("invalid runAfter for " +:+ tnr_ID taskReq +:+ ": ")
              (λ d t, t <| task_RunAfter := d |>) task
          else Ok task);
  task ← (if bool_decide (TrimSpace (tnr_Timeout taskReq) ≠ "") then
            set_duration (tnr_Timeout taskReq)
              ("invalid task timeout for " +:+ tnr_ID taskReq +:+ ": ")
              (λ d t, t <| task_Timeout := d |>) task
          else Ok task);
  task ← (if bool_decide (TrimSpace (rpr_BackoffBase retry) ≠ "") then
            set_duration (rpr_BackoffBase retry)
              ("invalid backoffBase for " +:+ tnr_ID taskReq +:+ ": ") set_backoff task
          else Ok task);
  if bool_decide (TrimSpace (csr_Timeout comp) ≠ "") then
    set_duration (csr_Timeout comp)
      ("invalid compensation timeout for " +:+ tnr_ID taskReq +:+ ": ") set_comp_timeout task
  else Ok task.
Fixpoint request_tasks (reqs : list taskNodeRequest) : result (list TaskNode) :=
  match reqs with
  | [] => Ok []
  | taskReq :: reqs =>
      task ← request_task taskReq;
      tasks ← request_tasks reqs;
      Ok (task :: tasks)
  end.
(** [decode]: [decodeJSON], for this type. *)
Definition decodeWorkflowRequest (decode : string → result workflowRequest) (body : string) :
    result Workflow :=
  match decode body with
  | Err err => Err err
  | Ok req =>
      let workflow := mkWorkflow (wfr_ID req) (wfr_Name req) (wfr_Description req)
        (wfr_Version req) (wfr_MaxConcurrency req) (wfr_FailFast req)
        (wfr_CompensateOnFailure req) 0 [] in
      workflow ← (if bool_decide (TrimSpace (wfr_Timeout req) ≠ "") then
                    set_duration (wfr_Timeout req) "invalid workflow timeout: "
                      (λ d w, w <| wf_Timeout := d |>) workflow
                  else Ok workflow);
      tasks ← request_tasks (wfr_Tasks req);
      Ok (workflow <| wf_Tasks := tasks |>)
  end.

(** ** The body of PATCH *)

(** The body of its loop over the tasks. *)
Definition patch_task (taskReq : taskNodeRequest) : result TaskNode :=
  let task := mkTaskNode (tnr_ID taskReq) (tnr_Name taskReq) (tnr_Action taskReq)
    (tnr_Input taskReq) (tnr_DependsOn taskReq) (tnr_Condition taskReq) 0 0
    (mkRetryPolicy (rpr_MaxAttempts (tnr_RetryPolicy taskReq)) 0) (tnr_AllowFailure taskReq)
    (mkCompensationSpec (csr_Action (tnr_Compensation taskReq))
       (csr_Input (tnr_Compensation taskReq)) 0) in
  task ← (if bool_decide (TrimSpace (tnr_RunAfter taskReq) ≠ "") then
            set_duration (tnr_RunAfter taskReq)
              ("invalid runAfter for " +:+ tnr_ID taskReq +:+ ": ")
              (λ d t, t <| task_RunAfter := d |>) task
          else Ok task);
  task ← (if bool_decide (TrimSpace (tnr_Timeout taskReq) ≠ "") then
            set_duration (tnr_Timeout taskReq)
              ("invalid task timeout for " +:+ tnr_ID taskReq +:+ ": ")
              (λ d t, t <| task_Timeout := d |>) task
          else Ok task);
  let raw := rpr_BackoffBase (tnr_RetryPolicy taskReq) in
  task ← (if bool_decide (TrimSpace raw ≠ "") then
            set_duration raw ("invalid backoffBase for " +:+ tnr_ID taskReq +:+ ": ")
              set_backoff task
          else Ok task);
  let raw := csr_Timeout (tnr_Compensation taskReq) in
  if bool_decide (TrimSpace raw ≠ "") then
    set_duration raw ("invalid compensation timeout for " +:+ tnr_ID taskReq +:+ ": ")
      set_comp_timeout task
  else Ok task.
Fixpoint patch_tasks (reqs : list taskNodeRequest) : result (list TaskNode) :=
  match reqs with
  | [] => Ok []
  | taskReq :: reqs =>
      task ← patch_task taskReq;
      tasks ← patch_tasks reqs;
      Ok (task :: tasks)
  end.
(** [if p != nil { x.field = *p }] *)
Definition patch_field {A B} (p : option B) (set_ : B → A → A) (x : A) : A :=
  match p with Some v => set_ v x | None => x end.
Definition decodeWorkflowPatchRequest (decode : string → result workflowPatchRequest)
    (body : string) (base : Workflow) : result Workflow :=
  match decode body with
  | Err err => Err err
  | Ok patch =>
      let workflow := base in
      let workflow := patch_field (wpr_ID patch) (λ v w, w <| wf_ID := TrimSpace v |>) workflow in
      let workflow := patch_field (wpr_Name patch) (λ v w, w <| wf_Name := v |>) workflow in
      let workflow :=
        patch_field (wpr_Description patch) (λ v w, w <| wf_Description := v |>) workflow in
      let workflow := patch_field (wpr_Version patch) (λ v w, w <| wf_Version := v |>) workflow in
      let workflow :=
        patch_field (wpr_MaxConcurrency patch) (λ v w, w <| wf_MaxConcurrency := v |>) workflow in
      let workflow := patch_field (wpr_FailFast patch) (λ v w, w <| wf_FailFast := v |>) workflow in
      let workflow := patch_field (wpr_CompensateOnFailure patch)
                        (λ v w, w <| wf_CompensateOnFailure := v |>) workflow in
      workflow ← match wpr_Timeout patch with
                 | None => Ok workflow
                 | Some raw =>
                     let timeoutRaw := TrimSpace raw in
                     if bool_decide (timeoutRaw = "") then Ok (workflow <| wf_Timeout := 0 |>) else
                     set_duration timeoutRaw "invalid workflow timeout: "
                       (λ d w, w <| wf_Timeout := d |>) workflow
                 end;
      match wpr_Tasks patch with
      | None => Ok workflow
      | Some reqs =>
          tasks ← patch_tasks reqs;
          Ok (workflow <| wf_Tasks := tasks |>)
      end
  end.
End decode.

(** ** The three agree *)

(** The two shapes of a workflow that is read from text. *)
Definition config_of (t : taskNodeRequest) : taskConfig :=
  mkTaskConfig (tnr_ID t) (tnr_Name t) (tnr_Action t) (tnr_Input t) (tnr_DependsOn t)
    (tnr_Condition t) (tnr_RunAfter t) (tnr_Timeout t) (tnr_AllowFailure t)
    (mkRetryPolicyConfig (rpr_MaxAttempts (tnr_RetryPolicy t)) (rpr_BackoffBase (tnr_RetryPolicy t)))
    (mkCompensationConfig (csr_Action (tnr_Compensation t)) (csr_Input (tnr_Compensation t))
       (csr_Timeout (tnr_Compensation t))).
Definition file_of (req : workflowRequest) : workflowFile :=
  mkWorkflowFile (wfr_ID req) (wfr_Name req) (wfr_Description req) (wfr_Version req)
    (wfr_MaxConcurrency req) (wfr_FailFast req) (wfr_CompensateOnFailure req) (wfr_Timeout req)
    (config_of <$> wfr_Tasks req).
(** A patch that gives every field. *)
Definition full_patch (req : workflowRequest) : workflowPatchRequest :=
  mkWorkflowPatchRequest (Some (wfr_ID req)) (Some (wfr_Name req)) (Some (wfr_Description req))
    (Some (wfr_Version req)) (Some (wfr_MaxConcurrency req)) (Some (wfr_FailFast req))
    (Some (wfr_CompensateOnFailure req)) (Some (wfr_Timeout req)) (Some (wfr_Tasks req)).
Definition empty_patch : workflowPatchRequest :=
  mkWorkflowPatchRequest None None None None None None None None None.
(** Durations are given or empty, not blank. *)
Definition not_blank (raw : string) : Prop := raw = "" ∨ TrimSpace raw ≠ "".
Definition task_not_blank (t : taskNodeRequest) : Prop :=
  not_blank (tnr_RunAfter t) ∧ not_blank (tnr_Timeout t) ∧
  not_blank (rpr_BackoffBase (tnr_RetryPolicy t)) ∧ not_blank (csr_Timeout (tnr_Compensation t)).

Lemma not_blank_given raw : not_blank raw → bool_decide (TrimSpace raw ≠ "") = bool_decide (raw ≠ "").
Proof. intros Hb. apply bool_decide_ext. split; [by intros Hr ->|]. destruct Hb; [done|done]. Qed.

Section agree.
Context (ParseDuration : string → result duration).

Lemma load_task_agrees t :
  task_not_blank t → load_task ParseDuration (config_of t) = request_task ParseDuration t.
Proof.
  intros (H1 & H2 & H3 & H4). unfold request_task. rewrite !not_blank_given by done. done.
Qed.
Lemma load_tasks_agree reqs : Forall task_not_blank reqs →
  load_tasks ParseDuration (config_of <$> reqs) = request_tasks ParseDuration reqs.
Proof.
  induction 1 as [|t reqs Ht _ IH]; [done|].
  rewrite fmap_cons. cbn [load_tasks request_tasks]. by rewrite IH, load_task_agrees.
Qed.
Lemma patch_tasks_agree reqs : patch_tasks ParseDuration reqs = request_tasks ParseDuration reqs.
Proof. induction reqs as [|t reqs IH]; [done|]. simpl. by rewrite IH. Qed.

(** What the loader makes of a file of the fields [req], in either format. *)
Lemma load_agrees UnmarshalYAML UnmarshalJSON content path req decode body :
  (if bool_decide (ToLower (Ext path) ∈ [".yaml"; ".yml"]) then UnmarshalYAML content
   else UnmarshalJSON content) = Ok (file_of req) →
  decode body = Ok req →
  not_blank (wfr_Timeout req) → Forall task_not_blank (wfr_Tasks req) →
  LoadWorkflowFromFile ParseDuration UnmarshalYAML UnmarshalJSON (Ok content) path =
    decodeWorkflowRequest ParseDuration decode body.
Proof.
  intros Hf Hd Hb Hts. unfold LoadWorkflowFromFile, decodeWorkflowRequest. rewrite Hd.
  cbv zeta. rewrite (not_blank_given _ Hb), <-load_tasks_agree by done.
  by case_bool_decide; rewrite Hf.
Qed.
Lemma full_patch_agrees decode body decodePatch patchBody base req :
  decode body = Ok req → decodePatch patchBody = Ok (full_patch req) →
  TrimSpace (wfr_ID req) = wfr_ID req → TrimSpace (wfr_Timeout req) = wfr_Timeout req →
  decodeWorkflowPatchRequest ParseDuration decodePatch patchBody base =
    decodeWorkflowRequest ParseDuration decode body.
Proof.
  intros Hd Hp Hid Ht. unfold decodeWorkflowPatchRequest, decodeWorkflowRequest.
  rewrite Hd, Hp. destruct req as [i n de v mc ff cf to ts]. simpl in *. rewrite Hid, Ht.
  rewrite patch_tasks_agree. destruct (decide (to = "")) as [->|Hne].
  - simpl. by destruct (request_tasks ParseDuration ts).
  - rewrite (bool_decide_false (to = "")), (bool_decide_true (to ≠ "")) by done.
    unfold set_duration. destruct (ParseDuration to); simpl; [|done].
    by destruct (request_tasks ParseDuration ts).
Qed.
End agree.

(** ** encoding/json *)

(** What the package does with the three types, whose fields are the same.  The loader's
    whole-file [Unmarshal] and the server's [Decode] read alike what both accept - the
    server refuses fields it does not know, the loader anything after the value - and a
    field that a patch is given has the value the request has. *)
Record json_laws (UnmarshalJSON : string → result workflowFile)
    (Decode : bool → string → result workflowRequest)
    (DecodePatch : bool → string → result workflowPatchRequest) : Prop := {
  jl_file text req cfg :
    Decode true text = Ok req → UnmarshalJSON text = Ok cfg → cfg = file_of req;
  jl_patch text req patch :
    Decode true text = Ok req → DecodePatch true text = Ok patch →
    (wpr_ID patch = None ∨ wpr_ID patch = Some (wfr_ID req)) ∧
    (wpr_Name patch = None ∨ wpr_Name patch = Some (wfr_Name req)) ∧
    (wpr_Description patch = None ∨ wpr_Description patch = Some (wfr_Description req)) ∧
    (wpr_Version patch = None ∨ wpr_Version patch = Some (wfr_Version req)) ∧
    (wpr_MaxConcurrency patch = None ∨ wpr_MaxConcurrency patch = Some (wfr_MaxConcurrency req)) ∧
    (wpr_FailFast patch = None ∨ wpr_FailFast patch = Some (wfr_FailFast req)) ∧
    (wpr_CompensateOnFailure patch = None ∨
     wpr_CompensateOnFailure patch = Some (wfr_CompensateOnFailure req)) ∧
    (wpr_Timeout patch = None ∨ wpr_Timeout patch = Some (wfr_Timeout req)) ∧
    (wpr_Tasks patch = None ∨ wpr_Tasks patch = Some (wfr_Tasks req));
}.
(** A patch leaves nothing out. *)
Record gives_all (patch : workflowPatchRequest) : Prop := {
  ga_ID : wpr_ID patch ≠ None;
  ga_Name : wpr_Name patch ≠ None;
  ga_Description : wpr_Description patch ≠ None;
  ga_Version : wpr_Version patch ≠ None;
  ga_MaxConcurrency : wpr_MaxConcurrency patch ≠ None;
  ga_FailFast : wpr_FailFast patch ≠ None;
  ga_Compensate : wpr_CompensateOnFailure patch ≠ None;
  ga_Timeout : wpr_Timeout patch ≠ None;
  ga_Tasks : wpr_Tasks patch ≠ None;
}.
Lemma gives_all_full UnmarshalJSON Decode DecodePatch text req patch :
  json_laws UnmarshalJSON Decode DecodePatch → Decode true text = Ok req →
  DecodePatch true text = Ok patch → gives_all patch → patch = full_patch req.
Proof.
  intros [_ Hl] Hd Hp [G1 G2 G3 G4 G5 G6 G7 G8 G9].
  destruct (Hl _ _ _ Hd Hp) as (H1 & H2 & H3 & H4 & H5 & H6 & H7 & H8 & H9).
  destruct patch; simpl in *. unfold full_patch.
  f_equal; [by destruct H1|by destruct H2|by destruct H3|by destruct H4|by destruct H5
    |by destruct H6|by destruct H7|by destruct H8|by destruct H9].
Qed.

(** C40. One workflow, three ways in.  A text that the server's strict JSON decoder
    accepts gives the same workflow, or the same error about a duration, as the body of POST
    or PUT, as a JSON file that the loader accepts, as the YAML file that holds the same
    fields, and, if it leaves no field out, as the body of a PATCH of any workflow - provided
    no duration is blank without being empty, and the ID and the timeout carry no space
    around them, which PATCH alone trims.  A text a decoder refuses is refused with the
    decoder's message: as it is by the server, after "decode workflow json: " or "decode
    workflow yaml: " by the loader.  A PATCH that gives no field changes nothing. *)
Theorem workflow_decoders_agree ParseDuration UnmarshalYAML UnmarshalJSON Decode DecodePatch :
  json_laws UnmarshalJSON Decode DecodePatch →
  let post := decodeWorkflowRequest ParseDuration (decodeJSON Decode) in
  let patch_of := decodeWorkflowPatchRequest ParseDuration (decodeJSON DecodePatch) in
  let load := LoadWorkflowFromFile ParseDuration UnmarshalYAML UnmarshalJSON in
  let yaml path := ToLower (Ext path) = ".yaml" ∨ ToLower (Ext path) = ".yml" in
  (∀ text req, Decode true text = Ok req →
     TrimSpace (wfr_ID req) = wfr_ID req → TrimSpace (wfr_Timeout req) = wfr_Timeout req →
     Forall task_not_blank (wfr_Tasks req) →
     (∀ path cfg, UnmarshalJSON text = Ok cfg → ¬ yaml path → load (Ok text) path = post text) ∧
     (∀ path content, UnmarshalYAML content = Ok (file_of req) → yaml path →
        load (Ok content) path = post text) ∧
     (∀ patch base, DecodePatch true text = Ok patch → gives_all patch →
        patch_of text base = post text)) ∧
  (∀ text err, Decode true text = Err err → post text = Err err) ∧
  (∀ text err base, DecodePatch true text = Err err → patch_of text base = Err err) ∧
  (∀ text err path, UnmarshalJSON text = Err err → ¬ yaml path →
     load (Ok text) path = Err ("decode workflow json: " +:+ err)) ∧
  (∀ text err path, UnmarshalYAML text = Err err → yaml path →
     load (Ok text) path = Err ("decode workflow yaml: " +:+ err)) ∧
  (∀ text base, DecodePatch true text = Ok empty_patch → patch_of text base = Ok base).
Proof.
  intros Hlaws post patch_of load yaml.
  assert (Hyaml : ∀ path, bool_decide (ToLower (Ext path) ∈ [".yaml"; ".yml"]) = bool_decide (yaml path)).
  { intros path. apply bool_decide_ext. unfold yaml. set_solver. }
  split_and!.
  - intros text req Hd Hid Ht Hts.
    assert (Hb : not_blank (wfr_Timeout req)).
    { unfold not_blank. rewrite Ht. destruct (decide (wfr_Timeout req = "")); auto. }
    assert (Hd' : decodeJSON Decode text = Ok req) by (unfold decodeJSON; by rewrite Hd).
    split_and!.
    + intros path cfg Hc Hn. apply (load_agrees _ _ _ _ _ req); [|done..].
      rewrite Hyaml, bool_decide_false, Hc by done. f_equal. by eapply jl_file.
    + intros path content Hc Hy. apply (load_agrees _ _ _ _ _ req); [|done..].
      by rewrite Hyaml, bool_decide_true.
    + intros patch base Hp Hall. apply (full_patch_agrees _ _ _ _ _ _ req); [done| |done..].
      unfold decodeJSON. rewrite Hp. f_equal. by eapply gives_all_full.
  - intros text err Hd. unfold post, decodeWorkflowRequest, decodeJSON. by rewrite Hd.
  - intros text err base Hd. unfold patch_of, decodeWorkflowPatchRequest, decodeJSON. by rewrite Hd.
  - intros text err path Hd Hn. unfold load, LoadWorkflowFromFile. cbv zeta.
    by rewrite Hyaml, bool_decide_false, Hd.
  - intros text err path Hd Hy. unfold load, LoadWorkflowFromFile. cbv zeta.
    by rewrite Hyaml, bool_decide_true, Hd.
  - intros text base Hd. unfold patch_of, decodeWorkflowPatchRequest, decodeJSON. by rewrite Hd.
Qed.
(** A text of every field, and one with a field more, which the loader alone accepts. *)
Module DecodeSample.
Definition parse (s : string) : result duration :=
  if bool_decide (s = "5s") then Ok (5 * Second) else Err ("time: invalid duration " +:+ s).
Definition task : taskNodeRequest :=
  mkTaskNodeRequest "a" "A" "print" ∅ [] "" "" "5s" false (mkRetryPolicyRequest 3 "")
    (mkCompensationSpecRequest "" ∅ "").
Definition req : workflowRequest := mkWorkflowRequest "w" "W" "" "1" 2 true false "5s" [task].
Definition unmarshal (text : string) : result workflowFile :=
  if bool_decide (text ∈ ["full"; "unknown"]) then Ok (file_of req)
  else Err "unexpected end of JSON input".
Definition decode (strict : bool) (text : string) : result workflowRequest :=
  if bool_decide (text = "full") then Ok req else
  if bool_decide (text = "unknown") then
    if strict then Err "json: unknown field ..." else Ok req
  else Err "EOF".
Definition decodePatch (strict : bool) (text : string) : result workflowPatchRequest :=
  if bool_decide (text = "{}") then Ok empty_patch else full_patch <$> decode strict text.
Lemma laws : json_laws unmarshal decode decodePatch.
Proof.
  assert (Hdec : ∀ text r, decode true text = Ok r → text = "full" ∧ r = req).
  { intros text r. unfold decode. case_bool_decide as Ht; [by intros [= <-]|]. by case_bool_decide. }
  split.
  - intros text r cfg [-> ->]%Hdec. by intros [= <-].
  - intros text r patch [-> ->]%Hdec. intros [= <-]. simpl. auto 20.
Qed.
End DecodeSample.
Lemma workflow_decoders_agree_witness :
  LoadWorkflowFromFile DecodeSample.parse DecodeSample.unmarshal DecodeSample.unmarshal (Ok "full")
      "flows/w.json" =
    decodeWorkflowRequest DecodeSample.parse (decodeJSON DecodeSample.decode) "full" ∧
  decodeWorkflowPatchRequest DecodeSample.parse (decodeJSON DecodeSample.decodePatch) "full"
      (mkWorkflow "old" "" "" "" 0 false false 0 []) =
    decodeWorkflowRequest DecodeSample.parse (decodeJSON DecodeSample.decode) "full" ∧
  wf_Timeout <$> decodeWorkflowRequest DecodeSample.parse (decodeJSON DecodeSample.decode) "full" =
    Ok (5 * Second) ∧
  decodeWorkflowRequest DecodeSample.parse (decodeJSON DecodeSample.decode) "unknown" =
    Err "json: unknown field ..." ∧
  LoadWorkflowFromFile DecodeSample.parse DecodeSample.unmarshal DecodeSample.unmarshal (Ok "...")
      "flows/w.YML" = Err "decode workflow yaml: unexpected end of JSON input".
Proof.
  destruct (workflow_decoders_agree DecodeSample.parse DecodeSample.unmarshal DecodeSample.unmarshal
    DecodeSample.decode DecodeSample.decodePatch DecodeSample.laws)
    as (Hok & Hpost & _ & _ & Hyaml & _).
  destruct (Hok "full" DecodeSample.req) as (Hload & _ & Hpatch).
  - vm_compute. reflexivity.
  - vm_compute. reflexivity.
  - vm_compute. reflexivity.
  - constructor; [|constructor]. split; [left; reflexivity|]. split; [|split; left; reflexivity].
    right. vm_compute. discriminate.
  - split; [|split; [|split; [|split]]].
    + apply (Hload "flows/w.json" (file_of DecodeSample.req)); [vm_compute; reflexivity|].
      vm_compute. intros [E|E]; discriminate E.
    + apply (Hpatch (full_patch DecodeSample.req)); [vm_compute; reflexivity|].
      split; discriminate.
    + vm_compute. reflexivity.
    + apply Hpost. vm_compute. reflexivity.
    + apply Hyaml; [vm_compute; reflexivity|]. right. vm_compute. reflexivity.
Defined.
