(* ===== verification/Api.v ===== *)
(** * internal/api/server.go: the handlers

    A handler is a function of the request and of the components the server is wired
    to: the workflow store, the run queue, the scheduler and the metrics, each behind
    its interface.  [None] is a panic or a run that does not end.  What the handler
    reads of the outside while it runs - the clock, the orders of iteration, the
    course of a run - is an [api_env]. *)

From S2P Require Import Prelude GoLib GoText Domain Graph Actions Interfaces Telemetry Prometheus Run.
From S2P Require Import Scheduler WorkflowDecode ApiText.
Local Open Scope Z_scope.

(** ** The server *)

(** The scheduler is used through the cron engine [E]. *)
Record Server (S Q E : Type) := mkServer {
  srv_store : S;
  srv_queue : option Q;
  srv_scheduler : option (Service E);
  srv_metrics : option Collector;
  srv_authRead : gset string;
  srv_authWrite : gset string;
  srv_authOn : bool;
  srv_startedAt : time;
  srv_queueRetentionStatus : string;
  srv_queueRetentionOlderThan : duration;
  srv_queueRetentionInterval : duration;
  srv_queueRetentionBatch : Z;
}.
Arguments mkServer {S Q E}.
Arguments srv_store {S Q E}.
Arguments srv_queue {S Q E}.
Arguments srv_scheduler {S Q E}.
Arguments srv_metrics {S Q E}.
Arguments srv_authRead {S Q E}.
Arguments srv_authWrite {S Q E}.
Arguments srv_authOn {S Q E}.
Arguments srv_startedAt {S Q E}.
Arguments srv_queueRetentionStatus {S Q E}.
Arguments srv_queueRetentionOlderThan {S Q E}.
Arguments srv_queueRetentionInterval {S Q E}.
Arguments srv_queueRetentionBatch {S Q E}.
#[export] Instance Server_settable {S Q E} : Settable (Server S Q E) := λ s,
  mkServer (srv_store s) (srv_queue s) (srv_scheduler s) (srv_metrics s) (srv_authRead s)
    (srv_authWrite s) (srv_authOn s) (srv_startedAt s) (srv_queueRetentionStatus s)
    (srv_queueRetentionOlderThan s) (srv_queueRetentionInterval s) (srv_queueRetentionBatch s).

(** The readings of the clock by the handler (numbered by the places in its code that
    read it) and by its [k]-th call of the queue, the orders of iteration, the course of
    a run, the faults that the scheduler meets. *)
Record api_env := mkApiEnv {
  ae_clk : clock;
  ae_queue_clk : nat → clock;
  ae_ord : nat → iter_order;
  ae_run : run_env;
  ae_flt : faults;
}.

(** The bodies that are no workflows. *)
Record runRequest := mkRunRequest { rr_WorkflowID : string; rr_Async : bool; rr_MaxAttempts : Z }.
Record requeueRequest := mkRequeueRequest {
  rqr_AvailableAfter : string;
  rqr_ReplayedBy : string;
  rqr_ReplayReason : string;
}.
Record bulkCancelRequest := mkBulkCancelRequest {
  bcr_JobIDs : list string;
  bcr_Status : string;
  bcr_WorkflowID : string;
  bcr_RequestID : string;
  bcr_Limit : Z;
  bcr_Reason : string;
}.
Record bulkRequeueRequest := mkBulkRequeueRequest {
  brr_JobIDs : list string;
  brr_Status : string;
  brr_Limit : Z;
  brr_AvailableAfter : string;
  brr_ReplayedBy : string;
  brr_ReplayReason : string;
}.
Record purgeRequest := mkPurgeRequest {
  pr_Status : string;
  pr_OlderThan : string;
  pr_Limit : Z;
  pr_DryRun : bool;
}.
Record scheduleRequest := mkScheduleRequest {
  scr_WorkflowID : string;
  scr_Interval : string;
  scr_Cron : string;
  scr_RunOnStartup : bool;
  scr_AllowOverlap : bool;
}.
(** [decodeJSON] at each of the types: an unknown field is an error too. *)
Record decoders := mkDecoders {
  de_workflow : string → result workflowRequest;
  de_patch : string → result workflowPatchRequest;
  de_run : string → result runRequest;
  de_requeue : string → result requeueRequest;
  de_bulkCancel : string → result bulkCancelRequest;
  de_bulkRequeue : string → result bulkRequeueRequest;
  de_purge : string → result purgeRequest;
  de_schedule : string → result scheduleRequest;
}.

Section api.
Context `{!Quote} {St Q E : Type} `{!WorkflowStore St} `{!WorkflowStoreListing St}.
Context `{!RunQueue Q} `{!RunQueueListing Q} `{!CronEngine E}.
Context (registry : Registry) (decode : decoders) (ParseDuration : string → result duration).
Context (ParseRFC3339 ParseRFC3339Nano : string → result time).
Context (MarshalIndent : persistedSchedules → result string).
Abbreviation Srv := (Server St Q E).
Abbreviation answer := (option (response * Srv)).

(** A handler that has decided its answer. *)
Definition reply (resp : response) (s : Srv) : answer := Some (resp, s).
Definition methodNotAllowed : response := writeError 405 "method not allowed".
Definition noQueue : response := writeError 501 "async queue is not configured".
Definition noScheduler : response := writeError 501 "scheduler is not configured".
(** [if s.queue == nil { ... 501 }] *)
Definition with_queue (s : Srv) (k : Q → answer) : answer :=
  match srv_queue s with None => reply noQueue s | Some q => k q end.
Definition with_scheduler (s : Srv) (k : Service E → answer) : answer :=
  match srv_scheduler s with None => reply noScheduler s | Some svc => k svc end.
Definition save_queue (q : Q) (s : Srv) : Srv := s <| srv_queue := Some q |>.
Definition is_method (r : request) (method : string) : bool := bool_decide (rq_method r = method).

(** [withMiddleware] *)
Definition count_request (r : request) (route : string) (code : Z) (s : Srv) : Srv :=
  s <| srv_metrics := RecordHTTPRequest (rq_method r) route code <$> srv_metrics s |>.
Definition withMiddleware (route : string) (requireAuth : bool)
    (next : request → Srv → answer) (r : request) (s : Srv) : answer :=
  if requireAuth && negb (isAuthorized (srv_authRead s) (srv_authWrite s) (srv_authOn s) r) then
    reply (writeError 401 "unauthorized") (count_request r route 401 s)
  else
    '(resp, s) ← next r s;
    reply resp (count_request r route (rs_code resp) s).

(** ** Health, metrics and retention *)

Definition handleHealth (env : api_env) (r : request) (s : Srv) : answer :=
  if negb (is_method r "GET") then reply methodNotAllowed s else
  let queueConfigured := bool_decide (is_Some (srv_queue s)) in
  reply (mkResponse 200 (PHealth
    (int_of_float (Seconds (time_Sub (ae_clk env 0%nat) (srv_startedAt s)))) (srv_authOn s)
    queueConfigured (bool_decide (is_Some (srv_scheduler s)))
    (queueConfigured && (0 <? srv_queueRetentionInterval s)))) s.
(** The gauges of the queue are refreshed by the scrape. *)
Definition handleMetrics (env : api_env) (r : request) (s : Srv) : answer :=
  if negb (is_method r "GET") then reply methodNotAllowed s else
  match srv_metrics s with
  | None => reply (mkResponse 200 (PText "")) s
  | Some metrics =>
      let metrics :=
        match srv_queue s with
        | None => metrics
        | Some q =>
            match CountRunJobsByStatus (ae_ord env 0%nat) q with
            | Ok counts => SetQueueDepthByStatus (ae_ord env 1%nat) counts metrics
            | Err _ => metrics
            end
        end in
      text ← Prometheus (λ k, ae_ord env (2 + k)%nat) metrics;
      reply (mkResponse 200 (PText text)) (s <| srv_metrics := Some metrics |>)
  end.
Definition SetQueueRetention (status : string) (olderThan interval : duration) (batch : Z) (s : Srv) :
    Srv :=
  s <| srv_queueRetentionStatus := TrimSpace status |> <| srv_queueRetentionOlderThan := olderThan |>
    <| srv_queueRetentionInterval := interval |> <| srv_queueRetentionBatch := batch |>.
(** A tick of the loop that [Start] runs if there is a queue and an interval. *)
Definition retention_tick (env : api_env) (s : Srv) : Srv :=
  match srv_queue s with
  | Some q =>
      if 0 <? srv_queueRetentionInterval s then
        save_queue (PurgeRunJobs (ae_ord env 0%nat) (ae_queue_clk env 0%nat)
          (srv_queueRetentionStatus s) (srv_queueRetentionOlderThan s) (srv_queueRetentionBatch s) q).2 s
      else s
  | None => s
  end.

(** ** Workflows *)

Definition id_greater (a b : Workflow) : bool := str_ltb (wf_ID b) (wf_ID a).
Definition handleReady (env : api_env) (r : request) (s : Srv) : answer :=
  if negb (is_method r "GET") then reply methodNotAllowed s else
  match ListWorkflows (ae_ord env 0%nat) (srv_store s) with
  | Err err => reply (mkResponse 503 (PReady "not_ready" err)) s
  | Ok _ =>
      match srv_queue s with
      | None => reply (mkResponse 200 (PReady "ready" "")) s
      | Some q =>
          match CountRunJobsByStatus (ae_ord env 1%nat) q with
          | Err err => reply (mkResponse 503 (PReady "not_ready" err)) s
          | Ok _ => reply (mkResponse 200 (PReady "ready" "")) s
          end
      end
  end.

(** Validation and saving, which POST, PUT and PATCH end with; [None]: the search for
    a cycle does not end. *)
Definition save_valid (env : api_env) (code : Z) (workflow : Workflow) (s : Srv) : answer :=
  match ValidateWorkflow (ae_ord env 0%nat) workflow with
  | None => None
  | Some (Err err) => reply (writeError 400 err) s
  | Some (Ok _) =>
      match SaveWorkflow workflow (srv_store s) with
      | (Err err, st) => reply (writeError 500 err) (s <| srv_store := st |>)
      | (Ok _, st) => reply (mkResponse code (PWorkflow workflow)) (s <| srv_store := st |>)
      end
  end.
Definition handleWorkflows (env : api_env) (r : request) (s : Srv) : answer :=
  if is_method r "GET" then
    match ListWorkflows (ae_ord env 0%nat) (srv_store s) with
    | Err err => reply (writeError 500 err) s
    | Ok workflows =>
        let workflows := if EqualFold (rq_query r "order") "desc"
                         then sort_slice id_greater workflows else workflows in
        let '(limit, offset) := parseLimitOffset r in
        items ← paginate r workflows;
        reply (writeListResponse r PWorkflows items (zlen workflows) limit offset) s
    end
  else if is_method r "POST" then
    match decodeWorkflowRequest ParseDuration (de_workflow decode) (rq_body r) with
    | Err err => reply (writeValidationError 400 "workflow" err) s
    | Ok workflow => save_valid env 201 workflow s
    end
  else reply methodNotAllowed s.
Definition handleWorkflowByID (env : api_env) (r : request) (s : Srv) : answer :=
  let workflowID := TrimPrefix (rq_path r) "/workflows/" in
  if bool_decide (workflowID = "") then
    reply (writeValidationError 400 "workflowId" "workflow id is required") s else
  if is_method r "GET" then
    match GetWorkflow workflowID (srv_store s) with
    | Err err => reply (writeError 404 err) s
    | Ok workflow => reply (mkResponse 200 (PWorkflow workflow)) s
    end
  else if is_method r "PUT" then
    match decodeWorkflowRequest ParseDuration (de_workflow decode) (rq_body r) with
    | Err err => reply (writeValidationError 400 "workflow" err) s
    | Ok workflow =>
        let workflow := if bool_decide (TrimSpace (wf_ID workflow) = "")
                        then workflow <| wf_ID := workflowID |> else workflow in
        if bool_decide (wf_ID workflow ≠ workflowID) then
          reply (writeValidationError 400 "id" "workflow id in body must match path") s
        else save_valid env 200 workflow s
    end
  else if is_method r "PATCH" then
    match GetWorkflow workflowID (srv_store s) with
    | Err err => reply (writeError 404 err) s
    | Ok existing =>
        match decodeWorkflowPatchRequest ParseDuration (de_patch decode) (rq_body r) existing with
        | Err err => reply (writeValidationError 400 "workflow" err) s
        | Ok workflow =>
            if bool_decide (wf_ID workflow ≠ workflowID) then
              reply (writeValidationError 400 "id" "workflow id in body must match path") s
            else save_valid env 200 workflow s
        end
    end
  else reply methodNotAllowed s.

(** ** Runs *)

Definition handleRuns_get (env : api_env) (r : request) (s : Srv) : answer :=
  let workflowID := rq_query r "workflowId" in
  let statusFilter := TrimSpace (rq_query r "status") in
  let requestID := TrimSpace (rq_query r "requestId") in
  match parse_bounds ParseRFC3339 ParseRFC3339Nano r "startedAfter" "startedBefore" with
  | inl resp => reply resp s
  | inr (startedAfter, startedBefore, swapped) =>
      if bool_decide (statusFilter ≠ "") && negb (isValidRunStatus statusFilter) then
        reply (writeValidationError 400 "status" "invalid run status") s else
      if swapped : bool then reply (bounds_swapped "startedAfter" "startedBefore") s else
      let runStatus := if bool_decide (statusFilter ≠ "") then ToUpper statusFilter else "" in
      let '(limit, offset) := parseLimitOffset r in
      let orderDesc := EqualFold (rq_query r "order") "desc" in
      listed ← ListRunsFiltered (ae_ord env 0%nat) workflowID runStatus requestID startedAfter
                 startedBefore orderDesc limit offset (srv_store s);
      match listed with
      | Err err => reply (writeError 500 err) s
      | Ok runs =>
          if useListEnvelope r then
            match CountRunsFiltered (ae_ord env 1%nat) workflowID runStatus requestID startedAfter
                    startedBefore (srv_store s) with
            | Err err => reply (writeError 500 err) s
            | Ok total => reply (writeListResponse r PRuns runs total limit offset) s
            end
          else reply (mkResponse 200 (PRuns runs)) s
      end
  end.

(** [s.executor.RunWithID], or [Run] when [runID] is "": the executor saves to the
    server's store and counts in its metrics. *)
Definition execute (env : api_env) (workflow : Workflow) (runID requestID : string) (s : Srv) :
    answer :=
  '((run, err), store, metrics) ←
    RunWithID registry (ae_run env) workflow runID requestID (Some (srv_store s)) (srv_metrics s);
  let s := match store with Some st => s <| srv_store := st |> | None => s end in
  let s := s <| srv_metrics := metrics |> in
  match err with
  | Some err => reply (writeError 500 err) s
  | None => reply (mkResponse 201 (PRun run)) s
  end.
Definition idempotency_key (r : request) : string :=
  let key := TrimSpace (rq_header r "Idempotency-Key") in
  if bool_decide (key = "") then TrimSpace (rq_header r "X-Idempotency-Key") else key.
(** The job that an asynchronous run is queued as. *)
Definition run_job (env : api_env) (req : runRequest) (runID requestID : string) : RunQueueJob :=
  let now := ae_clk env 1%nat in
  mkRunQueueJob ("job-" +:+ runID) (rr_WorkflowID req) runID requestID RunJobStatusQueued 0
    (if rr_MaxAttempts req <=? 0 then 5 else rr_MaxAttempts req) "" "" time_zero now 0 "" ""
    time_zero now now.
Definition enqueue_run (env : api_env) (req : runRequest) (runID requestID : string) (q : Q)
    (s : Srv) : answer :=
  let job := run_job env req runID requestID in
  match EnqueueRunJob (ae_queue_clk env 0%nat) job q with
  | (Err err, q) => reply (writeError 500 err) (save_queue q s)
  | (Ok _, q) => reply (mkResponse 202 (PJob job)) (save_queue q s)
  end.
Definition handleRuns_post (env : api_env) (r : request) (s : Srv) : answer :=
  match de_run decode (rq_body r) with
  | Err err => reply (writeValidationError 400 "body" err) s
  | Ok req =>
      if bool_decide (rr_WorkflowID req = "") then
        reply (writeValidationError 400 "workflowId" "workflowId is required") s else
      match GetWorkflow (rr_WorkflowID req) (srv_store s) with
      | Err err => reply (writeError 404 err) s
      | Ok workflow =>
          let idempotencyKey := idempotency_key r in
          if bool_decide (idempotencyKey ≠ "") && negb (rr_Async req) then
            let runID := deterministicRunID (rr_WorkflowID req) idempotencyKey in
            match GetRun runID (srv_store s) with
            | Ok existingRun => reply (mkResponse 200 (PRun existingRun)) s
            | Err _ => execute env workflow runID idempotencyKey s
            end
          else if rr_Async req then
            with_queue s (λ q,
              if bool_decide (idempotencyKey ≠ "") then
                let runID := deterministicRunID (rr_WorkflowID req) idempotencyKey in
                match GetRun runID (srv_store s) with
                | Ok existingRun => reply (mkResponse 200 (PRun existingRun)) s
                | Err _ =>
                    match GetRunJobByRequest (ae_ord env 0%nat) (rr_WorkflowID req)
                            idempotencyKey q with
                    | Ok existingJob => reply (mkResponse 200 (PJob existingJob)) s
                    | Err _ => enqueue_run env req runID idempotencyKey q s
                    end
                end
              else
                let key := "async-" +:+ pretty (UnixNano (ae_clk env 0%nat)) in
                enqueue_run env req (deterministicRunID (rr_WorkflowID req) key) "" q s)
          else execute env workflow "" "" s
      end
  end.
Definition handleRuns (env : api_env) (r : request) (s : Srv) : answer :=
  if is_method r "GET" then handleRuns_get env r s else
  if is_method r "POST" then handleRuns_post env r s else
  reply methodNotAllowed s.

(** Cancelling a run: the jobs of the run, page by page until a short one.  [fuel]
    bounds the pages; [None]: not enough of it, or a panic. *)
Fixpoint list_run_jobs (fuel : nat) (ord : nat → iter_order) (runID : string) (offset : Z) (q : Q)
    (jobs : list RunQueueJob) : option (result (list RunQueueJob)) :=
  match fuel with
  | O => None
  | S fuel =>
      listed ← ListRunJobsByRun (ord fuel) runID 500 offset q;
      match listed with
      | Err err => Some (Err err)
      | Ok batch =>
          if Nat.eqb (length batch) 0 then Some (Ok jobs) else
          let jobs := jobs ++ batch in
          if zlen batch <? 500 then Some (Ok jobs)
          else list_run_jobs fuel ord runID (wrap64 (offset + zlen batch)) q jobs
      end
  end.
(** The loop that cancels them, [k] counting the calls. *)
Fixpoint cancel_run_jobs (clks : nat → clock) (runID reason : string) (k : nat)
    (jobs cancelled : list RunQueueJob) (q : Q) : list RunQueueJob * Q :=
  match jobs with
  | [] => (cancelled, q)
  | job :: jobs =>
      if bool_decide (job_RunID job ≠ runID) then
        cancel_run_jobs clks runID reason (S k) jobs cancelled q
      else
        match CancelRunJob (clks k) (job_ID job) reason q with
        | (Err _, q) => cancel_run_jobs clks runID reason (S k) jobs cancelled q
        | (Ok _, q) =>
            match GetRunJob (job_ID job) q with
            | Ok updated => cancel_run_jobs clks runID reason (S k) jobs (cancelled ++ [updated]) q
            | Err _ => cancel_run_jobs clks runID reason (S k) jobs cancelled q
            end
        end
  end.
Definition cancelled_run (now : time) (reason : string) (run : Run) : Run :=
  run <| run_Status := RunStatusCancelled |> <| run_Error := reason |>
      <| run_FinishedAt := now |> <| run_Duration := time_Sub now (run_StartedAt run) |>.
Definition handleRunByID (fuel : nat) (env : api_env) (r : request) (s : Srv) : answer :=
  if negb (is_method r "GET") && negb (is_method r "DELETE") then reply methodNotAllowed s else
  let runID := TrimPrefix (rq_path r) "/runs/" in
  if bool_decide (runID = "") then reply (writeError 400 "run id is required") s else
  if is_method r "DELETE" then
    with_queue s (λ q,
      let reason := TrimSpace (rq_query r "reason") in
      let reason := if bool_decide (reason = "") then "run cancelled" else reason in
      listed ← list_run_jobs fuel (ae_ord env) runID 0 q [];
      match listed with
      | Err err => reply (writeError 500 err) s
      | Ok jobs =>
          let '(cancelled, q) := cancel_run_jobs (ae_queue_clk env) runID reason 0 jobs [] q in
          let s := save_queue q s in
          if Nat.eqb (length cancelled) 0 then
            reply (writeValidationError 409 "runId" "no cancellable jobs found for run") s
          else
            let s := match GetRun runID (srv_store s) with
                     | Ok run => s <| srv_store :=
                         (SaveRun (cancelled_run (ae_clk env 0%nat) reason run) (srv_store s)).2 |>
                     | Err _ => s
                     end in
            reply (mkResponse 200 (PRunCancelled runID cancelled)) s
      end)
  else
    match GetRun runID (srv_store s) with
    | Err err => reply (writeError 404 err) s
    | Ok run => reply (mkResponse 200 (PRun run)) s
    end.

(** ** Jobs *)

Definition handleJobStats (env : api_env) (r : request) (s : Srv) : answer :=
  with_queue s (λ q,
    if negb (is_method r "GET") then reply methodNotAllowed s else
    match CountRunJobsByStatus (ae_ord env 0%nat) q with
    | Err err => reply (writeError 500 err) s
    | Ok counts =>
        let total := foldl (λ total count, wrap64 (total + count)) 0
                       (iter_values (ae_ord env 1%nat) counts) in
        reply (mkResponse 200 (PJobStats total counts)) s
    end).
(** The listing that [handleJobs] and [handleDeadLetterJobs] end with. *)
Definition list_jobs (env : api_env) (r : request) (status workflowID requestID : string)
    (q : Q) (s : Srv) : answer :=
  match parse_bounds ParseRFC3339 ParseRFC3339Nano r "updatedAfter" "updatedBefore" with
  | inl resp => reply resp s
  | inr (updatedAfter, updatedBefore, swapped) =>
      if swapped : bool then reply (bounds_swapped "updatedAfter" "updatedBefore") s else
      let '(limit, offset) := parseLimitOffset r in
      listed ← ListRunJobsFiltered (ae_ord env 0%nat) status workflowID requestID updatedAfter
                 updatedBefore limit offset q;
      match listed with
      | Err err => reply (writeError 500 err) s
      | Ok jobs =>
          if useListEnvelope r then
            match CountRunJobsFiltered (ae_ord env 1%nat) status workflowID requestID updatedAfter
                    updatedBefore q with
            | Err err => reply (writeError 500 err) s
            | Ok total => reply (writeListResponse r PJobs jobs total limit offset) s
            end
          else reply (mkResponse 200 (PJobs jobs)) s
      end
  end.
Definition handleJobs (env : api_env) (r : request) (s : Srv) : answer :=
  with_queue s (λ q,
    if negb (is_method r "GET") then reply methodNotAllowed s else
    let status := TrimSpace (rq_query r "status") in
    if bool_decide (status ≠ "") && negb (isValidRunJobStatus status) then
      reply (writeValidationError 400 "status" "invalid job status") s else
    list_jobs env r status (TrimSpace (rq_query r "workflowId"))
      (TrimSpace (rq_query r "requestId")) q s).
Definition handleDeadLetterJobs (env : api_env) (r : request) (s : Srv) : answer :=
  with_queue s (λ q,
    if negb (is_method r "GET") then reply methodNotAllowed s else
    list_jobs env r RunJobStatusDead "" "" q s).

(** [ParseDuration] of an optional field: the delay, or the answer that refuses it. *)
Definition optional_duration (raw field message : string) : response + duration :=
  if bool_decide (TrimSpace raw ≠ "") then
    match ParseDuration raw with
    | Err _ => inl (writeValidationError 400 field message)
    | Ok d => inr d
    end
  else inr 0.
Definition requeueable (job : RunQueueJob) : bool :=
  bool_decide (job_Status job ∈ [RunJobStatusDead; RunJobStatusFailed]).
Definition handleJobRequeueByID (env : api_env) (r : request) (s : Srv) : answer :=
  with_queue s (λ q,
    if negb (is_method r "POST") then reply methodNotAllowed s else
    let jobID := TrimSpace (TrimPrefix (rq_path r) "/jobs/requeue/") in
    if bool_decide (jobID = "") then reply (writeError 400 "job id is required") s else
    match de_requeue decode (rq_body r) with
    | Err err => reply (writeValidationError 400 "body" err) s
    | Ok req =>
        match optional_duration (rqr_AvailableAfter req) "availableAfter"
                "invalid availableAfter duration" with
        | inl resp => reply resp s
        | inr delay =>
            match GetRunJob jobID q with
            | Err err => reply (writeError 404 err) s
            | Ok job =>
                if negb (requeueable job) then
                  reply (writeValidationError 409 "status"
                           "only failed or dead-letter jobs can be requeued") s
                else
                  match RequeueRunJob (ae_queue_clk env 0%nat) jobID delay
                          (TrimSpace (rqr_ReplayedBy req)) (TrimSpace (rqr_ReplayReason req)) q with
                  | (Err err, q) => reply (writeError 500 err) (save_queue q s)
                  | (Ok _, q) =>
                      match GetRunJob jobID q with
                      | Err err => reply (writeError 500 err) (save_queue q s)
                      | Ok requeued => reply (mkResponse 200 (PJob requeued)) (save_queue q s)
                      end
                  end
            end
        end
    end).
(** [domain.RunQueueJob{}], which a failed read leaves. *)
Definition RunQueueJob_zero : RunQueueJob :=
  mkRunQueueJob "" "" "" "" "" 0 0 "" "" time_zero time_zero 0 "" "" time_zero time_zero time_zero.
Definition handleJobByID (env : api_env) (r : request) (s : Srv) : answer :=
  with_queue s (λ q,
    if HasPrefix (rq_path r) "/jobs/requeue/" then handleJobRequeueByID env r s else
    if negb (is_method r "GET") && negb (is_method r "DELETE") then reply methodNotAllowed s else
    let jobID := TrimSpace (TrimPrefix (rq_path r) "/jobs/") in
    if bool_decide (jobID = "") then
      reply (writeValidationError 400 "jobId" "job id is required") s else
    if is_method r "DELETE" then
      match CancelRunJob (ae_queue_clk env 0%nat) jobID (TrimSpace (rq_query r "reason")) q with
      | (Err err, q) => reply (writeValidationError 409 "status" err) (save_queue q s)
      | (Ok _, q) =>
          let job := match GetRunJob jobID q with Ok job => job | Err _ => RunQueueJob_zero end in
          reply (mkResponse 200 (PJob job)) (save_queue q s)
      end
    else
      match GetRunJob jobID q with
      | Err err => reply (writeError 404 err) s
      | Ok job => reply (mkResponse 200 (PJob job)) s
      end).
Definition handleJobHistoryByID (env : api_env) (r : request) (s : Srv) : answer :=
  with_queue s (λ q,
    if negb (is_method r "GET") then reply methodNotAllowed s else
    let jobID := TrimSpace (TrimPrefix (rq_path r) "/jobs/history/") in
    if bool_decide (jobID = "") then
      reply (writeValidationError 400 "jobId" "job id is required") s else
    let toStatus := TrimSpace (rq_query r "toStatus") in
    if bool_decide (toStatus ≠ "") && negb (isValidRunJobStatus toStatus) then
      reply (writeValidationError 400 "toStatus" "invalid job status") s else
    let actor := TrimSpace (rq_query r "actor") in
    match parse_bounds ParseRFC3339 ParseRFC3339Nano r "createdAfter" "createdBefore" with
    | inl resp => reply resp s
    | inr (createdAfter, createdBefore, swapped) =>
        if swapped : bool then reply (bounds_swapped "createdAfter" "createdBefore") s else
        let '(limit, offset) := parseLimitOffset r in
        listed ← ListRunJobTransitionsFiltered jobID (ToUpper toStatus) actor createdAfter
                   createdBefore limit offset q;
        match listed with
        | Err err => reply (writeError 500 err) s
        | Ok items =>
            if negb (useListEnvelope r) then reply (mkResponse 200 (PTransitions items)) s else
            match CountRunJobTransitionsFiltered jobID (ToUpper toStatus) actor createdAfter
                    createdBefore q with
            | Err err => reply (writeError 500 err) s
            | Ok total => reply (writeListResponse r PTransitions items total limit offset) s
            end
        end
    end).

(** ** Bulk operations *)

(** [jobIDs]: the IDs of the request, trimmed, without the blank ones. *)
Definition given_ids (ids : list string) : list string :=
  filter (λ id, id ≠ "") (TrimSpace <$> ids).
(** What a bulk operation has done so far. *)
Record bulk := mkBulk {
  bulk_done : list RunQueueJob;
  bulk_failed : gmap string string;
  bulk_details : gmap string bulkFailureDetail;
}.
Definition bulk_empty : bulk := mkBulk [] ∅ ∅.
Definition bulk_fail (jobID message : string) (b : bulk) : bulk :=
  mkBulk (bulk_done b) (<[jobID := message]> (bulk_failed b))
    (<[jobID := mkBulkFailureDetail (classifyBulkJobError message) message]> (bulk_details b)).
Definition bulk_add (job : RunQueueJob) (b : bulk) : bulk :=
  mkBulk (bulk_done b ++ [job]) (bulk_failed b) (bulk_details b).
Definition bulk_response (b : bulk) : response :=
  mkResponse 200 (PBulk (bulk_done b)
    (bulkResultCode (zlen (bulk_done b)) (Z.of_nat (size (bulk_failed b))))
    (bulk_failed b) (bulk_details b)).
(** One round of the two loops. *)
Definition cancel_one (clk : clock) (reason jobID : string) (b : bulk) (q : Q) : bulk * Q :=
  match CancelRunJob clk jobID reason q with
  | (Err message, q) => (bulk_fail jobID message b, q)
  | (Ok _, q) =>
      match GetRunJob jobID q with
      | Err message => (bulk_fail jobID message b, q)
      | Ok job => (bulk_add job b, q)
      end
  end.
Definition requeue_one (clk : clock) (delay : duration) (replayedBy replayReason jobID : string)
    (b : bulk) (q : Q) : bulk * Q :=
  match GetRunJob jobID q with
  | Err message => (bulk_fail jobID message b, q)
  | Ok job =>
      if negb (requeueable job) then
        (bulk_fail jobID "only failed or dead-letter jobs can be requeued" b, q)
      else
        match RequeueRunJob clk jobID delay replayedBy replayReason q with
        | (Err message, q) => (bulk_fail jobID message b, q)
        | (Ok _, q) =>
            match GetRunJob jobID q with
            | Err message => (bulk_fail jobID message b, q)
            | Ok updated => (bulk_add updated b, q)
            end
        end
  end.
Fixpoint bulk_loop (one : nat → string → bulk → Q → bulk * Q) (k : nat) (jobIDs : list string)
    (b : bulk) (q : Q) : bulk * Q :=
  match jobIDs with
  | [] => (b, q)
  | jobID :: jobIDs => let '(b, q) := one k jobID b q in bulk_loop one (S k) jobIDs b q
  end.
(** The IDs of the request or, when it names none, those of the jobs that match. *)
Definition bulk_ids (env : api_env) (ids : list string) (status workflowID requestID : string)
    (limit : Z) (q : Q) : option (result (list string)) :=
  if negb (Nat.eqb (length (given_ids ids)) 0) then Some (Ok (given_ids ids)) else
  match ListRunJobsFiltered (ae_ord env 0%nat) status workflowID requestID time_zero time_zero
          (if limit <=? 0 then 100 else limit) 0 q with
  | None => None
  | Some (Err err) => Some (Err err)
  | Some (Ok jobs) => Some (Ok (job_ID <$> jobs))
  end.

Definition handleJobsBulkCancel (env : api_env) (r : request) (s : Srv) : answer :=
  with_queue s (λ q,
    if negb (is_method r "POST") then reply methodNotAllowed s else
    match de_bulkCancel decode (rq_body r) with
    | Err err => reply (writeValidationError 400 "body" err) s
    | Ok req =>
        if bool_decide (TrimSpace (bcr_Status req) ≠ "")
           && negb (isValidRunJobStatus (bcr_Status req)) then
          reply (writeValidationError 400 "status" "invalid job status") s else
        let status := TrimSpace (bcr_Status req) in
        let status := if bool_decide (status = "") then RunJobStatusQueued else status in
        found ← bulk_ids env (bcr_JobIDs req) status (TrimSpace (bcr_WorkflowID req))
                  (TrimSpace (bcr_RequestID req)) (bcr_Limit req) q;
        match found with
        | Err err => reply (writeError 500 err) s
        | Ok jobIDs =>
            let '(b, q) := bulk_loop
              (λ k, cancel_one (ae_queue_clk env k) (TrimSpace (bcr_Reason req))) 0 jobIDs
              bulk_empty q in
            reply (bulk_response b) (save_queue q s)
        end
    end).
Definition handleJobsBulkRequeue (env : api_env) (r : request) (s : Srv) : answer :=
  with_queue s (λ q,
    if negb (is_method r "POST") then reply methodNotAllowed s else
    match de_bulkRequeue decode (rq_body r) with
    | Err err => reply (writeValidationError 400 "body" err) s
    | Ok req =>
        if bool_decide (TrimSpace (brr_Status req) ≠ "")
           && negb (isValidRunJobStatus (brr_Status req)) then
          reply (writeValidationError 400 "status" "invalid job status") s else
        match optional_duration (brr_AvailableAfter req) "availableAfter"
                "invalid availableAfter duration" with
        | inl resp => reply resp s
        | inr delay =>
            let status := TrimSpace (brr_Status req) in
            let status := if bool_decide (status = "") then RunJobStatusDead else status in
            if Nat.eqb (length (given_ids (brr_JobIDs req))) 0
               && bool_decide (status ∉ [RunJobStatusDead; RunJobStatusFailed]) then
              reply (writeValidationError 400 "status" "status must be DEAD_LETTER or FAILED") s
            else
              found ← bulk_ids env (brr_JobIDs req) status "" "" (brr_Limit req) q;
              match found with
              | Err err => reply (writeError 500 err) s
              | Ok jobIDs =>
                  let '(b, q) := bulk_loop
                    (λ k, requeue_one (ae_queue_clk env k) delay (TrimSpace (brr_ReplayedBy req))
                            (TrimSpace (brr_ReplayReason req))) 0 jobIDs bulk_empty q in
                  reply (bulk_response b) (save_queue q s)
              end
        end
    end).
Definition handleJobsPurge (env : api_env) (r : request) (s : Srv) : answer :=
  with_queue s (λ q,
    if negb (is_method r "POST") then reply methodNotAllowed s else
    match de_purge decode (rq_body r) with
    | Err err => reply (writeValidationError 400 "body" err) s
    | Ok req =>
        let status := TrimSpace (pr_Status req) in
        if bool_decide (status ≠ "") && negb (isValidRunJobStatus (pr_Status req)) then
          reply (writeValidationError 400 "status" "invalid job status") s else
        let dryRun := match parseOptionalBool (rq_query r "dryRun") with
                      | (val, true) => val
                      | _ => pr_DryRun req
                      end in
        match optional_duration (pr_OlderThan req) "olderThan" "invalid olderThan duration" with
        | inl resp => reply resp s
        | inr d =>
            let limit := pr_Limit req in
            if dryRun : bool then
              let updatedBefore := if 0 <? d then time_Add (ae_clk env 0%nat) (- d) else time_zero in
              match CountRunJobsFiltered (ae_ord env 0%nat) status "" "" time_zero updatedBefore q with
              | Err err => reply (writeError 500 err) s
              | Ok matched =>
                  let matched := if (0 <? limit) && (limit <? matched) then limit else matched in
                  let resultCode := if (0 <? limit) && (limit <=? matched)
                                    then "PURGE_DRY_RUN_LIMIT_REACHED" else "BULK_OK" in
                  reply (mkResponse 200 (PPurge 0 resultCode (Some true) (Some matched))) s
              end
            else
              match PurgeRunJobs (ae_ord env 0%nat) (ae_queue_clk env 0%nat) status d limit q with
              | (Err err, q) => reply (writeError 500 err) (save_queue q s)
              | (Ok deleted, q) =>
                  let resultCode := if (0 <? limit) && (limit <=? deleted)
                                    then "PURGE_LIMIT_REACHED" else "BULK_OK" in
                  reply (mkResponse 200 (PPurge deleted resultCode None None)) (save_queue q s)
              end
        end
    end).

(** ** Schedules *)

Definition schedule_less (a b : ScheduleConfig) : bool :=
  str_ltb (sched_WorkflowID a) (sched_WorkflowID b).
Definition handleSchedules (env : api_env) (r : request) (s : Srv) : answer :=
  with_scheduler s (λ svc,
    if is_method r "GET" then
      let items := sort_slice schedule_less (List (ae_ord env 0%nat) svc) in
      if useListEnvelope r then
        let '(limit, offset) := parseLimitOffset r in
        let start := if zlen items <? offset then zlen items else offset in
        let last := wrap64 (start + limit) in
        let last := if zlen items <? last then zlen items else last in
        page ← slice start last items;
        reply (writeListResponse r PSchedules page (zlen items) limit offset) s
      else reply (mkResponse 200 (PSchedules items)) s
    else if negb (is_method r "POST") then reply methodNotAllowed s else
    match de_schedule decode (rq_body r) with
    | Err err => reply (writeValidationError 400 "body" err) s
    | Ok req =>
        let cfg interval := mkScheduleConfig (scr_WorkflowID req) interval (scr_Cron req)
                              (scr_RunOnStartup req) (scr_AllowOverlap req) in
        match (if bool_decide (scr_Interval req ≠ "") then ParseDuration (scr_Interval req)
               else Ok 0) with
        | Err _ => reply (writeValidationError 400 "interval" "invalid interval duration") s
        | Ok d =>
            match Register MarshalIndent (ae_flt env) (ae_ord env) (cfg d) svc with
            | (Err err, svc) => reply (writeError 400 err) (s <| srv_scheduler := Some svc |>)
            | (Ok _, svc) =>
                reply (mkResponse 201 (PSchedule (cfg d))) (s <| srv_scheduler := Some svc |>)
            end
        end
    end).
Definition handleScheduleByWorkflowID (env : api_env) (r : request) (s : Srv) : answer :=
  with_scheduler s (λ svc,
    if negb (is_method r "DELETE") then reply methodNotAllowed s else
    let workflowID := TrimSpace (TrimPrefix (rq_path r) "/schedules/") in
    if bool_decide (workflowID = "") then
      reply (writeValidationError 400 "workflowId" "workflow id is required") s else
    let svc := Unregister MarshalIndent (ae_flt env) (ae_ord env) workflowID svc in
    reply (mkResponse 200 (PStatus "unscheduled" workflowID)) (s <| srv_scheduler := Some svc |>)).
(** [op] is [Pause] or [Resume]. *)
Definition pause_or_resume (prefix status : string)
    (op : faults → (nat → iter_order) → string → Service E → result unit * Service E)
    (env : api_env) (r : request) (s : Srv) : answer :=
  with_scheduler s (λ svc,
    if negb (is_method r "POST") then reply methodNotAllowed s else
    let workflowID := TrimSpace (TrimPrefix (rq_path r) prefix) in
    if bool_decide (workflowID = "") then
      reply (writeValidationError 400 "workflowId" "workflow id is required") s else
    match op (ae_flt env) (ae_ord env) workflowID svc with
    | (Err err, svc) => reply (writeError 404 err) (s <| srv_scheduler := Some svc |>)
    | (Ok _, svc) =>
        reply (mkResponse 200 (PStatus status workflowID)) (s <| srv_scheduler := Some svc |>)
    end).
Definition handleSchedulePauseByWorkflowID : api_env → request → Srv → answer :=
  pause_or_resume "/schedules/pause/" "paused" (Pause MarshalIndent).
Definition handleScheduleResumeByWorkflowID : api_env → request → Srv → answer :=
  pause_or_resume "/schedules/resume/" "resumed" (Resume MarshalIndent).

(** ** Routes

    The patterns and handlers that [NewServer] registers with its mux; which of them a path
    reaches is in [Mux]. *)
Record route := mkRoute {
  rt_pattern : string;
  rt_auth : bool;
  rt_handler : nat → api_env → request → Srv → answer;
}.
Definition routes : list route := [
  mkRoute "/health" false (λ _, handleHealth);
  mkRoute "/ready" false (λ _, handleReady);
  mkRoute "/metrics" false (λ _, handleMetrics);
  mkRoute "/workflows" true (λ _, handleWorkflows);
  mkRoute "/workflows/" true (λ _, handleWorkflowByID);
  mkRoute "/runs" true (λ _, handleRuns);
  mkRoute "/runs/" true handleRunByID;
  mkRoute "/jobs" true (λ _, handleJobs);
  mkRoute "/jobs/stats" true (λ _, handleJobStats);
  mkRoute "/jobs/history/" true (λ _, handleJobHistoryByID);
  mkRoute "/jobs/" true (λ _, handleJobByID);
  mkRoute "/jobs/dead-letter" true (λ _, handleDeadLetterJobs);
  mkRoute "/jobs/purge" true (λ _, handleJobsPurge);
  mkRoute "/jobs/cancel" true (λ _, handleJobsBulkCancel);
  mkRoute "/jobs/requeue" true (λ _, handleJobsBulkRequeue);
  mkRoute "/jobs/requeue/" true (λ _, handleJobRequeueByID);
  mkRoute "/schedules" true (λ _, handleSchedules);
  mkRoute "/schedules/" true (λ _, handleScheduleByWorkflowID);
  mkRoute "/schedules/pause/" true (λ _, handleSchedulePauseByWorkflowID);
  mkRoute "/schedules/resume/" true (λ _, handleScheduleResumeByWorkflowID)].
(** A request served by a route. *)
Definition serve (rt : route) (fuel : nat) (env : api_env) : request → Srv → answer :=
  withMiddleware (rt_pattern rt) (rt_auth rt) (rt_handler rt fuel env).
End api.

(** [NewServer]: the metrics are never nil, and there are tokens if any is configured. *)
Definition NewServer {St Q E} (now : time) (authConfig : string) (store : St) (queue : option Q)
    (schedulerService : option (Service E)) (metricsCollector : option Collector) : Server St Q E :=
  let '(readTokens, writeTokens) := parseAuthConfig authConfig in
  mkServer store queue schedulerService (Some (default NewCollector metricsCollector)) readTokens
    writeTokens (negb (bool_decide (readTokens = ∅) && bool_decide (writeTokens = ∅))) now "" 0 0 0.
