(* ===== verification/ApiProps.v ===== *)
(** * The HTTP server: who may change what, and what the handlers do

    Read access changes nothing and what is stored is valid, for any implementation of
    the store, the queue and the cron engine. *)

From S2P Require Import Prelude GoLib GoText Domain Graph Actions Interfaces Store Queue.
From S2P Require Import Telemetry Prometheus Executor ExecutorProps Run RunProps Scheduler SchedulerProps.
From S2P Require Import WorkflowDecode ApiText Api.
Local Open Scope Z_scope.

(** ** Read access *)

(** What a request can change, besides the count of requests. *)
Definition same_state {St Q E} (s s' : Server St Q E) : Prop :=
  srv_store s' = srv_store s ∧ srv_queue s' = srv_queue s ∧ srv_scheduler s' = srv_scheduler s.

Lemma read_method m r : isWriteMethod (rq_method r) = false →
  m ∉ ["GET"; "HEAD"; "OPTIONS"] → is_method r m = false.
Proof.
  unfold isWriteMethod, is_method. intros Hr%negb_false_iff%bool_decide_eq_true Hm.
  apply bool_decide_eq_false. intros Heq. rewrite Heq in Hr. by apply Hm.
Qed.

Section read.
Context `{!Quote} {St Q E : Type} `{!WorkflowStore St} `{!WorkflowStoreListing St}.
Context `{!RunQueue Q} `{!RunQueueListing Q} `{!CronEngine E}.
Context (registry : Registry) (decode : decoders) (ParseDuration : string → result duration).
Context (ParseRFC3339 ParseRFC3339Nano : string → result time).
Context (MarshalIndent : persistedSchedules → result string).
Abbreviation Srv := (Server St Q E).
Abbreviation all_routes :=
  (routes (St := St) (Q := Q) (E := E) registry decode ParseDuration ParseRFC3339 ParseRFC3339Nano
     MarshalIndent).

(** A handler that only answers, on a request that only reads. *)
Definition reads_only (h : request → Srv → option (response * Srv)) : Prop :=
  ∀ r s resp s', isWriteMethod (rq_method r) = false → h r s = Some (resp, s') → s' = s.

Ltac read_step :=
  match goal with
  | |- reply _ _ = _ → _ => unfold reply
  | |- Some (?resp, ?s) = Some (_, _) → _ => intros [= _ <-]; reflexivity
  | |- None = Some _ → _ => discriminate
  | |- context [match ?x with _ => _ end] => destruct x; simpl
  | |- context [mbind _ ?x] => destruct x; simpl
  end.
Ltac solve_reads :=
  let Hr := fresh "Hr" in
  intros r s resp s' Hr; unfold reply, with_queue, with_scheduler;
  rewrite ?(read_method "POST" r Hr), ?(read_method "PUT" r Hr), ?(read_method "PATCH" r Hr),
    ?(read_method "DELETE" r Hr) by (apply (bool_decide_unpack _); vm_compute; exact I);
  simpl; repeat read_step.

Lemma handleReady_reads env : reads_only (handleReady env).
Proof. unfold handleReady. solve_reads. Qed.
Lemma handleWorkflows_reads env : reads_only (handleWorkflows decode ParseDuration env).
Proof. unfold handleWorkflows. solve_reads. Qed.
Lemma handleWorkflowByID_reads env : reads_only (handleWorkflowByID decode ParseDuration env).
Proof. unfold handleWorkflowByID. solve_reads. Qed.
Lemma handleRuns_reads env :
  reads_only (handleRuns registry decode ParseRFC3339 ParseRFC3339Nano env).
Proof. unfold handleRuns, handleRuns_get. solve_reads. Qed.
Lemma handleRunByID_reads fuel env : reads_only (handleRunByID fuel env).
Proof. unfold handleRunByID. solve_reads. Qed.
Lemma handleJobs_reads env : reads_only (handleJobs ParseRFC3339 ParseRFC3339Nano env).
Proof. unfold handleJobs, list_jobs. solve_reads. Qed.
Lemma handleJobStats_reads env : reads_only (handleJobStats env).
Proof. unfold handleJobStats. solve_reads. Qed.
Lemma handleJobHistoryByID_reads env :
  reads_only (handleJobHistoryByID ParseRFC3339 ParseRFC3339Nano env).
Proof. unfold handleJobHistoryByID. solve_reads. Qed.
Lemma handleJobRequeueByID_reads env : reads_only (handleJobRequeueByID decode ParseDuration env).
Proof. unfold handleJobRequeueByID. solve_reads. Qed.
Lemma handleJobByID_reads env : reads_only (handleJobByID decode ParseDuration env).
Proof.
  intros r s resp s' Hr. unfold handleJobByID. destruct (HasPrefix (rq_path r) "/jobs/requeue/").
  - unfold with_queue. destruct (srv_queue s); [|by intros [= _ <-]].
    by apply handleJobRequeueByID_reads.
  - revert r s resp s' Hr. solve_reads.
Qed.
Lemma handleDeadLetterJobs_reads env :
  reads_only (handleDeadLetterJobs ParseRFC3339 ParseRFC3339Nano env).
Proof. unfold handleDeadLetterJobs, list_jobs. solve_reads. Qed.
Lemma handleJobsPurge_reads env : reads_only (handleJobsPurge decode ParseDuration env).
Proof. unfold handleJobsPurge. solve_reads. Qed.
Lemma handleJobsBulkCancel_reads env : reads_only (handleJobsBulkCancel decode env).
Proof. unfold handleJobsBulkCancel. solve_reads. Qed.
Lemma handleJobsBulkRequeue_reads env : reads_only (handleJobsBulkRequeue decode ParseDuration env).
Proof. unfold handleJobsBulkRequeue. solve_reads. Qed.
Lemma handleSchedules_reads env :
  reads_only (handleSchedules decode ParseDuration MarshalIndent env).
Proof. unfold handleSchedules. solve_reads. Qed.
Lemma handleScheduleByWorkflowID_reads env :
  reads_only (handleScheduleByWorkflowID MarshalIndent env).
Proof. unfold handleScheduleByWorkflowID. solve_reads. Qed.
Lemma pause_or_resume_reads prefix status op env : reads_only (pause_or_resume prefix status op env).
Proof. unfold pause_or_resume. solve_reads. Qed.

(** A scrape refreshes the gauges of the metrics, and nothing else, whatever the method. *)
Lemma handleMetrics_same env r (s : Srv) resp s' :
  handleMetrics env r s = Some (resp, s') → same_state s s'.
Proof.
  unfold handleMetrics, reply. destruct (negb _); [by intros [= _ <-]|].
  destruct (srv_metrics s); [|by intros [= _ <-]].
  destruct (Prometheus _ _); simpl; [by intros [= _ <-]|done].
Qed.

Definition reads_same (h : request → Srv → option (response * Srv)) : Prop :=
  ∀ r s resp s', isWriteMethod (rq_method r) = false → h r s = Some (resp, s') → same_state s s'.
Lemma reads_only_same h : reads_only h → reads_same h.
Proof. intros Hr r s resp s' Hm Hs. by rewrite (Hr _ _ _ _ Hm Hs). Qed.
Lemma routes_read fuel env : Forall (λ rt, reads_same (rt_handler rt fuel env)) all_routes.
Proof.
  repeat apply Forall_cons_2; try apply Forall_nil_2; simpl;
    try (intros r s resp s' _; apply handleMetrics_same); apply reads_only_same.
  - unfold handleHealth. solve_reads.
  - apply handleReady_reads.
  - apply handleWorkflows_reads.
  - apply handleWorkflowByID_reads.
  - apply handleRuns_reads.
  - apply handleRunByID_reads.
  - apply handleJobs_reads.
  - apply handleJobStats_reads.
  - apply handleJobHistoryByID_reads.
  - apply handleJobByID_reads.
  - apply handleDeadLetterJobs_reads.
  - apply handleJobsPurge_reads.
  - apply handleJobsBulkCancel_reads.
  - apply handleJobsBulkRequeue_reads.
  - apply handleJobRequeueByID_reads.
  - apply handleSchedules_reads.
  - apply handleScheduleByWorkflowID_reads.
  - apply pause_or_resume_reads.
  - apply pause_or_resume_reads.
Qed.

(** The routes that ask for no token change nothing, whatever the method. *)
Lemma open_routes_read fuel env :
  Forall (λ rt, rt_auth rt = false →
    ∀ r s resp s', rt_handler rt fuel env r s = Some (resp, s') → same_state s s') all_routes.
Proof.
  repeat apply Forall_cons_2; try apply Forall_nil_2; simpl; try discriminate;
    intros _ r s resp s'; [| |apply handleMetrics_same].
  - unfold handleHealth. case_match; by intros [= _ <-].
  - unfold handleReady, reply. intros Hs. assert (s' = s) as ->; [|done]. revert Hs.
    repeat read_step.
Qed.
Lemma reply_same pattern r (s s0 : Srv) resp resp0 s' :
  same_state s s0 → reply resp0 (count_request r pattern (rs_code resp0) s0) = Some (resp, s') →
  same_state s s'.
Proof. intros Hs [= _ <-]. exact Hs. Qed.

(** C13. Only writers write: with authentication on, a request whose token has no write
    access leaves the workflows, runs, jobs and schedules as they were, on every route -
    it is refused, or its method only reads and the handler changes nothing - and
    without a configured token it learns nothing on the routes that ask for one. *)
Theorem only_writers_write fuel env rt r s resp s' :
  rt ∈ all_routes → srv_authOn s = true → extractToken r ∉ srv_authWrite s →
  serve rt fuel env r s = Some (resp, s') →
  same_state s s' ∧
  (rt_auth rt = true → extractToken r ∉ srv_authRead s → resp = writeError 401 "unauthorized").
Proof.
  intros Hin Hon Hw Hs. pose proof (routes_read fuel env) as Hreads. rewrite Forall_forall in Hreads.
  pose proof (open_routes_read fuel env) as Hopen. rewrite Forall_forall in Hopen.
  specialize (Hreads rt Hin). specialize (Hopen rt Hin).
  unfold serve, withMiddleware, isAuthorized in Hs. rewrite Hon in Hs. simpl in Hs.
  destruct (rt_auth rt); simpl in Hs.
  2:{ split; [|discriminate]. destruct (rt_handler rt fuel env r s) as [[resp0 s0]|] eqn:Hh; [|done].
      simpl in Hs. eapply reply_same; [|exact Hs]. by eapply Hopen. }
  rewrite (bool_decide_false _ Hw) in Hs.
  destruct (bool_decide (extractToken r = "")); [by injection Hs as <- <-; repeat split|].
  destruct (isWriteMethod (rq_method r)) eqn:Hm; [by injection Hs as <- <-; repeat split|].
  rewrite orb_false_r in Hs. split.
  - case_bool_decide; simpl in Hs; [|by injection Hs as <- <-; repeat split].
    destruct (rt_handler rt fuel env r s) as [[resp0 s0]|] eqn:Hh; [|done].
    simpl in Hs. eapply reply_same; [|exact Hs]. by eapply Hreads.
  - intros _ Hr. rewrite (bool_decide_false _ Hr) in Hs. by injection Hs as <- _.
Qed.
End read.

(** A configuration without a valid segment turns authentication off: every request is
    served, although tokens were configured. *)
Theorem auth_fails_open {St Q E} now (store : St) (queue : option Q) (svc : option (Service E)) m :
  srv_authOn (NewServer now "reader:s3cret,writer:t0ken" store queue svc m) = false ∧
  srv_authOn (NewServer now "write:" store queue svc m) = false.
Proof. split; vm_compute; reflexivity. Qed.

(** ** What is stored is valid *)

Definition valid_workflow (w : Workflow) : Prop := wf_ID w ≠ "" ∧ well_formed (wf_Tasks w).
Definition valid_store {St} `{!WorkflowStore St} (s : St) : Prop :=
  ∀ id w, GetWorkflow id s = Ok w → valid_workflow w.

Section valid.
Context `{!Quote} {St Q E : Type} `{!WorkflowStore St} `{!WorkflowStoreLaws St}.
Context `{!WorkflowStoreListing St} `{!RunQueue Q} `{!RunQueueListing Q} `{!CronEngine E}.
Context (registry : Registry) (decode : decoders) (ParseDuration : string → result duration).
Context (ParseRFC3339 ParseRFC3339Nano : string → result time).
Context (MarshalIndent : persistedSchedules → result string).
Abbreviation Srv := (Server St Q E).
Abbreviation all_routes :=
  (routes (St := St) (Q := Q) (E := E) registry decode ParseDuration ParseRFC3339 ParseRFC3339Nano
     MarshalIndent).

(** The workflows stay as they are. *)
Definition same_workflows (s s' : Srv) : Prop :=
  ∀ id, GetWorkflow id (srv_store s') = GetWorkflow id (srv_store s).
Definition keeps_workflows (h : request → Srv → option (response * Srv)) : Prop :=
  ∀ r s resp s', h r s = Some (resp, s') → same_workflows s s'.
Definition keeps_valid (h : request → Srv → option (response * Srv)) : Prop :=
  ∀ r s resp s', h r s = Some (resp, s') → valid_store (srv_store s) → valid_store (srv_store s').
Lemma keeps_workflows_valid h : keeps_workflows h → keeps_valid h.
Proof. intros Hk r s resp s' Hh Hv id w Hw. rewrite (Hk _ _ _ _ Hh) in Hw. by eapply Hv. Qed.

Lemma save_run_workflows run store r store' id :
  save_run run store = (r, store') →
  (∀ s, store = Some s → ∃ s', store' = Some s' ∧ GetWorkflow id s' = GetWorkflow id s).
Proof using WorkflowStoreLaws0.
  unfold save_run. intros Hs s ->. destruct (SaveRun run s) as [r' s'] eqn:Hsr.
  injection Hs as _ <-. exists s'. split; [done|]. by eapply GetWorkflow_SaveRun.
Qed.
Lemma runWithID_workflows env workflow forced requestID s m out store' m' id :
  runWithID registry env workflow forced requestID (Some s) m = Some (out, store', m') →
  ∃ s', store' = Some s' ∧ GetWorkflow id s' = GetWorkflow id s.
Proof using WorkflowStoreLaws0.
  unfold runWithID. destruct (ValidateWorkflow _ _) as [[?|?]|]; [|intros [= _ <- _]; by exists s|done].
  cbv zeta. destruct (save_run (start_run _ _ _ _) (Some s)) as [r1 store1] eqn:Hs1.
  destruct (save_run_workflows _ _ _ _ id Hs1 s eq_refl) as (s1 & -> & Hg1). simpl.
  destruct (main_loop _ _ _ _ _ _ _ _) as [st|]; simpl; [|done].
  destruct (finish _ _ _ _ _) as [run|]; simpl; [|done].
  destruct (SaveRun run s1) as [r2 s2] eqn:Hs2.
  pose proof (GetWorkflow_SaveRun _ _ _ _ id Hs2) as Hg2.
  destruct r2; intros [= _ <- _]; exists s2; split; congruence.
Qed.
Lemma execute_workflows env w runID requestID (s : Srv) resp s' :
  execute registry env w runID requestID s = Some (resp, s') → same_workflows s s'.
Proof using WorkflowStoreLaws0.
  unfold execute, RunWithID. intros He id.
  destruct (runWithID _ _ _ _ _ _ _) as [[[[run err] store'] m']|] eqn:Hrun; [|done].
  destruct (runWithID_workflows _ _ _ _ _ _ _ _ _ id Hrun) as (st & -> & Hg).
  simpl in He. destruct err; injection He as _ <-; exact Hg.
Qed.

Ltac keep_step :=
  match goal with
  | |- reply _ _ = _ → _ => unfold reply
  | |- execute _ _ _ _ _ _ = _ → _ => apply execute_workflows
  | |- Some (_, _) = Some (_, ?s') → _ =>
      intros [= _ <-] ?; first [reflexivity | simpl; eapply GetWorkflow_SaveRun; eassumption]
  | |- None = Some _ → _ => discriminate
  | |- context [(SaveRun ?run ?s).2] => destruct (SaveRun run s) eqn:?; simpl
  | |- context [match ?x with _ => _ end] => destruct x eqn:?; simpl
  | |- context [mbind _ ?x] => destruct x eqn:?; simpl
  end.
Ltac solve_keeps :=
  intros r s resp s'; unfold reply, with_queue, with_scheduler; simpl; repeat keep_step.

Lemma handleRuns_keeps env :
  keeps_workflows (handleRuns registry decode ParseRFC3339 ParseRFC3339Nano env).
Proof using WorkflowStoreLaws0. unfold handleRuns, handleRuns_get, handleRuns_post, enqueue_run. solve_keeps. Qed.
Lemma handleRunByID_keeps fuel env : keeps_workflows (handleRunByID fuel env).
Proof using WorkflowStoreLaws0.
  unfold handleRunByID. solve_keeps.
Qed.

(** [ValidateWorkflow] stands before every save. *)
Lemma save_valid_keeps env code w (s : Srv) resp s' :
  save_valid env code w s = Some (resp, s') → valid_store (srv_store s) → valid_store (srv_store s').
Proof using WorkflowStoreLaws0.
  unfold save_valid, reply. intros Hs Hv.
  destruct (ValidateWorkflow _ w) as [[[]|]|] eqn:Hok; [|by injection Hs as _ <-|done].
  apply ValidateWorkflow_ok in Hok. destruct (SaveWorkflow w (srv_store s)) as [r st] eqn:Hw.
  assert (srv_store s' = st) as Hst by (destruct r; by injection Hs as _ <-).
  intros id w' Hg. rewrite Hst in Hg.
  destruct (GetWorkflow_SaveWorkflow_any _ _ _ _ id Hw) as [He|He]; rewrite He in Hg.
  - by eapply Hv.
  - by injection Hg as <-.
Qed.
Ltac valid_step :=
  match goal with
  | |- reply _ _ = _ → _ => unfold reply
  | |- save_valid _ _ _ _ = _ → _ => apply save_valid_keeps
  | |- Some (_, _) = Some (_, ?s') → _ => intros [= _ <-]; exact (λ H, H)
  | |- None = Some _ → _ => discriminate
  | |- context [match ?x with _ => _ end] => destruct x eqn:?; simpl
  | |- context [mbind _ ?x] => destruct x eqn:?; simpl
  end.
Lemma handleWorkflows_valid env : keeps_valid (handleWorkflows decode ParseDuration env).
Proof using WorkflowStoreLaws0.
  unfold handleWorkflows. intros r s resp s'. unfold reply. repeat valid_step.
Qed.
Lemma handleWorkflowByID_valid env : keeps_valid (handleWorkflowByID decode ParseDuration env).
Proof using WorkflowStoreLaws0.
  unfold handleWorkflowByID. intros r s resp s'. unfold reply. repeat valid_step.
Qed.
Lemma keeps_store h :
  (∀ r (s : Srv) resp s', h r s = Some (resp, s') → srv_store s' = srv_store s) → keeps_valid h.
Proof. intros Hh r s resp s' Hs. by rewrite (Hh _ _ _ _ Hs). Qed.
Ltac store_step :=
  match goal with
  | |- reply _ _ = _ → _ => unfold reply
  | |- Some (_, _) = Some (_, _) → _ => intros [= _ <-]; reflexivity
  | |- None = Some _ → _ => discriminate
  | |- context [match ?x with _ => _ end] => destruct x; simpl
  | |- context [mbind _ ?x] => destruct x; simpl
  end.
Ltac solve_store :=
  apply keeps_store; intros r s resp s'; unfold reply, with_queue, with_scheduler; simpl;
  repeat store_step.
Lemma handleReady_valid env : keeps_valid (handleReady env).
Proof. unfold handleReady. solve_store. Qed.
Lemma handleJobs_valid env : keeps_valid (handleJobs ParseRFC3339 ParseRFC3339Nano env).
Proof. unfold handleJobs, list_jobs. solve_store. Qed.
Lemma handleJobStats_valid env : keeps_valid (handleJobStats env).
Proof. unfold handleJobStats. solve_store. Qed.
Lemma handleJobHistoryByID_valid env :
  keeps_valid (handleJobHistoryByID ParseRFC3339 ParseRFC3339Nano env).
Proof. unfold handleJobHistoryByID. solve_store. Qed.
Lemma handleJobRequeueByID_valid env : keeps_valid (handleJobRequeueByID decode ParseDuration env).
Proof. unfold handleJobRequeueByID. solve_store. Qed.
Lemma handleJobByID_valid env : keeps_valid (handleJobByID decode ParseDuration env).
Proof.
  unfold handleJobByID, with_queue. intros r s resp s'.
  destruct (srv_queue s) eqn:Hq; [|by intros [= _ <-]].
  destruct (HasPrefix (rq_path r) "/jobs/requeue/"); [apply handleJobRequeueByID_valid|].
  unfold reply. repeat valid_step.
Qed.
Lemma handleDeadLetterJobs_valid env :
  keeps_valid (handleDeadLetterJobs ParseRFC3339 ParseRFC3339Nano env).
Proof. unfold handleDeadLetterJobs, list_jobs. solve_store. Qed.
Lemma handleJobsPurge_valid env : keeps_valid (handleJobsPurge decode ParseDuration env).
Proof. unfold handleJobsPurge. solve_store. Qed.
Lemma handleJobsBulkCancel_valid env : keeps_valid (handleJobsBulkCancel decode env).
Proof. unfold handleJobsBulkCancel. solve_store. Qed.
Lemma handleJobsBulkRequeue_valid env :
  keeps_valid (handleJobsBulkRequeue decode ParseDuration env).
Proof. unfold handleJobsBulkRequeue. solve_store. Qed.
Lemma handleSchedules_valid env :
  keeps_valid (handleSchedules decode ParseDuration MarshalIndent env).
Proof. unfold handleSchedules. solve_store. Qed.
Lemma handleScheduleByWorkflowID_valid env :
  keeps_valid (handleScheduleByWorkflowID MarshalIndent env).
Proof. unfold handleScheduleByWorkflowID. solve_store. Qed.
Lemma pause_or_resume_valid prefix status op env :
  keeps_valid (pause_or_resume prefix status op env).
Proof. unfold pause_or_resume. solve_store. Qed.

Lemma routes_valid fuel env : Forall (λ rt, keeps_valid (rt_handler rt fuel env)) all_routes.
Proof using WorkflowStoreLaws0.
  repeat apply Forall_cons_2; try apply Forall_nil_2; simpl.
  - unfold handleHealth. solve_store.
  - apply handleReady_valid.
  - apply keeps_store. intros r s resp s' Hs. by apply handleMetrics_same in Hs as [? _].
  - apply handleWorkflows_valid.
  - apply handleWorkflowByID_valid.
  - apply keeps_workflows_valid, handleRuns_keeps.
  - apply keeps_workflows_valid, handleRunByID_keeps.
  - apply handleJobs_valid.
  - apply handleJobStats_valid.
  - apply handleJobHistoryByID_valid.
  - apply handleJobByID_valid.
  - apply handleDeadLetterJobs_valid.
  - apply handleJobsPurge_valid.
  - apply handleJobsBulkCancel_valid.
  - apply handleJobsBulkRequeue_valid.
  - apply handleJobRequeueByID_valid.
  - apply handleSchedules_valid.
  - apply handleScheduleByWorkflowID_valid.
  - apply pause_or_resume_valid.
  - apply pause_or_resume_valid.
Qed.

(** One request, on any route. *)
Definition serves (s s' : Srv) : Prop :=
  ∃ rt fuel env r resp, rt ∈ all_routes ∧ serve rt fuel env r s = Some (resp, s').

(** C16. What is stored is valid: whatever requests a server has served, each workflow its
    store gives back has an ID and well-formed tasks - distinct non-empty IDs,
    dependencies that exist, no cycle - if that was so at the start.  (POST, PUT and
    PATCH validate before they save; no other request changes a workflow, also not a
    run in the store they share.) *)
Theorem stored_workflows_valid s s' id w :
  rtc serves s s' → valid_store (srv_store s) → GetWorkflow id (srv_store s') = Ok w →
  wf_ID w ≠ "" ∧ well_formed (wf_Tasks w).
Proof using WorkflowStoreLaws0.
  intros Hs Hv. revert id w. change (valid_store (srv_store s')).
  induction Hs as [s|s s1 s' (rt & fuel & env & r & resp & Hin & Hs1) _ IH]; [done|]. apply IH.
  unfold serve, withMiddleware in Hs1.
  case_match; [by injection Hs1 as _ <-|].
  destruct (rt_handler rt fuel env r s) as [[resp0 s0]|] eqn:Hh; simpl in Hs1; [|done].
  injection Hs1 as _ <-.
  pose proof (routes_valid fuel env) as Hall. rewrite Forall_forall in Hall.
  exact (Hall rt Hin _ _ _ _ Hh Hv).
Qed.
End valid.

(** ** A small server *)

#[local] Existing Instance Sample.quote_id.
Module ApiSample.
Abbreviation Srv := (Server MemoryStore MemoryRunQueue toy_cron).
Definition bad {A} : result A := Err "EOF".
(** The bodies the examples send. *)
Definition decode : decoders := mkDecoders
  (λ body, if bool_decide (body = "no tasks")
           then Ok (mkWorkflowRequest "v" "" "" "" 0 false false "" []) else bad)
  (λ _, bad)
  (λ body, if bool_decide (body = "async") then Ok (mkRunRequest "w" true 0) else bad)
  (λ _, bad) (λ _, bad)
  (λ body, if bool_decide (body = "bulk")
           then Ok (mkBulkRequeueRequest ["j1"; " "; "j2"; "j4"; "j3 "] "" 0 "" "ops" "fixed")
           else bad)
  (λ _, bad) (λ _, bad).
Definition no_time (s : string) : result time := Err "cannot parse".
Definition no_duration (s : string) : result duration := Err "invalid duration".
Definition env : api_env := mkApiEnv (λ k, unix_epoch + Z.of_nat k)
  (λ k n, unix_epoch + 1000 * Z.of_nat k + Z.of_nat n) Sample.ords (RunSample.env RunSample.events)
  no_faults.
Definition req (method path token key body : string) : request := mkRequest method path (λ _, "")
  (λ h, if bool_decide (h = "Authorization") then "Bearer " +:+ token else
        if bool_decide (h = "Idempotency-Key") then key else "") body.
Definition store : MemoryStore := (SaveWorkflow Sample.workflow NewMemoryStore).2.
Definition server (q : MemoryRunQueue) : Srv :=
  NewServer unix_epoch "read:r, write:w" store (Some q) None None.
Abbreviation all := (routes (St := MemoryStore) (Q := MemoryRunQueue) (E := toy_cron)
  Sample.registry decode no_duration no_time no_time SchedSample.marshal).
Definition route_at (i : nat) : route := nth i all (mkRoute "" true (λ _ _ _ s, reply noQueue s)).
Definition go (i : nat) (r : request) (s : Srv) : option (response * Srv) :=
  serve (route_at i) 10 env r s.
Definition after (o : option (response * Srv)) (s : Srv) : Srv :=
  match o with Some (_, s) => s | None => s end.
Definition code (o : option (response * Srv)) : Z :=
  match o with Some (resp, _) => rs_code resp | None => 0 end.
Lemma store_valid : valid_store store.
Proof.
  intros id w. simpl. unfold store. simpl. unfold Memory.GetWorkflow. simpl. rewrite lookup_insert.
  case_decide; [|by rewrite lookup_empty]. intros [= <-].
  split; [vm_compute; discriminate|apply Sample.sample_well_formed].
Qed.
Lemma go_serves i r s : code (go i r s) ≠ 0 → (i < 20)%nat →
  serves Sample.registry decode no_duration no_time no_time SchedSample.marshal s
    (after (go i r s) s).
Proof.
  intros Hc Hi. unfold code, after, go in *.
  destruct (serve (route_at i) 10 env r s) as [[resp s']|] eqn:Hs; [|done].
  exists (route_at i), 10%nat, env, r, resp. split; [|exact Hs].
  apply list_elem_of_In, nth_In. exact Hi.
Qed.
End ApiSample.

(** A reader asks for a run: refused; the run is not queued. *)
Lemma only_writers_write_witness :
  let r := ApiSample.req "POST" "/runs" "r" "k1" "async" in
  let s := ApiSample.server NewMemoryRunQueue in
  same_state s (ApiSample.after (ApiSample.go 5 r s) s) ∧ ApiSample.code (ApiSample.go 5 r s) = 401.
Proof.
  intros r s. split; [|vm_compute; reflexivity].
  destruct (ApiSample.go 5 r s) as [[resp s']|] eqn:Hs; [|vm_compute in Hs; discriminate Hs].
  apply (only_writers_write Sample.registry ApiSample.decode ApiSample.no_duration
    ApiSample.no_time ApiSample.no_time SchedSample.marshal 10 ApiSample.env
    (ApiSample.route_at 5) r s resp s').
  - apply (list_elem_of_lookup_2 _ 5). reflexivity.
  - vm_compute. reflexivity.
  - apply (bool_decide_unpack _). vm_compute. exact I.
  - exact Hs.
Defined.

(** A writer runs the stored workflow and then posts one without tasks. *)
Lemma stored_workflows_valid_witness :
  let r1 := ApiSample.req "POST" "/runs" "w" "k1" "async" in
  let r2 := ApiSample.req "POST" "/workflows" "w" "" "no tasks" in
  let s := ApiSample.server NewMemoryRunQueue in
  let s1 := ApiSample.after (ApiSample.go 5 r1 s) s in
  let s2 := ApiSample.after (ApiSample.go 3 r2 s1) s1 in
  (ApiSample.code (ApiSample.go 5 r1 s) = 202 ∧ ApiSample.code (ApiSample.go 3 r2 s1) = 400) ∧
  well_formed (wf_Tasks Sample.workflow) ∧ GetWorkflow "w" (srv_store s2) = Ok Sample.workflow.
Proof.
  intros r1 r2 s s1 s2.
  assert (H1 : ApiSample.code (ApiSample.go 5 r1 s) = 202) by (vm_compute; reflexivity).
  assert (H2 : ApiSample.code (ApiSample.go 3 r2 s1) = 400) by (vm_compute; reflexivity).
  assert (Hw : GetWorkflow "w" (srv_store s2) = Ok Sample.workflow) by (vm_compute; reflexivity).
  split; [exact (conj H1 H2)|]. split; [|exact Hw].
  apply (stored_workflows_valid Sample.registry ApiSample.decode ApiSample.no_duration
    ApiSample.no_time ApiSample.no_time SchedSample.marshal s s2 "w" Sample.workflow).
  - apply (rtc_l _ _ s1); [|apply rtc_once]; apply ApiSample.go_serves; lia.
  - exact ApiSample.store_valid.
  - exact Hw.
Defined.
