(* ===== verification/Mux.v ===== *)
(** * internal/api/server.go: which handler a path reaches

    [NewServer] registers its patterns with an [http.ServeMux].  This is what the mux does
    with the path of a request - cleaning, redirecting, picking a pattern - for patterns
    without wildcards, hosts or methods, as these are, and paths without escapes that begin
    with a slash. *)

From S2P Require Import Prelude GoLib GoText Domain Graph Actions Interfaces Store Telemetry.
From S2P Require Import Executor ExecutorProps Run RunProps Scheduler SchedulerProps Queue QueueProps.
From S2P Require Import WorkflowDecode ApiText Api ApiProps.
Local Open Scope Z_scope.

Definition HasSuffix (s suffix : string) : bool := HasPrefix (String.rev s) (String.rev suffix).

(** ** Cleaning a path *)

(** The segments of a rooted path by [path.Clean]: empty ones and "." go, ".." takes the one
    before it along; [stack] holds those so far, the last first. *)
Fixpoint clean_segments (stack segments : list string) : list string :=
  match segments with
  | [] => rev stack
  | s :: segments =>
      if bool_decide (s = "") || bool_decide (s = ".") then clean_segments stack segments
      else if bool_decide (s = "..") then clean_segments (tail stack) segments
      else clean_segments (s :: stack) segments
  end.
Definition cleanPath (p : string) : string :=
  if bool_decide (p = "") then "/" else
  let p := if HasPrefix p "/" then p else "/" +:+ p in
  let np := "/" +:+ String.concat "/" (clean_segments [] (Split p "/")) in
  if HasSuffix p "/" && negb (bool_decide (np = "/")) then np +:+ "/" else np.

(** ** Picking a pattern *)

(** A pattern that ends in a slash stands for all paths below it. *)
Definition pattern_matches (pattern path : string) : bool :=
  if HasSuffix pattern "/" then HasPrefix path pattern else bool_decide (path = pattern).

Section mux.
Context {R : Type} (pattern : R → string) (registered : list R).

Definition more_specific (path : string) (best : option R) (rt : R) : option R :=
  if pattern_matches (pattern rt) path &&
     match best with
     | None => true
     | Some b => Nat.ltb (String.length (pattern b)) (String.length (pattern rt))
     end
  then Some rt else best.
(** The longest pattern that matches. *)
Definition pick (path : string) : option R := foldl (more_specific path) None registered.
(** [exactMatch]: of these patterns, only the path itself. *)
Definition exact (path : string) : bool :=
  match pick path with Some rt => bool_decide (pattern rt = path) | None => false end.

Inductive found := Redirect (path : string) | NotFound | Found (rt : R).
(** [ServeMux.findHandler] *)
Definition findHandler (method raw : string) : found :=
  let path := if bool_decide (method = "CONNECT") then raw else cleanPath raw in
  if negb (exact path) && negb (HasSuffix path "/") && exact (path +:+ "/")
  then Redirect (cleanPath raw +:+ "/")
  else if bool_decide (path ≠ raw) then Redirect path
  else match pick path with None => NotFound | Some rt => Found rt end.

Lemma pick_spec path :
  match pick path with
  | Some rt => rt ∈ registered ∧ pattern_matches (pattern rt) path = true ∧
      ∀ rt', rt' ∈ registered → pattern_matches (pattern rt') path = true →
        (String.length (pattern rt') ≤ String.length (pattern rt))%nat
  | None => ∀ rt', rt' ∈ registered → pattern_matches (pattern rt') path = false
  end.
Proof.
  unfold pick. induction registered as [|rt l IH] using rev_ind; [by intros rt' ?%not_elem_of_nil|].
  rewrite foldl_snoc. unfold more_specific at 1.
  destruct (foldl _ None l) as [b|].
  - destruct IH as (Hb & Hm & Hmax).
    destruct (pattern_matches (pattern rt) path) eqn:Hrt; simpl;
      [destruct (Nat.ltb_spec (String.length (pattern b)) (String.length (pattern rt)))|].
    + split; [set_solver|]. split; [done|]. intros rt' [Hin| ->%list_elem_of_singleton]%elem_of_app Hr; [|done].
      specialize (Hmax rt' Hin Hr). lia.
    + split; [set_solver|]. split; [done|]. intros rt' [Hin| ->%list_elem_of_singleton]%elem_of_app Hr; [|done].
      by apply Hmax.
    + split; [set_solver|]. split; [done|].
      intros rt' [Hin| ->%list_elem_of_singleton]%elem_of_app Hr; [by apply Hmax|congruence].
  - destruct (pattern_matches (pattern rt) path) eqn:Hrt; simpl.
    + split; [set_solver|]. split; [done|].
      intros rt' [Hin| ->%list_elem_of_singleton]%elem_of_app Hr; [|done]. rewrite (IH rt' Hin) in Hr. done.
    + intros rt' [Hin| ->%list_elem_of_singleton]%elem_of_app; [by apply IH|done].
Qed.
Lemma findHandler_Found method raw rt : findHandler method raw = Found rt → pick raw = Some rt.
Proof.
  unfold findHandler. set (path := if bool_decide (method = "CONNECT") then raw else cleanPath raw). cbv zeta. destruct (_ && _); [done|].
  destruct (decide (path = raw)) as [->|Hne]; [|by rewrite bool_decide_true].
  rewrite bool_decide_false by tauto. by destruct (pick raw) as [rt'|]; [intros [= ->]|].
Qed.
End mux.
Arguments Redirect {R}.
Arguments NotFound {R}.
Arguments Found {R}.

(** ** Resources by their ID *)

(** A text that can be one segment of a clean path. *)
Definition segment_ok (id : string) : Prop := (id ∉ [""; "."; ".."]) ∧ occurs "/" id = false.
#[export] Instance segment_ok_dec id : Decision (segment_ok id).
Proof. unfold segment_ok. apply _. Defined.

Lemma occurs_rev c s : occurs c (String.rev s) = occurs c s.
Proof.
  induction s as [|d s IH]; [done|]. change (String d s) with (String d "" +:+ s).
  rewrite rev_append, !occurs_app, IH. simpl. rewrite orb_false_r. apply orb_comm.
Qed.
Lemma HasSuffix_segment a id : segment_ok id → HasSuffix (a +:+ id) "/" = false.
Proof.
  intros [Hne Hs]. unfold HasSuffix. rewrite rev_append. rewrite <-occurs_rev in Hs.
  destruct (String.rev id) as [|c r] eqn:Hr.
  - exfalso. apply Hne. rewrite <-(rev_involutive id), Hr. by left.
  - rewrite str_app_cons. change (String.rev "/") with (String "/" ""). rewrite HasPrefix_char.
    simpl in Hs. apply orb_false_iff in Hs as [Hc%bool_decide_eq_false _].
    by rewrite bool_decide_false.
Qed.
Lemma clean_segment stack s segments : segment_ok s →
  clean_segments stack (s :: segments) = clean_segments (s :: stack) segments.
Proof.
  intros [Hne _]. cbn [clean_segments]. rewrite !bool_decide_false; [done|set_solver..].
Qed.
Lemma cleanPath_resource name id : segment_ok name → segment_ok id →
  cleanPath ("/" +:+ name +:+ "/" +:+ id) = "/" +:+ name +:+ "/" +:+ id.
Proof.
  intros Hn Hi. unfold cleanPath. rewrite bool_decide_false by done. rewrite HasPrefix_app. cbv zeta.
  assert (Hsplit : Split ("/" +:+ name +:+ "/" +:+ id) "/" = [""; name; id]).
  { apply (Split_concat "/" [""; name; id]); [done|].
    repeat apply Forall_cons_2; try apply Forall_nil_2; rewrite Contains_occurs; [done|apply Hn|apply Hi]. }
  rewrite Hsplit. change (clean_segments [] [""; name; id]) with (clean_segments [] [name; id]).
  rewrite !clean_segment by done. cbn [clean_segments].
  assert (Hsuf : HasSuffix ("/" +:+ name +:+ "/" +:+ id) "/" = false).
  { rewrite <-!str_app_assoc. by apply HasSuffix_segment. }
  rewrite Hsuf. done.
Qed.

(** A longer pattern of the same kind. *)
Lemma pattern_matches_ext a b id : pattern_matches (a +:+ b) (a +:+ id) =
  if HasSuffix (a +:+ b) "/" then HasPrefix id b else bool_decide (id = b).
Proof.
  unfold pattern_matches. rewrite HasPrefix_ext. destruct (HasSuffix _ _); [done|].
  apply bool_decide_ext. split; [apply (inj (String.app a))|by intros ->].
Qed.
Lemma HasPrefix_slash b id : occurs "/" id = false → occurs "/" b = true → HasPrefix id b = false.
Proof.
  intros Hi Hb. apply not_true_iff_false. intros [r ->]%HasPrefix_spec.
  rewrite occurs_app, Hb in Hi. done.
Qed.
Lemma app_slash_inj (a b : string) : a +:+ "/" = b +:+ "/" → a = b.
Proof.
  intros H%(f_equal String.rev). rewrite !rev_append in H. apply (inj (String.app (String.rev "/"))) in H.
  by rewrite <-(rev_involutive a), H, rev_involutive.
Qed.

Section api.
Context {St Q E : Type} `{!WorkflowStore St} `{!WorkflowStoreListing St} `{!RunQueue Q}.
Context `{!RunQueueListing Q} `{!CronEngine E} `{!Quote}.
Context (registry : Registry) (decode : decoders).
Context (ParseDuration : string → result duration).
Context (ParseRFC3339 ParseRFC3339Nano : string → result time).
Context (MarshalIndent : persistedSchedules → result string).
Abbreviation all_routes := (routes (St := St) (Q := Q) (E := E) registry decode ParseDuration
  ParseRFC3339 ParseRFC3339Nano MarshalIndent).
Abbreviation Srv := (Server St Q E).

(** A request served by the mux: what it answers itself needs no token and is not counted. *)
Definition ServeHTTP (fuel : nat) (env : api_env) (r : request) (s : Srv) : option (response * Srv) :=
  match findHandler rt_pattern all_routes (rq_method r) (rq_path r) with
  | Redirect path => reply (mkResponse 301 (PText path)) s
  | NotFound => reply (mkResponse 404 (PText "404 page not found")) s
  | Found rt => serve rt fuel env r s
  end.

(** The four collections, and the segments below them that are not IDs. *)
Definition reserved (collection : string) : list string :=
  if bool_decide (collection = "jobs")
  then ["stats"; "history"; "dead-letter"; "purge"; "cancel"; "requeue"]
  else if bool_decide (collection = "schedules") then ["pause"; "resume"] else [].
Definition collections : list string := ["workflows"; "runs"; "jobs"; "schedules"].

(** The patterns are closed, and the path is one below a collection [a]: a pattern that goes
    on with [b] after [a] is another collection, an ID with a slash, or a reserved segment. *)
Ltac pattern_tail a id p k :=
  let b := eval vm_compute in (str_drop (String.length a) p) in change p with (a +:+ b) in *; k b.
Ltac solve_match id Hid Hres :=
  intros Hm;
  first [ reflexivity
        | exfalso; revert Hm; vm_compute; discriminate
        | exfalso;
          lazymatch type of Hm with
          | pattern_matches ?p (?a +:+ id) = true =>
              pattern_tail a id p ltac:(fun b =>
                rewrite pattern_matches_ext in Hm;
                let sfx := eval vm_compute in (HasSuffix (a +:+ b) "/") in
                change (HasSuffix (a +:+ b) "/") with sfx in Hm; cbv iota in Hm;
                first [ rewrite (HasPrefix_slash b id (proj2 Hid) eq_refl) in Hm; discriminate Hm
                      | apply bool_decide_eq_true in Hm; apply Hres; rewrite Hm; vm_compute; set_solver ])
          end ].
Ltac solve_slash id Hres :=
  intros Hm;
  first [ revert Hm; vm_compute; discriminate
        | lazymatch type of Hm with
          | ?p = (?a +:+ id) +:+ "/" =>
              rewrite str_app_assoc in Hm;
              pattern_tail a id p ltac:(fun b =>
                apply (inj (String.app a)) in Hm;
                first [ apply (f_equal (occurs "/")) in Hm; rewrite occurs_app, orb_true_r in Hm;
                        vm_compute in Hm; discriminate Hm
                      | let c := eval vm_compute in (str_take (String.length b - 1) b) in
                        change b with (c +:+ "/") in Hm; apply app_slash_inj in Hm; apply Hres;
                        rewrite <-Hm; vm_compute; set_solver ])
          end ].
Lemma only_collection id : segment_ok id → ∀ c, c ∈ collections → id ∉ reserved c →
  let path := "/" +:+ c +:+ "/" +:+ id in
  Forall (λ rt, (pattern_matches (rt_pattern rt) path = true → rt_pattern rt = "/" +:+ c +:+ "/") ∧
    rt_pattern rt ≠ path +:+ "/") all_routes.
Proof.
  intros Hid c Hc Hres. unfold collections in Hc.
  repeat (apply elem_of_cons in Hc as [->|Hc]); [..|by apply elem_of_nil in Hc];
    rewrite <-!str_app_assoc; cbv zeta;
    match goal with |- context [?a +:+ id] => let a' := eval vm_compute in a in change a with a' end;
    repeat apply Forall_cons_2; try apply Forall_nil_2; cbn [rt_pattern];
    (split; [solve_match id Hid Hres|solve_slash id Hres]).
Qed.

(** Every resource has its address: whatever the method, the path of a workflow, run, job or
    schedule reaches the handler of its collection, with the ID behind the last slash - if
    the ID is not empty, "." or "..", has no slash, and is not one of the words that the
    patterns themselves put there. *)
Theorem resource_routed method c id :
  c ∈ collections → segment_ok id → id ∉ reserved c →
  let path := "/" +:+ c +:+ "/" +:+ id in
  ∃ rt, findHandler rt_pattern all_routes method path = Found rt ∧ rt ∈ all_routes ∧
    rt_pattern rt = "/" +:+ c +:+ "/" ∧ TrimPrefix path (rt_pattern rt) = id.
Proof.
  intros Hc Hid Hres path.
  pose proof (only_collection id Hid c Hc Hres) as Honly. cbv zeta in Honly. fold path in Honly.
  rewrite Forall_forall in Honly.
  assert (Hname : segment_ok c).
  { revert Hc. unfold collections. rewrite !elem_of_cons, elem_of_nil.
    by intros [-> | [-> | [-> | [-> | []]]]]; apply (bool_decide_unpack _); vm_compute. }
  assert (Hclean : (if bool_decide (method = "CONNECT") then path else cleanPath path) = path).
  { case_bool_decide; [done|]. by apply cleanPath_resource. }
  unfold findHandler. rewrite Hclean. cbv zeta.
  assert (Hexact : exact rt_pattern all_routes (path +:+ "/") = false).
  { unfold exact. pose proof (pick_spec rt_pattern all_routes (path +:+ "/")) as Hp.
    destruct (pick _ _ _) as [rt|]; [|done]. apply bool_decide_eq_false. destruct Hp as [Hin _].
    by apply Honly. }
  rewrite Hexact, andb_false_r. rewrite bool_decide_false by tauto.
  pose proof (pick_spec rt_pattern all_routes path) as Hp.
  destruct (pick _ _ _) as [rt|].
  - destruct Hp as (Hin & Hm & _). exists rt. split; [done|]. split; [done|].
    pose proof (proj1 (Honly rt Hin) Hm) as Hpat. split; [done|]. rewrite Hpat. unfold path.
    rewrite <-!str_app_assoc. unfold TrimPrefix. rewrite HasPrefix_app. by rewrite str_drop_app.
  - exfalso.
    assert (Hreg : ∃ rt, rt ∈ all_routes ∧ rt_pattern rt = "/" +:+ c +:+ "/").
    { revert Hc. unfold collections. rewrite !elem_of_cons, elem_of_nil.
      intros [-> | [-> | [-> | [-> | []]]]]; eexists;
        [split; [apply (list_elem_of_lookup_2 _ 4)|]|split; [apply (list_elem_of_lookup_2 _ 6)|]
        |split; [apply (list_elem_of_lookup_2 _ 10)|]|split; [apply (list_elem_of_lookup_2 _ 17)|]];
        reflexivity. }
    destruct Hreg as (rt & Hin & Hpat). specialize (Hp rt Hin). rewrite Hpat in Hp.
    unfold pattern_matches in Hp. unfold path in Hp. rewrite <-!str_app_assoc in Hp.
    rewrite HasPrefix_app in Hp. unfold HasSuffix in Hp. rewrite rev_append in Hp.
    by rewrite HasPrefix_app in Hp.
Qed.
End api.

#[local] Existing Instance Sample.quote_id.
Lemma resource_routed_witness :
  ∃ rt, findHandler rt_pattern ApiSample.all "GET" "/jobs/j1" = Found rt ∧ rt ∈ ApiSample.all ∧
    rt_pattern rt = "/jobs/" ∧ TrimPrefix "/jobs/j1" (rt_pattern rt) = "j1".
Proof.
  apply (resource_routed (St := MemoryStore) (Q := MemoryRunQueue) (E := toy_cron) Sample.registry
    ApiSample.decode ApiSample.no_duration ApiSample.no_time ApiSample.no_time SchedSample.marshal
    "GET" "jobs" "j1"); apply (bool_decide_unpack _); vm_compute; exact I.
Defined.
(** The schedule of a workflow that is called "pause" has none: DELETE /schedules/pause is
    redirected to the handler that pauses. *)
Theorem pause_is_no_schedule :
  findHandler rt_pattern ApiSample.all "DELETE" "/schedules/pause" = Redirect "/schedules/pause/" ∧
  rt_pattern <$> pick rt_pattern ApiSample.all "/schedules/pause/" = Some "/schedules/pause/".
Proof. split; vm_compute; reflexivity. Qed.
