(* ===== verification/ApiJobs.v ===== *)
(** * The HTTP server over the memory queue: what its requests do to jobs

    Cancelling a run reaches every job of the run, on every page; a bulk operation
    accounts for every job it is given; an idempotency key makes one job. *)

From S2P Require Import Prelude GoLib GoText Domain Graph Actions Interfaces Store.
From S2P Require Import Telemetry Executor ExecutorProps Run RunProps Scheduler SchedulerProps.
From S2P Require Import Queue QueueProps WorkflowDecode ApiText Api ApiProps.
Local Open Scope Z_scope.

(** ** One job *)

(** What cancelling for a reason leaves: a job that nobody holds, with the reason on its
    record; one that was cancelled already stays as it is. *)
Definition cancelled_from (reason : string) (job job' : RunQueueJob) : Prop :=
  same_identity job job' ∧ job_Status job' = RunJobStatusCancelled ∧
  (job_Status job = RunJobStatusCancelled → job' = job) ∧
  (job_Status job ≠ RunJobStatusCancelled →
   job_LastError job' = reason ∧ job_LeaseOwner job' = "" ∧ job_Attempts job' = job_Attempts job).
Lemma CancelRunJob_spec clk id reason q job :
  q_jobs q !! id = Some job →
  if decide (job_Status job = RunJobStatusSucceeded) then
    MemQ.CancelRunJob clk id reason q = (Err "run job cannot be cancelled in current state", q)
  else ∃ job' q', MemQ.CancelRunJob clk id reason q = (Ok tt, q') ∧
    q_jobs q' = <[id := job']> (q_jobs q) ∧ cancelled_from reason job job'.
Proof.
  intros Hj. unfold MemQ.CancelRunJob. rewrite Hj. case_decide as Hs.
  { by rewrite bool_decide_true. }
  rewrite bool_decide_false by done. case_bool_decide as Hc.
  - exists job, q. split; [done|]. split; [by rewrite insert_id|]. by repeat split.
  - eexists _, _. split; [reflexivity|]. split; [reflexivity|]. by repeat split.
Qed.

(** ** The jobs of a run *)

Section cancel.
Context (runID : string) (q : MemoryRunQueue).
Definition jobs_of_run : list RunQueueJob :=
  sort_slice MemQ.job_less (filter (λ job, job_RunID job = runID) (map_to_list (q_jobs q)).*2).
Lemma jobs_of_run_spec job : jobs_keyed q →
  job ∈ jobs_of_run ↔ q_jobs q !! job_ID job = Some job ∧ job_RunID job = runID.
Proof.
  intros Hkey. unfold jobs_of_run. rewrite sort_slice_perm, list_elem_of_filter, list_elem_of_fmap.
  split.
  - intros (Hr & [id j] & -> & Hj%elem_of_map_to_list). simpl in *.
    by rewrite (Hkey _ _ Hj : job_ID j = id).
  - intros [Hj Hr]. split; [done|]. exists (job_ID job, job). by rewrite elem_of_map_to_list.
Qed.
Lemma jobs_of_run_NoDup : jobs_keyed q → NoDup (job_ID <$> jobs_of_run).
Proof.
  intros Hkey. unfold jobs_of_run. rewrite sort_slice_perm.
  apply (sublist_NoDup _ (job_ID <$> (map_to_list (q_jobs q)).*2)).
  - assert (job_ID <$> (map_to_list (q_jobs q)).*2 = (map_to_list (q_jobs q)).*1) as ->.
    { rewrite <-list_fmap_compose. apply list_fmap_ext. intros i [id j] Hi. simpl.
      apply list_elem_of_lookup_2, elem_of_map_to_list in Hi. by apply Hkey. }
    apply NoDup_fst_map_to_list.
  - apply fmap_sublist, sublist_filter.
Qed.
Lemma jobs_of_run_sorted : StronglySorted job_le jobs_of_run.
Proof.
  eapply StronglySorted_weaken; [|apply sort_slice_sorted; [apply job_less_asym|apply job_le_trans]].
  intros a b. apply job_le_spec.
Qed.
Lemma jobs_of_run_size : zlen jobs_of_run ≤ Z.of_nat (size (q_jobs q)).
Proof.
  unfold jobs_of_run. rewrite sort_slice_perm. unfold zlen.
  pose proof (length_filter (λ job, job_RunID job = runID) (map_to_list (q_jobs q)).*2) as Hf.
  rewrite length_fmap, length_map_to_list in Hf. lia.
Qed.
Lemma ListRunJobsByRun_page ord offset :
  jobs_keyed q → 0 ≤ offset → offset + 500 ≤ int64_max →
  MemQ.ListRunJobsByRun ord runID 500 offset q =
    Some (Ok (take 500 (drop (Z.to_nat offset) jobs_of_run))).
Proof.
  intros Hkey Ho Hov. unfold MemQ.ListRunJobsByRun. cbv zeta.
  rewrite (sorted_jobs_unique _ (filter (λ job, job_RunID job = runID) (map_to_list (q_jobs q)).*2)
             q Hkey).
  - fold jobs_of_run. by rewrite page_window by lia.
  - unfold iter_values. by rewrite iter_perm.
  - unfold iter_values. intros job. rewrite iter_perm. intros [_ Hj]%list_elem_of_filter.
    apply list_elem_of_fmap in Hj as ([id j] & -> & Hj%elem_of_map_to_list). by exists id.
Qed.
(** The pages end, and together they are all the jobs. *)
Lemma list_run_jobs_all fuel ord jobs offset :
  jobs_keyed q → Z.of_nat (size (q_jobs q)) + 500 ≤ int64_max →
  0 ≤ offset ≤ zlen jobs_of_run → zlen jobs_of_run - offset < 500 * Z.of_nat fuel →
  list_run_jobs fuel ord runID offset q jobs =
    Some (Ok (jobs ++ drop (Z.to_nat offset) jobs_of_run)).
Proof.
  intros Hkey Hmax. pose proof jobs_of_run_size as Hsz. revert jobs offset.
  induction fuel as [|fuel IH]; intros jobs offset Ho Hf; [lia|]. cbn [list_run_jobs]. simpl.
  rewrite ListRunJobsByRun_page by (done || lia). simpl.
  set (rest := drop (Z.to_nat offset) jobs_of_run).
  assert (zlen rest = zlen jobs_of_run - offset) as Hrest.
  { unfold rest, zlen in *. rewrite length_drop. lia. }
  destruct (decide (zlen rest < 500)) as [Hshort|Hlong].
  - rewrite (take_ge rest 500) by (unfold zlen in *; lia).
    destruct rest as [|job rest'] eqn:Er; [by rewrite app_nil_r|].
    simpl. by rewrite (proj2 (Z.ltb_lt _ _) Hshort).
  - assert (zlen (take 500 rest) = 500) as Htake.
    { unfold zlen in *. rewrite length_take. lia. }
    assert (length (take 500 rest) ≠ 0%nat) as Hne by (unfold zlen in Htake; lia).
    rewrite (proj2 (Nat.eqb_neq _ _) Hne). rewrite Htake. simpl.
    rewrite wrap64_id by (unfold int64_min, int64_max in *; lia).
    rewrite IH by lia. do 2 f_equal. rewrite <-app_assoc. f_equal.
    transitivity (take 500 rest ++ drop 500 rest); [|apply take_drop]. f_equal.
    unfold rest. rewrite drop_drop. f_equal. lia.
Qed.
End cancel.

(** The loop that cancels [jobs]: those that have not succeeded end cancelled. *)
Definition can_cancel (job : RunQueueJob) : Prop := job_Status job ≠ RunJobStatusSucceeded.
Lemma cancel_run_jobs_spec clks runID reason k jobs cancelled q cancelled' q' :
  cancel_run_jobs clks runID reason k jobs cancelled q = (cancelled', q') →
  NoDup (job_ID <$> jobs) → Forall (λ job, job_RunID job = runID) jobs →
  Forall (λ job, q_jobs q !! job_ID job = Some job) jobs →
  (∃ l, cancelled' = cancelled ++ l ∧
     Forall2 (cancelled_from reason) (filter can_cancel jobs) l) ∧
  (∀ job, job ∈ jobs → can_cancel job →
     ∃ job', q_jobs q' !! job_ID job = Some job' ∧ cancelled_from reason job job') ∧
  (∀ id, (∀ job, job ∈ jobs → can_cancel job → job_ID job ≠ id) →
     q_jobs q' !! id = q_jobs q !! id) ∧
  (filter can_cancel jobs = [] → q' = q).
Proof.
  intros Hc Hnd Hrun. revert k cancelled q Hc.
  induction jobs as [|job jobs IH]; intros k cancelled q Hc Hin; simpl in Hc.
  { injection Hc as <- <-. split; [exists []; by rewrite app_nil_r|].
    split; [by intros job ?%not_elem_of_nil|done]. }
  apply Forall_cons in Hrun as [Hr Hrun], Hin as [Hj Hin].
  rewrite fmap_cons in Hnd. apply NoDup_cons in Hnd as [Hnew Hnd].
  rewrite bool_decide_false in Hc by (intros Hx; by apply Hx).
  pose proof (CancelRunJob_spec (clks k) (job_ID job) reason q job Hj) as Hspec.
  case_decide as Hs.
  - rewrite Hspec in Hc. destruct (IH Hnd Hrun _ _ _ Hc Hin) as ((l & -> & Hl) & H1 & H2 & H3).
    rewrite filter_cons_False by (intros Hx; by apply Hx). split; [by exists l|].
    split; [intros j [->|Hj']%elem_of_cons ?; [done|by apply H1]|]. split; [|done].
    intros id Hid. apply H2. intros j Hj'. apply Hid. by right.
  - destruct Hspec as (job' & q1 & Hcan & Hq1 & Hfrom). rewrite Hcan in Hc. unfold GetRunJob in Hc.
    simpl in Hc. unfold MemQ.GetRunJob in Hc. rewrite Hq1, lookup_insert_eq in Hc.
    assert (Forall (λ j, q_jobs q1 !! job_ID j = Some j) jobs) as Hin1.
    { rewrite Forall_forall in Hin |- *. intros j Hj'. rewrite Hq1, lookup_insert_ne; [by apply Hin|].
      intros Heq. apply Hnew. rewrite Heq. by apply list_elem_of_fmap_2. }
    destruct (IH Hnd Hrun _ _ _ Hc Hin1) as ((l & -> & Hl) & H1 & H2 & _).
    rewrite filter_cons_True by done. split_and!; [| | |done].
    + exists (job' :: l). rewrite <-app_assoc. split; [done|]. by constructor.
    + intros j [->|Hj']%elem_of_cons Hcj; [|by apply H1]. exists job'. split; [|done].
      rewrite H2, Hq1; [by apply lookup_insert_eq|]. intros j Hj' _ Heq.
      apply Hnew. rewrite <-Heq. by apply list_elem_of_fmap_2.
    + intros id Hid. rewrite H2, Hq1.
      * apply lookup_insert_ne. apply Hid; [by left|done].
      * intros j Hj'. apply Hid. by right.
Qed.

(** All the jobs of a run, cancelled: what becomes of the queue. *)
Definition cancels (runID reason : string) (q q' : MemoryRunQueue) : Prop :=
  (∀ id job, q_jobs q !! id = Some job → ∃ job', q_jobs q' !! id = Some job' ∧
     if decide (job_RunID job = runID ∧ can_cancel job) then cancelled_from reason job job'
     else job' = job) ∧
  dom (q_jobs q') = dom (q_jobs q).
Lemma cancel_run_jobs_all clks runID reason q cancelled q' :
  jobs_keyed q → cancel_run_jobs clks runID reason 0 (jobs_of_run runID q) [] q = (cancelled, q') →
  cancels runID reason q q' ∧
  Forall2 (cancelled_from reason) (filter can_cancel (jobs_of_run runID q)) cancelled ∧
  (filter can_cancel (jobs_of_run runID q) = [] → q' = q).
Proof.
  intros Hkey Hc. pose proof (λ job, jobs_of_run_spec runID q job Hkey) as Hin.
  destruct (cancel_run_jobs_spec _ _ _ _ _ _ _ _ _ Hc) as ((l & -> & Hl) & H1 & H2 & H3).
  - by apply jobs_of_run_NoDup.
  - apply Forall_forall. intros job Hj. by apply Hin in Hj as [_ ?].
  - apply Forall_forall. intros job Hj. by apply Hin in Hj as [? _].
  - split; [|by split]. split.
    + intros id job Hj. pose proof (Hkey _ _ Hj : job_ID job = id) as <-. case_decide as Hd.
      * destruct Hd as [Hr Hcan]. by apply H1; [apply Hin|].
      * exists job. split; [|done]. rewrite H2; [done|]. intros j Hj' Hcan Heq.
        apply Hin in Hj' as [Hj' Hr]. rewrite Heq, Hj in Hj'. injection Hj' as <-. by apply Hd.
    + apply set_eq. intros id. rewrite !elem_of_dom.
      destruct (decide (Exists (λ j, can_cancel j ∧ job_ID j = id) (jobs_of_run runID q)))
        as [(j & Hj & Hcan & <-)%Exists_exists|Hno].
      * destruct (H1 j Hj Hcan) as (j' & -> & _). apply Hin in Hj as [-> _]. split; by eexists.
      * rewrite H2; [done|]. intros j Hj Hcan Heq. apply Hno, Exists_exists. by exists j.
Qed.
(** The run that is saved as cancelled. *)
Definition run_cancelled (runID reason : string) (s s' : MemoryStore) : Prop :=
  ∀ id, match GetRun id s with
        | Ok run => ∃ run', GetRun id s' = Ok run' ∧
            if decide (id = runID)
            then run_Status run' = RunStatusCancelled ∧ run_Error run' = reason ∧
                 run_Results run' = run_Results run
            else run' = run
        | Err e => GetRun id s' = Err e
        end.
Lemma save_cancelled runID now reason s : keyed s →
  run_cancelled runID reason s
    match GetRun runID s with
    | Ok run => (SaveRun (cancelled_run now reason run) s).2
    | Err _ => s
    end.
Proof.
  intros [_ Hkey] id. simpl.
  destruct (Memory.GetRun runID s) as [run|] eqn:Hrun; simpl.
  - assert (run_ID run = runID) as HID.
    { unfold Memory.GetRun in Hrun. destruct (runs s !! runID) eqn:E; [|done].
      injection Hrun as ->. by apply Hkey. }
    pose proof (Memory_GetRun_SaveRun (cancelled_run now reason run) s id) as Hg. simpl in Hg.
    rewrite Hg, HID. clear Hg. destruct (decide (id = runID)) as [Hid|Hid].
    + rewrite Hid, Hrun. by eexists.
    + by destruct (Memory.GetRun id s); [eexists|].
  - destruct (Memory.GetRun id s) as [run|] eqn:Hg; [|done]. exists run. split; [done|].
    case_decide; [congruence|done].
Qed.

(** The jobs of a run that cancelling it reaches, each once, by creation time and then ID. *)
Record cancellable (runID : string) (q : MemoryRunQueue) (jobs : list RunQueueJob) : Prop := {
  cb_member job : job ∈ jobs ↔ q_jobs q !! job_ID job = Some job ∧ job_RunID job = runID ∧
    job_Status job ≠ RunJobStatusSucceeded;
  cb_once : NoDup (job_ID <$> jobs);
  cb_order : StronglySorted job_le jobs;
}.
Lemma jobs_of_run_cancellable runID q :
  jobs_keyed q → cancellable runID q (filter can_cancel (jobs_of_run runID q)).
Proof.
  intros Hkey. split.
  - intros job. rewrite list_elem_of_filter, (jobs_of_run_spec _ _ _ Hkey). unfold can_cancel. tauto.
  - apply (sublist_NoDup _ (job_ID <$> jobs_of_run runID q)); [by apply jobs_of_run_NoDup|].
    apply fmap_sublist, sublist_filter.
  - apply StronglySorted_filter, jobs_of_run_sorted.
Qed.

(** C12. Cancelling a run.  DELETE /runs/<id> on a reachable queue always answers, having
    read every page of the run's jobs.  The reason is the trimmed query parameter
    "reason", or "run cancelled" if that is blank.  Each job of the run that has not
    succeeded ends cancelled and in nobody's hands, with the reason as its error unless it
    was cancelled before; every other job is as it was; and the saved run, if there is one,
    becomes CANCELLED with the reason as its error and its results as they were.  The
    answer lists those jobs by creation and ID; it is 409, and nothing changes, if all the
    jobs of the run have succeeded or it has none. *)
Theorem cancel_run {E} ops fuel env r runID q (s : Server MemoryStore MemoryRunQueue E) :
  Forall op_ok ops → q = apply_ops ops NewMemoryRunQueue → srv_queue s = Some q →
  keyed (srv_store s) → rq_method r = "DELETE" → rq_path r = "/runs/" +:+ runID → runID ≠ "" →
  Z.of_nat (size (q_jobs q)) < 500 * Z.of_nat fuel →
  Z.of_nat (size (q_jobs q)) + 500 ≤ int64_max →
  ∃ resp s' q' reason jobs, handleRunByID fuel env r s = Some (resp, s') ∧
    srv_queue s' = Some q' ∧
    (TrimSpace (rq_query r "reason") = "" → reason = "run cancelled") ∧
    (TrimSpace (rq_query r "reason") ≠ "" → reason = TrimSpace (rq_query r "reason")) ∧
    cancels runID reason q q' ∧ cancellable runID q jobs ∧
    match jobs with
    | [] => rs_code resp = 409 ∧ s' = s
    | _ =>
        (∃ cancelled, resp = mkResponse 200 (PRunCancelled runID cancelled) ∧
           Forall2 (cancelled_from reason) jobs cancelled) ∧
        run_cancelled runID reason (srv_store s) (srv_store s')
    end.
Proof.
  intros Hok -> Hq Hkst Hm Hp Hne Hfuel Hmax. set (q := apply_ops ops NewMemoryRunQueue) in *.
  pose proof (qi_keyed _ (queue_inv_ops _ _ Hok queue_inv_new)) as Hkey. fold q in Hkey.
  pose proof (jobs_of_run_size runID q) as Hsz. pose proof (jobs_of_run_cancellable runID q Hkey) as Hcb.
  unfold handleRunByID, is_method. rewrite Hm, Hp, TrimPrefix_app.
  rewrite (bool_decide_false _ Hne). unfold with_queue. rewrite Hq.
  rewrite (bool_decide_true ("DELETE" = "DELETE")), andb_false_r by done.
  rewrite (list_run_jobs_all runID q fuel _ [] 0) by (done || unfold zlen in *; lia).
  rewrite drop_0, app_nil_l. cbn -[cancel_run_jobs GetRun SaveRun jobs_of_run cancelled_run].
  set (reason := if bool_decide (TrimSpace _ = "") then _ else _).
  assert ((TrimSpace (rq_query r "reason") = "" → reason = "run cancelled") ∧
    (TrimSpace (rq_query r "reason") ≠ "" → reason = TrimSpace (rq_query r "reason"))) as [Hr1 Hr2].
  { subst reason. by case_bool_decide. }
  destruct (cancel_run_jobs _ _ _ _ _ _ _) as [cancelled q'] eqn:Hc.
  destruct (cancel_run_jobs_all _ _ _ _ _ _ Hkey Hc) as (Hcan & Hall & Hsame).
  destruct Hall as [|j j' jobs cancelled' Hj Hall]; cbn -[GetRun SaveRun cancelled_run].
  - eexists _, _, q', reason, []. split; [reflexivity|]. rewrite (Hsame eq_refl) in *.
    split_and!; try done. unfold save_queue. destruct s; simpl in *. by rewrite Hq.
  - pose proof (save_cancelled runID (ae_clk env 0%nat) reason _ Hkst) as Hst.
    eexists _, _, q', reason, (j :: jobs). split; [reflexivity|].
    split; [by destruct (GetRun runID (srv_store s))|]. do 4 (split; [done|]). split.
    + eexists. split; [reflexivity|]. by constructor.
    + revert Hst. by destruct (GetRun runID (srv_store s)).
Qed.

#[local] Existing Instance Sample.quote_id.
(** Cancelling, for a reason, the run of the job [j1] that a worker has leased; the run
    was saved. *)
Lemma cancel_run_witness :
  let store := (SaveRun (Run_zero <| run_ID := "run-j1" |>) ApiSample.store).2 in
  let s := (ApiSample.server QueueSample.queue) <| srv_store := store |> in
  let r := mkRequest "DELETE" "/runs/run-j1"
    (λ k, if bool_decide (k = "reason") then " wrong input " else "") (λ _, "") "" in
  ∃ resp s' q' jobs, handleRunByID 10 ApiSample.env r s = Some (resp, s') ∧
    srv_queue s' = Some q' ∧ rs_code resp = 200 ∧
    cancels "run-j1" "wrong input" QueueSample.queue q' ∧
    cancellable "run-j1" QueueSample.queue jobs ∧
    (∃ run, GetRun "run-j1" (srv_store s') = Ok run ∧ run_Status run = RunStatusCancelled ∧
       run_Error run = "wrong input").
Proof.
  intros store s r.
  destruct (cancel_run QueueSample.ops 10 ApiSample.env r "run-j1" QueueSample.queue s)
    as (resp & s' & q' & reason & jobs & Hh & Hq' & _ & Hreason & Hc & Hcb & Hout).
  - exact QueueSample.ops_ok.
  - reflexivity.
  - reflexivity.
  - apply keyed_SaveRun, keyed_SaveWorkflow. split; apply map_Forall_empty.
  - reflexivity.
  - reflexivity.
  - discriminate.
  - vm_compute. reflexivity.
  - vm_compute. discriminate.
  - assert (reason = "wrong input") as -> by (apply Hreason; vm_compute; discriminate).
    exists resp, s', q', jobs. split; [exact Hh|]. split; [exact Hq'|].
    assert (Hj : QueueSample.get "j1" QueueSample.queue ∈ jobs).
    { refine (proj2 (cb_member _ _ _ Hcb _) (conj _ (conj _ _)));
        [vm_compute; reflexivity|vm_compute; reflexivity|vm_compute; discriminate]. }
    destruct jobs as [|job jobs]; [exact (False_ind _ (not_elem_of_nil _ Hj))|].
    destruct Hout as [(cancelled & -> & _) Hrun]. split; [reflexivity|]. split; [exact Hc|].
    split; [exact Hcb|]. specialize (Hrun "run-j1").
    assert (Hg : GetRun "run-j1" (srv_store s) = Ok (Run_zero <| run_ID := "run-j1" |>))
      by (vm_compute; reflexivity).
    rewrite Hg in Hrun. destruct Hrun as (run & Hr & Hst & He & _). exists run.
    exact (conj Hr (conj Hst He)).
Defined.

(** ** Bulk operations *)

(** A round of a bulk operation, in terms of the job it meets: [ok] says whether it is
    done, [upd] what it makes of the job, [why] the reason otherwise. *)
Section bulk.
Context (one : nat → string → bulk → MemoryRunQueue → bulk * MemoryRunQueue).
Context (ok : option RunQueueJob → bool) (why : option RunQueueJob → bulkFailureDetail).
Context (upd : RunQueueJob → RunQueueJob → Prop).
Definition round_spec : Prop := ∀ k id b q,
  if ok (q_jobs q !! id) then
    ∃ job job' q', q_jobs q !! id = Some job ∧ one k id b q = (bulk_add job' b, q') ∧
      q_jobs q' = <[id := job']> (q_jobs q) ∧ upd job job'
  else
    one k id b q = (bulk_fail id (bf_Message (why (q_jobs q !! id))) b, q) ∧
    bf_Code (why (q_jobs q !! id)) = classifyBulkJobError (bf_Message (why (q_jobs q !! id))).
Definition done_ids (q : MemoryRunQueue) (ids : list string) : list string :=
  filter (λ id, ok (q_jobs q !! id) = true) ids.
Definition failed_ids (q : MemoryRunQueue) (ids : list string) : list string :=
  filter (λ id, ok (q_jobs q !! id) = false) ids.
(** Every ID is accounted for, and only the jobs that are done change. *)
Record accounted (ids : list string) (q : MemoryRunQueue) (b : bulk) (q' : MemoryRunQueue) : Prop := {
  acc_done : Forall2 (λ id job', q_jobs q' !! id = Some job' ∧
               ∃ job, q_jobs q !! id = Some job ∧ upd job job') (done_ids q ids) (bulk_done b);
  acc_failed id : bulk_failed b !! id =
    if decide (id ∈ failed_ids q ids) then Some (bf_Message (why (q_jobs q !! id))) else None;
  acc_details id : bulk_details b !! id =
    if decide (id ∈ failed_ids q ids) then Some (why (q_jobs q !! id)) else None;
  acc_other id : id ∉ done_ids q ids → q_jobs q' !! id = q_jobs q !! id;
}.

(** The last ID of a list without repetitions. *)
Lemma bulk_loop_snoc k ids id b q :
  bulk_loop one k (ids ++ [id]) b q =
    let '(b, q) := bulk_loop one k ids b q in one (k + length ids)%nat id b q.
Proof.
  revert k b q; induction ids as [|i ids IH]; intros k b q; simpl.
  - rewrite Nat.add_0_r. by destruct (one k id b q).
  - destruct (one k i b q) as [b1 q1]. rewrite IH. by rewrite Nat.add_succ_r.
Qed.
Lemma bulk_loop_accounted k ids q : round_spec → NoDup ids →
  accounted ids q (bulk_loop one k ids bulk_empty q).1 (bulk_loop one k ids bulk_empty q).2.
Proof.
  intros Hone. induction ids as [|id ids IH] using rev_ind; intros Hnd.
  { split; simpl; [constructor|intros id; by rewrite lookup_empty|intros id; by rewrite lookup_empty|done]. }
  apply NoDup_app in Hnd as (Hnd & Hnew & _). rewrite bulk_loop_snoc.
  destruct (bulk_loop one k ids bulk_empty q) as [b1 q1]. simpl in IH.
  specialize (IH Hnd) as [Hdone Hfailed Hdetails Hother].
  assert (id ∉ ids) as Hid by (intros Hx; apply (Hnew id Hx); by apply list_elem_of_singleton).
  assert (q_jobs q1 !! id = q_jobs q !! id) as Hsame.
  { apply Hother. unfold done_ids. rewrite list_elem_of_filter. tauto. }
  pose proof (Hone (k + length ids)%nat id b1 q1) as Hr. rewrite Hsame in Hr.
  destruct (ok (q_jobs q !! id)) eqn:Hok.
  - destruct Hr as (job & job' & q2 & Hj & -> & Hq2 & Hupd). simpl.
    assert (done_ids q (ids ++ [id]) = done_ids q ids ++ [id]) as Ed.
    { unfold done_ids. rewrite filter_app, filter_cons_True; done. }
    assert (failed_ids q (ids ++ [id]) = failed_ids q ids) as Ef.
    { unfold failed_ids. rewrite filter_app, filter_cons_False by congruence. apply app_nil_r. }
    split; rewrite ?Ed, ?Ef; [| |done|].
    + simpl. apply Forall2_app; [|constructor; [|constructor]].
      * eapply Forall2_impl_elem; [exact Hdone|]. intros i j [_ Hi]%list_elem_of_filter.
        rewrite Hq2, lookup_insert_ne by (intros ->; done). done.
      * rewrite Hq2, lookup_insert_eq. eauto.
    + done.
    + intros i Hi. rewrite Hq2. rewrite elem_of_app, list_elem_of_singleton in Hi.
      rewrite lookup_insert_ne by (intros ->; tauto). apply Hother. tauto.
  - destruct Hr as [-> Hcode]. unfold bulk_fail. rewrite <-Hcode. simpl.
    assert (done_ids q (ids ++ [id]) = done_ids q ids) as Ed.
    { unfold done_ids. rewrite filter_app, filter_cons_False by congruence. apply app_nil_r. }
    assert (failed_ids q (ids ++ [id]) = failed_ids q ids ++ [id]) as Ef.
    { unfold failed_ids. rewrite filter_app, filter_cons_True; done. }
    split; rewrite ?Ed, ?Ef; [done| | |done]; intros i; simpl;
      rewrite lookup_insert, ?Hfailed, ?Hdetails;
      pose proof (elem_of_app (failed_ids q ids) [id] i) as Hi;
      rewrite list_elem_of_singleton in Hi; destruct (decide (id = i)) as [<-|Hne].
    1,3: rewrite (decide_True _ _ (proj2 Hi (or_intror eq_refl))); by destruct (why _).
    1,2: apply not_eq_sym in Hne; clear -Hi Hne; repeat case_decide; try done; exfalso; tauto.
Qed.
(** The result code says how many there were of each. *)
Lemma accounted_code ids q b q' : accounted ids q b q' → NoDup ids →
  bulkResultCode (zlen (bulk_done b)) (Z.of_nat (size (bulk_failed b))) =
    match failed_ids q ids, done_ids q ids with
    | [], _ => "BULK_OK"
    | _, [] => "BULK_ALL_FAILED"
    | _, _ => "BULK_PARTIAL_FAILURE"
    end.
Proof.
  intros [Hdone Hfailed _ _] Hnd.
  assert (size (bulk_failed b) = length (failed_ids q ids)) as ->.
  { rewrite <-size_dom. rewrite <-(size_list_to_set (C := gset string) (failed_ids q ids)).
    - f_equal. apply set_eq. intros i. rewrite elem_of_dom, elem_of_list_to_set, Hfailed.
      case_decide; naive_solver.
    - by apply NoDup_filter. }
  unfold zlen. rewrite <-(Forall2_length _ _ _ Hdone). unfold bulkResultCode.
  destruct (failed_ids q ids), (done_ids q ids); reflexivity.
Qed.
End bulk.

(** The jobs that may be replayed: those that failed for good, and those set aside. *)
Definition can_requeue (job : option RunQueueJob) : bool :=
  match job with
  | Some job => bool_decide (job_Status job = RunJobStatusFailed ∨ job_Status job = RunJobStatusDead)
  | None => false
  end.
Lemma requeueable_spec job : requeueable job = can_requeue (Some job).
Proof. apply bool_decide_ext. set_solver. Qed.
Definition requeue_failure (job : option RunQueueJob) : bulkFailureDetail :=
  match job with
  | Some _ => mkBulkFailureDetail "INVALID_JOB_STATE" "only failed or dead-letter jobs can be requeued"
  | None => mkBulkFailureDetail "JOB_NOT_FOUND" "run job not found"
  end.
(** The job waits again, free, for the delay from one of the moments [clks], with the
    replay on its record. *)
Definition requeued_from (clks : nat → clock) (delay : duration) (replayedBy replayReason : string)
    (job job' : RunQueueJob) : Prop :=
  same_identity job job' ∧ job_Status job' = RunJobStatusQueued ∧ job_LeaseOwner job' = "" ∧
  (∃ k, job_AvailableAt job' = time_Add (clks k 0%nat) delay) ∧
  job_Attempts job' = job_Attempts job ∧ job_ReplayCount job' = wrap64 (job_ReplayCount job + 1) ∧
  job_ReplayedBy job' = replayedBy ∧ job_ReplayReason job' = replayReason.
Lemma requeue_one_spec (clks : nat → clock) delay by_ reason :
  round_spec (λ k, requeue_one (clks k) delay by_ reason) can_requeue requeue_failure
    (requeued_from clks delay by_ reason).
Proof.
  intros k id b q. unfold requeue_one. simpl. unfold MemQ.GetRunJob.
  destruct (q_jobs q !! id) as [job|] eqn:Hj; [|split; vm_compute; reflexivity]. simpl.
  rewrite requeueable_spec. simpl can_requeue.
  destruct (bool_decide _) eqn:Hr; [|split; vm_compute; reflexivity]. simpl.
  apply bool_decide_eq_true in Hr. unfold MemQ.RequeueRunJob. rewrite Hj.
  assert (bool_decide (job_Status job ≠ RunJobStatusDead)
          && bool_decide (job_Status job ≠ RunJobStatusFailed) = false) as ->.
  { rewrite andb_false_iff, !bool_decide_eq_false. tauto. }
  simpl. rewrite lookup_insert_eq. eexists job, _, _. split; [done|]. split; [reflexivity|].
  split; [reflexivity|]. repeat split. by exists k.
Qed.
Definition cancel_failure (job : option RunQueueJob) : bulkFailureDetail :=
  match job with
  | Some _ => mkBulkFailureDetail "INVALID_JOB_STATE" "run job cannot be cancelled in current state"
  | None => mkBulkFailureDetail "JOB_NOT_FOUND" "run job not found"
  end.
Lemma cancel_one_spec (clks : nat → clock) reason :
  round_spec (λ k, cancel_one (clks k) reason)
    (λ job, match job with Some job => bool_decide (can_cancel job) | None => false end)
    cancel_failure (cancelled_from reason).
Proof.
  intros k id b q. unfold cancel_one. simpl.
  destruct (q_jobs q !! id) as [job|] eqn:Hj.
  - pose proof (CancelRunJob_spec (clks k) id reason q job Hj) as Hs. unfold can_cancel.
    case_decide as Hd.
    + rewrite bool_decide_false by tauto. rewrite Hs. split; vm_compute; reflexivity.
    + destruct Hs as (job' & q' & -> & Hq' & Hc). rewrite bool_decide_true by done.
      exists job, job', q'. unfold MemQ.GetRunJob. by rewrite Hq', lookup_insert_eq.
  - unfold MemQ.CancelRunJob. rewrite Hj. split; vm_compute; reflexivity.
Qed.

(** The answer to a bulk operation on [ids]. *)
Definition bulk_answer ok why upd (ids : list string) (q q' : MemoryRunQueue) (resp : response) :
    Prop :=
  ∃ b, accounted ok why upd ids q b q' ∧
    resp = mkResponse 200 (PBulk (bulk_done b)
      match failed_ids ok q ids, done_ids ok q ids with
      | [], _ => "BULK_OK"
      | _, [] => "BULK_ALL_FAILED"
      | _, _ => "BULK_PARTIAL_FAILURE"
      end (bulk_failed b) (bulk_details b)).
Lemma bulk_loop_answer one ok why upd ids q : round_spec one ok why upd → NoDup ids →
  let '(b, q') := bulk_loop one 0 ids bulk_empty q in
  bulk_answer ok why upd ids q q' (bulk_response b).
Proof.
  intros Hone Hnd. pose proof (bulk_loop_accounted _ _ _ _ 0 ids q Hone Hnd) as Hacc.
  destruct (bulk_loop _ _ _ _ _) as [b q']. simpl in Hacc. exists b. split; [done|].
  unfold bulk_response. by rewrite (accounted_code _ _ _ _ _ _ _ Hacc Hnd).
Qed.

(** C39. Bulk requeueing accounts for every job it is given.  Of a request that names
    distinct IDs, with no status or a valid one, the answer lists, in that order, exactly
    the jobs among them whose status is FAILED or DEAD_LETTER; each waits again, free, for the
    delay the request asks for, with its attempts as they were and the replay recorded.
    Each other ID is reported with its reason - JOB_NOT_FOUND or INVALID_JOB_STATE - and no
    other job changes.  The result code is BULK_OK, BULK_ALL_FAILED or
    BULK_PARTIAL_FAILURE as none, all or some of them failed. *)
Theorem bulk_requeue_accounts {E} decode ParseDuration env r req delay
    (s : Server MemoryStore MemoryRunQueue E) q :
  rq_method r = "POST" → srv_queue s = Some q → de_bulkRequeue decode (rq_body r) = Ok req →
  TrimSpace (brr_Status req) = "" ∨ isValidRunJobStatus (brr_Status req) = true →
  optional_duration ParseDuration (brr_AvailableAfter req) "availableAfter"
    "invalid availableAfter duration" = inr delay →
  given_ids (brr_JobIDs req) ≠ [] → NoDup (given_ids (brr_JobIDs req)) →
  ∃ resp q', handleJobsBulkRequeue decode ParseDuration env r s =
      Some (resp, s <| srv_queue := Some q' |>) ∧
    bulk_answer can_requeue requeue_failure
      (requeued_from (ae_queue_clk env) delay (TrimSpace (brr_ReplayedBy req))
         (TrimSpace (brr_ReplayReason req)))
      (given_ids (brr_JobIDs req)) q q' resp.
Proof.
  intros Hm Hq Hdec Hst Hdelay Hids Hnd. unfold handleJobsBulkRequeue, with_queue, is_method.
  rewrite Hq, Hm, Hdec, Hdelay, bool_decide_true by done. cbn [negb].
  assert (bool_decide (TrimSpace (brr_Status req) ≠ "") && negb (isValidRunJobStatus (brr_Status req))
          = false) as ->.
  { destruct Hst as [-> | ->]; [|by rewrite andb_false_r].
    rewrite bool_decide_false; [done|]. intros Hx. by apply Hx. }
  set (ids := given_ids (brr_JobIDs req)) in *. unfold bulk_ids. fold ids.
  assert (length ids ≠ 0%nat) as Hlen by (by destruct ids).
  rewrite (proj2 (Nat.eqb_neq _ _) Hlen). simpl.
  pose proof (bulk_loop_answer _ _ _ _ ids q
    (requeue_one_spec (ae_queue_clk env) delay (TrimSpace (brr_ReplayedBy req))
       (TrimSpace (brr_ReplayReason req))) Hnd) as Hans.
  destruct (bulk_loop _ _ _ _ _) as [b q']. by exists (bulk_response b), q'.
Qed.

(** ** Idempotency keys *)

(** The jobs that the program enqueues: the server's, under the ID of the run, which the
    key determines if the request carries one, and the scheduler's, which have no key. *)
Definition program_job (job : RunQueueJob) : Prop :=
  (∃ env req key requestID,
     job = run_job env req (deterministicRunID (rr_WorkflowID req) key) requestID ∧
     (requestID = "" ∨ requestID = key)) ∨
  (∃ workflowID runID availableAt createdAt updatedAt,
     job = mkRunQueueJob ("job-" +:+ runID) workflowID runID "" RunJobStatusQueued 0 5 "" ""
             time_zero availableAt 0 "" "" time_zero createdAt updatedAt).
Definition op_api (op : queue_op) : Prop :=
  match op with OpEnqueue _ job => program_job job | _ => True end.
Definition api_queue (q : MemoryRunQueue) : Prop :=
  map_Forall (λ id job, id = "job-" +:+ job_RunID job ∧
    (job_RequestID job ≠ "" →
     job_RunID job = deterministicRunID (job_WorkflowID job) (job_RequestID job))) (q_jobs q).

Lemma op_api_ok op : op_api op → op_ok op.
Proof.
  destruct op; simpl; try done.
  intros [(env & req & key & rid & -> & _)|(w & runID & t1 & t2 & t3 & ->)]; simpl; auto.
Qed.
(** An operation that does not enqueue leaves the identity of every job. *)
Ltac identity_step op :=
  unfold op; queue_step; try (intros Hj; by eauto);
  rewrite lookup_insert; case_decide; [|intros Hj; by eauto];
  intros [= <-]; subst; eexists; split; [eassumption|by repeat split].
Lemma apply_op_identity op q id job' :
  jobs_keyed q → (∀ clk job, op ≠ OpEnqueue clk job) →
  q_jobs (apply_op op q) !! id = Some job' →
  ∃ job, q_jobs q !! id = Some job ∧ same_identity job job'.
Proof.
  intros Hkey Hop. assert (Hrefl : ∀ j, same_identity j j) by (by repeat split).
  destruct op as [clk job|ord clk w d|clk i w d|clk i|clk i e|clk i d e
    |clk i e|clk i e|clk i d b e|ord clk s d l]; simpl; [by destruct (Hop clk job)|..].
  - destruct (MemQ.LeaseNextRunJob ord clk w d q) as [r q'] eqn:Hl. simpl.
    apply LeaseNextRunJob_spec in Hl as [(i & j & Hj & _ & _ & _ & ->)|(_ & _ & ->)]; [|by eauto].
    simpl. rewrite lookup_insert, (Hkey _ _ Hj : job_ID j = i).
    case_decide as Hi; [|by eauto]. intros [= <-]. subst. exists j. by repeat split.
  - identity_step MemQ.ExtendRunJobLease.
  - identity_step MemQ.CompleteRunJob.
  - identity_step MemQ.CancelRunJob.
  - identity_step MemQ.RetryRunJob.
  - identity_step MemQ.FailRunJob.
  - identity_step MemQ.DeadLetterRunJob.
  - identity_step MemQ.RequeueRunJob.
  - rewrite (proj1 (delete_jobs_lookup _ _ _)). case_decide; [done|eauto].
Qed.
Lemma EnqueueRunJob_new clk job q : q_jobs q !! job_ID job = None →
  ∃ job' q', MemQ.EnqueueRunJob clk job q = (Ok tt, q') ∧
    q_jobs q' = <[job_ID job := job']> (q_jobs q) ∧
    job_ID job' = job_ID job ∧ job_WorkflowID job' = job_WorkflowID job ∧
    job_RunID job' = job_RunID job ∧ job_RequestID job' = job_RequestID job.
Proof.
  intros Hj. unfold MemQ.EnqueueRunJob. rewrite Hj. cbv zeta.
  repeat match goal with |- context [if IsZero ?t then _ else _] => destruct (IsZero t) end;
    case_bool_decide; eexists _, _; by repeat split.
Qed.
Lemma enqueue_or_not op :
  (∃ clk job, op = OpEnqueue clk job) ∨ ∀ clk job, op ≠ OpEnqueue clk job.
Proof. destruct op; eauto. Qed.
Lemma api_queue_op op q : op_api op → jobs_keyed q → api_queue q → api_queue (apply_op op q).
Proof.
  intros Hop Hkey Hq.
  destruct (enqueue_or_not op) as [(clk & job & ->)|Hno].
  - simpl. destruct (q_jobs q !! job_ID job) eqn:Hj.
    { unfold MemQ.EnqueueRunJob. by rewrite Hj. }
    destruct (EnqueueRunJob_new clk job q Hj) as (job' & q' & -> & Hq' & _ & Hw & Hr & Hk).
    unfold api_queue. simpl. rewrite Hq'. apply map_Forall_insert_2; [|done].
    rewrite Hw, Hr, Hk.
    destruct Hop as [(env & req & key & rid & -> & Hrid)|(w & runID & t1 & t2 & t3 & ->)]; simpl.
    + split; [done|]. by destruct Hrid as [-> | ->].
    + by split.
  - intros id job' Hj. destruct (apply_op_identity op q id job' Hkey Hno Hj)
      as (job & Hj0 & (_ & Hw & Hr & Hrid & _)).
    rewrite Hw, Hr, Hrid. by apply Hq.
Qed.
Lemma api_queue_ops ops : Forall op_api ops →
  let q := apply_ops ops NewMemoryRunQueue in queue_inv q ∧ api_queue q.
Proof.
  cbv zeta. induction ops as [|op ops IH] using rev_ind; intros Hops.
  { split; [apply queue_inv_new|apply map_Forall_empty]. }
  apply Forall_app in Hops as [Hops Hop]. apply Forall_cons in Hop as [Hop _].
  destruct (IH Hops) as [Hi Hq]. rewrite apply_ops_snoc. split.
  - apply queue_inv_op; [by apply op_api_ok|done].
  - apply api_queue_op; [done|apply Hi|done].
Qed.

(** The job that has a key. *)
Definition has_key (workflowID key : string) (job : RunQueueJob) : Prop :=
  job_WorkflowID job = workflowID ∧ job_RequestID job = key.
Lemma GetRunJobByRequest_spec ord workflowID key q :
  match MemQ.GetRunJobByRequest ord workflowID key q with
  | Ok job => ∃ id, q_jobs q !! id = Some job ∧ has_key workflowID key job
  | Err _ => ∀ id job, q_jobs q !! id = Some job → ¬ has_key workflowID key job
  end.
Proof.
  unfold MemQ.GetRunJobByRequest.
  destruct (list_find _ _) as [[i job]|] eqn:Hf.
  - apply list_find_Some in Hf as (Hj & Hk & _). apply list_elem_of_lookup_2 in Hj.
    unfold iter_values in Hj. rewrite iter_perm in Hj.
    apply list_elem_of_fmap in Hj as ([id j] & -> & Hj%elem_of_map_to_list). by exists id.
  - apply list_find_None in Hf. intros id job Hj Hk. rewrite Forall_forall in Hf.
    apply (Hf job); [|done]. unfold iter_values. rewrite iter_perm. apply list_elem_of_fmap.
    exists (id, job). by rewrite elem_of_map_to_list.
Qed.
(** In a queue that the server fills it is unique. *)
Lemma has_key_unique q id1 id2 job1 job2 workflowID key : api_queue q → key ≠ "" →
  q_jobs q !! id1 = Some job1 → q_jobs q !! id2 = Some job2 →
  has_key workflowID key job1 → has_key workflowID key job2 → id1 = id2.
Proof.
  intros Hq Hkey H1 H2 [Hw1 Hk1] [Hw2 Hk2].
  destruct (Hq _ _ H1) as [-> Hr1], (Hq _ _ H2) as [-> Hr2].
  by rewrite Hr1, Hr2, Hw1, Hw2, Hk1, Hk2 by congruence.
Qed.

(** Once queued it stays, whatever its status, until it is purged. *)
Lemma has_key_op op q id job workflowID key : jobs_keyed q → is_purge op = false →
  q_jobs q !! id = Some job → has_key workflowID key job →
  ∃ job', q_jobs (apply_op op q) !! id = Some job' ∧ has_key workflowID key job'.
Proof.
  intros Hkey Hp Hj [Hw Hk]. destruct (enqueue_or_not op) as [(clk & j & ->)|Hno].
  - exists job. split; [|done]. by apply apply_op_other.
  - destruct (apply_op_keeps op q id Hp (ex_intro _ _ Hj)) as [job' Hj'].
    exists job'. split; [done|].
    destruct (apply_op_identity op q id job' Hkey Hno Hj') as (j & Hj0 & (_ & Ew & _ & Ek & _)).
    rewrite Hj in Hj0. injection Hj0 as <-. unfold has_key. by rewrite Ew, Ek.
Qed.
Lemma has_key_ops ops more id job workflowID key :
  Forall op_api ops → Forall op_api more → Forall (λ op, is_purge op = false) more →
  q_jobs (apply_ops ops NewMemoryRunQueue) !! id = Some job → has_key workflowID key job →
  ∃ job', q_jobs (apply_ops (ops ++ more) NewMemoryRunQueue) !! id = Some job' ∧
    has_key workflowID key job'.
Proof.
  intros Hops Hmore Hp Hj Hk. induction more as [|op more IH] using rev_ind.
  { rewrite app_nil_r. by exists job. }
  apply Forall_app in Hmore as [Hmore Hop], Hp as [Hp Hpop].
  apply Forall_cons in Hpop as [Hpop _]. destruct (IH Hmore Hp) as (job1 & Hj1 & Hk1).
  rewrite app_assoc, apply_ops_snoc. apply (has_key_op op _ _ job1); try done.
  by apply api_queue_ops, Forall_app.
Qed.

Lemma apply_ops_app ops more q : apply_ops (ops ++ more) q = apply_ops more (apply_ops ops q).
Proof. apply foldl_app. Qed.

Section idempotent.
Context `{!Quote} {St E : Type} `{!WorkflowStore St} `{!WorkflowStoreListing St}.
Context (registry : Registry) (decode : decoders).
Context (ParseRFC3339 ParseRFC3339Nano : string → result time).
Abbreviation Srv := (Server St MemoryRunQueue E).
Abbreviation post := (handleRuns (E := E) registry decode ParseRFC3339 ParseRFC3339Nano).

(** [r] asks the server in state [s] for an asynchronous run of a stored workflow, with a key. *)
Record asks (workflowID key : string) (r : request) (s : Srv) : Prop := {
  asks_method : rq_method r = "POST";
  asks_body : ∃ max, de_run decode (rq_body r) = Ok (mkRunRequest workflowID true max);
  asks_key : idempotency_key r = key;
  asks_workflow : is_Ok (GetWorkflow workflowID (srv_store s));
}.

(** What the server does before it queues anything. *)
Lemma post_run_keyed env workflowID key r q (s : Srv) :
  workflowID ≠ "" → key ≠ "" → asks workflowID key r s → srv_queue s = Some q →
  ∃ max, post env r s =
    match GetRun (deterministicRunID workflowID key) (srv_store s) with
    | Ok run => Some (mkResponse 200 (PRun run), s)
    | Err _ =>
        match MemQ.GetRunJobByRequest (ae_ord env 0%nat) workflowID key q with
        | Ok job => Some (mkResponse 200 (PJob job), s)
        | Err _ => enqueue_run env (mkRunRequest workflowID true max)
                     (deterministicRunID workflowID key) key q s
        end
    end.
Proof.
  intros Hw Hk [Hm [max Hb] Hkey Hwf] Hq. exists max.
  unfold handleRuns, handleRuns_post, is_method. rewrite Hm, Hb, Hkey.
  rewrite bool_decide_false, bool_decide_true, bool_decide_false by done. simpl.
  destruct (GetWorkflow workflowID (srv_store s)) as [w|]; [|by destruct Hwf].
  rewrite andb_false_r. unfold with_queue. rewrite Hq.
  rewrite bool_decide_true by done. simpl. unfold reply.
  by destruct (GetRun _ _).
Qed.

(** The first POST: what it answers, as the operation on the queue that it is. *)
Lemma first_post ops env workflowID key r e (s : Srv) :
  Forall op_api ops → srv_queue s = Some (apply_ops ops NewMemoryRunQueue) →
  workflowID ≠ "" → key ≠ "" → asks workflowID key r s →
  let runID := deterministicRunID workflowID key in
  let jobID := "job-" +:+ runID in
  let q := apply_ops ops NewMemoryRunQueue in
  GetRun runID (srv_store s) = Err e →
  (∀ job, q_jobs q !! jobID = Some job → has_key workflowID key job) →
  ∃ job first, Forall op_api first ∧ job_ID job = jobID ∧ job_RunID job = runID ∧
    post env r s = Some (mkResponse (if decide (is_Some (q_jobs q !! jobID)) then 200 else 202)
      (PJob job), save_queue (apply_ops (ops ++ first) NewMemoryRunQueue) s) ∧
    ∃ j, q_jobs (apply_ops (ops ++ first) NewMemoryRunQueue) !! jobID = Some j ∧
      has_key workflowID key j.
Proof.
  intros Hops Hq Hw Hk Hasks runID jobID q Hrun Hcol.
  destruct (api_queue_ops ops Hops) as [Hi Hapi]. fold q in Hi, Hapi.
  destruct (post_run_keyed env workflowID key r q s Hw Hk Hasks Hq) as [max ->].
  fold runID. rewrite Hrun.
  pose proof (GetRunJobByRequest_spec (ae_ord env 0%nat) workflowID key q) as Hreq.
  destruct (MemQ.GetRunJobByRequest _ _ _ _) as [job|e1].
  - destruct Hreq as (id & Hj & Hjk). pose proof (Hapi _ _ Hj) as [Eid Er].
    destruct Hjk as [Ew Ek]. rewrite Ew, Ek in Er. specialize (Er Hk). fold runID in Er.
    assert (id = jobID) as -> by (rewrite Eid, Er; reflexivity).
    exists job, []. rewrite app_nil_r. fold q. split; [constructor|].
    split; [exact (qi_keyed _ Hi _ _ Hj)|]. split; [exact Er|]. split; [|by exists job].
    rewrite decide_True by (by exists job). do 2 f_equal. unfold save_queue.
    by destruct s; simpl in *; rewrite Hq.
  - assert (q_jobs q !! jobID = None) as Hnone.
    { destruct (q_jobs q !! jobID) as [job|] eqn:Hj; [|done].
      destruct (Hreq _ _ Hj). by apply Hcol. }
    set (job := run_job env (mkRunRequest workflowID true max) runID key).
    exists job, [OpEnqueue (ae_queue_clk env 0%nat) job]. split.
    { repeat constructor. exists env, (mkRunRequest workflowID true max), key, key. auto. }
    split; [done|]. split; [done|]. rewrite apply_ops_snoc. fold q. simpl.
    rewrite decide_False by (rewrite Hnone; by intros []).
    destruct (EnqueueRunJob_new (ae_queue_clk env 0%nat) job q Hnone)
      as (job' & q' & Henq & Hq' & _ & Hjw & _ & Hjk).
    unfold enqueue_run. fold job. simpl. rewrite Henq. split; [done|].
    exists job'. simpl. rewrite Hq'. split; [apply lookup_insert_eq|]. by split.
Qed.
(** A later one. *)
Lemma later_post ops env workflowID key r job (s : Srv) :
  Forall op_api ops → srv_queue s = Some (apply_ops ops NewMemoryRunQueue) →
  workflowID ≠ "" → key ≠ "" → asks workflowID key r s →
  let runID := deterministicRunID workflowID key in
  let q := apply_ops ops NewMemoryRunQueue in
  q_jobs q !! ("job-" +:+ runID) = Some job → has_key workflowID key job →
  (∀ id j, q_jobs q !! id = Some j → has_key workflowID key j → id = "job-" +:+ runID) ∧
  post env r s = Some (mkResponse 200 (match GetRun runID (srv_store s) with
                                       | Ok run => PRun run
                                       | Err _ => PJob job
                                       end), s).
Proof.
  intros Hops Hq Hw Hk Hasks runID q Hj Hjk.
  destruct (api_queue_ops ops Hops) as [Hi Hapi]. fold q in Hi, Hapi.
  assert (Huniq : ∀ id j, q_jobs q !! id = Some j → has_key workflowID key j →
            id = "job-" +:+ runID) by (intros id j Hj' Hk'; by eapply has_key_unique).
  split; [done|].
  destruct (post_run_keyed env workflowID key r q s Hw Hk Hasks Hq) as [max ->].
  fold runID. destruct (GetRun runID (srv_store s)) as [run|]; [done|].
  pose proof (GetRunJobByRequest_spec (ae_ord env 0%nat) workflowID key q) as Hreq.
  destruct (MemQ.GetRunJobByRequest _ _ _ _) as [job'|e1].
  - destruct Hreq as (id & Hj' & Hk'). rewrite (Huniq _ _ Hj' Hk') in Hj'. congruence.
  - by destruct (Hreq _ _ Hj).
Qed.
(** C10. An idempotency key makes one job.  A keyed asynchronous POST /runs that meets no saved
    run answers with the one job of its key: 202 if it has just queued it, 200 if it was
    there.  From then on - whatever workers, cancellations, requeues, schedules and other
    posts (also one that looked up the key before the job was queued) do to the queue, short
    of a purge - the queue holds exactly one job with the key, and the same POST answers
    200 with the saved run or else that job, and changes nothing.  (Provided the hash
    that names runs gave the key's run no other request's name.) *)
Theorem post_run_idempotent ops env r workflowID key e q (s : Srv) :
  Forall op_api ops → q = apply_ops ops NewMemoryRunQueue → srv_queue s = Some q →
  workflowID ≠ "" → key ≠ "" → asks workflowID key r s →
  let runID := deterministicRunID workflowID key in
  let jobID := "job-" +:+ runID in
  GetRun runID (srv_store s) = Err e →
  (∀ job, q_jobs q !! jobID = Some job → has_key workflowID key job) →
  ∃ job q1,
    post env r s = Some (mkResponse (if decide (is_Some (q_jobs q !! jobID)) then 200 else 202)
                           (PJob job), save_queue q1 s) ∧
    job_ID job = jobID ∧ job_RunID job = runID ∧
    ∀ more env' r' s', Forall op_api more → Forall (λ op, is_purge op = false) more →
      let q2 := apply_ops more q1 in
      srv_queue s' = Some q2 → asks workflowID key r' s' →
      ∃ job', q_jobs q2 !! jobID = Some job' ∧ has_key workflowID key job' ∧
        (∀ id j, q_jobs q2 !! id = Some j → has_key workflowID key j → id = jobID) ∧
        post env' r' s' =
          Some (mkResponse 200 (match GetRun runID (srv_store s') with
                                | Ok run => PRun run
                                | Err _ => PJob job'
                                end), s').
Proof.
  intros Hops -> Hq Hw Hk Hasks runID jobID Hrun Hcol.
  destruct (first_post ops env workflowID key r e s Hops Hq Hw Hk Hasks Hrun Hcol)
    as (job & first & Hfirst & HID & HR & Hpost & j & Hj & Hkj).
  exists job, (apply_ops (ops ++ first) NewMemoryRunQueue).
  split; [exact Hpost|]. split; [exact HID|]. split; [exact HR|].
  intros more env' r' s' Hmore Hp. rewrite <-apply_ops_app. intros q2 Hq2 Hasks2.
  assert (Hops1 : Forall op_api (ops ++ first)) by (by apply Forall_app).
  destruct (has_key_ops _ more jobID j workflowID key Hops1 Hmore Hp Hj Hkj) as (job' & Hj' & Hk').
  exists job'. split; [exact Hj'|]. split; [exact Hk'|].
  apply (later_post _ env' workflowID key r' job' s'); try done. by apply Forall_app.
Qed.
End idempotent.

(** ** Examples *)

(** [j1] is dead-lettered, [j2] has failed, [j4] waits, [j3] is not there. *)
Lemma bulk_requeue_accounts_witness :
  let ops := QueueSample.ops ++
    [OpDeadLetter (QueueSample.at_ 120) "j1" "poison"; OpFail (QueueSample.at_ 130) "j2" "boom";
     OpEnqueue (QueueSample.at_ 140) (QueueSample.job "j4")] in
  let r := ApiSample.req "POST" "/jobs/requeue" "w" "" "bulk" in
  let s := ApiSample.server (apply_ops ops NewMemoryRunQueue) in
  ∃ done failed details q',
    handleJobsBulkRequeue ApiSample.decode ApiSample.no_duration ApiSample.env r s =
      Some (mkResponse 200 (PBulk done "BULK_PARTIAL_FAILURE" failed details),
            s <| srv_queue := Some q' |>) ∧
    length done = 2%nat ∧
    (∃ job, q_jobs q' !! "j1" = Some job ∧ job_Status job = RunJobStatusQueued) ∧
    bf_Code <$> (details !! "j4") = Some "INVALID_JOB_STATE" ∧
    bf_Code <$> (details !! "j3") = Some "JOB_NOT_FOUND".
Proof.
  intros ops r s. set (q := apply_ops ops NewMemoryRunQueue) in *.
  destruct (bulk_requeue_accounts ApiSample.decode ApiSample.no_duration ApiSample.env r
    (mkBulkRequeueRequest ["j1"; " "; "j2"; "j4"; "j3 "] "" 0 "" "ops" "fixed") 0 s q)
    as (resp & q' & Hh & (b & Hacc & Hresp)).
  - reflexivity.
  - reflexivity.
  - vm_compute. reflexivity.
  - left. reflexivity.
  - reflexivity.
  - vm_compute. discriminate.
  - apply (bool_decide_unpack _). vm_compute. exact I.
  - assert (Hids : given_ids ["j1"; " "; "j2"; "j4"; "j3 "] = ["j1"; "j2"; "j4"; "j3"])
      by (vm_compute; reflexivity).
    assert (Hd : done_ids can_requeue q ["j1"; "j2"; "j4"; "j3"] = ["j1"; "j2"])
      by (vm_compute; reflexivity).
    assert (Hf : failed_ids can_requeue q ["j1"; "j2"; "j4"; "j3"] = ["j4"; "j3"])
      by (vm_compute; reflexivity).
    cbn [brr_JobIDs] in Hacc, Hresp. rewrite Hids in Hacc, Hresp. rewrite Hd, Hf in Hresp.
    rewrite Hresp in Hh. exists (bulk_done b), (bulk_failed b), (bulk_details b), q'.
    split; [exact Hh|].
    destruct Hacc as [Hdone _ Hdetails _]. rewrite Hd in Hdone. split; [|split].
    + exact (eq_sym (Forall2_length _ _ _ Hdone)).
    + apply Forall2_cons_inv_l in Hdone as (job & rest & (Hj & job0 & _ & _ & Hst & _) & _ & _).
      exists job. exact (conj Hj Hst).
    + rewrite !Hdetails, Hf, !decide_True by (apply (bool_decide_unpack _); vm_compute; exact I).
      split; vm_compute; reflexivity.
Defined.

(** A run is posted twice with the key [k1]; in between a worker leases and completes it. *)
Lemma post_run_idempotent_witness :
  let r := ApiSample.req "POST" "/runs" "w" "k1" "async" in
  let s := ApiSample.server NewMemoryRunQueue in
  let post := handleRuns (E := toy_cron) Sample.registry ApiSample.decode ApiSample.no_time
                ApiSample.no_time ApiSample.env in
  let jobID := "job-" +:+ deterministicRunID "w" "k1" in
  let later := [OpLease canonical_order (λ _, unix_epoch + 100) "w1" 50;
                OpComplete (λ _, unix_epoch + 110) jobID] in
  ∃ job q1, post r s = Some (mkResponse 202 (PJob job), save_queue q1 s) ∧
    let s' := save_queue (apply_ops later q1) s in
    ∃ job', job_ID job = jobID ∧ q_jobs (apply_ops later q1) !! jobID = Some job' ∧
      post r s' = Some (mkResponse 200 (PJob job'), s').
Proof.
  intros r s post jobID later.
  assert (Hasks : ∀ q, asks ApiSample.decode "w" "k1" r (save_queue q s)).
  { intros q. split; [reflexivity|exists 0; vm_compute; reflexivity|vm_compute; reflexivity|].
    exists Sample.workflow. vm_compute. reflexivity. }
  destruct (post_run_idempotent Sample.registry ApiSample.decode ApiSample.no_time
    ApiSample.no_time [] ApiSample.env r "w" "k1" "run not found" NewMemoryRunQueue s)
    as (job & q1 & Hpost & HID & HR & Hlater).
  - constructor.
  - reflexivity.
  - reflexivity.
  - discriminate.
  - discriminate.
  - exact (Hasks NewMemoryRunQueue).
  - vm_compute. reflexivity.
  - intros j Hj. discriminate Hj.
  - exists job, q1. split; [exact Hpost|]. intros s'.
    destruct (Hlater later ApiSample.env r s') as (job' & Hj' & _ & _ & Hagain).
    + repeat constructor.
    + repeat constructor.
    + reflexivity.
    + exact (Hasks _).
    + exists job'. split; [exact HID|]. split; [exact Hj'|]. exact Hagain.
Defined.

(** Two requests whose workflow and key meet at the separator have the same run: a job of
    the first keeps the second from being queued, although it is answered 202. *)
Theorem run_id_ambiguous : deterministicRunID "a|b" "c" = deterministicRunID "a" "b|c".
Proof. reflexivity. Qed.
