(* ===== verification/ApiTotal.v ===== *)
(** * The HTTP server over the memory store and queue: every request is answered

    No request makes a handler panic or fail inside: what can overflow - the end of a page -
    stays within 64 bits, and the memory components do not fail.  What may not end is a run,
    when its workflow does not; what may end the process is an answer that shows a run
    somebody is still executing. *)

From S2P Require Import Prelude GoLib GoText Domain Graph Actions Interfaces Store.
From S2P Require Import Telemetry Prometheus Executor ExecutorProps Run RunProps Scheduler SchedulerProps.
From S2P Require Import Queue QueueProps WorkflowDecode ApiText Api ApiProps Mux ApiJobs.
Local Open Scope Z_scope.

(** ** Pages within 64 bits *)

Lemma slice_some {A} lo hi (l : list A) : 0 ≤ lo → lo ≤ hi → hi ≤ zlen l → ∃ l', slice lo hi l = Some l'.
Proof.
  intros. unfold slice. rewrite !(proj2 (Z.leb_le _ _)) by lia. eauto.
Qed.
Lemma last_some {A} start limit (l : list A) : 0 ≤ start ≤ zlen l → 0 < limit →
  start + limit ≤ int64_max →
  let last := wrap64 (start + limit) in
  ∃ l', slice start (if zlen l <? last then zlen l else last) l = Some l'.
Proof.
  intros Hs Hl Hm last. unfold last. rewrite wrap64_id by (unfold int64_min in *; lia).
  apply slice_some; destruct (Z.ltb_spec (zlen l) (start + limit)); lia.
Qed.
Lemma page_some {A} limit offset (l : list A) : limit ≤ int64_max → zlen l + limit ≤ int64_max ∨ offset = 0 →
  zlen l + 1000 ≤ int64_max → ∃ l', page limit offset l = Some l'.
Proof.
  intros Hmax Hl Hlen. unfold page. cbv zeta.
  set (limit' := if limit <=? 0 then 50 else limit). set (offset' := if offset <? 0 then 0 else offset).
  assert (0 < limit' ∧ limit' ≤ int64_max ∧ (limit' = 50 ∨ limit' = limit)) as (H1 & H2 & H3).
  { unfold limit'. destruct (Z.leb_spec limit 0); unfold int64_max in *; lia. }
  assert (0 ≤ offset' ∧ (offset = 0 → offset' = 0)) as [H4 H5].
  { unfold offset'. destruct (Z.ltb_spec offset 0); lia. }
  destruct (Z.leb_spec (zlen l) offset'); [eauto|].
  apply (last_some offset' limit' l); [lia|done|]. destruct Hl as [Hl|Hl]; [lia|]. rewrite H5 by done. lia.
Qed.
Lemma parseLimitOffset_range r : 0 < (parseLimitOffset r).1 ≤ 1000 ∧ 0 ≤ (parseLimitOffset r).2.
Proof.
  unfold parseLimitOffset, int_param. simpl. split.
  - destruct (Atoi (TrimSpace (rq_query r "limit"))) as [v|]; [|lia].
    destruct (_ && _) eqn:Hv; [|lia]. apply andb_true_iff in Hv as [?%Z.ltb_lt ?%Z.leb_le]. lia.
  - destruct (Atoi (TrimSpace (rq_query r "offset"))) as [v|]; [|lia].
    destruct (Z.leb_spec 0 v); lia.
Qed.
Lemma paginate_some {A} r (l : list A) : zlen l + 1000 ≤ int64_max → ∃ l', paginate r l = Some l'.
Proof.
  intros Hl. unfold paginate. pose proof (parseLimitOffset_range r) as [H1 H2].
  destruct (parseLimitOffset r) as [limit offset]. simpl in *.
  destruct (Z.leb_spec (zlen l) offset); [eauto|]. apply last_some; lia.
Qed.

(** ** What a handler answers *)

(** It answers, and not with an error of the server itself. *)
Definition answered {S} (a : option (response * S)) : Prop :=
  match a with
  | Some (resp, _) => rs_code resp ∈ [200; 201; 202; 400; 401; 404; 405; 409; 501]
  | None => False
  end.

(** What the collections hold leaves room for a page of 1000. *)
Definition fits (n : Z) : Prop := n + 1000 ≤ int64_max.
Definition queue_fits (q : MemoryRunQueue) : Prop :=
  fits (Z.of_nat (size (q_jobs q))) ∧ map_Forall (λ _ l, fits (zlen l)) (q_transitions q).
Definition store_fits (s : MemoryStore) : Prop :=
  fits (Z.of_nat (size (workflows s))) ∧ fits (Z.of_nat (size (runs s))).

Lemma filter_values {A} ord (P : A → Prop) `{!∀ x, Decision (P x)} (m : gmap string A) :
  zlen (filter P (iter_values ord m)) ≤ Z.of_nat (size m).
Proof.
  unfold zlen, iter_values. pose proof (length_filter P (iter ord m).*2) as Hf.
  assert (length (iter ord m).*2 = size m) as Hs
    by (by rewrite length_fmap, iter_perm, length_map_to_list).
  lia.
Qed.
Lemma zlen_sort {A} (less : A → A → bool) l : zlen (sort_slice less l) = zlen l.
Proof. by rewrite sort_slice_perm. Qed.
Lemma sorted_page {A} ord (P : A → Prop) `{!∀ x, Decision (P x)} less (m : gmap string A) limit offset :
  fits (Z.of_nat (size m)) → 0 < limit ≤ 1000 ∨ limit ≤ int64_max ∧ offset = 0 →
  ∃ l, page limit offset (sort_slice less (filter P (iter_values ord m))) = Some l.
Proof.
  intros Hm Hl. pose proof (filter_values ord P m) as Hf. unfold fits in Hm.
  rewrite <-(zlen_sort less) in Hf. apply page_some; unfold int64_max in *; lia.
Qed.
Lemma ListRunJobsFiltered_some ord status workflowID requestID after before limit offset q :
  queue_fits q → 0 < limit ≤ 1000 ∨ limit ≤ int64_max ∧ offset = 0 →
  ∃ l, ListRunJobsFiltered ord status workflowID requestID after before limit offset q = Some (Ok l).
Proof.
  intros [Hq _] Hl. simpl. unfold MemQ.ListRunJobsFiltered, MemQ.matching_jobs. cbv zeta.
  destruct (sorted_page ord (λ job, MemQ.job_matches status workflowID requestID after before job = true)
    MemQ.job_less (q_jobs q) limit offset Hq Hl) as [l ->]. by exists l.
Qed.
Lemma RequeueRunJob_requeueable clk id d by_ why q job : GetRunJob id q = Ok job → requeueable job = true →
  ∃ job' q', RequeueRunJob clk id d by_ why q = (Ok tt, q') ∧ GetRunJob id q' = Ok job'.
Proof.
  simpl. unfold MemQ.GetRunJob, MemQ.RequeueRunJob, requeueable.
  destruct (q_jobs q !! id) as [j|] eqn:Hj; [|done]. intros [= ->] Hr%bool_decide_eq_true.
  assert (bool_decide (job_Status job ≠ RunJobStatusDead) &&
          bool_decide (job_Status job ≠ RunJobStatusFailed) = false) as ->.
  { apply andb_false_iff. rewrite !bool_decide_eq_false. set_solver. }
  eexists _, _. split; [done|]. simpl. by rewrite lookup_insert_eq.
Qed.

(** ** The handlers *)

Section total.
Context `{!Quote} {E : Type} `{!CronEngine E}.
Context (registry : Registry) (decode : decoders) (ParseDuration : string → result duration).
Context (ParseRFC3339 ParseRFC3339Nano : string → result time).
Context (MarshalIndent : persistedSchedules → result string).
Abbreviation Srv := (Server MemoryStore MemoryRunQueue E).
Abbreviation all_routes :=
  (routes (St := MemoryStore) (Q := MemoryRunQueue) (E := E) registry decode ParseDuration ParseRFC3339
     ParseRFC3339Nano MarshalIndent).

(** A server in the state the program keeps it in, of a size that memory bounds, with [fuel]
    for the pages of a listing; and the runs of its workflows end. *)
Record serviceable (fuel : nat) (env : api_env) (s : Srv) : Prop := {
  sv_store : store_fits (srv_store s);
  sv_valid : valid_store (srv_store s);
  sv_queue : ∀ q, srv_queue s = Some q →
    queue_fits q ∧ jobs_keyed q ∧ Z.of_nat (size (q_jobs q)) < 500 * Z.of_nat fuel;
  sv_schedules : ∀ svc, srv_scheduler s = Some svc → fits (Z.of_nat (size (s_jobs svc)));
  sv_metrics : ∀ m, srv_metrics s = Some m → collected m;
  sv_runs : ∀ id w runID requestID, GetWorkflow id (srv_store s) = Ok w →
    is_Some (RunWithID registry (ae_run env) w runID requestID (Some (srv_store s)) (srv_metrics s));
}.
(** The limits of the bulk requests are decoded into Go ints. *)
Record decoded_ints : Prop := {
  di_cancel : ∀ body req, de_bulkCancel decode body = Ok req → bcr_Limit req ≤ int64_max;
  di_requeue : ∀ body req, de_bulkRequeue decode body = Ok req → brr_Limit req ≤ int64_max;
}.

Ltac code_ok := cbn [answered]; apply (bool_decide_unpack _); vm_compute; exact I.
Ltac answer_step :=
  match goal with
  | |- answered (reply _ _) => unfold reply
  | |- rs_code _ ∈ _ => code_ok
  | |- _ ∈ _ => code_ok
  | |- answered (Some (writeListResponse ?r _ _ _ _ _, _)) => unfold writeListResponse; destruct (useListEnvelope r)
  | |- answered (Some (_, _)) => cbn [answered]; code_ok
  | |- answered (let '(_, _) := ?x in _) => destruct x
  | |- answered (match ?x with _ => _ end) => destruct x
  end.
Ltac answers := repeat answer_step.

Lemma handleHealth_answers env r (s : Srv) : answered (handleHealth env r s).
Proof. unfold handleHealth. answers. Qed.
Lemma handleReady_answers env r (s : Srv) : answered (handleReady env r s).
Proof. unfold handleReady. simpl. answers. Qed.
Lemma handleMetrics_answers fuel env r (s : Srv) : serviceable fuel env s → answered (handleMetrics env r s).
Proof.
  intros Hs. unfold handleMetrics. answer_step; [by answers|].
  destruct (srv_metrics s) as [m|] eqn:Hm; [|by answers]. apply (sv_metrics _ _ _ Hs) in Hm.
  cbv zeta. match goal with |- context [Prometheus _ ?c] => set (m' := c) end.
  assert (collected m') as Hc.
  { unfold m'. destruct (srv_queue s); [|done]. simpl. by constructor. }
  unfold Prometheus, exposition.
  destruct (bucket_lines_total _ _ (collected_buckets m' Hc)) as [ls ->]. simpl. code_ok.
Qed.
Lemma save_valid_answers env code w (s : Srv) : code = 200 ∨ code = 201 → answered (save_valid env code w s).
Proof.
  intros Hcode. unfold save_valid.
  destruct (ValidateWorkflow_total (ae_ord env 0%nat) w) as [[[]|e] ->]; [|by answers].
  simpl. destruct Hcode as [-> | ->]; code_ok.
Qed.
Lemma handleWorkflows_answers fuel env r (s : Srv) :
  serviceable fuel env s → answered (handleWorkflows decode ParseDuration env r s).
Proof.
  intros Hs. unfold handleWorkflows. answer_step.
  - simpl. set (l := if EqualFold _ _ then _ else _).
    destruct (paginate_some r l) as [l' Hl'].
    { destruct (sv_store _ _ _ Hs) as [Hw _].
      assert (zlen l = Z.of_nat (size (workflows (srv_store s)))) as ->; [|exact Hw].
      unfold l. destruct (EqualFold _ _); rewrite ?zlen_sort; unfold zlen, iter_values;
        by rewrite length_fmap, iter_perm, length_map_to_list. }
    rewrite Hl'. cbn [mbind option_bind]. answers.
  - answer_step; [|by answers]. answer_step; [|by answers]. apply save_valid_answers. by right.
Qed.
Lemma handleWorkflowByID_answers env r (s : Srv) : answered (handleWorkflowByID decode ParseDuration env r s).
Proof.
  unfold handleWorkflowByID. cbv zeta.
  repeat (answer_step; try (apply save_valid_answers; by left)).
Qed.

(** A parameter that does not parse is the client's fault. *)
Lemma refused resp (s : Srv) : rs_code resp = 400 → answered (reply resp s).
Proof. intros Hc. unfold reply. cbn [answered]. rewrite Hc. code_ok. Qed.
Lemma parse_bounds_code r after before :
  match parse_bounds ParseRFC3339 ParseRFC3339Nano r after before with
  | inl resp => rs_code resp = 400
  | inr _ => True
  end.
Proof. unfold parse_bounds. repeat case_match; by simplify_eq/=. Qed.
Lemma optional_duration_code raw field message :
  match optional_duration ParseDuration raw field message with
  | inl resp => rs_code resp = 400
  | inr _ => True
  end.
Proof. unfold optional_duration. repeat case_match; by simplify_eq/=. Qed.

Lemma execute_answers fuel env w runID requestID id (s : Srv) : serviceable fuel env s →
  GetWorkflow id (srv_store s) = Ok w → answered (execute registry env w runID requestID s).
Proof.
  intros Hs Hw. destruct (sv_valid _ _ _ Hs id w Hw) as [HID Hwf]. unfold execute.
  destruct (sv_runs _ _ _ Hs id w runID requestID Hw) as [[[[run err] store] m] Hrun].
  rewrite Hrun. cbn [mbind option_bind].
  assert (∀ run (s : MemoryStore), (SaveRun run s).1 = Ok tt) as Hsaves by done.
  apply (runWithID_no_error _ _ _ _ _ _ _ _ _ _ _ Hsaves HID Hwf) in Hrun as ->. answers.
Qed.
Lemma enqueue_run_answers env req runID requestID q (s : Srv) :
  answered (enqueue_run env req runID requestID q s).
Proof.
  unfold enqueue_run. set (job := run_job _ _ _ _). cbv zeta.
  assert ((EnqueueRunJob (ae_queue_clk env 0%nat) job q).1 = Ok tt) as He.
  { simpl. unfold MemQ.EnqueueRunJob. by destruct (q_jobs q !! _). }
  destruct (EnqueueRunJob _ job q) as [? q']. simpl in He. rewrite He. answers.
Qed.
Lemma handleRuns_answers fuel env r (s : Srv) : serviceable fuel env s →
  answered (handleRuns registry decode ParseRFC3339 ParseRFC3339Nano env r s).
Proof.
  intros Hs. unfold handleRuns. answer_step; [|answer_step; [|by answers]].
  - unfold handleRuns_get. cbv zeta.
    pose proof (parse_bounds_code r "startedAfter" "startedBefore") as Hcode.
    destruct (parse_bounds _ _ _ _ _) as [resp|[[t t0] swapped]]; [by apply refused|].
    answer_step; [by answers|]. answer_step; [by answers|].
    pose proof (parseLimitOffset_range r) as [Hl Ho].
    destruct (parseLimitOffset r) as [limit offset]. simpl in Hl, Ho. simpl.
    destruct (sorted_page (ae_ord env 0%nat)
      (λ x, Memory.run_matches (rq_query r "workflowId")
         (if bool_decide (TrimSpace (rq_query r "status") ≠ "")
          then ToUpper (TrimSpace (rq_query r "status")) else "")
         (TrimSpace (rq_query r "requestId")) t t0 x = true)
      (Memory.run_less (EqualFold (rq_query r "order") "desc")) (runs (srv_store s)) limit offset)
      as [l Hpage]; [apply (sv_store _ _ _ Hs)|by left|].
    unfold Memory.ListRunsFiltered, Memory.matching_runs. cbv zeta. rewrite Hpage. simpl. answers.
  - unfold handleRuns_post. cbv zeta.
    destruct (de_run decode (rq_body r)) as [req|]; [|by answers]. answer_step; [by answers|].
    destruct (GetWorkflow (rr_WorkflowID req) (srv_store s)) as [w|] eqn:Hw; [|by answers].
    repeat (answer_step || (eapply execute_answers; eassumption) || apply enqueue_run_answers
      || unfold with_queue).
Qed.
Lemma handleRunByID_answers fuel env r (s : Srv) : serviceable fuel env s →
  answered (handleRunByID fuel env r s).
Proof.
  intros Hs. unfold handleRunByID. cbv zeta. answer_step; [by answers|]. answer_step; [by answers|].
  answer_step; [|by answers]. unfold with_queue.
  destruct (srv_queue s) as [q|] eqn:Hq; [|by answers].
  destruct (sv_queue _ _ _ Hs q Hq) as ([Hfit _] & Hkey & Hfuel). unfold fits in Hfit.
  set (runID := TrimPrefix _ _).
  pose proof (jobs_of_run_size runID q) as Hsz.
  rewrite (list_run_jobs_all runID q fuel (ae_ord env) [] 0) by (done || unfold zlen, int64_max in *; lia).
  cbn [mbind option_bind]. answers.
Qed.

Lemma list_jobs_answers env r status workflowID requestID q (s : Srv) : queue_fits q →
  answered (list_jobs ParseRFC3339 ParseRFC3339Nano env r status workflowID requestID q s).
Proof.
  intros Hq. unfold list_jobs.
  pose proof (parse_bounds_code r "updatedAfter" "updatedBefore") as Hcode.
  destruct (parse_bounds _ _ _ _ _) as [resp|[[t t0] swapped]]; [by apply refused|].
  answer_step; [by answers|]. pose proof (parseLimitOffset_range r) as [Hl _].
  destruct (parseLimitOffset r) as [limit offset]. simpl in Hl.
  destruct (ListRunJobsFiltered_some (ae_ord env 0%nat) status workflowID requestID t t0 limit offset q
    Hq (or_introl Hl)) as [l ->]. cbn [mbind option_bind]. simpl. answers.
Qed.
Lemma with_queue_answers (s : Srv) k : (∀ q, srv_queue s = Some q → answered (k q)) →
  answered (with_queue s k).
Proof. intros Hk. unfold with_queue. destruct (srv_queue s); [by apply Hk|]. answers. Qed.

Lemma handleJobStats_answers env r (s : Srv) : answered (handleJobStats env r s).
Proof. apply with_queue_answers. intros q _. simpl. answers. Qed.
Lemma handleJobs_answers fuel env r (s : Srv) : serviceable fuel env s →
  answered (handleJobs ParseRFC3339 ParseRFC3339Nano env r s).
Proof.
  intros Hs. apply with_queue_answers. intros q Hq. cbv zeta. answer_step; [by answers|].
  answer_step; [by answers|]. apply list_jobs_answers. by apply (sv_queue _ _ _ Hs).
Qed.
Lemma handleDeadLetterJobs_answers fuel env r (s : Srv) : serviceable fuel env s →
  answered (handleDeadLetterJobs ParseRFC3339 ParseRFC3339Nano env r s).
Proof.
  intros Hs. apply with_queue_answers. intros q Hq. answer_step; [by answers|].
  apply list_jobs_answers. by apply (sv_queue _ _ _ Hs).
Qed.
Lemma handleJobHistoryByID_answers fuel env r (s : Srv) : serviceable fuel env s →
  answered (handleJobHistoryByID ParseRFC3339 ParseRFC3339Nano env r s).
Proof.
  intros Hs. apply with_queue_answers. intros q Hq. cbv zeta.
  do 3 (answer_step; [by answers|]).
  pose proof (parse_bounds_code r "createdAfter" "createdBefore") as Hcode.
  destruct (parse_bounds _ _ _ _ _) as [resp|[[t t0] swapped]]; [by apply refused|].
  answer_step; [by answers|]. pose proof (parseLimitOffset_range r) as [Hl _].
  destruct (parseLimitOffset r) as [limit offset]. simpl in Hl. simpl.
  set (id := TrimSpace (TrimPrefix _ _)).
  unfold MemQ.ListRunJobTransitionsFiltered. cbv zeta. set (l := filter _ (MemQ.history id q)).
  assert (fits (zlen l)) as Hfit.
  { destruct (sv_queue _ _ _ Hs q Hq) as ([_ Hh] & _). unfold fits in *.
    assert (zlen (MemQ.history id q) + 1000 ≤ int64_max) as Hh'.
    { unfold MemQ.history. destruct (q_transitions q !! id) as [h|] eqn:Hid; [exact (Hh _ _ Hid)|].
      simpl. unfold zlen, int64_max. simpl. lia. }
    pose proof (length_filter (λ i, MemQ.transition_matches
      (ToUpper (TrimSpace (rq_query r "toStatus"))) (TrimSpace (rq_query r "actor")) t t0 i = true)
      (MemQ.history id q)) as Hlen. unfold zlen in *. fold l in Hlen. lia. }
  unfold fits in Hfit.
  destruct (page_some limit offset l) as [l' ->]; [unfold int64_max; lia|left; lia|done|].
  simpl. answers.
Qed.
Lemma handleJobRequeueByID_answers env r (s : Srv) :
  answered (handleJobRequeueByID decode ParseDuration env r s).
Proof.
  apply with_queue_answers. intros q _. cbv zeta. do 2 (answer_step; [by answers|]).
  destruct (de_requeue decode (rq_body r)) as [req|]; [|by answers].
  pose proof (optional_duration_code (rqr_AvailableAfter req) "availableAfter"
    "invalid availableAfter duration") as Hcode.
  destruct (optional_duration _ _ _ _) as [resp|d]; [by apply refused|].
  destruct (GetRunJob _ q) as [job|] eqn:Hj; [|by answers].
  destruct (requeueable job) eqn:Hr; cbn [negb]; [|by answers].
  destruct (RequeueRunJob_requeueable (ae_queue_clk env 0%nat) _ d (TrimSpace (rqr_ReplayedBy req))
    (TrimSpace (rqr_ReplayReason req)) q job Hj Hr) as (job' & q' & -> & ->). answers.
Qed.
Lemma handleJobByID_answers env r (s : Srv) : answered (handleJobByID decode ParseDuration env r s).
Proof.
  apply with_queue_answers. intros q _. answer_step; [apply handleJobRequeueByID_answers|].
  cbv zeta. answers.
Qed.
Lemma bulk_response_answers b (s : Srv) : answered (reply (bulk_response b) s).
Proof. unfold reply, bulk_response. code_ok. Qed.
Lemma bulk_ids_some env ids status workflowID requestID limit q : queue_fits q → limit ≤ int64_max →
  ∃ l, bulk_ids env ids status workflowID requestID limit q = Some (Ok l).
Proof.
  intros Hq Hl. unfold bulk_ids. destruct (negb _); [eauto|].
  edestruct (ListRunJobsFiltered_some (ae_ord env 0%nat) status workflowID requestID time_zero time_zero
    (if limit <=? 0 then 100 else limit) 0 q Hq) as [l ->]; [|eauto].
  right. split; [|done]. destruct (Z.leb_spec limit 0); [unfold int64_max; lia|done].
Qed.
Lemma handleJobsBulkCancel_answers fuel env r (s : Srv) : decoded_ints → serviceable fuel env s →
  answered (handleJobsBulkCancel decode env r s).
Proof.
  intros Hints Hs. apply with_queue_answers. intros q Hq. answer_step; [by answers|].
  destruct (de_bulkCancel decode (rq_body r)) as [req|] eqn:Hreq; [|by answers].
  answer_step; [by answers|]. cbv zeta.
  destruct (bulk_ids_some env (bcr_JobIDs req)
    (if bool_decide (TrimSpace (bcr_Status req) = "") then RunJobStatusQueued
     else TrimSpace (bcr_Status req)) (TrimSpace (bcr_WorkflowID req)) (TrimSpace (bcr_RequestID req))
    (bcr_Limit req) q) as [l ->];
    [by apply (sv_queue _ _ _ Hs)|by eapply di_cancel|].
  cbn [mbind option_bind]. destruct (bulk_loop _ _ _ _ _). apply bulk_response_answers.
Qed.
Lemma handleJobsBulkRequeue_answers fuel env r (s : Srv) : decoded_ints → serviceable fuel env s →
  answered (handleJobsBulkRequeue decode ParseDuration env r s).
Proof.
  intros Hints Hs. apply with_queue_answers. intros q Hq. answer_step; [by answers|].
  destruct (de_bulkRequeue decode (rq_body r)) as [req|] eqn:Hreq; [|by answers].
  answer_step; [by answers|].
  pose proof (optional_duration_code (brr_AvailableAfter req) "availableAfter"
    "invalid availableAfter duration") as Hcode.
  destruct (optional_duration _ _ _ _) as [resp|d]; [by apply refused|]. cbv zeta.
  answer_step; [by answers|].
  destruct (bulk_ids_some env (brr_JobIDs req)
    (if bool_decide (TrimSpace (brr_Status req) = "") then RunJobStatusDead
     else TrimSpace (brr_Status req)) "" "" (brr_Limit req) q) as [l ->];
    [by apply (sv_queue _ _ _ Hs)|by eapply di_requeue|].
  cbn [mbind option_bind]. destruct (bulk_loop _ _ _ _ _). apply bulk_response_answers.
Qed.
Lemma handleJobsPurge_answers env r (s : Srv) : answered (handleJobsPurge decode ParseDuration env r s).
Proof.
  apply with_queue_answers. intros q Hq. answer_step; [by answers|].
  destruct (de_purge decode (rq_body r)) as [req|] eqn:Hreq; [|by answers]. cbv zeta.
  answer_step; [by answers|].
  pose proof (optional_duration_code (pr_OlderThan req) "olderThan" "invalid olderThan duration") as Hcode.
  destruct (optional_duration _ _ _ _) as [resp|d]; [by apply refused|].
  answer_step.
  - simpl. answers.
  - simpl. unfold reply. code_ok.
Qed.

Lemma handleSchedules_answers fuel env r (s : Srv) : serviceable fuel env s →
  answered (handleSchedules decode ParseDuration MarshalIndent env r s).
Proof.
  intros Hs. unfold handleSchedules, with_scheduler.
  destruct (srv_scheduler s) as [svc|] eqn:Hsvc; [|by answers].
  answer_step; [|answer_step; [by answers|]].
  - cbv zeta. answer_step; [|by answers].
    set (items := sort_slice _ _). assert (fits (zlen items)) as Hfit.
    { apply (sv_schedules _ _ _ Hs) in Hsvc. unfold items, List, zlen, iter_values.
      by rewrite sort_slice_perm, length_fmap, iter_perm, length_map_to_list. }
    pose proof (parseLimitOffset_range r) as [Hl Ho].
    destruct (parseLimitOffset r) as [limit offset]. simpl in Hl, Ho. unfold fits in Hfit.
    pose proof (zlen_nonneg items) as Hn.
    destruct (last_some (if zlen items <? offset then zlen items else offset) limit items) as [l Hpage].
    { destruct (Z.ltb_spec (zlen items) offset); lia. }
    { lia. }
    { destruct (Z.ltb_spec (zlen items) offset); lia. }
    simpl in Hpage. rewrite Hpage. cbn [mbind option_bind]. answers.
  - destruct (de_schedule decode (rq_body r)) as [req|]; [|by answers]. cbv zeta.
    answer_step; [|by answers]. answers.
Qed.
Lemma handleScheduleByWorkflowID_answers env r (s : Srv) :
  answered (handleScheduleByWorkflowID MarshalIndent env r s).
Proof. unfold handleScheduleByWorkflowID, with_scheduler. answers. Qed.
Lemma pause_or_resume_answers prefix status op env r (s : Srv) :
  answered (pause_or_resume prefix status op env r s).
Proof. unfold pause_or_resume, with_scheduler. answers. Qed.

Lemma routes_answer fuel env r s : decoded_ints → serviceable fuel env s →
  Forall (λ rt, answered (rt_handler rt fuel env r s)) all_routes.
Proof.
  intros Hints Hs. repeat apply Forall_cons_2; try apply Forall_nil_2; cbn [rt_handler].
  - apply handleHealth_answers.
  - apply handleReady_answers.
  - by eapply handleMetrics_answers.
  - by eapply handleWorkflows_answers.
  - apply handleWorkflowByID_answers.
  - by eapply handleRuns_answers.
  - by apply handleRunByID_answers.
  - by eapply handleJobs_answers.
  - apply handleJobStats_answers.
  - by eapply handleJobHistoryByID_answers.
  - apply handleJobByID_answers.
  - by eapply handleDeadLetterJobs_answers.
  - apply handleJobsPurge_answers.
  - by eapply handleJobsBulkCancel_answers.
  - by eapply handleJobsBulkRequeue_answers.
  - apply handleJobRequeueByID_answers.
  - by eapply handleSchedules_answers.
  - apply handleScheduleByWorkflowID_answers.
  - apply pause_or_resume_answers.
  - apply pause_or_resume_answers.
Qed.

Lemma serve_answers fuel env rt r s :
  rt ∈ all_routes → decoded_ints → serviceable fuel env s → answered (serve rt fuel env r s).
Proof.
  intros Hin Hints Hs. unfold serve, withMiddleware. answer_step; [by answers|].
  pose proof (routes_answer fuel env r s Hints Hs) as Hall. rewrite Forall_forall in Hall.
  specialize (Hall rt Hin). destruct (rt_handler rt fuel env r s) as [[resp s']|]; [exact Hall|done].
Qed.
(** The answer of a handler, encoded while the runs [live] are being executed. *)
Definition respond {S} (live : gset string) (a : option (response * S)) : option (response * S) :=
  '(resp, s) ← a; resp ← writeJSON live resp; Some (resp, s).
Lemma respond_spec {S} live (a : option (response * S)) :
  respond live a = a ∨
  ∃ resp s run, a = Some (resp, s) ∧ run ∈ shown_runs (rs_body resp) ∧ run_ID run ∈ live.
Proof.
  destruct a as [[resp s]|]; [|by left]. unfold respond, writeJSON. simpl.
  case_bool_decide as Hl; [right|by left]. apply Exists_exists in Hl as (run & Hr & Hin). eauto 10.
Qed.
(** C15. Every request is answered.  Over the memory store and queue, whatever the method, the
    path, the parameters, the headers and the body of a request - any limit and offset, any
    time stamp, any JSON - the server redirects it to the clean form of its path or answers
    it: no handler panics, loops over pages for ever or fails with 500 or 503, the status is one
    of 200, 201, 202, 400, 401, 404, 405, 409 and 501.  The one thing that can keep the answer
    from the client, and end the process, is that it shows a run under the ID of one that is
    still in flight, whose results are being written while they are encoded.  (The stored
    workflows being valid, which the server ensures, and their runs ending; the collections
    leaving room for a page of 1000 within 64 bits.) *)
Theorem every_request_answered live fuel env r s :
  decoded_ints → serviceable fuel env s →
  let handled := ServeHTTP registry decode ParseDuration ParseRFC3339 ParseRFC3339Nano MarshalIndent
    fuel env r s in
  let answer := respond live handled in
  (∃ path, answer = Some (mkResponse 301 (PText path), s)) ∨ answered answer ∨
  (answered handled ∧
   ∃ resp s' run, handled = Some (resp, s') ∧ run ∈ shown_runs (rs_body resp) ∧ run_ID run ∈ live).
Proof.
  intros Hints Hs handled answer.
  assert (Hh : (∃ path, handled = Some (mkResponse 301 (PText path), s)) ∨ answered handled).
  { unfold handled, ServeHTTP.
    destruct (findHandler _ _ _ _) as [path| |rt] eqn:Hf; [left; by eexists|right; by answers|right].
    apply serve_answers; [|done..]. apply findHandler_Found in Hf.
    pose proof (pick_spec rt_pattern all_routes (rq_path r)) as Hp. rewrite Hf in Hp. apply Hp. }
  unfold answer. clearbody handled. destruct Hh as [[path ->]|Hh]; [by left; exists path|].
  destruct (respond_spec live handled) as [->|Hlive]; auto.
Qed.
(** A client that looks at a run in flight. *)
Theorem live_run_ends_process live fuel env (r : request) (s : Srv) run :
  rq_method r = "GET" → rq_path r = "/runs/" +:+ run_ID run → run_ID run ≠ "" →
  GetRun (run_ID run) (srv_store s) = Ok run → run_ID run ∈ live →
  respond live (handleRunByID fuel env r s) = None.
Proof.
  intros Hm Hp Hne Hg Hl. unfold handleRunByID, is_method. rewrite Hm, Hp, TrimPrefix_app, Hg.
  rewrite (bool_decide_false (run_ID run = "")) by done. simpl.
  unfold writeJSON. simpl. rewrite bool_decide_true; [done|]. by constructor.
Qed.
End total.

#[local] Existing Instance Sample.quote_id.
(** A listing from an offset at the end of the 64 bits. *)
Module TotalSample.
Definition workflow : Workflow := mkWorkflow "w" "" "" "" 1 false false 0
  [Sample.node "a" "print" [] "" (<["message" := "hello"]> ∅)].
Definition env : api_env :=
  mkApiEnv (λ k, unix_epoch + Z.of_nat k) (λ k n, unix_epoch + 1000 * Z.of_nat k + Z.of_nat n)
    Sample.ords (RunSample.env [EvResult "a" Sample.trace]) no_faults.
Definition server : ApiSample.Srv :=
  NewServer unix_epoch "read:r, write:w" (SaveWorkflow workflow NewMemoryStore).2
    (Some QueueSample.queue2) None None.
Definition far : request := mkRequest "GET" "/jobs"
  (λ k, if bool_decide (k = "limit") then "1000" else
        if bool_decide (k = "offset") then "9223372036854775807" else "")
  (λ h, if bool_decide (h = "Authorization") then "Bearer r" else "") "".
Lemma server_parts : srv_store server = (SaveWorkflow workflow NewMemoryStore).2 ∧
  srv_queue server = Some QueueSample.queue2 ∧ srv_scheduler server = None ∧
  srv_metrics server = Some NewCollector.
Proof. unfold server, NewServer. by destruct (parseAuthConfig _). Qed.
Lemma stored id w : GetWorkflow id (srv_store server) = Ok w → w = workflow.
Proof.
  destruct server_parts as (-> & _).
  change (Memory.GetWorkflow id (Memory.SaveWorkflow workflow NewMemoryStore).2 = Ok w → w = workflow).
  rewrite Memory_GetWorkflow_SaveWorkflow. case_decide; [by intros [= <-]|]. discriminate.
Qed.
Lemma sample_runs id w runID requestID : GetWorkflow id (srv_store server) = Ok w →
  is_Some (RunWithID Sample.registry (ae_run env) w runID requestID (Some (srv_store server))
    (srv_metrics server)).
Proof.
  intros ->%stored. unfold RunWithID, runWithID.
  destruct (ValidateWorkflow _ _) as [[[]|]|] eqn:Hv; [|vm_compute in Hv; discriminate Hv..].
  destruct (main_loop _ _ _ _ _ _ _ _) as [st|] eqn:Hm; [|vm_compute in Hm; discriminate Hm].
  cbn [mbind option_bind]. unfold finish. cbv zeta.
  change (wf_CompensateOnFailure workflow) with false. rewrite andb_false_r.
  destruct (bool_decide _); cbn [mbind option_bind]; destruct (save_run _ _) as [[|] ?]; eauto.
Qed.
Lemma serves : serviceable Sample.registry 1 env server.
Proof.
  destruct server_parts as (Est & Eq & Esc & Em). split.
  - rewrite Est. split; vm_compute; discriminate.
  - intros id w ->%stored. apply (ValidateWorkflow_ok canonical_order). vm_compute. reflexivity.
  - rewrite Eq. intros q Hq. apply (inj Some) in Hq as <-. split; [split|split].
    + vm_compute. discriminate.
    + apply (bool_decide_unpack _). vm_compute. exact I.
    + apply (qi_keyed _ (queue_inv_ops _ _ QueueSample.all_ops_ok queue_inv_new)).
    + vm_compute. reflexivity.
  - rewrite Esc. discriminate.
  - rewrite Em. intros m [= <-]. constructor.
  - apply sample_runs.
Qed.
Lemma sample_ints : decoded_ints ApiSample.decode.
Proof.
  split; intros body req; simpl; [discriminate|]. case_bool_decide; [|discriminate].
  intros [= <-]. vm_compute. discriminate.
Qed.
End TotalSample.
Lemma every_request_answered_witness :
  let handled := ServeHTTP Sample.registry ApiSample.decode ApiSample.no_duration ApiSample.no_time
    ApiSample.no_time SchedSample.marshal 1 TotalSample.env TotalSample.far TotalSample.server in
  let answer := respond {["run-in-flight"]} handled in
  (∃ path, answer = Some (mkResponse 301 (PText path), TotalSample.server)) ∨ answered answer ∨
  (answered handled ∧ ∃ resp s' run, handled = Some (resp, s') ∧ run ∈ shown_runs (rs_body resp) ∧
     run_ID run ∈ ({["run-in-flight"]} : gset string)).
Proof.
  apply (every_request_answered Sample.registry ApiSample.decode ApiSample.no_duration
    ApiSample.no_time ApiSample.no_time SchedSample.marshal).
  - exact TotalSample.sample_ints.
  - exact TotalSample.serves.
Defined.
(** [r1] is being executed: its run is saved as RUNNING. *)
Lemma live_run_ends_process_witness :
  let running := Run_zero <| run_ID := "r1" |> <| run_Status := RunStatusRunning |> in
  let s := TotalSample.server <| srv_store := (SaveRun running NewMemoryStore).2 |> in
  respond {["r1"]} (handleRunByID 1 TotalSample.env
    (mkRequest "GET" "/runs/r1" (λ _, "") (λ _, "") "") s) = None.
Proof.
  intros running s. apply (live_run_ends_process {["r1"]} 1 TotalSample.env _ s running).
  - reflexivity.
  - reflexivity.
  - discriminate.
  - vm_compute. reflexivity.
  - apply (bool_decide_unpack _). vm_compute. exact I.
Defined.
