(* ===== verification/Serve.v ===== *)
(** * internal/api/server.go: the life of a server

    [Server.Start] beside its handlers: the listener, the end of the server, and the
    goroutine that purges the queue while it runs; and [listAllRunJobsPaged], which reads
    every page of a listing and which nothing calls. *)

From S2P Require Import Prelude GoLib GoText Domain Interfaces Scheduler Queue QueueProps Ticker.
From S2P Require Import Api ApiProps.
Local Open Scope Z_scope.

(** ** Start *)

(** How the [select] of [Start] ends: by the context, or by what [ListenAndServe] returned;
    [None] is http.ErrServerClosed. *)
Inductive server_end := ContextDone | ListenerEnded (err : option string).
Definition starts_retention {S Q E} (s : Server S Q E) : bool :=
  match srv_queue s with Some _ => 0 <? srv_queueRetentionInterval s | None => false end.
(** The error that [Start] returns; [errCh] is closed without a value after
    ErrServerClosed. *)
Definition Start (stop : server_end) : result unit :=
  match stop with
  | ContextDone => Ok tt
  | ListenerEnded None => Ok tt
  | ListenerEnded (Some err) => Err err
  end.

(** ** Retention *)

(** The ticks of [runQueueRetentionLoop]: when it is called at [t0], the [k]-th purge goes
    as the [k]-th of [envs] says. *)
Definition retention_calls {S Q E} (s : Server S Q E) (t0 : time) (done : option time)
    (rounds : list round) : list call * bool :=
  tick_loop t0 (srv_queueRetentionInterval s) done rounds t0 t0.
Definition runQueueRetentionLoop {S Q E} `{!RunQueue Q} `{!RunQueueListing Q} (envs : list api_env)
    (s : Server S Q E) : Server S Q E := foldl (λ s env, retention_tick env s) s envs.

(** ** Reading every page *)

Section paged.
(** The [k]-th call of [queue.ListRunJobs]. *)
Context (ListRunJobs : nat → string → Z → Z → option (result (list RunQueueJob))).

Fixpoint paged_from (fuel k : nat) (status : string) (pageSize offset : Z) (all : list RunQueueJob) :
    option (result (list RunQueueJob)) :=
  match fuel with
  | O => None
  | S fuel =>
      page ← ListRunJobs k status pageSize offset;
      match page with
      | Err err => Some (Err err)
      | Ok items =>
          if Nat.eqb (length items) 0 then Some (Ok all) else
          let all := all ++ items in
          if zlen items <? pageSize then Some (Ok all)
          else paged_from fuel (S k) status pageSize (wrap64 (offset + zlen items)) all
      end
  end.
Definition listAllRunJobsPaged (fuel : nat) (status : string) (pageSize : Z) :
    option (result (list RunQueueJob)) :=
  paged_from fuel 0 status (if pageSize <=? 0 then 500 else pageSize) 0 [].
End paged.

(** Pages of [n] of a list [l] that stays as it is, all of them together. *)
Lemma paged_from_all (ListRunJobs : nat → string → Z → Z → option (result (list RunQueueJob)))
    status n l fuel k offset all :
  0 < n → zlen l + n ≤ int64_max →
  (∀ k offset, 0 ≤ offset ≤ zlen l → ListRunJobs k status n offset =
     Some (Ok (take (Z.to_nat n) (drop (Z.to_nat offset) l)))) →
  0 ≤ offset ≤ zlen l → zlen l - offset < n * Z.of_nat fuel →
  paged_from ListRunJobs fuel k status n offset all = Some (Ok (all ++ drop (Z.to_nat offset) l)).
Proof.
  intros Hn Hmax Hpage. revert k offset all.
  induction fuel as [|fuel IH]; intros k offset all Ho Hf; [lia|]. cbn [paged_from].
  rewrite Hpage by done. simpl. set (rest := drop (Z.to_nat offset) l).
  assert (zlen rest = zlen l - offset) as Hrest.
  { unfold rest, zlen in *. rewrite length_drop. lia. }
  destruct (decide (zlen rest < n)) as [Hshort|Hlong].
  - rewrite (take_ge rest (Z.to_nat n)) by (unfold zlen in *; lia).
    destruct rest as [|job rest'] eqn:Er; [by rewrite app_nil_r|].
    simpl. by rewrite (proj2 (Z.ltb_lt _ _) Hshort).
  - assert (zlen (take (Z.to_nat n) rest) = n) as Htake.
    { unfold zlen in *. rewrite length_take. lia. }
    assert (length (take (Z.to_nat n) rest) ≠ 0%nat) as Hne by (unfold zlen in Htake; lia).
    rewrite (proj2 (Nat.eqb_neq _ _) Hne), Htake, Z.ltb_irrefl.
    rewrite wrap64_id by (unfold int64_min, int64_max in *; lia).
    rewrite IH by lia. do 2 f_equal. rewrite <-app_assoc. f_equal.
    transitivity (take (Z.to_nat n) rest ++ drop (Z.to_nat n) rest); [|apply take_drop]. f_equal.
    unfold rest. rewrite drop_drop. f_equal. lia.
Qed.
(** The jobs of a status, by creation time and ID. *)
Definition jobs_with_status (status : string) (q : MemoryRunQueue) : list RunQueueJob :=
  sort_slice MemQ.job_less
    (filter (λ job, status = "" ∨ job_Status job = status) (map_to_list (q_jobs q)).*2).
Lemma jobs_with_status_size status q : zlen (jobs_with_status status q) ≤ Z.of_nat (size (q_jobs q)).
Proof.
  unfold jobs_with_status. rewrite sort_slice_perm. unfold zlen.
  pose proof (length_filter (λ job, status = "" ∨ job_Status job = status) (map_to_list (q_jobs q)).*2) as Hf.
  rewrite length_fmap, length_map_to_list in Hf. lia.
Qed.
(** All pages are all jobs: on a queue that does not change meanwhile, whatever order its
    map is read in each time, the loop ends and gives every job of the status once. *)
Theorem listAllRunJobsPaged_all (ords : nat → iter_order) fuel status pageSize q :
  jobs_keyed q → let n := if pageSize <=? 0 then 500 else pageSize in
  Z.of_nat (size (q_jobs q)) + n ≤ int64_max → Z.of_nat (size (q_jobs q)) < n * Z.of_nat fuel →
  listAllRunJobsPaged (λ k st l o, MemQ.ListRunJobs (ords k) st l o q) fuel status pageSize =
    Some (Ok (jobs_with_status status q)).
Proof.
  intros Hkey n Hmax Hfuel. pose proof (jobs_with_status_size status q) as Hsz.
  assert (0 < n) by (unfold n; destruct (Z.leb_spec pageSize 0); lia).
  unfold listAllRunJobsPaged. fold n.
  rewrite (paged_from_all _ status n (jobs_with_status status q)); try done; try lia.
  - intros k offset Ho. unfold MemQ.ListRunJobs. cbv zeta.
    rewrite (sorted_jobs_unique _
      (filter (λ job, status = "" ∨ job_Status job = status) (map_to_list (q_jobs q)).*2) q Hkey).
    + fold (jobs_with_status status q). by rewrite page_window by lia.
    + unfold iter_values. by rewrite iter_perm.
    + unfold iter_values. intros job. rewrite iter_perm. intros [_ Hj]%list_elem_of_filter.
      apply list_elem_of_fmap in Hj as ([id j] & -> & Hj%elem_of_map_to_list). by exists id.
  - unfold zlen. lia.
Qed.
Lemma listAllRunJobsPaged_all_witness :
  listAllRunJobsPaged (λ k st l o, MemQ.ListRunJobs canonical_order st l o QueueSample.queue) 3 "" 1 =
    Some (Ok (jobs_with_status "" QueueSample.queue)) ∧
  job_ID <$> jobs_with_status "" QueueSample.queue = ["j1"; "j2"].
Proof.
  split; [|vm_compute; reflexivity].
  apply (listAllRunJobsPaged_all (λ _, canonical_order) 3 "" 1 QueueSample.queue).
  - apply (queue_inv_ops _ _ QueueSample.ops_ok queue_inv_new).
  - vm_compute. discriminate.
  - vm_compute. reflexivity.
Defined.

(** ** What retention leaves alone

    With a status, however long the server runs, no job of another status is purged. *)
Section retention.
Context {St E : Type}.
Abbreviation Srv := (Server St MemoryRunQueue E).

Lemma retention_tick_spares env (s : Srv) q id job :
  srv_queue s = Some q → q_jobs q !! id = Some job →
  srv_queueRetentionStatus s ≠ "" → job_Status job ≠ srv_queueRetentionStatus s →
  ∃ q', srv_queue (retention_tick env s) = Some q' ∧ q_jobs q' !! id = Some job ∧
    srv_queueRetentionStatus (retention_tick env s) = srv_queueRetentionStatus s.
Proof.
  intros Hq Hj Hne Hs. unfold retention_tick. rewrite Hq. destruct (0 <? _); [|by eauto].
  eexists. split; [done|]. split; [by apply purge_spares|done].
Qed.
Theorem retention_spares envs (s : Srv) q id job :
  srv_queue s = Some q → q_jobs q !! id = Some job →
  srv_queueRetentionStatus s ≠ "" → job_Status job ≠ srv_queueRetentionStatus s →
  ∃ q', srv_queue (runQueueRetentionLoop envs s) = Some q' ∧ q_jobs q' !! id = Some job.
Proof.
  unfold runQueueRetentionLoop. revert s q. induction envs as [|env envs IH]; intros s q Hq Hj Hne Hs;
    simpl; [by eauto|].
  destruct (retention_tick_spares env s q id job Hq Hj Hne Hs) as (q' & Hq' & Hj' & Hst).
  apply (IH _ q'); [done|done|by rewrite Hst|by rewrite Hst].
Qed.
End retention.
Lemma retention_spares_witness :
  let s := SetQueueRetention " SUCCEEDED " 0 60 0 (ApiSample.server QueueSample.queue2) in
  ∃ q', srv_queue (runQueueRetentionLoop [ApiSample.env; ApiSample.env] s) = Some q' ∧
    q_jobs q' !! "j2" = Some (QueueSample.get "j2" QueueSample.queue2).
Proof.
  intros s. apply (retention_spares [ApiSample.env; ApiSample.env] s QueueSample.queue2 "j2"
    (QueueSample.get "j2" QueueSample.queue2)).
  - reflexivity.
  - vm_compute. reflexivity.
  - vm_compute. discriminate.
  - vm_compute. discriminate.
Defined.
