(* ===== verification/EndToEnd.v ===== *)
(** * An asynchronous run from the queue to the client

    The server, the worker and the executor meet in a store and a queue: a job the server
    has queued is leased and run by a worker, and the client asks the server for what became
    of it.  The components are those of the other files, over any store and any queue that
    keep the promises of [Interfaces]. *)

From S2P Require Import Prelude GoLib GoText Domain Graph Actions Interfaces Queue QueueProps.
From S2P Require Import ExecutorProps Telemetry Store Run RunProps Worker Scheduler SchedulerProps.
From S2P Require Import ApiText Api ApiProps ApiJobs.
Local Open Scope Z_scope.

(** A job of a keyed request, as the server queues it. *)
Record keyed_job (job : RunQueueJob) : Prop := {
  kj_workflow : job_WorkflowID job ≠ "";
  kj_key : job_RequestID job ≠ "";
  kj_run : job_RunID job = deterministicRunID (job_WorkflowID job) (job_RequestID job);
  kj_id : job_ID job = "job-" +:+ job_RunID job;
}.
(** In the memory queue that is what they stay. *)
Lemma keyed_jobs ops id job : Forall op_api ops →
  q_jobs (apply_ops ops NewMemoryRunQueue) !! id = Some job →
  job_WorkflowID job ≠ "" → job_RequestID job ≠ "" → keyed_job job.
Proof.
  intros Hops Hj Hw Hk. destruct (api_queue_ops ops Hops) as [Hi Hq].
  destruct (Hq _ _ Hj) as [Hid Hrun]. pose proof (qi_keyed _ Hi _ _ Hj : job_ID job = id) as <-.
  split; auto.
Qed.

(** What the statuses of a run and of its job say of each other. *)
Definition agree (job : RunQueueJob) (run : Run) (job' : RunQueueJob) : Prop :=
  (run_Status run = RunStatusSuccess ∧ job_Status job' = RunJobStatusSucceeded) ∨
  (run_Status run = RunStatusCancelled ∧ job_Status job' = RunJobStatusCancelled) ∨
  (run_Status run = RunStatusFailed ∧
   job_Status job' = if job_Attempts job <? job_MaxAttempts job then RunJobStatusQueued
                     else RunJobStatusDead).
Lemma status_agrees env job run job' :
  status_explained env run → job_Status job' = verdict_status (verdict_of job run None) →
  agree job run job'.
Proof.
  intros Hs Hj. unfold agree, verdict_of in *. destruct Hs as [(Hs & _)|[(Hs & _)|(Hs & _)]]; rewrite Hs in *.
  - left. split; [done|]. rewrite decide_True in Hj by (split; [done|split; done_status]). done.
  - right. right. split; [done|].
    rewrite decide_False in Hj by (intros (_ & [] & _); done).
    rewrite decide_False in Hj by (intros [_ Hc]; revert Hc; done_status).
    destruct (Z.ltb_spec (job_Attempts job) (job_MaxAttempts job));
      [rewrite decide_True in Hj by done|rewrite decide_False in Hj by lia]; done.
  - right. left. split; [done|]. rewrite decide_False in Hj by (intros (_ & _ & []); done).
    by rewrite decide_True in Hj.
Qed.
(** A job that is given up for now. *)
Definition retry_or_dead (job : RunQueueJob) : RunJobStatus :=
  if job_Attempts job <? job_MaxAttempts job then RunJobStatusQueued else RunJobStatusDead.
Lemma verdict_of_error job run e : verdict_status (verdict_of job run (Some e)) = retry_or_dead job.
Proof.
  unfold verdict_of, retry_or_dead. rewrite !(decide_False (P := Some e = None ∧ _)) by (intros []; done).
  destruct (Z.ltb_spec (job_Attempts job) (job_MaxAttempts job));
    [by rewrite decide_True|by rewrite decide_False by lia].
Qed.
Lemma settle_error {Q} `{!RunQueue Q} clk job run e (q : Q) m err q' m' :
  settle clk job run (Some e) q m = Some (err, q', m') → err = Some e.
Proof.
  unfold settle. rewrite (bool_decide_false (Some e = None)) by done. simpl.
  destruct (_ <? _); [|by intros [= <- _ _]]. destruct (retry_backoff _); [|done].
  by intros [= <- _ _].
Qed.
Lemma run_fields `{!Quote} {S} `{!WorkflowStore S} registry env workflow forced requestID
    store metrics run err (store' : option S) metrics' :
  wf_ID workflow ≠ "" → well_formed (wf_Tasks workflow) →
  runWithID registry env workflow forced requestID store metrics =
    Some ((run, err), store', metrics') →
  run_WorkflowID run = wf_ID workflow ∧ run_RequestID run = requestID ∧
  (TrimSpace forced ≠ "" → run_ID run = forced).
Proof.
  intros HID Hwf Hret.
  destruct (runWithID_returned registry env workflow Hwf _ _ _ _ _ _ _ _ HID Hret)
    as (st & r & _ & Hfin & _).
  destruct (finish_spec registry env workflow _ st run Hfin) as (F1 & F2 & F3 & _).
  split; [done|]. split; [done|]. intros Hf. rewrite F1. unfold start_run. simpl.
  by rewrite bool_decide_false.
Qed.
Lemma keyed_run job : keyed_job job → plain (job_RunID job) ∧ job_RunID job ≠ "".
Proof.
  intros [_ _ -> _]. split; [|done]. apply plain_app. split.
  - repeat constructor; vm_compute; discriminate.
  - apply EncodeToString_plain, sha1_bytes.
Qed.

Section seen.
Context `{!Quote} {Q : Type} `{!RunQueue Q} `{!RunQueueLaws Q} `{!RunQueueListing Q}.
Context {St : Type} `{!WorkflowStore St} `{!WorkflowStoreLaws St} `{!WorkflowStoreListing St} {E : Type}.
Context (registry : Registry) (decode : decoders).
Context (ParseRFC3339 ParseRFC3339Nano : string → result time).
Context (ParseDuration : string → result duration).
Abbreviation Srv := (Server St Q E).

(** What the worker leaves behind: the run, if its last save went well; and the job, in the
    status of the run, or of the failed save. *)
Record leaves (env : run_env) (workflow : Workflow) (job : RunQueueJob) (err : option string)
    (q q2 : Q) (store store' : St) (run : Run) (job' : RunQueueJob) : Prop := {
  lv_ID : run_ID run = job_RunID job;
  lv_workflow : run_WorkflowID run = wf_ID workflow;
  lv_request : run_RequestID run = job_RequestID job;
  lv_status : status_explained env run;
  lv_job : GetRunJob (job_ID job) q2 = Ok job';
  lv_saved : ∃ store1 r, SaveRun run store1 = (r, store') ∧
    match r with
    | Ok _ => GetRun (job_RunID job) store' = Ok run ∧ agree job run job' ∧
        (err = None ↔ job_Status job' = RunJobStatusSucceeded)
    | Err e => err = Some e ∧ job_Status job' = retry_or_dead job
    end;
  lv_runs id : id ≠ job_RunID job → GetRun id store' = GetRun id store;
  lv_workflows id : GetWorkflow id store' = GetWorkflow id store;
  lv_jobs id : id ≠ job_ID job → GetRunJob id q2 = GetRunJob id q;
}.
Lemma processOne_leaves svc ord lease_clk fail_clk settle_clk env during q q1 (store : St) m
    job workflow cur err q2 store' m' :
  LeaseNextRunJob ord lease_clk (svc_workerID svc) (svc_leaseDuration svc) q = (Ok job, q1) →
  1 ≤ job_Attempts job → TrimSpace (job_RunID job) ≠ "" →
  GetWorkflow (job_WorkflowID job) store = Ok workflow →
  ValidateWorkflow (re_validate_ord env) workflow = Some (Ok tt) →
  GetRunJob (job_ID job) (during q1) = Ok cur → job_Status cur = RunJobStatusLeased →
  processOne svc ord lease_clk fail_clk settle_clk registry env during q store m =
    Some (err, q2, Some store', m') →
  ∃ run job', leaves env workflow job err (during q1) q2 store store' run job'.
Proof using RunQueueLaws0 WorkflowStoreLaws0.
  intros Hl Ha Hid Hw Hv Hcur Hleased Hp. unfold processOne in Hp. rewrite Hl, Hw in Hp.
  apply ValidateWorkflow_ok in Hv as [HID Hwf].
  destruct (RunWithID _ _ _ _ _ _ _) as [[[[run execErr] s1] m1]|] eqn:Hrun; [|done]. simpl in Hp.
  destruct (settle_effect settle_clk job run execErr (during q1) m1 cur Ha Hcur Hleased)
    as (err' & q3 & m3 & Hset & Herr & (job' & Hj' & Hst) & Hother).
  rewrite Hset in Hp. simpl in Hp. injection Hp as -> -> Hs1 ->.
  destruct (run_fields registry env workflow _ _ _ _ _ _ _ _ HID Hwf Hrun) as (Hwid & Hrid & Hforced).
  specialize (Hforced Hid).
  apply runWithID_last_save in Hrun as [Hexp (first & s' & r & Hs' & Hfirst & Hsave & ->)]; [|done..].
  rewrite Hs' in Hs1. injection Hs1 as ->. destruct (SaveRun first store) as [r1 store1] eqn:H1.
  exists run, job'. split; try done.
  - exists store1, r. split; [done|]. destruct r as [[]|e].
    + split; [|split; [by eapply status_agrees|]].
      { rewrite (GetRun_SaveRun _ _ _ (job_RunID job) Hsave). by rewrite decide_True. }
      rewrite Herr, Hst. destruct (verdict_of job run None); [done|..];
        (split; [done|]); intros Hc; exfalso; revert Hc; simpl; done_status.
    + split; [by eapply settle_error|]. by rewrite Hst, verdict_of_error.
  - intros id Hne. rewrite (GetRun_SaveRun_other _ _ _ _ _ Hsave) by congruence.
    by rewrite (GetRun_SaveRun_other _ _ _ _ _ H1) by congruence.
  - intros id. by rewrite (GetWorkflow_SaveRun _ _ _ _ _ Hsave), (GetWorkflow_SaveRun _ _ _ _ _ H1).
Qed.

(** C11. What the client sees of an asynchronous run.  A worker leases a job of a keyed
    request, its attempts counted, whose workflow is stored and valid, and it stays leased
    until the run ends, as it does.  Afterwards the server, on the same store and queue,
    answers GET /jobs/{id} with the job and, if the last save of the run went well, GET
    /runs/{id} with the run under the ID that POST /runs gave it and every other POST /runs
    with the key with that run, without a change.  Run and job then agree: SUCCESS and
    SUCCEEDED, CANCELLED and CANCELLED, or FAILED and QUEUED again, DEAD_LETTER when no attempts
    are left; and the worker reports an error unless the job succeeded.  If that save
    failed, then whatever became of the run the worker reports the store's error, and the
    job waits again, DEAD_LETTER when no attempts are left.  No other run and no other job is
    touched. *)
Theorem async_run_seen svc ord lease_clk fail_clk settle_clk env during q q1 (store : St) m
    job workflow cur err q2 store' m' :
  LeaseNextRunJob ord lease_clk (svc_workerID svc) (svc_leaseDuration svc) q = (Ok job, q1) →
  keyed_job job → 1 ≤ job_Attempts job →
  GetWorkflow (job_WorkflowID job) store = Ok workflow →
  ValidateWorkflow (re_validate_ord env) workflow = Some (Ok tt) →
  GetRunJob (job_ID job) (during q1) = Ok cur → job_Status cur = RunJobStatusLeased →
  processOne svc ord lease_clk fail_clk settle_clk registry env during q store m =
    Some (err, q2, Some store', m') →
  ∃ run job', run_ID run = job_RunID job ∧ run_WorkflowID run = wf_ID workflow ∧
    run_RequestID run = job_RequestID job ∧ status_explained env run ∧
    (∀ id, id ≠ job_RunID job → GetRun id store' = GetRun id store) ∧
    (∀ id, id ≠ job_ID job → GetRunJob id q2 = GetRunJob id (during q1)) ∧
    (∀ aenv r (s : Srv), srv_queue s = Some q2 →
      rq_method r = "GET" → rq_path r = "/jobs/" +:+ job_ID job →
      handleJobByID decode ParseDuration aenv r s = Some (mkResponse 200 (PJob job'), s)) ∧
    ∃ store1 saved, SaveRun run store1 = (saved, store') ∧
      match saved with
      | Err e => err = Some e ∧ job_Status job' = retry_or_dead job
      | Ok _ =>
          agree job run job' ∧ (err = None ↔ job_Status job' = RunJobStatusSucceeded) ∧
          ∀ aenv r (s : Srv), srv_store s = store' → srv_queue s = Some q2 →
            (rq_method r = "GET" → rq_path r = "/runs/" +:+ job_RunID job →
              ∀ fuel, handleRunByID fuel aenv r s = Some (mkResponse 200 (PRun run), s)) ∧
            (∀ async max, rq_method r = "POST" → idempotency_key r = job_RequestID job →
              de_run decode (rq_body r) = Ok (mkRunRequest (job_WorkflowID job) async max) →
              handleRuns registry decode ParseRFC3339 ParseRFC3339Nano aenv r s =
                Some (mkResponse 200 (PRun run), s))
      end.
Proof using RunQueueLaws0 WorkflowStoreLaws0.
  intros Hl Hkj Ha Hw Hv Hcur Hleased Hp. destruct (keyed_run job Hkj) as [Hplain Hne].
  destruct (processOne_leaves svc ord lease_clk fail_clk settle_clk env during q q1 store m job
    workflow cur err q2 store' m') as (run & job' & [H1 H2 H3 H4 Hjob (store1 & r0 & Hsave & H5) H7 Hws H8]);
    try done; [by rewrite TrimSpace_plain|].
  exists run, job'. split_and!; try done.
  { intros aenv r s Hq Hm Hpath. unfold handleJobByID, with_queue, is_method.
    rewrite Hq, Hm, Hpath, TrimPrefix_app. rewrite (kj_id _ Hkj) in Hjob |- *.
    rewrite TrimSpace_plain by (apply plain_app; split; [repeat constructor; vm_compute; discriminate|done]).
    simpl. rewrite Hjob. done. }
  exists store1, r0. split; [done|]. destruct r0 as [[]|]; [|done]. destruct H5 as (Hrun & H5 & H6).
  split; [done|]. split; [done|]. intros aenv r s Hs Hq. split.
  - intros Hm Hpath fuel. unfold handleRunByID, is_method. rewrite Hm, Hpath, TrimPrefix_app, Hs, Hrun.
    by rewrite (bool_decide_false (job_RunID job = "")) by done.
  - intros async max Hm Hk Hb. unfold handleRuns, handleRuns_post, is_method.
    rewrite Hm, Hb. simpl. rewrite (bool_decide_false (job_WorkflowID job = "")) by apply Hkj.
    rewrite Hs, Hws, Hw, Hk, (bool_decide_true (job_RequestID job ≠ "")) by apply Hkj.
    rewrite <-(kj_run _ Hkj), Hrun. unfold with_queue. rewrite Hq. by destruct async.
Qed.
End seen.

#[local] Existing Instance Sample.quote_id.
(** The run of the key [k1] is posted, leased and executed. *)
Module SeenSample.
Definition posted : ApiSample.Srv :=
  ApiSample.after (handleRuns Sample.registry ApiSample.decode ApiSample.no_time ApiSample.no_time
    ApiSample.env (ApiSample.req "POST" "/runs" "w" "k1" "async") (ApiSample.server NewMemoryRunQueue))
    (ApiSample.server NewMemoryRunQueue).
Definition q : MemoryRunQueue := default NewMemoryRunQueue (srv_queue posted).
Definition svc : Worker.Service := Worker.NewService 0 "w1".
Definition lease : result RunQueueJob * MemoryRunQueue :=
  LeaseNextRunJob canonical_order (λ _, unix_epoch + 5000) (svc_workerID svc) (svc_leaseDuration svc) q.
Definition job : RunQueueJob := match lease.1 with Ok job => job | Err _ => RunQueueJob_zero end.
Definition during : MemoryRunQueue → MemoryRunQueue :=
  heartbeats svc (job_ID job) [λ _, unix_epoch + 6000].
Definition cur : RunQueueJob :=
  match GetRunJob (job_ID job) (during lease.2) with Ok job => job | Err _ => RunQueueJob_zero end.
Definition result_ := processOne svc canonical_order (λ _, unix_epoch + 5000) (λ _, unix_epoch + 7000)
  (λ _, unix_epoch + 8000) Sample.registry (RunSample.env RunSample.events) during q
  (srv_store posted) None.
Lemma job_keyed : keyed_job job.
Proof. split; vm_compute; [discriminate|discriminate|reflexivity|reflexivity]. Qed.
End SeenSample.
Lemma async_run_seen_witness :
  ∃ run job' (s : ApiSample.Srv), run_ID run = "idem-" +:+ EncodeToString (sha1_Sum "w|k1") ∧
    agree SeenSample.job run job' ∧
    handleRunByID 0 ApiSample.env (ApiSample.req "GET" ("/runs/" +:+ job_RunID SeenSample.job) "r" "" "") s =
      Some (mkResponse 200 (PRun run), s).
Proof.
  destruct SeenSample.result_ as [[[[err q2] [store'|]] m']|] eqn:Hr;
    [|vm_compute in Hr; discriminate Hr|vm_compute in Hr; discriminate Hr].
  destruct (async_run_seen Sample.registry ApiSample.decode ApiSample.no_time ApiSample.no_time
    ApiSample.no_duration SeenSample.svc canonical_order (λ _, unix_epoch + 5000)
    (λ _, unix_epoch + 7000) (λ _, unix_epoch + 8000) (RunSample.env RunSample.events)
    SeenSample.during SeenSample.q SeenSample.lease.2 (srv_store SeenSample.posted) None
    SeenSample.job Sample.workflow SeenSample.cur err q2 store' m' (E := toy_cron))
    as (run & job' & Hid & _ & _ & _ & _ & _ & _ & store1 & saved & Hsave & Hsee).
  - vm_compute. reflexivity.
  - exact SeenSample.job_keyed.
  - vm_compute. discriminate.
  - vm_compute. reflexivity.
  - vm_compute. reflexivity.
  - vm_compute. reflexivity.
  - vm_compute. reflexivity.
  - exact Hr.
  - injection Hsave as Hsaved _. subst saved. destruct Hsee as (Hag & _ & Hsee).
    set (s := (SeenSample.posted <| srv_store := store' |> <| srv_queue := Some q2 |>)).
    exists run, job', s. split; [rewrite Hid; vm_compute; reflexivity|]. split; [exact Hag|].
    destruct (Hsee ApiSample.env (ApiSample.req "GET" ("/runs/" +:+ job_RunID SeenSample.job) "r" "" "")
      s eq_refl eq_refl) as (Hget & _).
    exact (Hget eq_refl eq_refl 0%nat).
Defined.
