(* ===== verification/Command.v ===== *)
(** * cmd/orchestrator/main.go: the command

    What the command decides for its server: the tokens from the flags and the
    environment, the address to listen on, what to say when that fails, and how the
    server is set up.  The modes are in [Modes], the whole of [main] in [Main]. *)

From S2P Require Import Prelude GoLib GoText Domain Graph Actions Interfaces Store Telemetry Run.
From S2P Require Import Scheduler SchedulerProps.
From S2P Require Import ApiText Api.
Local Open Scope Z_scope.

(** ** Tokens *)

(** [resolved := *flag; if resolved == "" { resolved = os.Getenv(...) }] *)
Definition resolve_token (flag env : string) : string :=
  if bool_decide (flag = "") then env else flag.
(** One [if strings.TrimSpace(token) != "" { segments = append(...) }] *)
Definition segment (scope token : string) : list string :=
  if bool_decide (TrimSpace token ≠ "") then [scope +:+ ":" +:+ TrimSpace token] else [].
Definition buildAuthConfig (adminToken readToken writeToken : string) : string :=
  let segments := segment "admin" adminToken ++ segment "read" readToken ++
                  segment "write" writeToken in
  if Nat.eqb (length segments) 0 then "" else String.concat "," segments.

(** ** The address of the server *)

Definition apiServerStartError (addr : string) (err : option string) : string :=
  match err with
  | None => "api server error"
  | Some message =>
      let lower := ToLower message in
      if Contains lower "permission denied" || Contains lower "access is denied" then
        "api server error: " +:+ message +:+ " (insufficient permission to bind " +:+ addr +:+
        "; choose a non-privileged port or run with appropriate privileges)"
      else if Contains lower "bind" || Contains lower "address already in use"
              || Contains lower "only one usage of each socket address" then
        "api server error: " +:+ message +:+ " (address " +:+ addr +:+
        " is already in use; choose a different -api-addr or stop the conflicting process)"
      else "api server error: " +:+ message
  end.

Section address.
(** [net.SplitHostPort] and [net.JoinHostPort]; [check k addr] is the [k]-th call of
    [check]. *)
Context (SplitHostPort : string → result (string * string)).
Context (JoinHostPort : string → string → string).
Context (check : nat → string → result unit).

Definition candidate (host : string) (port : Z) : string :=
  if bool_decide (host = "") then ":" +:+ pretty port else JoinHostPort host (pretty port).
(** The loop from [step] on, [left] rounds before its end; [err] is the error of the
    first call. *)
Fixpoint probe (left_ : nat) (step : Z) (calls : nat) (host : string) (port : Z) (err : string) :
    result string :=
  match left_ with
  | O => Err err
  | S left_ =>
      let candidateAddr := candidate host (wrap64 (port + step)) in
      match check calls candidateAddr with
      | Ok _ => Ok candidateAddr
      | Err _ => probe left_ (step + 1) (S calls) host port err
      end
  end.
Definition resolveAPIAddrWithCheck (addr : string) (autoPort : bool) (maxOffset : Z) : result string :=
  match check 0%nat addr with
  | Ok _ => Ok addr
  | Err err =>
      if negb autoPort then Err err else
      match SplitHostPort addr with
      | Err _ => Err err
      | Ok (host, portStr) =>
          match Atoi portStr with
          | None => Err err
          | Some port =>
              let maxOffset := if maxOffset <=? 0 then 20 else maxOffset in
              probe (Z.to_nat maxOffset) 1 1 host port err
          end
      end
  end.
End address.

(** ** Serve mode *)

Record serve_flags := mkServeFlags {
  fl_apiToken : string;
  fl_apiReadToken : string;
  fl_apiWriteToken : string;
  fl_queueRetentionEnabled : bool;
  fl_queueRetentionStatus : string;
  fl_queueRetentionOlderThan : duration;
  fl_queueRetentionInterval : duration;
  fl_queueRetentionBatch : Z;
}.
(** The variables ORCHESTRATOR_API_TOKEN, ORCHESTRATOR_API_READ_TOKEN and
    ORCHESTRATOR_API_WRITE_TOKEN; unset reads "". *)
Record token_vars := mkTokenVars { env_token : string; env_read : string; env_write : string }.

Definition auth_config (flags : serve_flags) (vars : token_vars) : string :=
  buildAuthConfig (resolve_token (fl_apiToken flags) (env_token vars))
    (resolve_token (fl_apiReadToken flags) (env_read vars))
    (resolve_token (fl_apiWriteToken flags) (env_write vars)).
Definition serve_server {St Q E} (now : time) (flags : serve_flags) (vars : token_vars) (store : St)
    (queue : Q) (svc : Service E) (metricsCollector : Collector) : Server St Q E :=
  let server := NewServer now (auth_config flags vars) store (Some queue) (Some svc)
                  (Some metricsCollector) in
  if fl_queueRetentionEnabled flags then
    SetQueueRetention (fl_queueRetentionStatus flags) (fl_queueRetentionOlderThan flags)
      (fl_queueRetentionInterval flags) (fl_queueRetentionBatch flags) server
  else server.

(** ** What becomes of the tokens *)

Definition scopes : list string := ["admin"; "read"; "write"].
Lemma scope_cases scope : scope ∈ scopes → scope = "admin" ∨ scope = "read" ∨ scope = "write".
Proof. set_solver. Qed.
Lemma scope_stripped scope rest : scope ∈ scopes → stripped white_space (scope +:+ rest).
Proof.
  intros [-> | [-> | ->]]%scope_cases;
    repeat apply Forall_cons_2; try apply Forall_nil_2; reflexivity.
Qed.
Lemma SplitN2_char ch a b : Contains a (String ch "") = false →
  SplitN2 (a +:+ (String ch "" +:+ b)) (String ch "") = [a; b].
Proof. intros Ha. unfold SplitN2. by rewrite Index_char, str_take_app, drop_char. Qed.

(** Decides the closed propositions of the goal. *)
Ltac compute_decide :=
  repeat match goal with
         | |- context [@bool_decide ?P ?dec] =>
             let b := eval vm_compute in (@bool_decide P dec) in
             change (@bool_decide P dec) with b
         end.
(** What a segment adds to the tokens. *)
Definition grant (scope token : string) (tokens : gset string * gset string) :
    gset string * gset string :=
  if bool_decide (TrimSpace token = "") then tokens else
  ((if bool_decide (scope ∈ ["admin"; "read"]) then {[TrimSpace token]} else ∅) ∪ tokens.1,
   (if bool_decide (scope ∈ ["admin"; "write"]) then {[TrimSpace token]} else ∅) ∪ tokens.2).
Lemma auth_segments scope token tokens : scope ∈ scopes →
  foldl auth_segment tokens (segment scope token) = grant scope token tokens.
Proof.
  intros Hscope. unfold segment, grant. destruct (decide (TrimSpace token = "")) as [He|Hne].
  { by rewrite bool_decide_false, bool_decide_true by (done || intros Hx; by apply Hx). }
  rewrite bool_decide_true, bool_decide_false by done. simpl foldl. unfold auth_segment.
  destruct tokens as [read write].
  rewrite TrimSpace_scoped by (by apply scope_stripped).
  assert (Hparts : SplitN2 (scope +:+ ":" +:+ TrimSpace token) ":" = [scope; TrimSpace token]).
  { apply (SplitN2_char ":").
    by destruct (scope_cases scope Hscope) as [-> | [-> | ->]]. }
  assert (Hseg : scope +:+ ":" +:+ TrimSpace token ≠ "").
  { by destruct (scope_cases scope Hscope) as [-> | [-> | ->]]. }
  rewrite Hparts, (bool_decide_false _ Hseg), TrimSpace_idem, (bool_decide_false _ Hne).
  assert (Hlow : ToLower (TrimSpace scope) = scope).
  { by destruct (scope_cases scope Hscope) as [-> | [-> | ->]]. }
  rewrite Hlow.
  destruct (scope_cases scope Hscope) as [-> | [-> | ->]]; compute_decide; simpl;
    by rewrite ?union_empty_l_L.
Qed.

Section config.
Context (admin read write : string).
Abbreviation segments := (segment "admin" admin ++ segment "read" read ++ segment "write" write).

Lemma segment_shape scope token part : part ∈ segment scope token →
  part = scope +:+ ":" +:+ TrimSpace token.
Proof. unfold segment. case_bool_decide; set_solver. Qed.
Lemma segments_shape part : part ∈ segments →
  ∃ scope token, scope ∈ scopes ∧ token ∈ [admin; read; write] ∧ part = scope +:+ ":" +:+ TrimSpace token.
Proof.
  rewrite !elem_of_app. intros [H|[H|H]]; apply segment_shape in H as ->; eexists _, _;
    (split; [|split; [|reflexivity]]); set_solver.
Qed.
(** Joined, they begin with a scope and end with a trimmed token. *)
Lemma concat_shape l : l ≠ [] →
  Forall (λ part, ∃ scope token, scope ∈ scopes ∧ part = scope +:+ ":" +:+ TrimSpace token) l →
  ∃ scope rest p token, scope ∈ scopes ∧ String.concat "," l = scope +:+ rest ∧
    String.concat "," l = p +:+ ":" +:+ TrimSpace token.
Proof.
  intros Hl Hall. induction Hall as [|part l (scope & token & Hs & ->) Hall IH]; [done|].
  destruct l as [|part' l].
  - exists scope, (":" +:+ TrimSpace token), scope, token. done.
  - destruct IH as (scope' & rest & p & token' & _ & _ & He); [done|].
    exists scope, (":" +:+ TrimSpace token +:+ "," +:+ String.concat "," (part' :: l)),
      ((scope +:+ ":" +:+ TrimSpace token) +:+ "," +:+ p), token'.
    split; [done|].
    change (String.concat "," ((scope +:+ ":" +:+ TrimSpace token) :: part' :: l)) with
      ((scope +:+ ":" +:+ TrimSpace token) +:+ "," +:+ String.concat "," (part' :: l)).
    rewrite He. by rewrite !str_app_assoc.
Qed.
Lemma parse_build : Forall (λ t, Contains t "," = false) [admin; read; write] →
  parseAuthConfig (buildAuthConfig admin read write) = foldl auth_segment (∅, ∅) segments.
Proof.
  intros Hcomma. unfold buildAuthConfig. cbv zeta.
  destruct (decide (segments = [])) as [Hnil|Hne]; [by rewrite Hnil|].
  assert (length segments ≠ 0%nat) as Hlen by (by destruct segments).
  rewrite (proj2 (Nat.eqb_neq _ _) Hlen).
  destruct (concat_shape segments Hne) as (scope & rest & p & token & Hs & Hbegin & Hend).
  { apply Forall_forall. intros part Hp. apply segments_shape in Hp as (? & ? & ? & _ & ->). eauto. }
  unfold parseAuthConfig.
  assert (TrimSpace (String.concat "," segments) = String.concat "," segments) as ->.
  { rewrite Hend at 1 2. rewrite TrimSpace_scoped; [done|]. rewrite <-Hend, Hbegin.
    by apply scope_stripped. }
  rewrite bool_decide_false by (rewrite Hbegin; by destruct (scope_cases scope Hs) as [-> | [-> | ->]]).
  assert (Contains (String.concat "," segments) ":" = true) as ->.
  { apply Contains_spec. rewrite Hend. eauto. }
  cbv zeta. simpl negb. rewrite (Split_concat ","); [done|done|].
  apply Forall_forall. intros part Hp. apply segments_shape in Hp as (sc & t & Hsc & Ht & ->).
  rewrite Forall_forall in Hcomma. specialize (Hcomma t Ht). rewrite Contains_occurs in Hcomma |- *.
  rewrite !occurs_app, (occurs_TrimSpace _ _ Hcomma).
  by destruct (scope_cases sc Hsc) as [-> | [-> | ->]].
Qed.
End config.
Lemma elem_of_grant scope token tokens t :
  (t ∈ (grant scope token tokens).1 ↔
     t ∈ tokens.1 ∨
     if bool_decide (scope ∈ ["admin"; "read"]) then t ≠ "" ∧ t = TrimSpace token else False) ∧
  (t ∈ (grant scope token tokens).2 ↔
     t ∈ tokens.2 ∨
     if bool_decide (scope ∈ ["admin"; "write"]) then t ≠ "" ∧ t = TrimSpace token else False).
Proof.
  unfold grant. destruct (decide (TrimSpace token = "")) as [He|Hne].
  - rewrite bool_decide_true by done. rewrite He. split; destruct (bool_decide _); tauto.
  - rewrite bool_decide_false by done. simpl. rewrite !elem_of_union.
    split; destruct (bool_decide _); rewrite ?elem_of_singleton, ?elem_of_empty; [|tauto| |tauto];
      (split; [intros [-> | ?]; auto|tauto]).
Qed.

(** C14. The tokens the command is given are the tokens of its server: if none contains a
    comma, those that may read are the trimmed legacy and read tokens, those that may
    write are the legacy and write tokens - a flag before its environment variable, blank
    ones left out - and authentication is on exactly if there is one. *)
Theorem serve_tokens {St Q E} now flags vars (store : St) (queue : Q) (svc : Service E) m :
  let admin := resolve_token (fl_apiToken flags) (env_token vars) in
  let read := resolve_token (fl_apiReadToken flags) (env_read vars) in
  let write := resolve_token (fl_apiWriteToken flags) (env_write vars) in
  Forall (λ t, Contains t "," = false) [admin; read; write] →
  let s := serve_server now flags vars store queue svc m in
  (∀ t, t ∈ srv_authRead s ↔ t ≠ "" ∧ (t = TrimSpace admin ∨ t = TrimSpace read)) ∧
  (∀ t, t ∈ srv_authWrite s ↔ t ≠ "" ∧ (t = TrimSpace admin ∨ t = TrimSpace write)) ∧
  (srv_authOn s = true ↔ TrimSpace admin ≠ "" ∨ TrimSpace read ≠ "" ∨ TrimSpace write ≠ "").
Proof.
  intros admin read write Hcomma s.
  set (tokens := grant "write" write (grant "read" read (grant "admin" admin (∅, ∅)))).
  assert (Hparse : parseAuthConfig (auth_config flags vars) = tokens).
  { unfold auth_config. rewrite parse_build by done. rewrite !foldl_app.
    by rewrite !auth_segments by (unfold scopes; set_solver). }
  assert (Hread : srv_authRead s = tokens.1 ∧ srv_authWrite s = tokens.2 ∧
    srv_authOn s = negb (bool_decide (tokens.1 = ∅) && bool_decide (tokens.2 = ∅))).
  { unfold s, serve_server, NewServer. rewrite Hparse. destruct tokens as [tr tw].
    by destruct (fl_queueRetentionEnabled flags). }
  destruct Hread as (-> & -> & ->).
  assert (H1 : ∀ t, t ∈ tokens.1 ↔ t ≠ "" ∧ (t = TrimSpace admin ∨ t = TrimSpace read)).
  { intros t. unfold tokens. rewrite !(proj1 (elem_of_grant _ _ _ _)). simpl fst.
    rewrite elem_of_empty. compute_decide. clear. tauto. }
  assert (H2 : ∀ t, t ∈ tokens.2 ↔ t ≠ "" ∧ (t = TrimSpace admin ∨ t = TrimSpace write)).
  { intros t. unfold tokens. rewrite !(proj2 (elem_of_grant _ _ _ _)). simpl snd.
    rewrite elem_of_empty. compute_decide. clear. tauto. }
  split; [done|]. split; [done|].
  rewrite negb_true_iff, andb_false_iff, !bool_decide_eq_false. clearbody tokens. split.
  - intros [Hne|Hne]; apply set_choose_L in Hne as [t Ht].
    + apply H1 in Ht as [Hx [-> | ->]]; auto.
    + apply H2 in Ht as [Hx [-> | ->]]; auto.
  - intros [Hne|[Hne|Hne]].
    + left. intros He. specialize (H1 (TrimSpace admin)). rewrite He, elem_of_empty in H1. tauto.
    + left. intros He. specialize (H1 (TrimSpace read)). rewrite He, elem_of_empty in H1. tauto.
    + right. intros He. specialize (H2 (TrimSpace write)). rewrite He, elem_of_empty in H2. tauto.
Qed.
Lemma serve_tokens_witness :
  let flags := mkServeFlags "" "r " "" false "" 0 0 0 in
  let vars := mkTokenVars "" "ignored" "w:1" in
  let s := serve_server unix_epoch flags vars tt tt (NewService (E := toy_cron) ∅) NewCollector in
  srv_authOn s = true ∧ ("w:1" ∈ srv_authWrite s) ∧ ("w:1" ∉ srv_authRead s) ∧
  ("r" ∈ srv_authRead s).
Proof.
  intros flags vars s.
  destruct (serve_tokens unix_epoch flags vars tt tt (NewService (E := toy_cron) ∅) NewCollector)
    as (Hr & Hw & Hon).
  - repeat constructor; vm_compute; reflexivity.
  - split; [apply Hon; right; left; vm_compute; discriminate|].
    split; [apply Hw; split; [discriminate|right; vm_compute; reflexivity]|].
    split; [|apply Hr; split; [discriminate|right; vm_compute; reflexivity]].
    intros Hin. apply Hr in Hin as [_ [H|H]]; vm_compute in H; discriminate H.
Defined.
(** A comma ends a token: its first part alone opens the server. *)
Theorem token_cut_at_comma :
  parseAuthConfig (buildAuthConfig "s3cret,long" "" "") = ({["s3cret"]}, {["s3cret"]}).
Proof. vm_compute. reflexivity. Qed.

(** ** Finding an address *)

Section resolve.
Context (SplitHostPort : string → result (string * string)).
Context (JoinHostPort : string → string → string) (check : nat → string → result unit).
Abbreviation try_ k host port := (candidate JoinHostPort host (wrap64 (port + Z.of_nat k))).

Lemma probe_spec n k host port err :
  match probe JoinHostPort check n (Z.of_nat k) k host port err with
  | Ok a => ∃ i, (k ≤ i < k + n)%nat ∧ a = try_ i host port ∧ is_Ok (check i a) ∧
      ∀ j, (k ≤ j < i)%nat → ¬ is_Ok (check j (try_ j host port))
  | Err e => e = err ∧ ∀ j, (k ≤ j < k + n)%nat → ¬ is_Ok (check j (try_ j host port))
  end.
Proof.
  revert k; induction n as [|n IH]; intros k; simpl; [split; [done|lia]|].
  destruct (check k (try_ k host port)) as [[]|e] eqn:Hc.
  - exists k. split; [lia|]. split; [done|]. rewrite Hc. split; [by eexists|lia].
  - replace (Z.of_nat k + 1) with (Z.of_nat (S k)) by lia. specialize (IH (S k)).
    assert (Hk : ¬ is_Ok (check k (try_ k host port))) by (rewrite Hc; by intros []).
    destruct (probe _ _ _ _ _ _ _ _) as [a|e'].
    + destruct IH as (i & Hi & Ha & Hok & Hno). exists i. split; [lia|]. split; [done|].
      split; [done|]. intros j Hj. destruct (decide (j = k)) as [->|]; [done|apply Hno; lia].
    + destruct IH as [He Hno]. split; [done|].
      intros j Hj. destruct (decide (j = k)) as [->|]; [done|apply Hno; lia].
Qed.
(** The address that is returned answered when it was tried, and it is the first to: the
    one asked for or, with [autoPort], the next ports in turn, at most [maxOffset] of
    them; the error is that of the first. *)
Theorem resolveAPIAddr_first addr autoPort maxOffset :
  let n := Z.to_nat (if maxOffset <=? 0 then 20 else maxOffset) in
  match resolveAPIAddrWithCheck SplitHostPort JoinHostPort check addr autoPort maxOffset with
  | Ok a =>
      is_Ok (check 0 addr) ∧ a = addr ∨
      ¬ is_Ok (check 0 addr) ∧ autoPort = true ∧ ∃ host portStr port i,
        SplitHostPort addr = Ok (host, portStr) ∧ Atoi portStr = Some port ∧ (1 ≤ i ≤ n)%nat ∧
        a = try_ i host port ∧ is_Ok (check i a) ∧
        ∀ j, (1 ≤ j < i)%nat → ¬ is_Ok (check j (try_ j host port))
  | Err e => check 0 addr = Err e ∧
      ∀ host portStr port, autoPort = true → SplitHostPort addr = Ok (host, portStr) →
        Atoi portStr = Some port → ∀ j, (1 ≤ j ≤ n)%nat → ¬ is_Ok (check j (try_ j host port))
  end.
Proof.
  intros n. unfold resolveAPIAddrWithCheck. destruct (check 0 addr) as [[]|e] eqn:H0.
  { left. split; [by eexists|done]. }
  assert (Hno : ¬ is_Ok (check 0 addr)) by (rewrite H0; by intros []). rewrite <-H0 in *.
  destruct autoPort; simpl; [|done].
  destruct (SplitHostPort addr) as [[host portStr]|] eqn:Hs; [|done].
  destruct (Atoi portStr) as [port|] eqn:Hp; [|by split; [|naive_solver]].
  fold n. pose proof (probe_spec n 1 host port e) as Hpr. change (Z.of_nat 1) with 1 in Hpr.
  destruct (probe _ _ _ _ _ _ _ _) as [a|e'].
  - right. destruct Hpr as (i & Hi & Ha & Hok & Hbefore). split; [done|]. split; [done|].
    exists host, portStr, port, i. repeat (split; [done || lia|]). done.
  - destruct Hpr as [-> Hall]. split; [done|]. intros h ps p _ [= <- <-] Hp' j Hj.
    rewrite Hp in Hp'. injection Hp' as <-. apply Hall. lia.
Qed.
End resolve.
