(* ===== verification/Modes.v ===== *)
(** * cmd/orchestrator/main.go: persistence, schedule mode and worker mode

    Which store and queue a backend stands for, and what the modes that only wire the
    services do with them.  The calls of [executeOnce] that the timers make are a list of
    [firing]s. *)

From S2P Require Import Prelude GoLib GoText Domain Graph Actions Interfaces Store Queue QueueProps.
From S2P Require Import Telemetry Executor ExecutorProps Run RunProps Worker WorkerLoop.
From S2P Require Import Scheduler SqliteOpen.
Local Open Scope Z_scope.

(** ** buildPersistence *)

(** The SQLite backend is store and queue in one; the file backend comes with a queue in
    the memory of the process. *)
Inductive persistence :=
  | UseSQLite (db : connection)
  | UseFile (store : FileStore) (queue : MemoryRunQueue).
Definition buildPersistence (env : open_env) (Unmarshal : string → result snapshot)
    (fs : file_system) (backend dataDir sqlitePath : string) (disk : option string)
    (db : schema) : result persistence :=
  let b := ToLower (TrimSpace backend) in
  if bool_decide (b = "sqlite") then
    match NewSQLiteStore env sqlitePath db with
    | (Err err, _) => Err err
    | (Ok _, c) => Ok (UseSQLite c)
    end
  else if bool_decide (b = "file") || bool_decide (b = "") then
    match NewFileStore Unmarshal fs dataDir disk with
    | Err err => Err err
    | Ok store => Ok (UseFile store NewMemoryRunQueue)
    end
  else Err ("unsupported store backend: " +:+ backend).

Lemma buildPersistence_file env Unmarshal fs backend dataDir sqlitePath disk db store q :
  buildPersistence env Unmarshal fs backend dataDir sqlitePath disk db = Ok (UseFile store q) →
  NewFileStore Unmarshal fs dataDir disk = Ok store.
Proof.
  unfold buildPersistence. cbv zeta. case_bool_decide.
  - by destruct (NewSQLiteStore _ _ _) as [[] ?].
  - destruct (_ || _); [|done]. destruct (NewFileStore _ _ _ _); [|done]. by intros [= -> _].
Qed.
(** A data directory without a snapshot. *)
Lemma NewFileStore_fresh Unmarshal fs baseDir disk store : Stat fs disk = Ok false →
  NewFileStore Unmarshal fs baseDir disk = Ok store → mem store = NewMemoryStore.
Proof.
  unfold NewFileStore, load. intros ->. case_bool_decide; [done|].
  destruct (MkdirAll fs baseDir); [|done]. by intros [= <-].
Qed.

(** ** Schedule mode *)

Record schedule_flags := mkScheduleFlags {
  fl_interval : duration;
  fl_cronExpr : string;
  fl_runOnStartup : bool;
  fl_allowOverlap : bool;
  fl_schedulerLockFile : string;
  fl_scheduleStoreFile : string;
}.
Definition schedule_config (flags : schedule_flags) (workflow : Workflow) : ScheduleConfig :=
  mkScheduleConfig (wf_ID workflow) (fl_interval flags) (fl_cronExpr flags) (fl_runOnStartup flags)
    (fl_allowOverlap flags).
Section service.
Context {E : Type} `{!CronEngine E}.
Context (MarshalIndent : persistedSchedules → result string).
Context (Unmarshal : string → result persistedSchedules).
(** The service up to [svc.Start(ctx)]; [flts] are the faults of its three operations. *)
Definition schedule_service (flts : nat → faults) (ords : nat → nat → iter_order) (flags : schedule_flags)
    (workflow : Workflow) (files : gmap string string) : result unit * Service E :=
  let svc := SetLeaderLockPath (fl_schedulerLockFile flags) (NewService files) in
  let svc := SetScheduleStorePath Unmarshal (flts 0%nat) (fl_scheduleStoreFile flags) svc in
  match Register MarshalIndent (flts 1%nat) (ords 1%nat) (schedule_config flags workflow) svc with
  | (Err err, svc) => (Err ("register schedule: " +:+ err), svc)
  | (Ok _, svc) => (Ok tt, Scheduler.Start Unmarshal (flts 2%nat) (ords 2%nat 0%nat) svc)
  end.
End service.

(** A call of [executeOnce] that goes on after [execute_begin]. *)
Record firing := mkFiring {
  fi_job : ScheduleConfig;
  fi_env : run_env;
  fi_clk : clock;
  fi_enqueue_clk : clock;
}.
Section fire.
Context `{!Quote} {Q : Type} `{!RunQueue Q} {S : Type} `{!WorkflowStore S} (registry : Registry).
(** [None]: a run does not end. *)
Fixpoint fire_all (firings : list firing) (queue : option Q) (store : S) (m : option Collector) :
    option (option Q * S) :=
  match firings with
  | [] => Some (queue, store)
  | f :: firings =>
      '(_, queue, store', m) ← execute_body registry (fi_env f) (fi_clk f) (fi_enqueue_clk f)
        (fi_job f) queue store m;
      fire_all firings queue (default store store') m
  end.
(** The runs that are counted and printed at the end, the queue and the store; [ListRuns]
    is that of the store. *)
Definition schedule_mode (ListRuns : string → S → result (list Run)) (started : result unit)
    (workflow : Workflow) (firings : list firing) (queue : option Q) (store : S) :
    option (result (list Run) * option Q * S) :=
  match started with
  | Err err => Some (Err err, queue, store)
  | Ok _ =>
      '(queue, store) ← fire_all firings queue store (Some NewCollector);
      Some (match ListRuns (wf_ID workflow) store with
            | Err err => Err ("list runs: " +:+ err)
            | Ok runs => Ok runs
            end, queue, store)
  end.
End fire.

(** ** Worker mode *)

Definition worker_mode `{!Quote} {Q} `{!RunQueue Q} {S} `{!WorkflowStore S} (now : time)
    (workerID : string) (poll lease : duration) (registry : Registry) (turns : list (turn Q))
    (queue : option Q) (store : S) :
    result (option (bool * Q * S * option Collector)) :=
  match queue with
  | None => Err "worker mode requires a configured queue"
  | Some q =>
      Ok (WorkerLoop.Start (SetPolling poll lease (Worker.NewService now workerID)) registry turns q store
            (Some NewCollector))
  end.

(** The goroutine of worker mode: at the signal it drains the service, and [drainTimeout]
    later it ends the context of the worker. *)
Definition draining_at (signal : option time) (t : time) : bool :=
  match signal with Some c => c <=? t | None => false end.
Definition cancelled_at (signal : option time) (drainTimeout : duration) (t : time) : bool :=
  match signal with Some c => c + drainTimeout <=? t | None => false end.
(** What that makes of a round that begins at [begins] and reaches its [select] at [polls]. *)
Definition timely {Q} (signal : option time) (drainTimeout : duration) (begins polls : time)
    (t : turn Q) : Prop :=
  tn_draining t = draining_at signal begins ∧
  (tn_done t = true → cancelled_at signal drainTimeout polls = true).

(** ** Schedule mode with a queue *)

(** Where there is a queue the executions fill it, and leave the store alone. *)
Lemma fire_all_queue `{!Quote} {Q} `{!RunQueue Q} {S} `{!WorkflowStore S} registry firings (q : Q)
    (store : S) m : ∃ q', fire_all registry firings (Some q) store m = Some (Some q', store).
Proof.
  revert q m. induction firings as [|f firings IH]; intros q m; simpl; [eauto|].
  unfold execute_body. destruct (GetWorkflow _ store) as [w|e]; simpl; [|apply IH].
  destruct (EnqueueRunJob _ _ q) as [r q1]. simpl. apply IH.
Qed.
Definition untouched (q : MemoryRunQueue) : Prop :=
  map_Forall (λ _ job, job_Status job = RunJobStatusQueued ∧ job_Attempts job = 0) (q_jobs q).
Lemma enqueue_untouched clk job q : untouched q → job_Status job = RunJobStatusQueued →
  job_Attempts job = 0 → untouched (MemQ.EnqueueRunJob clk job q).2.
Proof.
  intros Hq Hs Ha. unfold MemQ.EnqueueRunJob. destruct (q_jobs q !! job_ID job); [done|].
  cbv zeta. repeat match goal with |- context [if IsZero ?t then _ else _] => destruct (IsZero t) end;
    rewrite bool_decide_false by (simpl; rewrite Hs; done_status);
    apply map_Forall_insert_2; done.
Qed.
Lemma fire_all_untouched `{!Quote} {S} `{!WorkflowStore S} registry firings q q' (store store' : S) m :
  untouched q → fire_all registry firings (Some q) store m = Some (Some q', store') → untouched q'.
Proof.
  revert q m. induction firings as [|f firings IH]; intros q m Hq; simpl; [by intros [= <- _]|].
  unfold execute_body. destruct (GetWorkflow _ store) as [w|e]; simpl; [|by apply IH].
  set (job := mkRunQueueJob _ _ _ _ _ _ _ _ _ _ _ _ _ _ _ _ _).
  pose proof (enqueue_untouched (fi_enqueue_clk f) job q Hq eq_refl eq_refl) as H1.
  destruct (MemQ.EnqueueRunJob _ job q) as [r q1]. by apply IH.
Qed.
(** With a queue schedule mode runs nothing: the store is left alone, and so are the jobs it
    queues. *)
Lemma schedule_mode_queues `{!Quote} {S} `{!WorkflowStore S} registry ListRuns workflow
    firings q (store : S) :
  untouched q → ∃ q', untouched q' ∧
    schedule_mode registry ListRuns (Ok tt) workflow firings (Some q) store =
      Some (match ListRuns (wf_ID workflow) store with
            | Err err => Err ("list runs: " +:+ err) | Ok runs => Ok runs end, Some q', store).
Proof.
  intros Hq. destruct (fire_all_queue registry firings q store (Some NewCollector)) as [q' Hf].
  exists q'. split; [by eapply fire_all_untouched|]. unfold schedule_mode. rewrite Hf. done.
Qed.
(** Every firing queues a job at most. *)
Lemma fire_all_size `{!Quote} {S} `{!WorkflowStore S} registry firings q q' (store store' : S) m :
  fire_all registry firings (Some q) store m = Some (Some q', store') →
  (size (q_jobs q') ≤ size (q_jobs q) + length firings)%nat.
Proof.
  revert q m. induction firings as [|f firings IH]; intros q m; simpl; [intros [= -> _]; lia|].
  unfold execute_body. destruct (GetWorkflow _ store) as [w|e]; simpl; [|intros Hf%IH; lia].
  set (job := mkRunQueueJob _ _ _ _ _ _ _ _ _ _ _ _ _ _ _ _ _).
  assert (Hsize : (size (q_jobs (MemQ.EnqueueRunJob (fi_enqueue_clk f) job q).2) ≤ size (q_jobs q) + 1)%nat).
  { unfold MemQ.EnqueueRunJob. destruct (q_jobs q !! job_ID job); [simpl; lia|]. simpl.
    rewrite map_size_insert. destruct (q_jobs q !! _); simpl; lia. }
  destruct (MemQ.EnqueueRunJob _ job q) as [r q1]. simpl in *. intros Hf%IH. lia.
Qed.
(** A worker that was told to stop takes no more jobs: a round that begins after the signal
    ends the loop, and leaves the queue and the store as they were after the rounds before. *)
Theorem worker_drains `{!Quote} {Q} `{!RunQueue Q} {S} `{!WorkflowStore S} svc registry c timeout
    begins polls (before after : list (turn Q)) t q (store : S) m q1 store1 m1 :
  WorkerLoop.Start svc registry before q store m = Some (false, q1, store1, m1) →
  timely (Some c) timeout begins polls t → c ≤ begins →
  WorkerLoop.Start svc registry (before ++ t :: after) q store m = Some (true, q1, store1, m1).
Proof.
  intros Hb [Hd _] Hc. simpl in Hd. rewrite (proj2 (Z.leb_le _ _) Hc) in Hd.
  revert q store m Hb. induction before as [|t' before IH]; intros q store m; simpl.
  - intros [= -> -> ->]. by rewrite Hd, orb_true_r.
  - destruct (IsDraining svc || tn_draining t'); [done|].
    destruct (processOne _ _ _ _ _ _ _ _ _ _ _) as [[[[err q2] store2] m2]|]; simpl; [|done].
    destruct err; [destruct (tn_done t'); [done|]|]; apply IH.
Qed.
#[local] Existing Instance Sample.quote_id.
Lemma worker_drains_witness :
  let draining := mkTurn true canonical_order (QueueSample.at_ 0) (QueueSample.at_ 0)
    (QueueSample.at_ 0) (RunSample.env []) (λ q, q) (λ q, q) false in
  ∃ q1 store1 m1, WorkerLoop.Start LoopSample.svc Sample.registry [LoopSample.round] LoopSample.q LoopSample.store None =
      Some (false, q1, store1, m1) ∧
    WorkerLoop.Start LoopSample.svc Sample.registry [LoopSample.round; draining; LoopSample.round]
      LoopSample.q LoopSample.store None = Some (true, q1, store1, m1).
Proof.
  intros draining.
  destruct (WorkerLoop.Start LoopSample.svc Sample.registry [LoopSample.round] LoopSample.q
    LoopSample.store None) as [[[[[] q1] store1] m1]|] eqn:Hs; [vm_compute in Hs; discriminate Hs| |
    vm_compute in Hs; discriminate Hs].
  exists q1, store1, m1. split; [reflexivity|].
  apply (worker_drains LoopSample.svc Sample.registry 300 (10 * Second) 400 500 [LoopSample.round]
    [LoopSample.round] draining LoopSample.q LoopSample.store None q1 store1 m1 Hs).
  - split; [reflexivity|discriminate].
  - vm_compute. discriminate.
Defined.
