(* ===== verification/Flags.v ===== *)
(** * cmd/orchestrator/main.go: the flags

    The flags that [main] declares, with their names, their defaults and what sets them, and
    how the package flag reads the arguments of the command. *)

From S2P Require Import Prelude GoLib GoText Command Modes.
Local Open Scope Z_scope.

(** ** The declarations *)

Record flags := mkFlags {
  fl_mode : string;
  fl_workflowFile : string;
  fl_storeBackend : string;
  fl_dataDir : string;
  fl_sqlitePath : string;
  fl_apiAddr : string;
  fl_apiAutoPort : bool;
  fl_apiAutoPortMaxOffset : Z;
  fl_serve : serve_flags;
  fl_schedule : schedule_flags;
  fl_workerID : string;
  fl_workerPoll : duration;
  fl_workerLease : duration;
  fl_workerDrainTimeout : duration;
  fl_runFor : duration;
}.
Definition Minute : duration := 60 * Second.
Definition Hour : duration := 60 * Minute.
Definition default_flags : flags :=
  mkFlags "run" "examples/sample_workflow.json" "file" "data" "data/orchestrator.db"
    ":8080" false 20
    (mkServeFlags "" "" "" false "SUCCEEDED" (24 * Hour) (15 * Minute) 1000)
    (mkScheduleFlags (15 * Second) "" true false "" "")
    "" (500 * Millisecond) (30 * Second) (10 * Second) (1 * Minute).
#[export] Instance serve_flags_settable : Settable serve_flags := λ f,
  mkServeFlags (fl_apiToken f) (fl_apiReadToken f) (fl_apiWriteToken f) (fl_queueRetentionEnabled f)
    (fl_queueRetentionStatus f) (fl_queueRetentionOlderThan f) (fl_queueRetentionInterval f)
    (fl_queueRetentionBatch f).
#[export] Instance schedule_flags_settable : Settable schedule_flags := λ f,
  mkScheduleFlags (fl_interval f) (fl_cronExpr f) (fl_runOnStartup f) (fl_allowOverlap f)
    (fl_schedulerLockFile f) (fl_scheduleStoreFile f).
#[export] Instance flags_settable : Settable flags := λ f,
  mkFlags (fl_mode f) (fl_workflowFile f) (fl_storeBackend f) (fl_dataDir f) (fl_sqlitePath f)
    (fl_apiAddr f) (fl_apiAutoPort f) (fl_apiAutoPortMaxOffset f) (fl_serve f) (fl_schedule f)
    (fl_workerID f) (fl_workerPoll f) (fl_workerLease f) (fl_workerDrainTimeout f) (fl_runFor f).
Definition set_serve (g : serve_flags → serve_flags) (f : flags) : flags := f <| fl_serve := g (fl_serve f) |>.
Definition set_schedule (g : schedule_flags → schedule_flags) (f : flags) : flags :=
  f <| fl_schedule := g (fl_schedule f) |>.

Section flag.
(** [time.ParseDuration], and [strconv.ParseInt] in the base that the prefix says. *)
Context (ParseDuration : string → result duration) (ParseInt : string → result Z).

(** A declared flag: whether it is boolean, and what its text sets. *)
Record declared := mkDeclared { dc_bool : bool; dc_set : string → flags → result flags }.
Definition String_ (set_ : string → flags → flags) : declared := mkDeclared false (λ v f, Ok (set_ v f)).
Definition Bool_ (set_ : bool → flags → flags) : declared :=
  mkDeclared true (λ v f, match ParseBool v with Some x => Ok (set_ x f) | None => Err "parse error" end).
Definition Int_ (set_ : Z → flags → flags) : declared :=
  mkDeclared false (λ v f, x ← ParseInt v; Ok (set_ x f)).
Definition Duration_ (set_ : duration → flags → flags) : declared :=
  mkDeclared false (λ v f, x ← ParseDuration v; Ok (set_ x f)).

Definition declarations : list (string * declared) := [
  ("mode", String_ (λ v f, f <| fl_mode := v |>));
  ("workflow", String_ (λ v f, f <| fl_workflowFile := v |>));
  ("store-backend", String_ (λ v f, f <| fl_storeBackend := v |>));
  ("data-dir", String_ (λ v f, f <| fl_dataDir := v |>));
  ("sqlite-path", String_ (λ v f, f <| fl_sqlitePath := v |>));
  ("api-addr", String_ (λ v f, f <| fl_apiAddr := v |>));
  ("api-auto-port", Bool_ (λ v f, f <| fl_apiAutoPort := v |>));
  ("api-auto-port-max-offset", Int_ (λ v f, f <| fl_apiAutoPortMaxOffset := v |>));
  ("api-token", String_ (λ v, set_serve (λ s, s <| fl_apiToken := v |>)));
  ("api-read-token", String_ (λ v, set_serve (λ s, s <| fl_apiReadToken := v |>)));
  ("api-write-token", String_ (λ v, set_serve (λ s, s <| fl_apiWriteToken := v |>)));
  ("interval", Duration_ (λ v, set_schedule (λ s, s <| fl_interval := v |>)));
  ("cron", String_ (λ v, set_schedule (λ s, s <| fl_cronExpr := v |>)));
  ("run-on-startup", Bool_ (λ v, set_schedule (λ s, s <| fl_runOnStartup := v |>)));
  ("allow-overlap", Bool_ (λ v, set_schedule (λ s, s <| fl_allowOverlap := v |>)));
  ("scheduler-lock-file", String_ (λ v, set_schedule (λ s, s <| fl_schedulerLockFile := v |>)));
  ("schedule-store-file", String_ (λ v, set_schedule (λ s, s <| fl_scheduleStoreFile := v |>)));
  ("worker-id", String_ (λ v f, f <| fl_workerID := v |>));
  ("worker-poll", Duration_ (λ v f, f <| fl_workerPoll := v |>));
  ("worker-lease", Duration_ (λ v f, f <| fl_workerLease := v |>));
  ("worker-drain-timeout", Duration_ (λ v f, f <| fl_workerDrainTimeout := v |>));
  ("queue-retention-enabled", Bool_ (λ v, set_serve (λ s, s <| fl_queueRetentionEnabled := v |>)));
  ("queue-retention-status", String_ (λ v, set_serve (λ s, s <| fl_queueRetentionStatus := v |>)));
  ("queue-retention-older-than", Duration_ (λ v, set_serve (λ s, s <| fl_queueRetentionOlderThan := v |>)));
  ("queue-retention-interval", Duration_ (λ v, set_serve (λ s, s <| fl_queueRetentionInterval := v |>)));
  ("queue-retention-batch", Int_ (λ v, set_serve (λ s, s <| fl_queueRetentionBatch := v |>)));
  ("run-for", Duration_ (λ v f, f <| fl_runFor := v |>))].

(** ** flag.Parse *)

Definition declaration (name : string) : option declared :=
  snd <$> (list_find (λ d, d.1 = name) declarations ≫= λ id, Some id.2).
(** The name and the value of -name=value. *)
Definition name_value (s : string) : string * option string :=
  match SplitN2 s "=" with
  | [name; value] => (name, Some value)
  | _ => (s, None)
  end.
(** What is left after the last flag is the arguments; a flag that is not boolean takes its
    value from the next argument if it has none.  (The message of a value that does not parse
    is that of its parser only.) *)
Fixpoint parse (args : list string) (f : flags) : result (flags * list string) :=
  match args with
  | [] => Ok (f, [])
  | s :: args' =>
      if negb (HasPrefix s "-") || bool_decide (s = "-") then Ok (f, args) else
      if bool_decide (s = "--") then Ok (f, args') else
      let body := if HasPrefix s "--" then str_drop 2 s else str_drop 1 s in
      if HasPrefix body "-" || HasPrefix body "=" then Err ("bad flag syntax: " +:+ s) else
      let '(name, value) := name_value body in
      match declaration name with
      | None => Err (if bool_decide (name ∈ ["help"; "h"]) then "flag: help requested"
                     else "flag provided but not defined: -" +:+ name)
      | Some d =>
          if dc_bool d then f ← dc_set d (default "true" value) f; parse args' f else
          match value with
          | Some value => f ← dc_set d value f; parse args' f
          | None =>
              match args' with
              | [] => Err ("flag needs an argument: -" +:+ name)
              | value :: args'' => f ← dc_set d value f; parse args'' f
              end
          end
      end
  end.
Definition Parse (args : list string) : result flags := fst <$> parse args default_flags.
End flag.

(** ** What the arguments set *)

Section spelling.
Context (ParseDuration : string → result duration) (ParseInt : string → result Z).
Abbreviation declaration := (declaration ParseDuration ParseInt).
Abbreviation parse := (parse ParseDuration ParseInt).

(** A flag with a value as it can be written; a boolean flag cannot have its value behind it. *)
Definition spelled (nv : string * string) (args : list string) : Prop :=
  ∃ d, declaration nv.1 = Some d ∧
    (args = ["-" +:+ nv.1 +:+ "=" +:+ nv.2] ∨ args = ["--" +:+ nv.1 +:+ "=" +:+ nv.2] ∨
     (dc_bool d = false ∧ (args = ["-" +:+ nv.1; nv.2] ∨ args = ["--" +:+ nv.1; nv.2]))).
(** Setting one after the other. *)
Definition assign (nv : string * string) (f : flags) : result flags :=
  match declaration nv.1 with Some d => dc_set d nv.2 f | None => Ok f end.

(** A name: not empty, no "=", and no dash to begin with. *)
Definition name_ok (name : string) : bool :=
  negb (bool_decide (name = "")) && negb (occurs "=" name) && negb (HasPrefix name "-").
Lemma declared_name name d : declaration name = Some d → name_ok name = true.
Proof.
  intros Hd. unfold Flags.declaration in Hd.
  apply fmap_Some in Hd as ([n d'] & Hf & ->). apply bind_Some in Hf as ([i nd] & Hf & [= ->]).
  apply list_find_Some in Hf as (Hl & Hn & _). simpl in Hn. subst n.
  apply list_elem_of_lookup_2 in Hl.
  assert (Hall : Forall (λ x, name_ok x.1 = true) (declarations ParseDuration ParseInt)).
  { repeat apply Forall_cons_2; try apply Forall_nil_2; vm_compute; reflexivity. }
  rewrite Forall_forall in Hall. apply (Hall _ Hl).
Qed.
Lemma HasPrefix_name c name rest : name ≠ "" → HasPrefix (name +:+ rest) (String c "") = HasPrefix name (String c "").
Proof.
  intros Hne. destruct name as [|d name]; [done|]. rewrite str_app_cons, !HasPrefix_char. done.
Qed.
Lemma name_value_eq name value : occurs "=" name = false → name_value (name +:+ "=" +:+ value) = (name, Some value).
Proof.
  intros Ho. unfold name_value, SplitN2. rewrite <-Contains_occurs in Ho.
  by rewrite Index_char, str_take_app, drop_char.
Qed.
Lemma name_value_bare name : occurs "=" name = false → name_value name = (name, None).
Proof.
  intros Ho. unfold name_value, SplitN2. rewrite <-Contains_occurs in Ho. unfold Contains in Ho.
  by destruct (Index name "=").
Qed.
(** One or two dashes come off. *)
Lemma parse_dashes dashes name tail args f : dashes ∈ ["-"; "--"] → name_ok name = true →
  parse ((dashes +:+ name +:+ tail) :: args) f =
    let '(n, value) := name_value (name +:+ tail) in
    match declaration n with
    | None => Err (if bool_decide (n ∈ ["help"; "h"]) then "flag: help requested"
                   else "flag provided but not defined: -" +:+ n)
    | Some d =>
        if dc_bool d then f ← dc_set d (default "true" value) f; parse args f else
        match value with
        | Some value => f ← dc_set d value f; parse args f
        | None =>
            match args with
            | [] => Err ("flag needs an argument: -" +:+ n)
            | value :: args => f ← dc_set d value f; parse args f
            end
        end
    end.
Proof.
  intros Hdash Hname. unfold name_ok in Hname.
  apply andb_true_iff in Hname as [[Hne%negb_true_iff%bool_decide_eq_false Heq%negb_true_iff]%andb_true_iff Hd%negb_true_iff].
  assert (Hbody : HasPrefix (name +:+ tail) "-" = false ∧ HasPrefix (name +:+ tail) "=" = false).
  { rewrite !HasPrefix_name by done. split; [done|]. destruct name as [|c name]; [done|].
    rewrite HasPrefix_char. simpl in Heq. apply orb_false_iff in Heq as [Hc%bool_decide_eq_false _].
    apply bool_decide_eq_false. congruence. }
  destruct Hbody as [Hb1 Hb2]. cbn [Flags.parse].
  apply elem_of_cons in Hdash as [-> | ->%list_elem_of_singleton].
  - rewrite HasPrefix_app. rewrite (bool_decide_false (_ = "-")).
    2:{ rewrite str_app_cons, str_app_nil_l. intros [= H]. destruct name; [done|]. by rewrite str_app_cons in H. }
    rewrite (bool_decide_false (_ = "--")).
    2:{ rewrite str_app_cons, str_app_nil_l. intros [= H]. rewrite H in Hb1. vm_compute in Hb1. done. }
    assert (Hdd : HasPrefix ("-" +:+ name +:+ tail) "--" = false).
    { change "--" with ("-" +:+ "-"). rewrite HasPrefix_ext. exact Hb1. }
    rewrite Hdd. change (str_drop 1 ("-" +:+ name +:+ tail)) with (name +:+ tail).
    rewrite Hb1, Hb2. done.
  - assert (H1 : HasPrefix ("--" +:+ name +:+ tail) "-" = true) by done.
    rewrite H1, HasPrefix_app. rewrite (bool_decide_false (_ = "-")) by done.
    rewrite (bool_decide_false (_ = "--")).
    2:{ rewrite !str_app_cons, str_app_nil_l. intros [= H]. destruct name; [done|]. by rewrite str_app_cons in H. }
    change (str_drop 2 ("--" +:+ name +:+ tail)) with (name +:+ tail). rewrite Hb1, Hb2. done.
Qed.
Lemma parse_spelled nv spelling args f : spelled nv spelling →
  parse (spelling ++ args) f = f ← assign nv f; parse args f.
Proof.
  destruct nv as [name value]. intros (d & Hd & Hs). unfold assign. simpl in *. rewrite Hd.
  pose proof (declared_name name d Hd) as Hname.
  assert (Ho : occurs "=" name = false).
  { unfold name_ok in Hname. apply andb_true_iff in Hname as [[_ Ho]%andb_true_iff _]. by apply negb_true_iff. }
  destruct Hs as [-> | [-> | [Hb [-> | ->]]]]; simpl app.
  1,2: rewrite parse_dashes by (done || set_solver); rewrite name_value_eq, Hd by done;
    by destruct (dc_bool d).
  all: rewrite <-(str_app_nil_r name) at 1; rewrite parse_dashes by (done || set_solver);
    rewrite str_app_nil_r, name_value_bare, Hd, Hb by done; done.
Qed.
(** The command reads its flags: however each is spelled, those that are given are set one
    after the other - so that the last one counts - and all others keep their defaults. *)
Theorem Parse_spelled nvs spellings : Forall2 spelled nvs spellings →
  Parse ParseDuration ParseInt (mjoin spellings) = for_each assign nvs default_flags.
Proof.
  unfold Parse. generalize default_flags. intros f Hall. revert f.
  induction Hall as [|nv spelling nvs spellings Hs _ IH]; intros f; [done|].
  cbn [mjoin list_join for_each]. rewrite (parse_spelled _ _ _ _ Hs).
  destruct (assign nv f) as [f'|e]; simpl; [apply IH|done].
Qed.
End spelling.
Lemma Parse_spelled_witness :
  let seconds v := if bool_decide (v = "10s") then Ok (10 * Second) else Err "invalid duration" in
  Parse seconds (λ _, Err "parse error") ["-mode"; "schedule"; "--interval=10s"; "-run-on-startup=false"] =
    Ok (set_schedule (λ s, s <| fl_interval := 10 * Second |> <| fl_runOnStartup := false |>)
          (default_flags <| fl_mode := "schedule" |>)).
Proof.
  intros seconds.
  etransitivity; [apply (Parse_spelled seconds (λ _, Err "parse error")
    [("mode", "schedule"); ("interval", "10s"); ("run-on-startup", "false")]
    [["-mode"; "schedule"]; ["--interval=10s"]; ["-run-on-startup=false"]])|vm_compute; reflexivity].
  repeat apply Forall2_cons_2; [..|apply Forall2_nil_2]; eexists; (split; [vm_compute; reflexivity|]);
    [right; right; split; [reflexivity|by left]|by right; left|by left].
Defined.
