(* ===== verification/Main.v ===== *)
(** * cmd/orchestrator/main.go: main

    [main] as the composition of everything else: load, open, save, then one of four
    modes.  What is read from outside - the file with the workflow, the persistence that
    [buildPersistence] opened, environment variables, the files of the scheduler, the
    network, the course of the runs - is a [main_env]. *)

From S2P Require Import Prelude GoLib GoText Domain Graph Actions Interfaces Store Queue QueueProps.
From S2P Require Import Telemetry Executor ExecutorProps Run RunProps Worker WorkerLoop Scheduler SchedulerProps.
From S2P Require Import SqliteOpen Ticker SchedulerTimers Api ApiProps Serve Command Modes Flags.
Local Open Scope Z_scope.

(** ** main *)

Section main.
Context {St : Type} `{!WorkflowStore St} {Q : Type} `{!RunQueue Q}.
Context {E : Type} `{!CronEngine E} `{!Quote}.
Context (MarshalIndent : persistedSchedules → result string).
Context (Unmarshal : string → result persistedSchedules).
Context (SplitHostPort : string → result (string * string)).
Context (JoinHostPort : string → string → string) (check : nat → string → result unit).
Context (ListRuns : string → St → result (list Run)).

Record main_env := mkMainEnv {
  me_loaded : result Workflow;        (** utils.LoadWorkflowFromFile *)
  me_opened : result (St * Q);        (** buildPersistence *)
  me_run : run_env;
  me_vars : token_vars;
  me_now : time;
  me_files : gmap string string;      (** of the scheduler *)
  me_flts : nat → faults;
  me_ords : nat → nat → iter_order;
  me_firings : list firing;
  me_end : server_end;
  me_turns : list (turn Q);
}.
(** What the command ends with: an error that exits it, what run and schedule mode print,
    the address and the server that served, the queue a worker leaves. *)
Inductive outcome :=
  | Fatal (msg : string)
  | PrintedRun (run : Run)
  | PrintedRuns (count : Z) (last : option Run)
  | Served (addr : string) (server : Server St Q E)
  | Worked (queue : Q).

Definition run_mode (env : run_env) (workflow : Workflow) (store : St) :
    option (result Run * St) :=
  '((run, err), store', _) ← RunWithID (RegisterBuiltins NewRegistry) env workflow "" "" (Some store)
                               (Some NewCollector);
  Some (match err with Some err => Err ("execute workflow: " +:+ err) | None => Ok run end,
        default store store').
(** The scheduler of serve mode. *)
Definition serve_service (flts : nat → faults) (ords : nat → nat → iter_order) (flags : schedule_flags)
    (files : gmap string string) : Service E :=
  let svc := SetLeaderLockPath (fl_schedulerLockFile flags) (NewService files) in
  let svc := SetScheduleStorePath Unmarshal (flts 0%nat) (fl_scheduleStoreFile flags) svc in
  Scheduler.Start Unmarshal (flts 1%nat) (ords 0%nat 0%nat) svc.
Definition serve_mode (env : main_env) (flags : flags) (store : St) (queue : Q) :
    result (string * Server St Q E) :=
  match resolveAPIAddrWithCheck SplitHostPort JoinHostPort check (fl_apiAddr flags)
          (fl_apiAutoPort flags) (fl_apiAutoPortMaxOffset flags) with
  | Err err => Err (apiServerStartError (fl_apiAddr flags) (Some err))
  | Ok resolvedAPIAddr =>
      let svc := serve_service (me_flts env) (me_ords env) (fl_schedule flags) (me_files env) in
      let server := serve_server (me_now env) (fl_serve flags) (me_vars env) store queue svc NewCollector in
      match Serve.Start (me_end env) with
      | Err err => Err (apiServerStartError resolvedAPIAddr (Some err))
      | Ok _ => Ok (resolvedAPIAddr, server)
      end
  end.

(** How it ends, and the store then; [None]: a run does not end. *)
Definition main (flags : flags) (env : main_env) : option (outcome * option St) :=
  match me_loaded env with
  | Err err => Some (Fatal ("load workflow: " +:+ err), None)
  | Ok workflow =>
  match me_opened env with
  | Err err => Some (Fatal ("init persistence: " +:+ err), None)
  | Ok (store, runQueue) =>
  match SaveWorkflow workflow store with
  | (Err err, store) => Some (Fatal ("save workflow: " +:+ err), Some store)
  | (Ok _, store) =>
      if bool_decide (fl_mode flags = "run") then
        '(r, store) ← run_mode (me_run env) workflow store;
        Some (match r with Err err => Fatal err | Ok run => PrintedRun run end, Some store)
      else if bool_decide (fl_mode flags = "schedule") then
        let '(started, _) := schedule_service (E := E) MarshalIndent Unmarshal (me_flts env) (me_ords env)
                               (fl_schedule flags) workflow (me_files env) in
        '(r, _, store) ← schedule_mode (RegisterBuiltins NewRegistry) ListRuns started workflow
                           (me_firings env) (Some runQueue) store;
        Some (match r with Err err => Fatal err | Ok runs => PrintedRuns (zlen runs) (last runs) end,
              Some store)
      else if bool_decide (fl_mode flags = "serve") then
        Some (match serve_mode env flags store runQueue with
              | Err err => Fatal err
              | Ok (addr, server) => Served addr server
              end, Some store)
      else if bool_decide (fl_mode flags = "worker") then
        match worker_mode (me_now env) (fl_workerID flags) (fl_workerPoll flags) (fl_workerLease flags)
                (RegisterBuiltins NewRegistry) (me_turns env) (Some runQueue) store with
        | Err err => Some (Fatal err, Some store)
        | Ok r => '(_, queue, store, _) ← r; Some (Worked queue, Some store)
        end
      else Some (Fatal ("unsupported mode: " +:+ fl_mode flags), Some store)
  end end end.
(** The command from its arguments; the package flag exits by itself on an error. *)
Definition command (ParseDuration : string → result duration) (ParseInt : string → result Z)
    (args : list string) (env : main_env) : option (outcome * option St) :=
  match Parse ParseDuration ParseInt args with
  | Err err => Some (Fatal err, None)
  | Ok flags => main flags env
  end.
End main.

(** ** The workflow of the file *)

Section workflow.
Context {St : Type} `{!WorkflowStore St} `{!WorkflowStoreLaws St} {Q : Type} `{!RunQueue Q}.
Context {E : Type} `{!CronEngine E} `{!Quote}.
Implicit Types (s : St).

Lemma processOne_workflows svc ord c1 c2 c3 registry env during (q : Q) (store : St) m err q' store' m' id :
  processOne svc ord c1 c2 c3 registry env during q store m = Some (err, q', store', m') →
  GetWorkflow id (default store store') = GetWorkflow id store.
Proof using WorkflowStoreLaws0.
  unfold processOne. destruct (LeaseNextRunJob _ _ _ _ _) as [[job|e] q1]; [|by intros [= _ _ <- _]].
  destruct (GetWorkflow _ store) as [w|e] eqn:Hw; [|by intros [= _ _ <- _]].
  destruct (RunWithID _ _ _ _ _ _ _) as [[[[run execErr] s1] m1]|] eqn:Hrun; simpl; [|done].
  destruct (settle _ _ _ _ _ _) as [[[e2 q2] m2]|]; simpl; [|done]. intros [= _ _ <- _].
  unfold RunWithID in Hrun. eapply (runWithID_workflows registry) in Hrun as (s' & -> & Hg). exact Hg.
Qed.
Lemma worker_workflows svc registry turns (q : Q) (store : St) m r q' store' m' id :
  WorkerLoop.Start svc registry turns q store m = Some (r, q', store', m') →
  GetWorkflow id store' = GetWorkflow id store.
Proof using WorkflowStoreLaws0.
  revert q store m. induction turns as [|t turns IH]; intros q store m; simpl; [by intros [= _ _ <- _]|].
  destruct (IsDraining svc || tn_draining t); [by intros [= _ _ <- _]|].
  destruct (processOne _ _ _ _ _ _ _ _ _ _ _) as [[[[err q1] store1] m1]|] eqn:Hp; simpl; [|done].
  apply (processOne_workflows _ _ _ _ _ _ _ _ _ _ _ _ _ _ _ id) in Hp. rewrite <-Hp.
  destruct err; [destruct (tn_done t); [by intros [= _ _ <- _]|]|]; apply IH.
Qed.
Lemma run_mode_workflows env w (store : St) r store' id :
  run_mode env w store = Some (r, store') → GetWorkflow id store' = GetWorkflow id store.
Proof using WorkflowStoreLaws0.
  unfold run_mode, RunWithID. destruct (runWithID _ _ _ _ _ _ _) as [[[[run err] s1] m1]|] eqn:Hrun;
    simpl; [|done]. intros [= _ <-].
  eapply (runWithID_workflows (RegisterBuiltins NewRegistry)) in Hrun as (s' & -> & Hg). exact Hg.
Qed.

(** Whatever the mode - even one that does not exist - and whether or not it is valid,
    the workflow of the file is in the store when the command ends, unless it could not be
    read, the persistence not be opened or the workflow not be saved; and no other workflow
    has changed. *)
Theorem main_saves_workflow MarshalIndent Unmarshal SplitHostPort JoinHostPort check ListRuns flags
    (env : main_env) workflow (store : St) (q : Q) store1 o store' :
  me_loaded env = Ok workflow → me_opened env = Ok (store, q) →
  SaveWorkflow workflow store = (Ok tt, store1) →
  main (E := E) MarshalIndent Unmarshal SplitHostPort JoinHostPort check ListRuns flags env =
    Some (o, store') →
  ∃ s, store' = Some s ∧ GetWorkflow (wf_ID workflow) s = Ok workflow ∧
    ∀ id, id ≠ wf_ID workflow → GetWorkflow id s = GetWorkflow id store.
Proof using WorkflowStoreLaws0.
  intros Hload Hopen Hsave Hmain. unfold main in Hmain. rewrite Hload, Hopen, Hsave in Hmain.
  assert (Hgoal : ∃ s, store' = Some s ∧ ∀ id, GetWorkflow id s = GetWorkflow id store1).
  { repeat case_bool_decide.
    - destruct (run_mode _ _ _) as [[r s]|] eqn:Hr; simpl in Hmain; [|done]. injection Hmain as _ <-.
      exists s. split; [done|]. intros id. by eapply run_mode_workflows.
    - destruct (schedule_service _ _ _ _ _ _ _) as [started svc].
      unfold schedule_mode in Hmain. destruct started as [[]|e]; simpl in Hmain.
      + destruct (fire_all_queue (RegisterBuiltins NewRegistry) (me_firings env) q store1
          (Some NewCollector)) as [q' Hf]. rewrite Hf in Hmain. simpl in Hmain.
        injection Hmain as _ <-. by exists store1.
      + injection Hmain as _ <-. by exists store1.
    - injection Hmain as _ <-. by exists store1.
    - simpl in Hmain. destruct (WorkerLoop.Start _ _ _ _ _ _) as [[[[r q'] s] m]|] eqn:Hw; simpl in Hmain; [|done].
      injection Hmain as _ <-. exists s. split; [done|]. intros id. by eapply worker_workflows.
    - injection Hmain as _ <-. by exists store1. }
  destruct Hgoal as (s & -> & Hg). exists s. split; [done|]. split.
  - rewrite Hg, (GetWorkflow_SaveWorkflow _ _ _ (wf_ID workflow) Hsave). by rewrite decide_True.
  - intros id Hne. rewrite Hg, (GetWorkflow_SaveWorkflow _ _ _ id Hsave). by rewrite decide_False.
Qed.
End workflow.

(** ** Run mode *)

(** The file is not validated before it is saved: the run is refused, the workflow stays. *)
Theorem invalid_workflow_saved `{!Quote} {E} `{!CronEngine E} MarshalIndent Unmarshal SplitHostPort
    JoinHostPort check ListRuns flags (env : main_env (St := MemoryStore) (Q := MemoryRunQueue)) workflow q e :
  fl_mode flags = "run" → me_loaded env = Ok workflow → me_opened env = Ok (NewMemoryStore, q) →
  ValidateWorkflow (re_validate_ord (me_run env)) workflow = Some (Err e) →
  ∃ store, main (E := E) MarshalIndent Unmarshal SplitHostPort JoinHostPort check ListRuns flags env =
      Some (Fatal ("execute workflow: " +:+ e), Some store) ∧
    GetWorkflow (wf_ID workflow) store = Ok workflow.
Proof.
  intros Hmode Hload Hopen Hv. unfold main. rewrite Hload, Hopen, Hmode. simpl.
  unfold run_mode, RunWithID, runWithID. rewrite Hv. simpl. eexists. split; [reflexivity|].
  unfold Memory.GetWorkflow. simpl. by rewrite lookup_insert_eq.
Qed.

(** C17. A printed run is there after a restart.  Whatever the data directory held: when run
    mode with the file backend prints a run - a failed one too - then opening the directory
    again, as any mode of a later process does, gives a store with that run under its ID, the
    workflow of the file, and every other run that was there before. *)
Theorem printed_run_survives `{!Quote} {E} `{!CronEngine E} marshal unmarshal fs ord oenv MarshalIndent
    Unmarshal SplitHostPort JoinHostPort check ListRuns flags
    (env : main_env (St := FileStore) (Q := MemoryRunQueue)) disk0 db workflow store q run store' :
  file_system_ok fs (fl_dataDir flags) → json_round_trip marshal unmarshal ord (mem store') →
  buildPersistence oenv unmarshal fs (fl_storeBackend flags) (fl_dataDir flags) (fl_sqlitePath flags)
    disk0 db = Ok (UseFile store q) →
  me_opened env = Ok (store, q) → fl_mode flags = "run" → me_loaded env = Ok workflow →
  (let _ := FileStore_store marshal fs ord in
   main (E := E) MarshalIndent Unmarshal SplitHostPort JoinHostPort check ListRuns flags env) =
    Some (PrintedRun run, Some store') →
  ∃ again, NewFileStore unmarshal fs (fl_dataDir flags) (disk store') = Ok again ∧
    Memory.GetRun (run_ID run) (mem again) = Ok run ∧
    Memory.GetWorkflow (wf_ID workflow) (mem again) = Ok workflow ∧
    ∀ id, id ≠ run_ID run → Memory.GetRun id (mem again) = Memory.GetRun id (mem store).
Proof.
  intros Hfs Hjson Hopened Hopen Hmode Hload. set (inst := FileStore_store marshal fs ord). intros Hmain.
  pose proof (FileStore_laws marshal fs ord) as laws. fold inst in laws.
  apply buildPersistence_file in Hopened.
  assert (Hdir : fl_dataDir flags ≠ "").
  { intros He. unfold NewFileStore in Hopened. by rewrite bool_decide_true in Hopened. }
  apply NewFileStore_keyed in Hopened.
  destruct (SaveWorkflow workflow store) as [[[]|e] store1] eqn:Hsave.
  2:{ cbv zeta in Hmain. unfold main in Hmain. rewrite Hload, Hopen, Hsave in Hmain. done. }
  destruct (main_saves_workflow _ _ _ _ _ _ _ _ _ _ _ _ _ _ Hload Hopen Hsave Hmain)
    as (s & [= <-] & Hw & _).
  cbv zeta in Hmain. unfold main in Hmain. rewrite Hload, Hopen, Hsave, Hmode in Hmain. simpl in Hmain.
  unfold run_mode, RunWithID in Hmain.
  destruct (runWithID _ _ _ _ _ _ _) as [[[[run' [e|]] s1] m1]|] eqn:Hrun; simpl in Hmain; [done| |done].
  injection Hmain as -> Hs1.
  destruct (ValidateWorkflow_total (re_validate_ord (me_run env)) workflow) as [[[]|e] Hv].
  2:{ unfold runWithID in Hrun. by rewrite Hv in Hrun. }
  apply ValidateWorkflow_ok in Hv as [HID Hwf].
  destruct (runWithID_saved _ _ _ _ _ _ _ _ _ _ HID Hwf Hrun) as (_ & s2 & -> & Hget & Hothers).
  destruct (runWithID_saves _ _ _ _ _ _ _ _ _ _ HID Hwf Hrun) as (_ & first & s3 & [= <-] & _ & Hlast).
  simpl in Hs1. subst s2.
  pose proof (run_op_flush marshal fs ord (OpWorkflow workflow) store) as (m & Hm & Hk & _).
  pose proof (run_op_flush marshal fs ord (OpRun first) store1) as (m' & Hm' & Hk' & _).
  simpl in Hm, Hm', Hsave. rewrite Hsave in Hm. simpl in Hm. subst m m'.
  exists store'. split; [|split; [exact Hget|split; [exact Hw|]]].
  - apply (restart_after_op marshal unmarshal fs ord _ (OpRun run) (SaveRun_file marshal fs ord first store1).2);
      try done. by apply Hk', Hk.
  - intros id Hne. etransitivity; [by apply Hothers|].
    exact (GetRun_SaveWorkflow _ _ _ _ id Hsave).
Qed.

(** Run mode on an empty directory, a task that prints. *)
Module MainSample.
#[local] Existing Instance Sample.quote_id.
Definition workflow : Workflow := mkWorkflow "hello" "" "" "" 0 false false 0
  [Sample.node "a" "print" [] "" (<["message" := "hello"]> ∅)].
Definition marshal (s : snapshot) : result string := Ok "{...}".
Definition no_snapshot (content : string) : result snapshot := Err "invalid character".
#[local] Instance file_store : WorkflowStore FileStore :=
  FileStore_store marshal StoreSample.fs canonical_order.
Definition empty : FileStore := mkFileStore NewMemoryStore None.
Definition env : main_env := mkMainEnv (Ok workflow) (Ok (empty, NewMemoryRunQueue))
  (RunSample.env [EvResult "a" Sample.trace]) (mkTokenVars "" "" "") unix_epoch ∅ (λ _, no_faults)
  (λ _, Sample.ords) [] ContextDone [].
Definition split (addr : string) : result (string * string) := Err "missing port in address".
Definition go := main (E := toy_cron) SchedSample.marshal SchedSample.unmarshal split
  (λ h p, h +:+ ":" +:+ p) (λ _ _, Ok tt) (ListRuns_file canonical_order) default_flags env.
Definition run : Run := match go with Some (PrintedRun run, _) => run | _ => Run_zero end.
Definition store : FileStore := match go with Some (_, Some s) => s | _ => empty end.
Definition unmarshal (content : string) : result snapshot :=
  Ok (snapshot_of canonical_order (mem store)).
Lemma printed : go = Some (PrintedRun run, Some store).
Proof.
  assert (Hgo : ∀ g, g = go →
    (match g with Some (PrintedRun _, Some _) => true | _ => false end) = true →
    go = Some (PrintedRun run, Some store)).
  { intros g Hg. unfold run, store. rewrite <-Hg. clear Hg. by destruct g as [[[] []]|]. }
  apply (Hgo _ eq_refl). vm_compute. reflexivity.
Qed.
End MainSample.
#[local] Existing Instance Sample.quote_id.
Lemma printed_run_survives_witness :
  run_Status MainSample.run = RunStatusSuccess ∧
  ∃ again, NewFileStore MainSample.unmarshal StoreSample.fs "data" (disk MainSample.store) = Ok again ∧
    Memory.GetRun (run_ID MainSample.run) (mem again) = Ok MainSample.run ∧
    Memory.GetWorkflow "hello" (mem again) = Ok MainSample.workflow.
Proof.
  split; [vm_compute; reflexivity|].
  destruct (printed_run_survives (E := toy_cron) MainSample.marshal MainSample.unmarshal StoreSample.fs
    canonical_order OpenSample.quiet SchedSample.marshal SchedSample.unmarshal MainSample.split
    (λ h p, h +:+ ":" +:+ p) (λ _ _, Ok tt) (ListRuns_file canonical_order) default_flags MainSample.env
    None new_schema MainSample.workflow MainSample.empty NewMemoryRunQueue MainSample.run MainSample.store)
    as (again & H1 & H2 & H3 & _).
  - split; [reflexivity|intros; reflexivity|intros; reflexivity|intros c d d' [= <-]; reflexivity].
  - intros content [= <-]. reflexivity.
  - vm_compute. reflexivity.
  - reflexivity.
  - reflexivity.
  - reflexivity.
  - exact MainSample.printed.
  - exists again. split; [exact H1|]. split; [exact H2|exact H3].
Defined.
(** A mode that does not exist: the command fails, the workflow is saved. *)
Lemma main_saves_workflow_witness :
  let flags := mkFlags "sched" "w.json" "file" "data" "" ":8080" false 20 (fl_serve default_flags)
    (fl_schedule default_flags) "" 0 0 0 0 in
  let inst := MainSample.file_store in
  ∃ s, main (E := toy_cron) SchedSample.marshal SchedSample.unmarshal MainSample.split
      (λ h p, h +:+ ":" +:+ p) (λ _ _, Ok tt) (ListRuns_file canonical_order) flags MainSample.env =
      Some (Fatal "unsupported mode: sched", Some s) ∧
    GetWorkflow "hello" s = Ok MainSample.workflow.
Proof.
  intros flags inst.
  set (s1 := (SaveWorkflow MainSample.workflow MainSample.empty).2).
  pose proof (FileStore_laws MainSample.marshal StoreSample.fs canonical_order) as laws.
  destruct (main_saves_workflow (E := toy_cron) SchedSample.marshal SchedSample.unmarshal MainSample.split
    (λ h p, h +:+ ":" +:+ p) (λ _ _, Ok tt) (ListRuns_file canonical_order) flags MainSample.env
    MainSample.workflow MainSample.empty NewMemoryRunQueue s1 (Fatal "unsupported mode: sched") (Some s1))
    as (s & [= <-] & Hg & _).
  - reflexivity.
  - reflexivity.
  - reflexivity.
  - reflexivity.
  - exists s1. split; [reflexivity|exact Hg].
Defined.

(** ** Schedule mode *)

(** With the file backend, which is the default, schedule mode runs nothing: on a fresh data
    directory, however often the timers fire and whatever the workflow, every execution only
    queues a job in the memory of this process, where no worker looks; at the end the mode
    reports no run at all. *)
Theorem schedule_mode_runs_nothing `{!Quote} {E} `{!CronEngine E} marshal unmarshal fs ord oenv
    MarshalIndent Unmarshal SplitHostPort JoinHostPort check flags
    (env : main_env (St := FileStore) (Q := MemoryRunQueue)) disk0 db store q n run store' :
  buildPersistence oenv unmarshal fs (fl_storeBackend flags) (fl_dataDir flags) (fl_sqlitePath flags)
    disk0 db = Ok (UseFile store q) →
  Stat fs disk0 = Ok false → me_opened env = Ok (store, q) → fl_mode flags = "schedule" →
  (let _ := FileStore_store marshal fs ord in
   main (E := E) MarshalIndent Unmarshal SplitHostPort JoinHostPort check (ListRuns_file ord) flags env) =
    Some (PrintedRuns n run, store') →
  n = 0 ∧ run = None.
Proof.
  intros Hopened Hd Hopen Hmode. set (inst := FileStore_store marshal fs ord). cbv zeta. intros Hmain.
  apply buildPersistence_file, NewFileStore_fresh in Hopened; [|done].
  unfold main in Hmain. destruct (me_loaded env) as [workflow|]; [|done].
  rewrite Hopen, Hmode in Hmain.
  destruct (SaveWorkflow workflow store) as [[[]|e] store1] eqn:Hw; [|done]. simpl in Hmain.
  destruct (schedule_service _ _ _ _ _ _ _) as [[[]|e] svc]; [|done].
  destruct (fire_all_queue (RegisterBuiltins NewRegistry) (me_firings env) q store1 (Some NewCollector))
    as [q' Hf].
  unfold schedule_mode in Hmain. rewrite Hf in Hmain. simpl in Hmain.
  assert (Hr : runs (mem store1) = ∅).
  { apply SaveWorkflow_file_mem in Hw. rewrite Hw, Hopened. done. }
  assert (Hnone : filter (λ r, wf_ID workflow = "" ∨ run_WorkflowID r = wf_ID workflow)
    (iter_values ord (runs (mem store1))) = []).
  { rewrite Hr. pose proof (iter_perm ord _ (∅ : gmap string Run)) as Hp. rewrite map_to_list_empty in Hp.
    apply Permutation_nil_r in Hp. unfold iter_values. by rewrite Hp. }
  rewrite Hnone in Hmain. by injection Hmain as <- <- _.
Qed.

(** How many jobs schedule mode queues by an interval: the executions that its goroutine,
    started at [t0], begins before the mode ends are at most one for every interval, and the
    one at the start; the queue holds no more jobs, none of them tried. *)
Theorem schedule_mode_paced `{!Quote} {S} `{!WorkflowStore S} registry ListRuns (flags : flags) workflow
    t0 done first rounds firings (store : S) :
  let job := schedule_config (fl_schedule flags) workflow in
  Forall sane (first :: rounds) → 0 ≤ fl_runFor flags →
  zlen firings = begun (t0 + fl_runFor flags) (startIntervalJob job t0 done first rounds).1 →
  ∃ r q', schedule_mode registry ListRuns (Ok tt) workflow firings (Some NewMemoryRunQueue) store =
      Some (r, Some q', store) ∧ untouched q' ∧
    Z.of_nat (size (q_jobs q')) ≤ fl_runFor flags / job_interval job + 1 - first_tick job.
Proof.
  intros job Hs Hr Hn.
  destruct (fire_all_queue registry firings NewMemoryRunQueue store (Some NewCollector)) as [q' Hf].
  assert (H0 : untouched NewMemoryRunQueue) by apply map_Forall_empty.
  pose proof (fire_all_size _ _ _ _ _ _ _ Hf) as Hsize. simpl in Hsize. rewrite map_size_empty in Hsize.
  pose proof (interval_begun job t0 done first rounds (t0 + fl_runFor flags) Hs ltac:(lia)) as Hb.
  rewrite <-Hn in Hb. replace (t0 + fl_runFor flags - t0) with (fl_runFor flags) in Hb by lia.
  unfold schedule_mode. rewrite Hf. simpl. do 2 eexists. split; [reflexivity|].
  split; [by eapply fire_all_untouched|]. unfold zlen in Hb. lia.
Qed.
(** By default once at the start and every 15 s for a minute: five times. *)
Lemma schedule_mode_paced_witness :
  let step := mkRound 0 Second true in
  let fire := mkFiring (schedule_config (fl_schedule default_flags) MainSample.workflow)
    (RunSample.env []) (QueueSample.at_ 0) (QueueSample.at_ 0) in
  ∃ r q', schedule_mode Sample.registry (λ _ _, Ok []) (Ok tt) MainSample.workflow (replicate 5 fire)
      (Some NewMemoryRunQueue) NewMemoryStore = Some (r, Some q', NewMemoryStore) ∧ untouched q' ∧
    Z.of_nat (size (q_jobs q')) ≤ 5.
Proof.
  intros step fire.
  apply (schedule_mode_paced Sample.registry (λ _ _, Ok []) default_flags MainSample.workflow 0 None
    step (replicate 6 step) (replicate 5 fire) NewMemoryStore).
  - apply (Forall_replicate _ 7). unfold sane. vm_compute. split; discriminate.
  - vm_compute. discriminate.
  - vm_compute. reflexivity.
Defined.
